(** * MillzMalerficarum: audio-reactive 4D visualiser

    A shallow embedding of the audio-to-visual pipeline:
    - [JS]          numbers and the [Math] functions the sources call;
    - [GLSL]        the shader built-ins used by the projection snippets;
    - [Plain]       object literals used as tables, and strings;
    - [Projection]  core/ProjectionManager.js (the three [project4Dto3D]);
    - [Registry]    the [ProjectionManager] class of the same file;
    - [Params]      the synth parameter records of sound/sound-module.js;
    - [Mapper]      [mapSoundToVisuals] and [clamp] of js/ui-interactions.js;
    - [Sound]       the [SoundModule] class (voices, arpeggiator, effect
                    routing, analysis, presets);
    - [Core]        core/HypercubeCore.js with the ShaderManager it drives;
    - [Ui]          the slider and pad mappings and [mainLoop] of
                    js/ui-interactions.js;
    - [Tally], [Settings]  observations the theorems are stated with.

    JavaScript and GLSL numbers are modelled as real numbers: rounding,
    signed zeros, NaN and the infinities are outside the model.  Where a
    source operation has no real value (a division by zero in GLSL) the
    model returns [None]. *)

From Stdlib Require Import Reals Lra Lia ZArith List String Bool Psatz.
Import ListNotations.

Local Open Scope R_scope.

(* ===================================================================== *)
(** ** JavaScript numbers and [Math] *)
(* ===================================================================== *)

Module JS.

Definition number := R.

(** The comparison operators, as booleans. *)
Definition gt (a b : number) : bool := if Rlt_dec b a then true else false.
Definition lt (a b : number) : bool := if Rlt_dec a b then true else false.
Definition le (a b : number) : bool := if Rle_dec a b then true else false.
Definition ge (a b : number) : bool := if Rle_dec b a then true else false.
Definition eqb (a b : number) : bool := if Req_dec_T a b then true else false.

(** Truthiness of a number: every number but zero. *)
Definition truthy (a : number) : bool := negb (eqb a 0).

(** [a || d] on numbers. *)
Definition or_else (a d : number) : number := if truthy a then a else d.

(** [a || d] where [a] may be [null] / [undefined]. *)
Definition opt_or_else (a : option number) (d : number) : number :=
  match a with
  | Some x => or_else x d
  | None => d
  end.

Definition Math_max (a b : number) : number := Rmax a b.
Definition Math_min (a b : number) : number := Rmin a b.
Definition Math_abs (a : number) : number := Rabs a.
Definition Math_floor (a : number) : Z := Zfloor a.

(** [y] is an integer. *)
Definition is_integer (y : number) : bool := eqb y (IZR (Zfloor y)).

(** [Math.pow] on the real line.  JavaScript has a real result when the
    exponent is zero, when the base is positive, when the base is zero
    and the exponent positive, and when the base is negative and the
    exponent an integer; [pow_defined] says so.  Elsewhere (a zero base
    with a negative exponent gives Infinity, a negative base with a
    fractional exponent NaN) the model has no value to give and returns
    0; no call in the sources reaches those arguments (see the
    [pow_defined] lemmas). *)
Definition Math_pow (x y : number) : number :=
  if eqb y 0 then 1
  else if lt 0 x then Rpower x y
  else if eqb x 0 then 0
  else if is_integer y then powerRZ x (Zfloor y)
  else 0.

Definition pow_defined (x y : number) : Prop :=
  y = 0 \/ 0 < x \/ (x = 0 /\ 0 < y) \/ (x < 0 /\ is_integer y = true).

(** [Number.prototype.toFixed(2)] read back as a number: the sign, and
    the multiple of 1/100 nearest to the magnitude, the larger one on a
    tie. *)
Definition toFixed2 (x : number) : number :=
  if lt x 0 then - (IZR (Zfloor (- x * 100 + / 2)) / 100)
  else IZR (Zfloor (x * 100 + / 2)) / 100.

End JS.

(* ===================================================================== *)
(** ** Plain objects and strings *)
(* ===================================================================== *)

(** The sources keep their tables in object literals ([{}]).  Reading a
    property of such an object finds the object's own properties and,
    behind them, the members of [Object.prototype]; [in] answers for both;
    [Object.keys] lists the own ones.  Strings are sequences of the code
    units 0 to 255. *)
Module Plain.
Local Open Scope string_scope.

(** The property names of [Object.prototype]. *)
Definition Object_prototype : list string :=
  [ "constructor"; "__defineGetter__"; "__defineSetter__"; "hasOwnProperty";
    "__lookupGetter__"; "__lookupSetter__"; "isPrototypeOf"; "propertyIsEnumerable";
    "toString"; "valueOf"; "__proto__"; "toLocaleString" ].

(** [name] is found on [Object.prototype]. *)
Definition inherited (name : string) : bool :=
  existsb (String.eqb name) Object_prototype.

(** The own properties, in the order they were created. *)
Fixpoint lookup {A} (key : string) (o : list (string * A)) : option A :=
  match o with
  | [] => None
  | (k, v) :: rest => if String.eqb k key then Some v else lookup key rest
  end.

Fixpoint assign {A} (key : string) (v : A) (o : list (string * A)) : list (string * A) :=
  match o with
  | [] => [(key, v)]
  | (k, x) :: rest =>
      if String.eqb k key then (k, v) :: rest else (k, x) :: assign key v rest
  end.

(** [String.prototype.toLowerCase]: of the code units below 256 the
    letters A to Z and the accented capitals 192 to 222 (but 215, the
    multiplication sign) have a lower-case form, 32 further on. *)
Definition lower (c : Ascii.ascii) : Ascii.ascii :=
  let n := Ascii.nat_of_ascii c in
  if (((65 <=? n) && (n <=? 90)) || ((192 <=? n) && (n <=? 222) && negb (n =? 215)))%nat
  then Ascii.ascii_of_nat (n + 32) else c.

Fixpoint toLowerCase (s : string) : string :=
  match s with
  | EmptyString => EmptyString
  | String c rest => String (lower c) (toLowerCase rest)
  end.

(** A canonical array index: the decimal numeral, without leading zeros,
    of a number below 2^32 - 1. *)
Definition digit (c : Ascii.ascii) : option N :=
  let n := Ascii.N_of_ascii c in
  if ((48 <=? n) && (n <=? 57))%N then Some (n - 48)%N else None.

Fixpoint numeral (s : string) (acc : N) : option N :=
  match s with
  | EmptyString => Some acc
  | String c rest =>
      match digit c with
      | Some d => numeral rest (10 * acc + d)%N
      | None => None
      end
  end.

Definition array_index (s : string) : option N :=
  match s with
  | EmptyString => None
  | String c rest =>
      if (Ascii.N_of_ascii c =? 48)%N && negb (String.eqb rest EmptyString) then None
      else
        match numeral s 0 with
        | Some n => if (n <? 4294967295)%N then Some n else None
        | None => None
        end
  end.

Fixpoint insert_index (n : N) (key : string) (sorted : list (N * string))
    : list (N * string) :=
  match sorted with
  | [] => [(n, key)]
  | (n', key') :: rest =>
      if (n <? n')%N then (n, key) :: sorted
      else if (n =? n')%N then sorted
      else (n', key') :: insert_index n key rest
  end.

(** [Object.keys(o)]: the array indices in ascending order, then the
    other names in the order they were created. *)
Definition keys {A} (o : list (string * A)) : list string :=
  let indices :=
    fold_left (fun sorted kv =>
                 match array_index (fst kv) with
                 | Some n => insert_index n (fst kv) sorted
                 | None => sorted
                 end) o [] in
  let names :=
    List.filter (fun k => match array_index k with Some _ => false | None => true end)
      (map fst o) in
  (map snd indices ++ names)%list.

End Plain.

(* ===================================================================== *)
(** ** GLSL built-ins used by the projection snippets *)
(* ===================================================================== *)

Module GLSL.

Record vec3 := mkvec3 { x3 : R; y3 : R; z3 : R }.
Record vec4 := mkvec4 { x4 : R; y4 : R; z4 : R; w4 : R }.

(** The swizzle [p.xyz]. *)
Definition xyz (p : vec4) : vec3 := mkvec3 (x4 p) (y4 p) (z4 p).

(** [v * k] for a vector and a scalar. *)
Definition vscale (v : vec3) (k : R) : vec3 :=
  mkvec3 (x3 v * k) (y3 v * k) (z3 v * k).

Definition max (a b : R) : R := Rmax a b.
Definition min (a b : R) : R := Rmin a b.
Definition abs (a : R) : R := Rabs a.

Definition sign (a : R) : R :=
  if Rlt_dec 0 a then 1 else if Rlt_dec a 0 then -1 else 0.

Definition clamp (a lo hi : R) : R := min (max a lo) hi.

(** [smoothstep(edge0, edge1, x)], Hermite interpolation. *)
Definition smoothstep (edge0 edge1 a : R) : R :=
  let t := clamp ((a - edge0) / (edge1 - edge0)) 0 1 in
  t * t * (3 - 2 * t).

(** [mix(x, y, a)] on scalars and, componentwise, on vectors. *)
Definition mix (a b t : R) : R := a * (1 - t) + b * t.

Definition vmix (a b : vec3) (t : R) : vec3 :=
  mkvec3 (mix (x3 a) (x3 b) t) (mix (y3 a) (y3 b) t) (mix (z3 a) (z3 b) t).

Definition length (v : vec3) : R :=
  sqrt (x3 v * x3 v + y3 v * y3 v + z3 v * z3 v).

(** [normalize(v)] divides by the length: for the zero vector this is
    0/0 and the result is not a number. *)
Definition normalize (v : vec3) : option vec3 :=
  if Req_dec_T (length v) 0 then None
  else Some (mkvec3 (x3 v / length v) (y3 v / length v) (z3 v / length v)).

End GLSL.

(* ===================================================================== *)
(** ** core/ProjectionManager.js *)
(* ===================================================================== *)

(** [getShaderCode] returns GLSL text; each module below gives the function
    [vec3 project4Dto3D(vec4 p)] that text defines, the constant the
    JavaScript template splices in included. *)
Module Projection.
Import GLSL.

(** The uniforms the snippets read. *)
Record Uniforms := { u_morphFactor : R; u_audioMid : R; u_audioHigh : R }.

Module Perspective.

Record t := { viewDistance : R }.

(** [constructor(viewDistance = 2.5)]. *)
Definition new (viewDistance : R) : t :=
  {| viewDistance := JS.Math_max 0.1 viewDistance |}.

Definition default : t := new 2.5.

(** The perspective division, for a given view distance. *)
Definition project_from (dynamicDistance : R) (p : vec4) : vec3 :=
  let denominator := dynamicDistance + w4 p in
  let w_factor := dynamicDistance / max 0.1 denominator in
  vscale (xyz p) w_factor.

Definition project4Dto3D (this : t) (u : Uniforms) (p : vec4) : vec3 :=
  let baseDistance := JS.toFixed2 (viewDistance this) in
  let dynamicDistance :=
    baseDistance * (1.0 + u_morphFactor u * 0.4 - u_audioMid u * 0.3) in
  let dynamicDistance := max 0.2 dynamicDistance in
  project_from dynamicDistance p.

End Perspective.

Module Orthographic.

(** The view distance of the perspective the snippet blends towards. *)
Definition dynamicPerspectiveDistance (u : Uniforms) : R :=
  let basePerspectiveDistance := 2.5 in
  let dynamicPerspectiveDistance :=
    basePerspectiveDistance * (1.0 - u_audioMid u * 0.4) in
  max 0.2 dynamicPerspectiveDistance.

Definition project4Dto3D (u : Uniforms) (p : vec4) : vec3 :=
  let orthoP := xyz p in
  let dynamicPerspectiveDistance := dynamicPerspectiveDistance u in
  let perspDenominator := dynamicPerspectiveDistance + w4 p in
  let persp_w_factor := dynamicPerspectiveDistance / max 0.1 perspDenominator in
  let perspP := vscale (xyz p) persp_w_factor in
  let morphT := smoothstep 0.0 1.0 (u_morphFactor u) in
  vmix orthoP perspP morphT.

End Orthographic.

Module Stereographic.

Record t := { baseProjectionPoleW : R }.

(** [constructor(projectionPoleW = -1.5)]. *)
Definition new (projectionPoleW : R) : t :=
  {| baseProjectionPoleW :=
       if JS.lt (JS.Math_abs projectionPoleW) 0.01 then -1.0
       else projectionPoleW |}.

Definition default : t := new (-1.5).

Definition epsilon : R := 0.01.

(** The pole after the audio modulation. *)
Definition dynamicPoleW (this : t) (u : Uniforms) : R :=
  let basePoleW := JS.toFixed2 (baseProjectionPoleW this) in
  let dynamicPoleW := basePoleW + u_audioHigh u * 0.3 * sign basePoleW in
  sign dynamicPoleW * max 0.1 (abs dynamicPoleW).

(** The vector computed before the blend towards orthographic. *)
Definition projectedP (this : t) (u : Uniforms) (p : vec4) : option vec3 :=
  let dynamicPoleW := dynamicPoleW this u in
  let denominator := w4 p - dynamicPoleW in
  if JS.lt (abs denominator) epsilon then
    option_map (fun n => vscale n 1000.0) (normalize (xyz p))
  else
    let scale := (- dynamicPoleW) / denominator in
    Some (vscale (xyz p) scale).

Definition project4Dto3D (this : t) (u : Uniforms) (p : vec4) : option vec3 :=
  let projectedP := projectedP this u p in
  let morphT := smoothstep 0.0 1.0 (u_morphFactor u * 0.8) in
  let orthoP := xyz p in
  option_map (fun projectedP => vmix projectedP orthoP morphT) projectedP.

End Stereographic.

End Projection.

(* ===================================================================== *)
(** ** core/ProjectionManager.js: the registry *)
(* ===================================================================== *)

Module Registry.
Import Projection Plain.
Local Open Scope string_scope.

(** The instances of [BaseProjection] the file defines. *)
Inductive Provider :=
| BaseProjection
| PerspectiveProjection (this : Perspective.t)
| OrthographicProjection
| StereographicProjection (this : Stereographic.t).

(** [projection.getShaderCode()], by the function the snippet defines;
    [None] where the call throws (the abstract base class). *)
Definition getShaderCode (projection : Provider)
    : option (Uniforms -> GLSL.vec4 -> option GLSL.vec3) :=
  match projection with
  | BaseProjection => None
  | PerspectiveProjection this =>
      Some (fun u p => Some (Perspective.project4Dto3D this u p))
  | OrthographicProjection => Some (fun u p => Some (Orthographic.project4Dto3D u p))
  | StereographicProjection this => Some (Stereographic.project4Dto3D this)
  end.

(** The own fields of an instance. *)
Definition fields (projection : Provider) : list (string * R) :=
  match projection with
  | PerspectiveProjection this => [ ("viewDistance", Perspective.viewDistance this) ]
  | StereographicProjection this =>
      [ ("baseProjectionPoleW", Stereographic.baseProjectionPoleW this) ]
  | _ => []
  end.

(** What a caller can hand to [registerProjection]: an instance of
    [BaseProjection], or anything else. *)
Inductive Candidate :=
| Instance (projection : Provider)
| Foreign.

(** [this.options] and [this.projections]: the own properties of the
    object, and the instance that an assignment to ['__proto__'] has put
    in the place of [Object.prototype], if any. *)
Record ProjectionManager :=
  { defaultProjection : string;
    projections : list (string * Provider);
    prototype : option Provider }.

(** What a read of [this.projections[key]] finds: a registered
    projection, some other truthy value (a member inherited from the
    prototype chain), or nothing ([undefined], or a falsy field). *)
Inductive Answer :=
| Projection (projection : Provider)
| Member
| Missing.

Definition read (key : string) (m : ProjectionManager) : Answer :=
  match lookup key (projections m) with
  | Some projection => Projection projection
  | None =>
      match prototype m with
      | None => if inherited key then Member else Missing
      | Some instance =>
          if String.eqb key "__proto__" then Projection instance
          else
            match lookup key (fields instance) with
            | Some x => if JS.truthy x then Member else Missing
            | None =>
                if String.eqb key "getShaderCode" || inherited key then Member
                else Missing
            end
      end
  end.

(** [registerProjection(name, projectionInstance)].  The assignment
    creates or overwrites an own property; for ['__proto__'] it replaces
    the prototype of the object instead. *)
Definition registerProjection (name : string) (projectionInstance : Candidate)
    (m : ProjectionManager) : ProjectionManager :=
  let lowerCaseName := toLowerCase name in
  match projectionInstance with
  | Foreign => m
  | Instance p =>
      if String.eqb lowerCaseName "__proto__" then
        {| defaultProjection := defaultProjection m;
           projections := projections m;
           prototype := Some p |}
      else
        {| defaultProjection := defaultProjection m;
           projections := assign lowerCaseName p (projections m);
           prototype := prototype m |}
  end.

Definition _initProjections (m : ProjectionManager) : ProjectionManager :=
  let m := registerProjection "perspective"
             (Instance (PerspectiveProjection Perspective.default)) m in
  let m := registerProjection "orthographic" (Instance OrthographicProjection) m in
  registerProjection "stereographic"
    (Instance (StereographicProjection Stereographic.default)) m.

(** [new ProjectionManager(options)]; [None] when the options do not
    name a default projection. *)
Definition new (options_defaultProjection : option string) : ProjectionManager :=
  _initProjections
    {| defaultProjection :=
         match options_defaultProjection with
         | Some name => name
         | None => "perspective"
         end;
       projections := [];
       prototype := None |}.

(** [getProjection(name)]; [None] for [name] is [null] or [undefined]. *)
Definition getProjection (name : option string) (m : ProjectionManager) : Answer :=
  let lowerCaseName :=
    match name with
    | Some n => if String.eqb n "" then defaultProjection m else toLowerCase n
    | None => defaultProjection m
    end in
  match read lowerCaseName m with
  | Missing => read (toLowerCase (defaultProjection m)) m
  | projection => projection
  end.

Definition getProjectionTypes (m : ProjectionManager) : list string :=
  keys (projections m).

End Registry.

(* ===================================================================== *)
(** ** Synth parameters (sound-module.js, [audioState.parameters]) *)
(* ===================================================================== *)

(** The structure every preset is merged into by [applyPresetAudio]: after
    the merge every key below exists. *)
Module Params.

Record Oscillator := { osc_type : string; osc_gain : R }.
Record Filter := { filter_type : string; filter_frequency : R; filter_Q : R }.
Record Envelope := { env_attack : R; env_release : R }.
Record Delay := { delay_active : bool; delay_time : R; delay_feedback : R }.
Record Reverb := { reverb_active : bool; reverb_decay : R; reverb_wet : R }.
Record Glitch := { glitch_active : bool }.
Record Arpeggiator :=
  { arp_active : bool; arp_rate : R; arp_pattern : list Z }.

Record Effects :=
  { delay : Delay; reverb : Reverb; glitch : Glitch; arpeggiator : Arpeggiator }.

Record Parameters :=
  { oscillator : Oscillator; filter : Filter; envelope : Envelope;
    effects : Effects }.

(** What [getAudioLevels] returns. *)
Record AudioLevels :=
  { bass : R; mid : R; high : R; frequency : option R }.

End Params.

(* ===================================================================== *)
(** ** The audio-to-visual mapper (ui-interactions.js) *)
(* ===================================================================== *)

Module Mapper.
Import Params.

(** The part of [uiState] the mapper reads. *)
Record UiState := { glitchEnabled : bool; xyPad_active : bool }.

Record Visuals :=
  { morphFactor : R;
    glitchIntensity : R;
    rotationSpeed : R;
    dimension : R;
    gridDensity : R;
    projectionMethod : string;
    xyPadActive : R;
    currentNoteFrequency : R }.

(** [function clamp(value, min, max)]. *)
Definition clamp (value min max : R) : R :=
  JS.Math_max min (JS.Math_min max value).

(** [function mapSoundToVisuals(soundParams, audioLevels)]; [uiState] is
    the module-level state the function closes over. *)
Definition mapSoundToVisuals (uiState : UiState) (soundParams : Parameters)
    (audioLevels : AudioLevels) : Visuals :=
  let effects := effects soundParams in
  let envelope := envelope soundParams in
  let filter := filter soundParams in
  let arp := arpeggiator effects in
  let bass := bass audioLevels in
  let mid := mid audioLevels in
  let high := high audioLevels in
  let delayActive := delay_active (delay effects) in
  let reverbActive := reverb_active (reverb effects) in
  let highFeedback := JS.gt (delay_feedback (delay effects)) 0.65 in
  let highWet := JS.gt (reverb_wet (reverb effects)) 0.75 in
  {| morphFactor :=
       clamp (0.1 + (filter_Q filter / 15.0) * 0.6
                  + (env_attack envelope / 2.0) * 0.3 + mid * 0.2) 0.0 1.0;
     glitchIntensity :=
       if glitchEnabled uiState
       then clamp (0.05 + high * 0.6 + (filter_Q filter / 10.0) * 0.3) 0.0 1.0
       else 0.0;
     rotationSpeed :=
       clamp (0.1 + mid * 0.5 + high * 0.3
                  + (if arp_active arp then arp_rate arp * 0.04 else 0)) 0.0 2.0;
     dimension :=
       clamp (3.0 + bass * 0.8 + (env_release envelope / 3.0) * 0.5) 3.0 4.0;
     gridDensity := clamp (8.0 + bass * 8.0 - mid * 2.0) 5.0 20.0;
     projectionMethod :=
       if delayActive && highFeedback then "stereographic"%string
       else if reverbActive && highWet then "perspective"%string
       else if arp_active arp then "stereographic"%string
       else "orthographic"%string;
     xyPadActive := if xyPad_active uiState then 1.0 else 0.0;
     currentNoteFrequency := JS.opt_or_else (frequency audioLevels) 440.0 |}.

(** *** The reference definition of the specification (section 4.5) *)

Module Reference.

(** [clamp(v, lo, hi)]: [v] cut to the interval from [lo] to [hi]. *)
Definition clamp (v lo hi : R) : R :=
  if Rlt_dec v lo then lo else if Rlt_dec hi v then hi else v.

Definition feedback_threshold : R := 0.65.
Definition wet_threshold : R := 0.75.

Definition morphFactor (resonance attack mid : R) : R :=
  clamp (0.1 + resonance / 15 * 0.6 + attack / 2 * 0.3 + mid * 0.2) 0 1.

Definition glitchIntensity (toggle : bool) (high resonance : R) : R :=
  if toggle then clamp (0.05 + high * 0.6 + resonance / 10 * 0.3) 0 1 else 0.

Definition rotationSpeed (mid high : R) (arpActive : bool) (rate : R) : R :=
  clamp (0.1 + mid * 0.5 + high * 0.3 + (if arpActive then rate * 0.04 else 0)) 0 2.

Definition dimension (bass release : R) : R :=
  clamp (3 + bass * 0.8 + release / 3 * 0.5) 3 4.

Definition gridDensity (bass mid : R) : R :=
  clamp (8 + bass * 8 - mid * 2) 5 20.

Inductive Choice := Stereographic | Perspective | Orthographic.

Definition name (c : Choice) : string :=
  match c with
  | Stereographic => "stereographic"
  | Perspective => "perspective"
  | Orthographic => "orthographic"
  end.

(** The priority chain, as a relation read off the specification. *)
Inductive projection_chain (delayActive : bool) (feedback : R)
    (reverbActive : bool) (wet : R) (arpActive : bool) : Choice -> Prop :=
| chain_delay :
    delayActive = true -> feedback > feedback_threshold ->
    projection_chain delayActive feedback reverbActive wet arpActive Stereographic
| chain_reverb :
    ~ (delayActive = true /\ feedback > feedback_threshold) ->
    reverbActive = true -> wet > wet_threshold ->
    projection_chain delayActive feedback reverbActive wet arpActive Perspective
| chain_arp :
    ~ (delayActive = true /\ feedback > feedback_threshold) ->
    ~ (reverbActive = true /\ wet > wet_threshold) ->
    arpActive = true ->
    projection_chain delayActive feedback reverbActive wet arpActive Stereographic
| chain_default :
    ~ (delayActive = true /\ feedback > feedback_threshold) ->
    ~ (reverbActive = true /\ wet > wet_threshold) ->
    arpActive = false ->
    projection_chain delayActive feedback reverbActive wet arpActive Orthographic.

End Reference.

End Mapper.

(* ===================================================================== *)
(** ** sound/sound-module.js *)
(* ===================================================================== *)

(** Presets as [getPresetsDefinition] writes them: every group and every
    key may be left out. *)
Module Preset.

Record Oscillator := { osc_type : option string; osc_gain : option R }.
Record Filter :=
  { filter_type : option string; filter_frequency : option R; filter_Q : option R }.
Record Envelope := { env_attack : option R; env_release : option R }.
Record Delay :=
  { delay_active : option bool; delay_time : option R; delay_feedback : option R }.
Record Reverb :=
  { reverb_active : option bool; reverb_decay : option R; reverb_wet : option R }.
Record Glitch := { glitch_active : option bool }.
Record Arpeggiator :=
  { arp_active : option bool; arp_rate : option R; arp_pattern : option (list Z) }.
Record Effects :=
  { delay : option Delay; reverb : option Reverb; glitch : option Glitch;
    arpeggiator : option Arpeggiator }.
Record t :=
  { oscillator : option Oscillator; filter : option Filter;
    envelope : option Envelope; effects : option Effects }.

(** An object with none of the groups. *)
Definition bare : t :=
  {| oscillator := None; filter := None; envelope := None; effects := None |}.

(** [x] when the key is present, else the value already there. *)
Definition over {A} (x : option A) (d : A) : A :=
  match x with Some v => v | None => d end.

End Preset.

Module Sound.
Import Params.

Definition Preset := Preset.t.

(** Identities of Web Audio nodes and of [setInterval] timers. *)
Definition Node := nat.
Definition TimerId := nat.

(** The callbacks handed to [setTimeout], with the oscillator each one
    captured. *)
Inductive Timeout :=
| SustainedCleanup (currentOsc : Node)   (* from [_stopSustainedNote] *)
| ArpCleanup (currentOsc : Node).        (* from [_stopArpeggiator] *)

(** The browser side: the audio graph, the timers, the audio context.
    AudioParam automation ([setValueAtTime], the ramps) and the
    oscillators' start and stop times act inside the nodes and are not
    part of the model; the frequency given to each oscillator is. *)
Record Browser :=
  { edges : list (Node * Node);
    intervals : list TimerId;
    timeouts : list Timeout;
    nextNode : Node;
    nextTimer : TimerId;
    oscillators : list (Node * R);
    contextRunning : bool;
    sampleRate : R }.

(** [audioState.arp]. *)
Record ArpState :=
  { active : bool;
    intervalId : option TimerId;
    rate : R;
    pattern : list Z;
    currentStep : nat;
    baseNote : option string }.

(** [this.audioState]. *)
Record AudioState :=
  { isInitialized : bool;
    isPlaying : bool;
    audioContext : bool;
    masterGain : option Node;
    analyser : option Node;
    currentOscillator : option Node;
    currentFilter : option Node;
    currentGainNode : option Node;
    activeNote : option string;
    currentNoteFrequency : option R;
    delayNode : option Node;
    delayFeedback : option Node;
    reverbNode : option Node;
    reverbGain : option Node;
    arp : ArpState;
    parameters : Parameters;
    presets : list (string * Preset);
    activePresetName : string }.

(** The module with the browser it runs in; [audioState] is [None]
    once [dispose] has run. *)
Record World := { audioState : option AudioState; browser : Browser }.

(** *** Field updates *)

Definition with_edges (v : list (Node * Node)) (r : Browser) : Browser :=
  {| edges := v; intervals := intervals r; timeouts := timeouts r;
     nextNode := nextNode r; nextTimer := nextTimer r;
     oscillators := oscillators r; contextRunning := contextRunning r;
     sampleRate := sampleRate r |}.

Definition with_intervals (v : list TimerId) (r : Browser) : Browser :=
  {| edges := edges r; intervals := v; timeouts := timeouts r;
     nextNode := nextNode r; nextTimer := nextTimer r;
     oscillators := oscillators r; contextRunning := contextRunning r;
     sampleRate := sampleRate r |}.

Definition with_timeouts (v : list Timeout) (r : Browser) : Browser :=
  {| edges := edges r; intervals := intervals r; timeouts := v;
     nextNode := nextNode r; nextTimer := nextTimer r;
     oscillators := oscillators r; contextRunning := contextRunning r;
     sampleRate := sampleRate r |}.

Definition with_nextNode (v : Node) (r : Browser) : Browser :=
  {| edges := edges r; intervals := intervals r; timeouts := timeouts r;
     nextNode := v; nextTimer := nextTimer r; oscillators := oscillators r;
     contextRunning := contextRunning r; sampleRate := sampleRate r |}.

Definition with_nextTimer (v : TimerId) (r : Browser) : Browser :=
  {| edges := edges r; intervals := intervals r; timeouts := timeouts r;
     nextNode := nextNode r; nextTimer := v; oscillators := oscillators r;
     contextRunning := contextRunning r; sampleRate := sampleRate r |}.

Definition with_oscillators (v : list (Node * R)) (r : Browser) : Browser :=
  {| edges := edges r; intervals := intervals r; timeouts := timeouts r;
     nextNode := nextNode r; nextTimer := nextTimer r; oscillators := v;
     contextRunning := contextRunning r; sampleRate := sampleRate r |}.

Definition with_active (v : bool) (r : ArpState) : ArpState :=
  {| active := v; intervalId := intervalId r; rate := rate r;
     pattern := pattern r; currentStep := currentStep r;
     baseNote := baseNote r |}.

Definition with_intervalId (v : option TimerId) (r : ArpState) : ArpState :=
  {| active := active r; intervalId := v; rate := rate r;
     pattern := pattern r; currentStep := currentStep r;
     baseNote := baseNote r |}.

Definition with_rate (v : R) (r : ArpState) : ArpState :=
  {| active := active r; intervalId := intervalId r; rate := v;
     pattern := pattern r; currentStep := currentStep r;
     baseNote := baseNote r |}.

Definition with_pattern (v : list Z) (r : ArpState) : ArpState :=
  {| active := active r; intervalId := intervalId r; rate := rate r;
     pattern := v; currentStep := currentStep r; baseNote := baseNote r |}.

Definition with_currentStep (v : nat) (r : ArpState) : ArpState :=
  {| active := active r; intervalId := intervalId r; rate := rate r;
     pattern := pattern r; currentStep := v; baseNote := baseNote r |}.

Definition with_baseNote (v : option string) (r : ArpState) : ArpState :=
  {| active := active r; intervalId := intervalId r; rate := rate r;
     pattern := pattern r; currentStep := currentStep r; baseNote := v |}.

Definition with_isInitialized (v : bool) (r : AudioState) : AudioState :=
  {| isInitialized := v; isPlaying := isPlaying r;
     audioContext := audioContext r; masterGain := masterGain r;
     analyser := analyser r; currentOscillator := currentOscillator r;
     currentFilter := currentFilter r; currentGainNode := currentGainNode r;
     activeNote := activeNote r;
     currentNoteFrequency := currentNoteFrequency r;
     delayNode := delayNode r; delayFeedback := delayFeedback r;
     reverbNode := reverbNode r; reverbGain := reverbGain r; arp := arp r;
     parameters := parameters r; presets := presets r;
     activePresetName := activePresetName r |}.

Definition with_isPlaying (v : bool) (r : AudioState) : AudioState :=
  {| isInitialized := isInitialized r; isPlaying := v;
     audioContext := audioContext r; masterGain := masterGain r;
     analyser := analyser r; currentOscillator := currentOscillator r;
     currentFilter := currentFilter r; currentGainNode := currentGainNode r;
     activeNote := activeNote r;
     currentNoteFrequency := currentNoteFrequency r;
     delayNode := delayNode r; delayFeedback := delayFeedback r;
     reverbNode := reverbNode r; reverbGain := reverbGain r; arp := arp r;
     parameters := parameters r; presets := presets r;
     activePresetName := activePresetName r |}.

Definition with_audioContext (v : bool) (r : AudioState) : AudioState :=
  {| isInitialized := isInitialized r; isPlaying := isPlaying r;
     audioContext := v; masterGain := masterGain r; analyser := analyser r;
     currentOscillator := currentOscillator r;
     currentFilter := currentFilter r; currentGainNode := currentGainNode r;
     activeNote := activeNote r;
     currentNoteFrequency := currentNoteFrequency r;
     delayNode := delayNode r; delayFeedback := delayFeedback r;
     reverbNode := reverbNode r; reverbGain := reverbGain r; arp := arp r;
     parameters := parameters r; presets := presets r;
     activePresetName := activePresetName r |}.

Definition with_masterGain (v : option Node) (r : AudioState) : AudioState :=
  {| isInitialized := isInitialized r; isPlaying := isPlaying r;
     audioContext := audioContext r; masterGain := v;
     analyser := analyser r; currentOscillator := currentOscillator r;
     currentFilter := currentFilter r; currentGainNode := currentGainNode r;
     activeNote := activeNote r;
     currentNoteFrequency := currentNoteFrequency r;
     delayNode := delayNode r; delayFeedback := delayFeedback r;
     reverbNode := reverbNode r; reverbGain := reverbGain r; arp := arp r;
     parameters := parameters r; presets := presets r;
     activePresetName := activePresetName r |}.

Definition with_analyser (v : option Node) (r : AudioState) : AudioState :=
  {| isInitialized := isInitialized r; isPlaying := isPlaying r;
     audioContext := audioContext r; masterGain := masterGain r;
     analyser := v; currentOscillator := currentOscillator r;
     currentFilter := currentFilter r; currentGainNode := currentGainNode r;
     activeNote := activeNote r;
     currentNoteFrequency := currentNoteFrequency r;
     delayNode := delayNode r; delayFeedback := delayFeedback r;
     reverbNode := reverbNode r; reverbGain := reverbGain r; arp := arp r;
     parameters := parameters r; presets := presets r;
     activePresetName := activePresetName r |}.

Definition with_currentOscillator (v : option Node) (r : AudioState) : AudioState :=
  {| isInitialized := isInitialized r; isPlaying := isPlaying r;
     audioContext := audioContext r; masterGain := masterGain r;
     analyser := analyser r; currentOscillator := v;
     currentFilter := currentFilter r; currentGainNode := currentGainNode r;
     activeNote := activeNote r;
     currentNoteFrequency := currentNoteFrequency r;
     delayNode := delayNode r; delayFeedback := delayFeedback r;
     reverbNode := reverbNode r; reverbGain := reverbGain r; arp := arp r;
     parameters := parameters r; presets := presets r;
     activePresetName := activePresetName r |}.

Definition with_currentFilter (v : option Node) (r : AudioState) : AudioState :=
  {| isInitialized := isInitialized r; isPlaying := isPlaying r;
     audioContext := audioContext r; masterGain := masterGain r;
     analyser := analyser r; currentOscillator := currentOscillator r;
     currentFilter := v; currentGainNode := currentGainNode r;
     activeNote := activeNote r;
     currentNoteFrequency := currentNoteFrequency r;
     delayNode := delayNode r; delayFeedback := delayFeedback r;
     reverbNode := reverbNode r; reverbGain := reverbGain r; arp := arp r;
     parameters := parameters r; presets := presets r;
     activePresetName := activePresetName r |}.

Definition with_currentGainNode (v : option Node) (r : AudioState) : AudioState :=
  {| isInitialized := isInitialized r; isPlaying := isPlaying r;
     audioContext := audioContext r; masterGain := masterGain r;
     analyser := analyser r; currentOscillator := currentOscillator r;
     currentFilter := currentFilter r; currentGainNode := v;
     activeNote := activeNote r;
     currentNoteFrequency := currentNoteFrequency r;
     delayNode := delayNode r; delayFeedback := delayFeedback r;
     reverbNode := reverbNode r; reverbGain := reverbGain r; arp := arp r;
     parameters := parameters r; presets := presets r;
     activePresetName := activePresetName r |}.

Definition with_activeNote (v : option string) (r : AudioState) : AudioState :=
  {| isInitialized := isInitialized r; isPlaying := isPlaying r;
     audioContext := audioContext r; masterGain := masterGain r;
     analyser := analyser r; currentOscillator := currentOscillator r;
     currentFilter := currentFilter r; currentGainNode := currentGainNode r;
     activeNote := v; currentNoteFrequency := currentNoteFrequency r;
     delayNode := delayNode r; delayFeedback := delayFeedback r;
     reverbNode := reverbNode r; reverbGain := reverbGain r; arp := arp r;
     parameters := parameters r; presets := presets r;
     activePresetName := activePresetName r |}.

Definition with_currentNoteFrequency (v : option R) (r : AudioState) : AudioState :=
  {| isInitialized := isInitialized r; isPlaying := isPlaying r;
     audioContext := audioContext r; masterGain := masterGain r;
     analyser := analyser r; currentOscillator := currentOscillator r;
     currentFilter := currentFilter r; currentGainNode := currentGainNode r;
     activeNote := activeNote r; currentNoteFrequency := v;
     delayNode := delayNode r; delayFeedback := delayFeedback r;
     reverbNode := reverbNode r; reverbGain := reverbGain r; arp := arp r;
     parameters := parameters r; presets := presets r;
     activePresetName := activePresetName r |}.

Definition with_delayNode (v : option Node) (r : AudioState) : AudioState :=
  {| isInitialized := isInitialized r; isPlaying := isPlaying r;
     audioContext := audioContext r; masterGain := masterGain r;
     analyser := analyser r; currentOscillator := currentOscillator r;
     currentFilter := currentFilter r; currentGainNode := currentGainNode r;
     activeNote := activeNote r;
     currentNoteFrequency := currentNoteFrequency r; delayNode := v;
     delayFeedback := delayFeedback r; reverbNode := reverbNode r;
     reverbGain := reverbGain r; arp := arp r; parameters := parameters r;
     presets := presets r; activePresetName := activePresetName r |}.

Definition with_delayFeedback (v : option Node) (r : AudioState) : AudioState :=
  {| isInitialized := isInitialized r; isPlaying := isPlaying r;
     audioContext := audioContext r; masterGain := masterGain r;
     analyser := analyser r; currentOscillator := currentOscillator r;
     currentFilter := currentFilter r; currentGainNode := currentGainNode r;
     activeNote := activeNote r;
     currentNoteFrequency := currentNoteFrequency r;
     delayNode := delayNode r; delayFeedback := v;
     reverbNode := reverbNode r; reverbGain := reverbGain r; arp := arp r;
     parameters := parameters r; presets := presets r;
     activePresetName := activePresetName r |}.

Definition with_reverbNode (v : option Node) (r : AudioState) : AudioState :=
  {| isInitialized := isInitialized r; isPlaying := isPlaying r;
     audioContext := audioContext r; masterGain := masterGain r;
     analyser := analyser r; currentOscillator := currentOscillator r;
     currentFilter := currentFilter r; currentGainNode := currentGainNode r;
     activeNote := activeNote r;
     currentNoteFrequency := currentNoteFrequency r;
     delayNode := delayNode r; delayFeedback := delayFeedback r;
     reverbNode := v; reverbGain := reverbGain r; arp := arp r;
     parameters := parameters r; presets := presets r;
     activePresetName := activePresetName r |}.

Definition with_reverbGain (v : option Node) (r : AudioState) : AudioState :=
  {| isInitialized := isInitialized r; isPlaying := isPlaying r;
     audioContext := audioContext r; masterGain := masterGain r;
     analyser := analyser r; currentOscillator := currentOscillator r;
     currentFilter := currentFilter r; currentGainNode := currentGainNode r;
     activeNote := activeNote r;
     currentNoteFrequency := currentNoteFrequency r;
     delayNode := delayNode r; delayFeedback := delayFeedback r;
     reverbNode := reverbNode r; reverbGain := v; arp := arp r;
     parameters := parameters r; presets := presets r;
     activePresetName := activePresetName r |}.

Definition with_arp (v : ArpState) (r : AudioState) : AudioState :=
  {| isInitialized := isInitialized r; isPlaying := isPlaying r;
     audioContext := audioContext r; masterGain := masterGain r;
     analyser := analyser r; currentOscillator := currentOscillator r;
     currentFilter := currentFilter r; currentGainNode := currentGainNode r;
     activeNote := activeNote r;
     currentNoteFrequency := currentNoteFrequency r;
     delayNode := delayNode r; delayFeedback := delayFeedback r;
     reverbNode := reverbNode r; reverbGain := reverbGain r; arp := v;
     parameters := parameters r; presets := presets r;
     activePresetName := activePresetName r |}.

Definition with_parameters (v : Parameters) (r : AudioState) : AudioState :=
  {| isInitialized := isInitialized r; isPlaying := isPlaying r;
     audioContext := audioContext r; masterGain := masterGain r;
     analyser := analyser r; currentOscillator := currentOscillator r;
     currentFilter := currentFilter r; currentGainNode := currentGainNode r;
     activeNote := activeNote r;
     currentNoteFrequency := currentNoteFrequency r;
     delayNode := delayNode r; delayFeedback := delayFeedback r;
     reverbNode := reverbNode r; reverbGain := reverbGain r; arp := arp r;
     parameters := v; presets := presets r;
     activePresetName := activePresetName r |}.

Definition with_activePresetName (v : string) (r : AudioState) : AudioState :=
  {| isInitialized := isInitialized r; isPlaying := isPlaying r;
     audioContext := audioContext r; masterGain := masterGain r;
     analyser := analyser r; currentOscillator := currentOscillator r;
     currentFilter := currentFilter r; currentGainNode := currentGainNode r;
     activeNote := activeNote r;
     currentNoteFrequency := currentNoteFrequency r;
     delayNode := delayNode r; delayFeedback := delayFeedback r;
     reverbNode := reverbNode r; reverbGain := reverbGain r; arp := arp r;
     parameters := parameters r; presets := presets r;
     activePresetName := v |}.

(** *** The audio graph and exceptions *)

Definition edge_eqb (e1 e2 : Node * Node) : bool :=
  Nat.eqb (fst e1) (fst e2) && Nat.eqb (snd e1) (snd e2).

Definition connected (src dst : Node) (b : Browser) : bool :=
  existsb (edge_eqb (src, dst)) (edges b).

(** A statement of a [try] block either completes or throws; the changes
    made before the throw stay. *)
Inductive Outcome := Normal | Thrown.

Definition Stmt := Browser -> Browser * Outcome.

Definition skip : Stmt := fun b => (b, Normal).

Definition seq (s1 s2 : Stmt) : Stmt :=
  fun b =>
    match s1 b with
    | (b1, Normal) => s2 b1
    | (b1, Thrown) => (b1, Thrown)
    end.

Notation "s1 ;; s2" := (seq s1 s2) (at level 61, right associativity).

Definition when (c : bool) (s : Stmt) : Stmt := if c then s else skip.

(** [try { s } catch(e) { }]. *)
Definition try_catch (s : Stmt) (b : Browser) : Browser := fst (s b).

(** [src.connect(dst)]; Web Audio keeps one connection between a given
    output and a given input however often it is requested. *)
Definition connect (src dst : Node) : Stmt :=
  fun b =>
    (if connected src dst b then b
     else with_edges (edges b ++ [(src, dst)]) b, Normal).

(** [src.disconnect(dst)]; Web Audio throws InvalidAccessError when there
    is no connection from [src] to [dst]. *)
Definition disconnect_from (src dst : Node) : Stmt :=
  fun b =>
    if connected src dst b
    then (with_edges
            (List.filter (fun e => negb (edge_eqb (src, dst) e)) (edges b)) b,
          Normal)
    else (b, Thrown).

(** [src.disconnect()]: every outgoing connection goes; never throws. *)
Definition disconnect (src : Node) (b : Browser) : Browser :=
  with_edges (List.filter (fun e => negb (Nat.eqb (fst e) src)) (edges b)) b.

Definition create_node (b : Browser) : Node * Browser :=
  (nextNode b, with_nextNode (S (nextNode b)) b).

(** [ac.createOscillator()] followed by
    [osc.frequency.setValueAtTime(frequency, now)]. *)
Definition create_oscillator (frequency : R) (b : Browser) : Node * Browser :=
  let (osc, b1) := create_node b in
  (osc, with_oscillators (oscillators b1 ++ [(osc, frequency)]) b1).

Definition setTimeout (callback : Timeout) (b : Browser) : Browser :=
  with_timeouts (timeouts b ++ [callback]) b.

(** [setInterval(this._arpStep.bind(this), stepTimeMs)]: the handle is a
    fresh positive number; the period is not part of the model. *)
Definition setInterval (b : Browser) : TimerId * Browser :=
  let id := S (nextTimer b) in
  (id, with_intervals (intervals b ++ [id]) (with_nextTimer id b)).

Definition clearInterval (id : TimerId) (b : Browser) : Browser :=
  with_intervals (List.filter (fun t => negb (Nat.eqb t id)) (intervals b)) b.

Definition is_some {A} (o : option A) : bool :=
  match o with Some _ => true | None => false end.

(** *** Constants of the constructor *)

Definition noteFrequencies : list (string * R) :=
  [ ("C4", 261.63); ("C#4", 277.18); ("D4", 293.66); ("D#4", 311.13);
    ("E4", 329.63); ("F4", 349.23); ("F#4", 369.99); ("G4", 392.00);
    ("G#4", 415.30); ("A4", 440.00); ("A#4", 466.16); ("B4", 493.88);
    ("C5", 523.25) ]%string.

Fixpoint lookup {A} (key : string) (o : list (string * A)) : option A :=
  match o with
  | [] => None
  | (k, v) :: rest => if String.eqb k key then Some v else lookup key rest
  end.

(** [this.noteFrequencies[note]], with the truthiness test the callers
    apply to it. *)
Definition noteFrequency (note : string) : option R :=
  match lookup note noteFrequencies with
  | Some f => if JS.truthy f then Some f else None
  | None => None
  end.

Definition semitoneRatio : R := JS.Math_pow 2 (1 / 12).

(** The methods below act on [this.audioState] and the browser. *)
Definition St := (AudioState * Browser)%type.

(** *** Voices *)

Definition _cleanupCurrentNoteNodes (s : St) : St :=
  let (a, b) := s in
  let drop (n : option Node) (b : Browser) :=
    match n with Some n => disconnect n b | None => b end in
  let b := drop (currentOscillator a) b in
  let b := drop (currentFilter a) b in
  let b := drop (currentGainNode a) b in
  (with_currentGainNode None
     (with_currentFilter None (with_currentOscillator None a)), b).

Definition _connectEffectsToNode (sourceNode : option Node) (s : St) : St :=
  let (a, b) := s in
  match sourceNode with
  | None => s
  | Some sourceNode =>
      if negb (isInitialized a) then s
      else
        let effects := effects (parameters a) in
        (a, try_catch
              ((match delayNode a with
                | Some delayNode =>
                    disconnect_from sourceNode delayNode ;;
                    when (delay_active (delay effects)) (connect sourceNode delayNode)
                | None => skip
                end) ;;
               (match reverbNode a with
                | Some reverbNode =>
                    disconnect_from sourceNode reverbNode ;;
                    when (reverb_active (reverb effects)) (connect sourceNode reverbNode)
                | None => skip
                end)) b)
  end.

(** The body shared by [_playSustainedNote] and [_playArpNote]: three new
    nodes, source to filter to envelope gain to master gain, then the
    effect sends.  [gainNode.connect(null)] throws; the result is [None]
    then, with the browser as the throw left it. *)
Definition create_voice (frequency : R) (s : St) : option (Node * Node * Node) * St :=
  let (a, b) := s in
  let (osc, b) := create_oscillator frequency b in
  let (filter, b) := create_node b in
  let (gainNode, b) := create_node b in
  let b := try_catch (connect osc filter ;; connect filter gainNode) b in
  match masterGain a with
  | None => (None, (a, b))
  | Some masterGain =>
      let b := try_catch (connect gainNode masterGain) b in
      (Some (osc, filter, gainNode), _connectEffectsToNode (Some gainNode) (a, b))
  end.

Definition store_voice (v : Node * Node * Node) (a : AudioState) : AudioState :=
  let '(osc, filter, gainNode) := v in
  with_currentGainNode (Some gainNode)
    (with_currentFilter (Some filter) (with_currentOscillator (Some osc) a)).

Definition _playSustainedNote (note : string) (s : St) : bool * St :=
  let (a, b) := s in
  match noteFrequency note with
  | None => (false, s)
  | Some frequency =>
      if negb (audioContext a) then (false, s)
      else
        match create_voice frequency s with
        | (Some v, (a, b)) =>
            (true,
             (with_currentNoteFrequency (Some frequency)
                (with_isPlaying true (store_voice v a)), b))
        | (None, s) =>
            let (a, b) := _cleanupCurrentNoteNodes s in
            (false, (with_currentNoteFrequency None (with_isPlaying false a), b))
        end
  end.

Definition _stopSustainedNote (useRelease : bool) (s : St) : St :=
  let (a, b) := s in
  match currentOscillator a, currentGainNode a with
  | Some currentOsc, Some _ =>
      if audioContext a then (a, setTimeout (SustainedCleanup currentOsc) b)
      else s
  | _, _ => s
  end.

Definition _playArpNote (frequency : R) (s : St) : St :=
  let (a, b) := s in
  if negb (JS.truthy frequency) || negb (audioContext a) then s
  else
    let s :=
      if is_some (currentOscillator a) then _cleanupCurrentNoteNodes s else s in
    match create_voice frequency s with
    | (Some v, (a, b)) =>
        (with_currentNoteFrequency (Some frequency) (store_voice v a), b)
    | (None, s) =>
        let (a, b) := _cleanupCurrentNoteNodes s in
        (with_currentNoteFrequency None a, b)
    end.

(** *** Arpeggiator *)

Definition _stopArpeggiator (s : St) : St :=
  let (a, b) := s in
  match intervalId (arp a) with
  | None => s
  | Some id =>
      let b := clearInterval id b in
      let a := with_arp (with_intervalId None (arp a)) a in
      match currentOscillator a, currentGainNode a with
      | Some currentOsc, Some _ =>
          if audioContext a then (a, setTimeout (ArpCleanup currentOsc) b)
          else (a, b)
      | _, _ => (a, b)
      end
  end.

(** The frequency [_arpStep] computes from the sequencer state. *)
Definition stepFrequency (baseFrequency : R) (pattern : list Z) (currentStep : nat) : R :=
  let semitoneOffset := nth (currentStep mod List.length pattern) pattern 0%Z in
  baseFrequency * JS.Math_pow semitoneRatio (IZR semitoneOffset).

Definition _arpStep (s : St) : St :=
  let (a, b) := s in
  let arp0 := arp a in
  match (if active arp0 && negb (Nat.eqb (List.length (pattern arp0)) 0)
         then match baseNote arp0 with
              | Some n => noteFrequency n
              | None => None
              end
         else None) with
  | None => _stopArpeggiator s
  | Some baseFrequency =>
      let stepFrequency :=
        stepFrequency baseFrequency (pattern arp0) (currentStep arp0) in
      let (a, b) := _playArpNote stepFrequency s in
      (with_arp (with_currentStep (S (currentStep (arp a))) (arp a)) a, b)
  end.

Definition _startArpeggiator (s : St) : St :=
  let (a, b) := s in
  if negb (isInitialized a) || is_some (intervalId (arp a)) || negb (active (arp a))
  then s
  else
    let (a, b) := _arpStep s in
    let (id, b) := setInterval b in
    (with_arp (with_intervalId (Some id) (arp a)) a, b).

(** *** Notes *)

(** [startNote(note)], from the point where [await this.initPromise] has
    returned; the promise resolves to [true] exactly when
    [_initializeAudio] has set [isInitialized]. *)
Definition startNote (note : string) (s : St) : St :=
  let (a, b) := s in
  if negb (isInitialized a) || negb (is_some (noteFrequency note)) then s
  else if negb (audioContext a) || negb (contextRunning b) then s
  else
    let a := with_activeNote (Some note) a in
    if active (arp a) then
      if negb (isPlaying a) then
        let a := with_arp (with_currentStep 0 (with_baseNote (Some note) (arp a))) a in
        let (a, b) := _startArpeggiator (a, b) in
        (with_isPlaying true a, b)
      else
        (with_arp (with_baseNote (Some note) (arp a)) a, b)
    else
      snd (_playSustainedNote note (_stopSustainedNote false (a, b))).

Definition stopNote (useRelease : bool) (s : St) : St :=
  let (a, b) := s in
  if negb (isPlaying a) then s
  else
    let (a, b) :=
      if active (arp a) && is_some (intervalId (arp a)) then _stopArpeggiator s
      else if negb (active (arp a)) && is_some (currentOscillator a)
           then _stopSustainedNote useRelease s
           else s in
    (with_activeNote None (with_isPlaying false a), b).

(** *** Parameters *)

Inductive Value :=
| VNum (x : R)
| VBool (flag : bool)
| VStr (text : string)
| VPattern (offsets : list Z).

Definition with_oscillator (v : Oscillator) (p : Parameters) : Parameters :=
  {| oscillator := v; filter := filter p; envelope := envelope p; effects := effects p |}.
Definition with_filter (v : Filter) (p : Parameters) : Parameters :=
  {| oscillator := oscillator p; filter := v; envelope := envelope p; effects := effects p |}.
Definition with_envelope (v : Envelope) (p : Parameters) : Parameters :=
  {| oscillator := oscillator p; filter := filter p; envelope := v; effects := effects p |}.
Definition with_effects (v : Effects) (p : Parameters) : Parameters :=
  {| oscillator := oscillator p; filter := filter p; envelope := envelope p; effects := v |}.
Definition with_delay (v : Delay) (e : Effects) : Effects :=
  {| delay := v; reverb := reverb e; glitch := glitch e; arpeggiator := arpeggiator e |}.
Definition with_reverb (v : Reverb) (e : Effects) : Effects :=
  {| delay := delay e; reverb := v; glitch := glitch e; arpeggiator := arpeggiator e |}.
Definition with_glitch (v : Glitch) (e : Effects) : Effects :=
  {| delay := delay e; reverb := reverb e; glitch := v; arpeggiator := arpeggiator e |}.
Definition with_arpeggiator (v : Arpeggiator) (e : Effects) : Effects :=
  {| delay := delay e; reverb := reverb e; glitch := glitch e; arpeggiator := v |}.

(** [paramGroup[name] = value] after the path [type] has been resolved:
    [None] when the path names no group.  The parameter records hold the
    keys of the default structure, each with its kind of value; an
    assignment of another key or kind is not represented and leaves the
    record as it is. *)
Definition store (type name : string) (value : Value) (p : Parameters)
    : option Parameters :=
  let e := effects p in
  match type, name, value with
  | "oscillator", "type", VStr v =>
      Some (with_oscillator {| osc_type := v; osc_gain := osc_gain (oscillator p) |} p)
  | "oscillator", "gain", VNum v =>
      Some (with_oscillator {| osc_type := osc_type (oscillator p); osc_gain := v |} p)
  | "filter", "type", VStr v =>
      Some (with_filter {| filter_type := v;
                           filter_frequency := filter_frequency (filter p);
                           filter_Q := filter_Q (filter p) |} p)
  | "filter", "frequency", VNum v =>
      Some (with_filter {| filter_type := filter_type (filter p);
                           filter_frequency := v;
                           filter_Q := filter_Q (filter p) |} p)
  | "filter", "Q", VNum v =>
      Some (with_filter {| filter_type := filter_type (filter p);
                           filter_frequency := filter_frequency (filter p);
                           filter_Q := v |} p)
  | "envelope", "attack", VNum v =>
      Some (with_envelope {| env_attack := v; env_release := env_release (envelope p) |} p)
  | "envelope", "release", VNum v =>
      Some (with_envelope {| env_attack := env_attack (envelope p); env_release := v |} p)
  | "effects.delay", "active", VBool v =>
      Some (with_effects (with_delay {| delay_active := v;
             delay_time := delay_time (delay e);
             delay_feedback := delay_feedback (delay e) |} e) p)
  | "effects.delay", "time", VNum v =>
      Some (with_effects (with_delay {| delay_active := delay_active (delay e);
             delay_time := v;
             delay_feedback := delay_feedback (delay e) |} e) p)
  | "effects.delay", "feedback", VNum v =>
      Some (with_effects (with_delay {| delay_active := delay_active (delay e);
             delay_time := delay_time (delay e);
             delay_feedback := v |} e) p)
  | "effects.reverb", "active", VBool v =>
      Some (with_effects (with_reverb {| reverb_active := v;
             reverb_decay := reverb_decay (reverb e);
             reverb_wet := reverb_wet (reverb e) |} e) p)
  | "effects.reverb", "decay", VNum v =>
      Some (with_effects (with_reverb {| reverb_active := reverb_active (reverb e);
             reverb_decay := v;
             reverb_wet := reverb_wet (reverb e) |} e) p)
  | "effects.reverb", "wet", VNum v =>
      Some (with_effects (with_reverb {| reverb_active := reverb_active (reverb e);
             reverb_decay := reverb_decay (reverb e);
             reverb_wet := v |} e) p)
  | "effects.glitch", "active", VBool v =>
      Some (with_effects (with_glitch {| glitch_active := v |} e) p)
  | "effects.arpeggiator", "active", VBool v =>
      Some (with_effects (with_arpeggiator {| arp_active := v;
             arp_rate := arp_rate (arpeggiator e);
             arp_pattern := arp_pattern (arpeggiator e) |} e) p)
  | "effects.arpeggiator", "rate", VNum v =>
      Some (with_effects (with_arpeggiator {| arp_active := arp_active (arpeggiator e);
             arp_rate := v;
             arp_pattern := arp_pattern (arpeggiator e) |} e) p)
  | "effects.arpeggiator", "pattern", VPattern v =>
      Some (with_effects (with_arpeggiator {| arp_active := arp_active (arpeggiator e);
             arp_rate := arp_rate (arpeggiator e);
             arp_pattern := v |} e) p)
  | _, _, _ =>
      if existsb (String.eqb type)
           [ "oscillator"; "filter"; "envelope"; "effects"; "effects.delay";
             "effects.reverb"; "effects.glitch"; "effects.arpeggiator" ]
      then Some p else None
  end%string.


Definition setOscillatorType (type : string) (s : St) : St :=
  let (a, b) := s in
  if existsb (String.eqb type) [ "sine"; "square"; "sawtooth"; "triangle" ]%string
  then
    let p := parameters a in
    (with_parameters
       (with_oscillator {| osc_type := type; osc_gain := osc_gain (oscillator p) |} p)
       a, b)
  else s.

Definition setFilterType (type : string) (s : St) : St :=
  let (a, b) := s in
  if existsb (String.eqb type)
       [ "lowpass"; "highpass"; "bandpass"; "notch"; "lowshelf"; "highshelf";
         "peaking"; "allpass" ]%string
  then
    let p := parameters a in
    (with_parameters
       (with_filter {| filter_type := type;
                       filter_frequency := filter_frequency (filter p);
                       filter_Q := filter_Q (filter p) |} p)
       a, b)
  else s.

(** [setParameter(type, name, value)].  Of the [switch] only the two
    arpeggiator cases change what the model holds; the others ramp an
    AudioParam or rebuild the reverb impulse. *)
Definition setParameter (type name : string) (value : Value) (s : St) : St :=
  let (a, b) := s in
  match store type name value (parameters a) with
  | None => s
  | Some p =>
      let a := with_parameters p a in
      if negb (isInitialized a) || negb (audioContext a) then (a, b)
      else
        let fullParamName := (type ++ "." ++ name)%string in
        if String.eqb fullParamName "effects.arpeggiator.rate" then
          let a :=
            match value with
            | VNum v => with_arp (with_rate v (arp a)) a
            | _ => a
            end in
          if active (arp a) && is_some (intervalId (arp a)) then
            let (a, b) := _stopArpeggiator (a, b) in
            if is_some (activeNote a) then
              let (a, b) := _startArpeggiator (a, b) in
              (with_isPlaying true a, b)
            else (a, b)
          else (a, b)
        else if String.eqb fullParamName "effects.arpeggiator.pattern" then
          match value with
          | VPattern v => (with_arp (with_pattern v (arp a)) a, b)
          | _ => (a, b)
          end
        else (a, b)
  end.

(** *** Effect toggles *)

Definition set_delay_active (v : bool) (p : Parameters) : Parameters :=
  let e := effects p in
  with_effects (with_delay {| delay_active := v; delay_time := delay_time (delay e);
                              delay_feedback := delay_feedback (delay e) |} e) p.

Definition set_reverb_active (v : bool) (p : Parameters) : Parameters :=
  let e := effects p in
  with_effects (with_reverb {| reverb_active := v; reverb_decay := reverb_decay (reverb e);
                               reverb_wet := reverb_wet (reverb e) |} e) p.

Definition set_glitch_active (v : bool) (p : Parameters) : Parameters :=
  with_effects (with_glitch {| glitch_active := v |} (effects p)) p.

Definition set_arp_active (v : bool) (p : Parameters) : Parameters :=
  let e := effects p in
  with_effects (with_arpeggiator {| arp_active := v; arp_rate := arp_rate (arpeggiator e);
                                    arp_pattern := arp_pattern (arpeggiator e) |} e) p.

(** The branch of [toggleEffect] for the arpeggiator, once the flag in
    the parameters has been set. *)
Definition toggle_arpeggiator (newState : bool) (s : St) : St :=
  let (a, b) := s in
  let a := with_arp (with_active newState (arp a)) a in
  if newState then
    match activeNote a with
    | Some note =>
        if is_some (intervalId (arp a)) then (a, b)
        else
          let (a, b) := _stopSustainedNote false (a, b) in
          let a := with_arp (with_currentStep 0 (with_baseNote (Some note) (arp a))) a in
          let (a, b) := _startArpeggiator (a, b) in
          (with_isPlaying true a, b)
    | None => (a, b)
    end
  else if is_some (intervalId (arp a)) then
    let (a, b) := _stopArpeggiator (a, b) in
    match activeNote a with
    | Some note => snd (_playSustainedNote note (a, b))
    | None => (with_isPlaying false a, b)
    end
  else (a, b).

(** The branch for the other effects: the live voice is routed again. *)
Definition reroute (s : St) : St :=
  let (a, b) := s in
  if is_some (currentGainNode a) then _connectEffectsToNode (currentGainNode a) s
  else s.

(** [toggleEffect(effectName, isActive)]; the four effects of the default
    structure exist in every parameter set. *)
Definition toggleEffect (effectName : string) (isActive : bool) (s : St) : St :=
  let (a, b) := s in
  let p := parameters a in
  let e := effects p in
  if String.eqb effectName "delay" then
    if Bool.eqb (delay_active (delay e)) isActive then s
    else reroute (with_parameters (set_delay_active isActive p) a, b)
  else if String.eqb effectName "reverb" then
    if Bool.eqb (reverb_active (reverb e)) isActive then s
    else reroute (with_parameters (set_reverb_active isActive p) a, b)
  else if String.eqb effectName "glitch" then
    if Bool.eqb (glitch_active (glitch e)) isActive then s
    else reroute (with_parameters (set_glitch_active isActive p) a, b)
  else if String.eqb effectName "arpeggiator" then
    if Bool.eqb (arp_active (arpeggiator e)) isActive then s
    else toggle_arpeggiator isActive
           (with_parameters (set_arp_active isActive p) a, b)
  else s.

(** [_applyCurrentToggleStates]: the keys of [effects] in the order of
    the default structure. *)
Definition _applyCurrentToggleStates (s : St) : St :=
  let current (s : St) := effects (parameters (fst s)) in
  let s := toggleEffect "delay" (delay_active (delay (current s))) s in
  let s := toggleEffect "reverb" (reverb_active (reverb (current s))) s in
  let s := toggleEffect "glitch" (glitch_active (glitch (current s))) s in
  toggleEffect "arpeggiator" (arp_active (arpeggiator (current s))) s.


(** *** Presets *)

Definition defaultStructure : Parameters :=
  {| oscillator := {| osc_type := "sawtooth"; osc_gain := 0.5 |};
     filter := {| filter_type := "lowpass"; filter_frequency := 1500; filter_Q := 1.0 |};
     envelope := {| env_attack := 0.05; env_release := 0.5 |};
     effects :=
       {| delay := {| delay_active := false; delay_time := 0.3; delay_feedback := 0.3 |};
          reverb := {| reverb_active := false; reverb_decay := 1.5; reverb_wet := 0.3 |};
          glitch := {| glitch_active := false |};
          arpeggiator :=
            {| arp_active := false; arp_rate := 8; arp_pattern := [0; 7; 12]%Z |} |} |}.

(** A complete structure, read as a preset. *)
Definition as_preset (p : Parameters) : Preset :=
  let e := effects p in
  {| Preset.oscillator :=
       Some {| Preset.osc_type := Some (osc_type (oscillator p));
               Preset.osc_gain := Some (osc_gain (oscillator p)) |};
     Preset.filter :=
       Some {| Preset.filter_type := Some (filter_type (filter p));
               Preset.filter_frequency := Some (filter_frequency (filter p));
               Preset.filter_Q := Some (filter_Q (filter p)) |};
     Preset.envelope :=
       Some {| Preset.env_attack := Some (env_attack (envelope p));
               Preset.env_release := Some (env_release (envelope p)) |};
     Preset.effects :=
       Some {| Preset.delay :=
                 Some {| Preset.delay_active := Some (delay_active (delay e));
                         Preset.delay_time := Some (delay_time (delay e));
                         Preset.delay_feedback := Some (delay_feedback (delay e)) |};
               Preset.reverb :=
                 Some {| Preset.reverb_active := Some (reverb_active (reverb e));
                         Preset.reverb_decay := Some (reverb_decay (reverb e));
                         Preset.reverb_wet := Some (reverb_wet (reverb e)) |};
               Preset.glitch :=
                 Some {| Preset.glitch_active := Some (glitch_active (glitch e)) |};
               Preset.arpeggiator :=
                 Some {| Preset.arp_active := Some (arp_active (arpeggiator e));
                         Preset.arp_rate := Some (arp_rate (arpeggiator e));
                         Preset.arp_pattern := Some (arp_pattern (arpeggiator e)) |} |} |}.

Definition mk_preset (ty : string) (gain : R) (ftype : option string) (freq q : R)
    (attack release : R) (d : Preset.Delay) (r : Preset.Reverb)
    (g : option Preset.Glitch) (arpeggiator : Preset.Arpeggiator) : Preset :=
  {| Preset.oscillator :=
       Some {| Preset.osc_type := Some ty; Preset.osc_gain := Some gain |};
     Preset.filter :=
       Some {| Preset.filter_type := ftype; Preset.filter_frequency := Some freq;
               Preset.filter_Q := Some q |};
     Preset.envelope :=
       Some {| Preset.env_attack := Some attack; Preset.env_release := Some release |};
     Preset.effects :=
       Some {| Preset.delay := Some d; Preset.reverb := Some r; Preset.glitch := g;
               Preset.arpeggiator := Some arpeggiator |} |}.

Definition mk_delay (time feedback : R) : Preset.Delay :=
  {| Preset.delay_active := Some true; Preset.delay_time := Some time;
     Preset.delay_feedback := Some feedback |}.

Definition mk_reverb (decay wet : R) : Preset.Reverb :=
  {| Preset.reverb_active := Some true; Preset.reverb_decay := Some decay;
     Preset.reverb_wet := Some wet |}.

Definition getPresetsDefinition : list (string * Preset) :=
  [ ("default", as_preset defaultStructure);
    ("vaporwave",
     mk_preset "sine" 0.4 None 800 1.0 0.8 2.0
       (mk_delay 0.5 0.4) (mk_reverb 3.0 0.7) None
       {| Preset.arp_active := Some false; Preset.arp_rate := Some 4;
          Preset.arp_pattern := None |});
    ("ambient_drone",
     mk_preset "sine" 0.4 None 600 1.5 2.5 4.0
       (mk_delay 0.7 0.55) (mk_reverb 5.0 0.8) None
       {| Preset.arp_active := Some false; Preset.arp_rate := None;
          Preset.arp_pattern := None |});
    ("synthwave_lead",
     mk_preset "sawtooth" 0.6 None 1200 5.0 0.02 0.4
       (mk_delay 0.25 0.3) (mk_reverb 1.5 0.4) None
       {| Preset.arp_active := Some true; Preset.arp_rate := Some 12;
          Preset.arp_pattern := Some [0; 7; 12; 7]%Z |});
    ("grimoire_pulse",
     mk_preset "square" 0.4 (Some "bandpass") 900 6.0 0.01 0.2
       (mk_delay 0.15 0.6)
       {| Preset.reverb_active := Some false; Preset.reverb_decay := None;
          Preset.reverb_wet := None |}
       (Some {| Preset.glitch_active := Some true |})
       {| Preset.arp_active := Some true; Preset.arp_rate := Some 10;
          Preset.arp_pattern := Some [0; 3; 7; 10]%Z |}) ]%string.

(** The merge of [applyPresetAudio]: a copy of the default structure,
    with [Object.assign] group by group. *)
Definition merge (d : Parameters) (preset : Preset) : Parameters :=
  let over {A} (x : option A) (v : A) := Preset.over x v in
  let e := effects d in
  {| oscillator :=
       match Preset.oscillator preset with
       | Some o => {| osc_type := over (Preset.osc_type o) (osc_type (oscillator d));
                      osc_gain := over (Preset.osc_gain o) (osc_gain (oscillator d)) |}
       | None => oscillator d
       end;
     filter :=
       match Preset.filter preset with
       | Some f =>
           {| filter_type := over (Preset.filter_type f) (filter_type (filter d));
              filter_frequency :=
                over (Preset.filter_frequency f) (filter_frequency (filter d));
              filter_Q := over (Preset.filter_Q f) (filter_Q (filter d)) |}
       | None => filter d
       end;
     envelope :=
       match Preset.envelope preset with
       | Some v => {| env_attack := over (Preset.env_attack v) (env_attack (envelope d));
                      env_release := over (Preset.env_release v) (env_release (envelope d)) |}
       | None => envelope d
       end;
     effects :=
       match Preset.effects preset with
       | None => e
       | Some pe =>
           {| delay :=
                match Preset.delay pe with
                | Some x =>
                    {| delay_active := over (Preset.delay_active x) (delay_active (delay e));
                       delay_time := over (Preset.delay_time x) (delay_time (delay e));
                       delay_feedback :=
                         over (Preset.delay_feedback x) (delay_feedback (delay e)) |}
                | None => delay e
                end;
              reverb :=
                match Preset.reverb pe with
                | Some x =>
                    {| reverb_active :=
                         over (Preset.reverb_active x) (reverb_active (reverb e));
                       reverb_decay := over (Preset.reverb_decay x) (reverb_decay (reverb e));
                       reverb_wet := over (Preset.reverb_wet x) (reverb_wet (reverb e)) |}
                | None => reverb e
                end;
              glitch :=
                match Preset.glitch pe with
                | Some x =>
                    {| glitch_active :=
                         over (Preset.glitch_active x) (glitch_active (glitch e)) |}
                | None => glitch e
                end;
              arpeggiator :=
                match Preset.arpeggiator pe with
                | Some x =>
                    {| arp_active := over (Preset.arp_active x) (arp_active (arpeggiator e));
                       arp_rate := over (Preset.arp_rate x) (arp_rate (arpeggiator e));
                       arp_pattern :=
                         over (Preset.arp_pattern x) (arp_pattern (arpeggiator e)) |}
                | None => arpeggiator e
                end |}
       end |}.

(** [this.audioState.presets[presetName]]: a preset of the store, or, for
    a name found on [Object.prototype], the member inherited there, which
    is truthy and has none of a preset's groups. *)
Definition presets_at (presetName : string) (a : AudioState) : option Preset :=
  match lookup presetName (presets a) with
  | Some preset => Some preset
  | None => if Plain.inherited presetName then Some Preset.bare else None
  end.

Definition applyPresetAudio (presetName : string) (s : St) : St :=
  let (a, b) := s in
  match presets_at presetName a with
  | None => s
  | Some preset =>
      let a := with_activePresetName presetName a in
      let defaultPreset := defaultStructure in
      let mergedParams := merge defaultPreset preset in
      let a := with_parameters mergedParams a in
      let arpParams := arpeggiator (effects (parameters a)) in
      let a := with_arp (with_pattern (arp_pattern arpParams)
                           (with_rate (arp_rate arpParams) (arp a))) a in
      if isInitialized a then
        let now (s : St) := parameters (fst s) in
        let s := (a, b) in
        let s := setOscillatorType (osc_type (oscillator (now s))) s in
        let s := setFilterType (filter_type (filter (now s))) s in
        let s := setParameter "filter" "frequency"
                   (VNum (filter_frequency (filter (now s)))) s in
        let s := setParameter "filter" "Q" (VNum (filter_Q (filter (now s)))) s in
        let s := setParameter "effects.delay" "time"
                   (VNum (delay_time (delay (effects (now s))))) s in
        let s := setParameter "effects.delay" "feedback"
                   (VNum (delay_feedback (delay (effects (now s))))) s in
        let s := setParameter "effects.reverb" "decay"
                   (VNum (reverb_decay (reverb (effects (now s))))) s in
        let s := setParameter "effects.reverb" "wet"
                   (VNum (reverb_wet (reverb (effects (now s))))) s in
        let s := setParameter "effects.arpeggiator" "rate" (VNum (arp_rate arpParams)) s in
        let s := setParameter "effects.arpeggiator" "pattern"
                   (VPattern (arp_pattern arpParams)) s in
        _applyCurrentToggleStates s
      else (a, b)
  end.

(** [getPresetNames()]: the keys of the preset store in insertion order,
    without ['default']; the empty list once the module is disposed. *)
Definition getPresetNames (w : World) : list string :=
  match audioState w with
  | None => []
  | Some a =>
      List.filter (fun name => negb (String.eqb name "default")) (map fst (presets a))
  end.


(** *** Audio analysis *)

Record Sums :=
  { bassSum : R; midSum : R; highSum : R;
    bassCount : R; midCount : R; highCount : R }.

Record Bands :=
  { bassEndIndex : Z; midStartIndex : Z; midEndIndex : Z;
    highStartIndex : Z; highEndIndex : Z }.

Definition bands (sampleRate : R) (bufferLength : Z) : Bands :=
  let nyquist := sampleRate / 2 in
  let bassEndFreq := 250 in
  let midEndFreq := 2000 in
  let highEndFreq := 6000 in
  let bassEndIndex :=
    Z.min (bufferLength - 1) (JS.Math_floor (bassEndFreq / nyquist * IZR bufferLength)) in
  let midStartIndex := (bassEndIndex + 1)%Z in
  let midEndIndex :=
    Z.min (bufferLength - 1) (JS.Math_floor (midEndFreq / nyquist * IZR bufferLength)) in
  let highStartIndex := (midEndIndex + 1)%Z in
  let highEndIndex :=
    Z.min (bufferLength - 1) (JS.Math_floor (highEndFreq / nyquist * IZR bufferLength)) in
  {| bassEndIndex := bassEndIndex; midStartIndex := midStartIndex;
     midEndIndex := midEndIndex; highStartIndex := highStartIndex;
     highEndIndex := highEndIndex |}.

(** One turn of the summing loop, for bin [i] holding [value]. *)
Definition sum_bin (bd : Bands) (i : Z) (value : Z) (acc : Sums) : Sums :=
  if (i <=? bassEndIndex bd)%Z then
    {| bassSum := bassSum acc + IZR value; midSum := midSum acc; highSum := highSum acc;
       bassCount := bassCount acc + 1; midCount := midCount acc;
       highCount := highCount acc |}
  else if ((midStartIndex bd <=? i) && (i <=? midEndIndex bd))%Z then
    {| bassSum := bassSum acc; midSum := midSum acc + IZR value; highSum := highSum acc;
       bassCount := bassCount acc; midCount := midCount acc + 1;
       highCount := highCount acc |}
  else if ((highStartIndex bd <=? i) && (i <=? highEndIndex bd))%Z then
    {| bassSum := bassSum acc; midSum := midSum acc; highSum := highSum acc + IZR value;
       bassCount := bassCount acc; midCount := midCount acc;
       highCount := highCount acc + 1 |}
  else acc.

(** [for (let i = 0; i < bufferLength; i++)], from bin [i] on. *)
Fixpoint sum_bins (bd : Bands) (i : Z) (dataArray : list Z) (acc : Sums) : Sums :=
  match dataArray with
  | [] => acc
  | value :: rest => sum_bins bd (i + 1) rest (sum_bin bd i value acc)
  end.

Definition zero_levels (a : AudioState) : AudioLevels :=
  {| bass := 0; mid := 0; high := 0;
     frequency := match currentNoteFrequency a with
                  | Some f => if JS.truthy f then Some f else None
                  | None => None
                  end |}.

(** [getAudioLevels()]; [dataArray] is what the analyser's
    [getByteFrequencyData] fills in, [frequencyBinCount] bytes. *)
Definition getAudioLevels (dataArray : list Z) (s : St) : AudioLevels :=
  let (a, b) := s in
  if negb (isInitialized a) || negb (is_some (analyser a)) || negb (audioContext a)
  then zero_levels a
  else
    let bufferLength := Z.of_nat (List.length dataArray) in
    let bd := bands (sampleRate b) bufferLength in
    let sums :=
      sum_bins bd 0 dataArray
        {| bassSum := 0; midSum := 0; highSum := 0;
           bassCount := 0; midCount := 0; highCount := 0 |} in
    let epsilon := 1e-6 in
    let bassAvg := (bassSum sums / (bassCount sums + epsilon)) / 255.0 in
    let midAvg := (midSum sums / (midCount sums + epsilon)) / 255.0 in
    let highAvg := (highSum sums / (highCount sums + epsilon)) / 255.0 in
    {| bass := JS.Math_min 1.0 (JS.Math_max 0.0 (JS.Math_pow bassAvg 0.8 * 1.8));
       mid := JS.Math_min 1.0 (JS.Math_max 0.0 (JS.Math_pow midAvg 0.9 * 1.4));
       high := JS.Math_min 1.0 (JS.Math_max 0.0 (JS.Math_pow highAvg 0.7 * 2.2));
       frequency := currentNoteFrequency a |}.

(** The analyser's [fftSize] is 512, so [frequencyBinCount] is 256. *)
Definition frequencyBinCount : nat := 256.

(** *** Construction, initialisation, disposal *)

Definition with_contextRunning (v : bool) (r : Browser) : Browser :=
  {| edges := edges r; intervals := intervals r; timeouts := timeouts r;
     nextNode := nextNode r; nextTimer := nextTimer r;
     oscillators := oscillators r; contextRunning := v;
     sampleRate := sampleRate r |}.

(** A page before any audio exists. *)
Definition page (sampleRate : R) : Browser :=
  {| edges := []; intervals := []; timeouts := []; nextNode := 0%nat;
     nextTimer := 0%nat;
     oscillators := []; contextRunning := false; sampleRate := sampleRate |}.

(** [new SoundModule(initialPresetName)], for a name that is a key of the
    preset store.  With any other name the constructor leaves the empty
    placeholder groups in [parameters] (or, for a name found on
    [Object.prototype], the default structure); those modules are outside
    the model and [new] is [None]. *)
Definition new (initialPresetName : string) (b : Browser) : option World :=
  match lookup initialPresetName getPresetsDefinition with
  | None => None
  | Some _ =>
      let a :=
        {| isInitialized := false; isPlaying := false; audioContext := false;
           masterGain := None; analyser := None;
           currentOscillator := None; currentFilter := None; currentGainNode := None;
           activeNote := None; currentNoteFrequency := None;
           delayNode := None; delayFeedback := None;
           reverbNode := None; reverbGain := None;
           arp := {| active := false; intervalId := None; rate := 8;
                     pattern := [0; 4; 7]%Z; currentStep := 0%nat;
                     baseNote := None |};
           parameters := defaultStructure;
           presets := getPresetsDefinition;
           activePresetName := initialPresetName |} in
      let (a, b) := applyPresetAudio initialPresetName (a, b) in
      Some {| audioState := Some a; browser := b |}
  end.

Definition _createAudioEffects (s : St) : St :=
  let (a, b) := s in
  match masterGain a with
  | None => s
  | Some master =>
      let (delayNode, b) := create_node b in
      let (delayFeedback, b) := create_node b in
      let b := try_catch (connect delayNode delayFeedback ;;
                          connect delayFeedback delayNode ;;
                          connect delayNode master) b in
      let (reverbNode, b) := create_node b in
      let (reverbGain, b) := create_node b in
      let b := try_catch (connect reverbNode reverbGain ;;
                          connect reverbGain master) b in
      (with_reverbGain (Some reverbGain)
         (with_reverbNode (Some reverbNode)
            (with_delayFeedback (Some delayFeedback)
               (with_delayNode (Some delayNode) a))), b)
  end.

(** [_initializeAudio()], where the browser provides an [AudioContext]
    and lets it run. *)
Definition _initializeAudio (s : St) : St :=
  let (a, b) := s in
  if isInitialized a then s
  else
    let a := with_audioContext true a in
    let b := with_contextRunning true b in
    let (destination, b) := create_node b in
    let (masterGain, b) := create_node b in
    let b := try_catch (connect masterGain destination) b in
    let (analyser, b) := create_node b in
    let b := try_catch (connect masterGain analyser) b in
    let a := with_analyser (Some analyser) (with_masterGain (Some masterGain) a) in
    let (a, b) := _createAudioEffects (a, b) in
    _applyCurrentToggleStates (with_isInitialized true a, b).

Definition dispose (w : World) : World :=
  match audioState w with
  | None => w
  | Some a =>
      let s := stopNote false (_stopArpeggiator (a, browser w)) in
      let (a, b) := s in
      let b :=
        if isInitialized a && audioContext a then
          let drop (n : option Node) (b : Browser) :=
            match n with Some n => disconnect n b | None => b end in
          let b := drop (masterGain a) b in
          let b := drop (analyser a) b in
          let b := drop (delayNode a) b in
          let b := drop (delayFeedback a) b in
          let b := drop (reverbNode a) b in
          let b := drop (reverbGain a) b in
          with_contextRunning false (snd (_cleanupCurrentNoteNodes (a, b)))
        else b in
      {| audioState := None; browser := b |}
  end.

(** *** The module in its page *)

(** A method called on a live module; on a disposed one every method
    below returns at its first test. *)
Definition call (f : St -> St) (w : World) : World :=
  match audioState w with
  | None => w
  | Some a => let (a, b) := f (a, browser w) in {| audioState := Some a; browser := b |}
  end.

(** A pending [setTimeout] callback runs. *)
Definition run_timeout (t : Timeout) (s : St) : St :=
  let (a, b) := s in
  match t with
  | SustainedCleanup currentOsc =>
      match currentOscillator a with
      | Some o => if Nat.eqb o currentOsc then _cleanupCurrentNoteNodes s else s
      | None => s
      end
  | ArpCleanup currentOsc =>
      match intervalId (arp a), currentOscillator a with
      | None, Some o => if Nat.eqb o currentOsc then _cleanupCurrentNoteNodes s else s
      | _, _ => s
      end
  end.

Definition take_timeout (n : nat) (b : Browser) : Browser :=
  with_timeouts (firstn n (timeouts b) ++ skipn (S n) (timeouts b)) b.

(** What can happen to the module: calls of its public methods, and the
    browser running a timer it holds. *)
Inductive Event :=
| Initialize
| StartNote (note : string)
| StopNote (useRelease : bool)
| SetParameter (type name : string) (value : Value)
| SetOscillatorType (type : string)
| SetFilterType (type : string)
| ToggleEffect (effectName : string) (isActive : bool)
| ApplyPresetAudio (presetName : string)
| Dispose
| IntervalFires (id : TimerId)
| TimeoutFires (n : nat)
| ContextState (running : bool).

Definition handle (e : Event) (w : World) : World :=
  match e with
  | Initialize => call _initializeAudio w
  | StartNote note => call (startNote note) w
  | StopNote useRelease => call (stopNote useRelease) w
  | SetParameter type name value => call (setParameter type name value) w
  | SetOscillatorType type => call (setOscillatorType type) w
  | SetFilterType type => call (setFilterType type) w
  | ToggleEffect effectName isActive => call (toggleEffect effectName isActive) w
  | ApplyPresetAudio presetName => call (applyPresetAudio presetName) w
  | Dispose => dispose w
  | IntervalFires id =>
      if existsb (Nat.eqb id) (intervals (browser w)) then call _arpStep w else w
  | TimeoutFires n =>
      match nth_error (timeouts (browser w)) n with
      | Some t =>
          let w := {| audioState := audioState w;
                      browser := take_timeout n (browser w) |} in
          call (run_timeout t) w
      | None => w
      end
  | ContextState running =>
      {| audioState := audioState w;
         browser := with_contextRunning running (browser w) |}
  end.

Inductive reachable : World -> Prop :=
| reachable_new (initialPresetName : string) (sampleRate : R) (w : World) :
    new initialPresetName (page sampleRate) = Some w -> reachable w
| reachable_step (e : Event) (w : World) :
    reachable w -> reachable (handle e w).

(** The arpeggiator's invariant: the armed step timers are exactly the
    one the handle names, none when the handle is [null]. *)
Definition timer_invariant (w : World) : Prop :=
  intervals (browser w) =
    match audioState w with
    | Some a =>
        match intervalId (arp a) with
        | Some id => [id]
        | None => []
        end
    | None => []
    end.

(** *** Properties of statements, methods and states *)

(** Statements that only edit the audio graph. *)
Definition graph_only (st : Stmt) : Prop :=
  forall b, exists es, fst (st b) = with_edges es b.

(** A method is quiet when it touches neither the sequencer state, nor
    the timers, nor the preset store. *)
Definition quiet (f : St -> St) : Prop :=
  forall s,
    arp (fst (f s)) = arp (fst s)
    /\ intervals (snd (f s)) = intervals (snd s)
    /\ presets (fst (f s)) = presets (fst s)
    /\ activePresetName (fst (f s)) = activePresetName (fst s).

(** The invariant of the sequencer, on the pair the methods work on. *)
Definition tinv (s : St) : Prop :=
  intervals (snd s) =
    match intervalId (arp (fst s)) with
    | Some id => [id]
    | None => []
    end.

(** A method is steady when it keeps the timer invariant and the preset
    store. *)
Definition steady (f : St -> St) : Prop :=
  forall s, (tinv s -> tinv (f s)) /\ presets (fst (f s)) = presets (fst s).

(** ... and kept when it names no new preset either. *)
Definition kept (f : St -> St) : Prop :=
  forall s,
    (tinv s -> tinv (f s))
    /\ presets (fst (f s)) = presets (fst s)
    /\ activePresetName (fst (f s)) = activePresetName (fst s).

(** The three facts [kept] asks for, about a change of [this.audioState]. *)
Definition untouched (a a' : AudioState) : Prop :=
  intervalId (arp a') = intervalId (arp a)
  /\ presets a' = presets a
  /\ activePresetName a' = activePresetName a.

(** The same facts, between two given states. *)
Definition keeps (s s' : St) : Prop :=
  (tinv s -> tinv s')
  /\ presets (fst s') = presets (fst s)
  /\ activePresetName (fst s') = activePresetName (fst s).

(** ... without the name of the active preset. *)
Definition holds (s s' : St) : Prop :=
  (tinv s -> tinv s') /\ presets (fst s') = presets (fst s).

(** The preset store of a live module is the one the constructor built. *)
Definition store_invariant (w : World) : Prop :=
  match audioState w with
  | Some a => presets a = getPresetsDefinition
  | None => True
  end.

(** The state a running sequence needs: the sequencer on, a pattern, a
    base note of the table, and the audio graph set up. *)
Definition sequencing (base : R) (pat : list Z) (m : Node) (a : AudioState) : Prop :=
  active (arp a) = true
  /\ pattern (arp a) = pat
  /\ (exists note, baseNote (arp a) = Some note /\ noteFrequency note = Some base)
  /\ audioContext a = true
  /\ masterGain a = Some m.

(** The frequencies given to the oscillators created so far. *)
Definition played (b : Browser) : list R := map snd (oscillators b).

(** The frequency the specification gives for step [k]. *)
Definition reference_frequency (base : R) (pat : list Z) (k : nat) : R :=
  base * powerRZ (Rpower 2 (1 / 12)) (nth (k mod List.length pat) pat 0%Z).

(** A module in the middle of a sequence on A4 with the pattern
    [0, 4, 7]. *)
Definition scenario_state : AudioState :=
  {| isInitialized := true; isPlaying := true; audioContext := true;
     masterGain := Some 1%nat; analyser := Some 2%nat;
     currentOscillator := None; currentFilter := None; currentGainNode := None;
     activeNote := Some "A4"%string; currentNoteFrequency := None;
     delayNode := Some 3%nat; delayFeedback := Some 4%nat;
     reverbNode := Some 5%nat; reverbGain := Some 6%nat;
     arp := {| active := true; intervalId := Some 1%nat; rate := 8;
               pattern := [0; 4; 7]%Z; currentStep := 0%nat;
               baseNote := Some "A4"%string |};
     parameters := defaultStructure;
     presets := getPresetsDefinition;
     activePresetName := "default" |}.

(** What the summing loop maintains on a buffer whose bins all hold [v]. *)
Definition uniform_sums (v : R) (acc : Sums) : Prop :=
  bassSum acc = v * bassCount acc
  /\ midSum acc = v * midCount acc
  /\ highSum acc = v * highCount acc.

(** The bin counts only grow. *)
Definition counts_le (acc acc' : Sums) : Prop :=
  bassCount acc <= bassCount acc'
  /\ midCount acc <= midCount acc'
  /\ highCount acc <= highCount acc'.

(** The bands follow one another and none is empty. *)
Definition ordered (bd : Bands) (bufferLength : Z) : Prop :=
  (0 <= bassEndIndex bd
   /\ midStartIndex bd = bassEndIndex bd + 1
   /\ midStartIndex bd <= midEndIndex bd
   /\ highStartIndex bd = midEndIndex bd + 1
   /\ highStartIndex bd <= highEndIndex bd
   /\ highEndIndex bd < bufferLength)%Z.

(** The live voice of a module made with the ['vaporwave'] preset,
    initialised, and playing A4. *)
Definition playing_A4 (w : World) : Prop :=
  exists w0, new "vaporwave" (page 44100) = Some w0
             /\ w = handle (StartNote "A4") (handle Initialize w0).

End Sound.

(* ===================================================================== *)
(** ** core/HypercubeCore.js, with the ShaderManager it drives *)
(* ===================================================================== *)

Module Core.

Local Unset Elimination Schemes.

(** Values held by the properties of [state] and of [newParams]. *)
Inductive Value :=
| Undefined
| Null
| Flag (b : bool)
| Num (x : R)
| Str (s : string)
| Vec (xs : list R)
| Obj (fields : list (string * Value)).

Local Set Elimination Schemes.

Fixpoint lookup {A} (key : string) (o : list (string * A)) : option A :=
  match o with
  | [] => None
  | (k, v) :: rest => if String.eqb k key then Some v else lookup key rest
  end.

Fixpoint assign {A} (key : string) (v : A) (o : list (string * A)) : list (string * A) :=
  match o with
  | [] => [(key, v)]
  | (k, x) :: rest =>
      if String.eqb k key then (k, v) :: rest else (k, x) :: assign key v rest
  end.

Definition get (key : string) (o : list (string * Value)) : Value :=
  match lookup key o with Some v => v | None => Undefined end.

Fixpoint vec_eqb (xs ys : list R) : bool :=
  match xs, ys with
  | [], [] => true
  | x :: xs, y :: ys => JS.eqb x y && vec_eqb xs ys
  | _, _ => false
  end.

(** [JSON.stringify(a) === JSON.stringify(b)]. *)
Fixpoint json_eqb (a b : Value) : bool :=
  match a, b with
  | Undefined, Undefined => true
  | Null, Null => true
  | Flag x, Flag y => Bool.eqb x y
  | Num x, Num y => JS.eqb x y
  | Str x, Str y => String.eqb x y
  | Vec xs, Vec ys => vec_eqb xs ys
  | Obj fs, Obj gs =>
      (fix fields (fs gs : list (string * Value)) : bool :=
         match fs, gs with
         | [], [] => true
         | (k, v) :: fs, (k', v') :: gs =>
             String.eqb k k' && json_eqb v v' && fields fs gs
         | _, _ => false
         end) fs gs
  | _, _ => false
  end.

(** [a !== b]: primitives by value; an array or object handed in is
    another object than the one in the state. *)
Definition strict_neq (a b : Value) : bool :=
  match a, b with
  | Undefined, Undefined => false
  | Null, Null => false
  | Flag x, Flag y => negb (Bool.eqb x y)
  | Num x, Num y => negb (JS.eqb x y)
  | Str x, Str y => negb (String.eqb x y)
  | _, _ => true
  end.

(** Truthiness of a value. *)
Definition truthy (v : Value) : bool :=
  match v with
  | Undefined | Null => false
  | Flag b => b
  | Num x => JS.truthy x
  | Str s => negb (String.eqb s EmptyString)
  | Vec _ | Obj _ => true
  end.

(** A [Set] of strings, in insertion order. *)
Definition add (name : string) (set : list string) : list string :=
  if existsb (String.eqb name) set then set else set ++ [name].

Definition delete (name : string) (set : list string) : list string :=
  List.filter (fun n => negb (String.eqb n name)) set.

Definition has (name : string) (set : list string) : bool :=
  existsb (String.eqb name) set.

(** *** State *)

(** [this.state].  The plain properties are kept by name in [props]; the
    two nested records and the engine's own bookkeeping have fields. *)
Record State :=
  { props : list (string * Value);
    audioLevels : list (string * Value);
    colorScheme : list (string * Value);
    needsShaderUpdate : bool;
    _dirtyUniforms : list string;
    isRendering : bool;
    animationFrameId : option nat;
    onRender : bool;      (* [callbacks.onRender] is installed *)
    onError : bool }.     (* [callbacks.onError] is installed *)

Definition with_props v (s : State) : State :=
  {| props := v; audioLevels := audioLevels s; colorScheme := colorScheme s;
     needsShaderUpdate := needsShaderUpdate s; _dirtyUniforms := _dirtyUniforms s;
     isRendering := isRendering s; animationFrameId := animationFrameId s;
     onRender := onRender s; onError := onError s |}.

Definition with_audioLevels v (s : State) : State :=
  {| props := props s; audioLevels := v; colorScheme := colorScheme s;
     needsShaderUpdate := needsShaderUpdate s; _dirtyUniforms := _dirtyUniforms s;
     isRendering := isRendering s; animationFrameId := animationFrameId s;
     onRender := onRender s; onError := onError s |}.

Definition with_colorScheme v (s : State) : State :=
  {| props := props s; audioLevels := audioLevels s; colorScheme := v;
     needsShaderUpdate := needsShaderUpdate s; _dirtyUniforms := _dirtyUniforms s;
     isRendering := isRendering s; animationFrameId := animationFrameId s;
     onRender := onRender s; onError := onError s |}.

Definition with_needsShaderUpdate v (s : State) : State :=
  {| props := props s; audioLevels := audioLevels s; colorScheme := colorScheme s;
     needsShaderUpdate := v; _dirtyUniforms := _dirtyUniforms s;
     isRendering := isRendering s; animationFrameId := animationFrameId s;
     onRender := onRender s; onError := onError s |}.

Definition with_dirty v (s : State) : State :=
  {| props := props s; audioLevels := audioLevels s; colorScheme := colorScheme s;
     needsShaderUpdate := needsShaderUpdate s; _dirtyUniforms := v;
     isRendering := isRendering s; animationFrameId := animationFrameId s;
     onRender := onRender s; onError := onError s |}.

Definition with_isRendering v (s : State) : State :=
  {| props := props s; audioLevels := audioLevels s; colorScheme := colorScheme s;
     needsShaderUpdate := needsShaderUpdate s; _dirtyUniforms := _dirtyUniforms s;
     isRendering := v; animationFrameId := animationFrameId s;
     onRender := onRender s; onError := onError s |}.

Definition with_animationFrameId v (s : State) : State :=
  {| props := props s; audioLevels := audioLevels s; colorScheme := colorScheme s;
     needsShaderUpdate := needsShaderUpdate s; _dirtyUniforms := _dirtyUniforms s;
     isRendering := isRendering s; animationFrameId := v;
     onRender := onRender s; onError := onError s |}.

Definition mark (name : string) (s : State) : State :=
  with_dirty (add name (_dirtyUniforms s)) s.

Definition set_prop (key : string) (v : Value) (s : State) : State :=
  with_props (assign key v (props s)) s.

(** [DEFAULT_STATE]. *)
Definition DEFAULT_STATE : State :=
  {| props :=
       [ ("startTime", Num 0); ("lastUpdateTime", Num 0); ("deltaTime", Num 0);
         ("time", Num 0.0); ("resolution", Vec [0; 0]); ("mouse", Vec [0.5; 0.5]);
         ("geometryType", Str "hypercube"); ("projectionMethod", Str "perspective");
         ("dimensions", Num 4.0); ("morphFactor", Num 0.5);
         ("rotationSpeed", Num 0.3); ("universeModifier", Num 1.0);
         ("patternIntensity", Num 1.0); ("gridDensity", Num 8.0);
         ("glitchIntensity", Num 0.0); ("plasmaSpeed", Num 0.5);
         ("plasmaScale", Num 1.0); ("moireIntensity", Num 0.0);
         ("moireScale", Num 5.0); ("currentNoteFrequency", Num 440.0);
         ("shaderProgramName", Str "maleficarumViz") ]%string;
     audioLevels := [ ("bass", Num 0); ("mid", Num 0); ("high", Num 0) ]%string;
     colorScheme :=
       [ ("primary", Vec [1.0; 0.2; 0.8]); ("secondary", Vec [0.2; 1.0; 1.0]);
         ("background", Vec [0.05; 0.0; 0.2; 1.0]) ]%string;
     needsShaderUpdate := false;
     _dirtyUniforms := [];
     isRendering := false;
     animationFrameId := None;
     onRender := false;
     onError := false |}.

(** [Object.keys(DEFAULT_STATE)], in the order of the literal. *)
Definition DEFAULT_STATE_keys : list string :=
  [ "startTime"; "lastUpdateTime"; "deltaTime"; "time"; "resolution"; "mouse";
    "geometryType"; "projectionMethod"; "dimensions"; "morphFactor";
    "rotationSpeed"; "universeModifier"; "patternIntensity"; "gridDensity";
    "glitchIntensity"; "plasmaSpeed"; "plasmaScale"; "moireIntensity";
    "moireScale"; "currentNoteFrequency"; "audioLevels"; "colorScheme";
    "needsShaderUpdate"; "_dirtyUniforms"; "isRendering"; "animationFrameId";
    "shaderProgramName"; "callbacks" ]%string.

(** [new Set(Object.keys(DEFAULT_STATE))] followed by the thirteen
    [add] calls that the constructor, [start] and [_updateShaderIfNeeded]
    all make. *)
Definition all_dirty : list string :=
  fold_left (fun set name => add name set)
    [ "u_resolution"; "u_primaryColor"; "u_secondaryColor"; "u_backgroundColor";
      "u_audioBass"; "u_audioMid"; "u_audioHigh"; "u_dimension";
      "u_currentNoteFreq"; "u_plasmaSpeed"; "u_plasmaScale"; "u_moireIntensity";
      "u_moireScale" ]%string
    (fold_left (fun set name => add name set) DEFAULT_STATE_keys []).

(** The uniforms [_setUniforms] knows how to upload: [u_time] and the
    labels of its [switch]. *)
Definition known_uniforms : list string :=
  [ "u_time"; "u_resolution"; "u_mouse"; "u_dimension"; "u_morphFactor";
    "u_rotationSpeed"; "u_universeModifier"; "u_patternIntensity"; "u_gridDensity";
    "u_glitchIntensity"; "u_plasmaSpeed"; "u_plasmaScale"; "u_moireIntensity";
    "u_moireScale"; "u_currentNoteFreq"; "u_primaryColor"; "u_secondaryColor";
    "u_backgroundColor"; "u_audioBass"; "u_audioMid"; "u_audioHigh" ]%string.

(** *** WebGL and the page *)

(** The calls made on the context that the properties below observe. *)
Inductive Call :=
| CompileShader (shaderIdentifier : string)
| LinkProgram (programName : string)
| DeleteProgram (handle : nat)
| UseProgram (handle : nat)
| Uniform (uniformName : string) (v : Value)
| Clear
| DrawArrays.

(** What the engine does not decide: whether the context is lost, whether
    a shader compiles and a program links, which uniforms and attributes a
    linked program has, the size of the canvas; and what it leaves behind:
    the calls made, the program in use, the error callbacks run, the frame
    requested, and the exceptions that have left its methods uncaught. *)
Record Page :=
  { contextLost : bool;
    compiles : string -> bool;
    links : string -> bool;
    uniform_active : string -> string -> bool;
    attribute_active : string -> string -> bool;
    clientWidth : R; clientHeight : R;
    width : R; height : R;
    calls : list Call;
    current_program : option nat;
    next_handle : nat;
    errors_reported : nat;
    frame_requested : option nat;
    next_frame : nat;
    uncaught : nat }.

Definition with_calls v (p : Page) : Page :=
  {| contextLost := contextLost p; compiles := compiles p; links := links p;
     uniform_active := uniform_active p; attribute_active := attribute_active p;
     clientWidth := clientWidth p; clientHeight := clientHeight p;
     width := width p; height := height p; calls := v;
     current_program := current_program p; next_handle := next_handle p;
     errors_reported := errors_reported p; frame_requested := frame_requested p;
     next_frame := next_frame p; uncaught := uncaught p |}.

Definition with_current_program v (p : Page) : Page :=
  {| contextLost := contextLost p; compiles := compiles p; links := links p;
     uniform_active := uniform_active p; attribute_active := attribute_active p;
     clientWidth := clientWidth p; clientHeight := clientHeight p;
     width := width p; height := height p; calls := calls p;
     current_program := v; next_handle := next_handle p;
     errors_reported := errors_reported p; frame_requested := frame_requested p;
     next_frame := next_frame p; uncaught := uncaught p |}.

Definition with_next_handle v (p : Page) : Page :=
  {| contextLost := contextLost p; compiles := compiles p; links := links p;
     uniform_active := uniform_active p; attribute_active := attribute_active p;
     clientWidth := clientWidth p; clientHeight := clientHeight p;
     width := width p; height := height p; calls := calls p;
     current_program := current_program p; next_handle := v;
     errors_reported := errors_reported p; frame_requested := frame_requested p;
     next_frame := next_frame p; uncaught := uncaught p |}.

Definition with_size (w h : R) (p : Page) : Page :=
  {| contextLost := contextLost p; compiles := compiles p; links := links p;
     uniform_active := uniform_active p; attribute_active := attribute_active p;
     clientWidth := clientWidth p; clientHeight := clientHeight p;
     width := w; height := h; calls := calls p;
     current_program := current_program p; next_handle := next_handle p;
     errors_reported := errors_reported p; frame_requested := frame_requested p;
     next_frame := next_frame p; uncaught := uncaught p |}.

Definition with_errors_reported v (p : Page) : Page :=
  {| contextLost := contextLost p; compiles := compiles p; links := links p;
     uniform_active := uniform_active p; attribute_active := attribute_active p;
     clientWidth := clientWidth p; clientHeight := clientHeight p;
     width := width p; height := height p; calls := calls p;
     current_program := current_program p; next_handle := next_handle p;
     errors_reported := v; frame_requested := frame_requested p;
     next_frame := next_frame p; uncaught := uncaught p |}.

Definition with_frame (requested : option nat) (next : nat) (p : Page) : Page :=
  {| contextLost := contextLost p; compiles := compiles p; links := links p;
     uniform_active := uniform_active p; attribute_active := attribute_active p;
     clientWidth := clientWidth p; clientHeight := clientHeight p;
     width := width p; height := height p; calls := calls p;
     current_program := current_program p; next_handle := next_handle p;
     errors_reported := errors_reported p; frame_requested := requested;
     next_frame := next; uncaught := uncaught p |}.

Definition with_uncaught v (p : Page) : Page :=
  {| contextLost := contextLost p; compiles := compiles p; links := links p;
     uniform_active := uniform_active p; attribute_active := attribute_active p;
     clientWidth := clientWidth p; clientHeight := clientHeight p;
     width := width p; height := height p; calls := calls p;
     current_program := current_program p; next_handle := next_handle p;
     errors_reported := errors_reported p; frame_requested := frame_requested p;
     next_frame := next_frame p; uncaught := v |}.

(** An exception leaves the method that runs: the method's result is the
    state at that point, with one more uncaught exception on the page. *)
Definition throw (p : Page) : Page := with_uncaught (S (uncaught p)) p.

(** The call that led from [p] to [p'] ended with an exception. *)
Definition threw (p p' : Page) : bool := negb (Nat.eqb (uncaught p') (uncaught p)).

Definition gl (c : Call) (p : Page) : Page := with_calls (calls p ++ [c]) p.

Definition requestAnimationFrame (p : Page) : nat * Page :=
  let id := S (next_frame p) in (id, with_frame (Some id) id p).

Definition cancelAnimationFrame (id : nat) (p : Page) : Page :=
  match frame_requested p with
  | Some f => if Nat.eqb f id then with_frame None (next_frame p) p else p
  | None => p
  end.

(** How many times [gl.linkProgram] has been called. *)
Definition links_made (p : Page) : nat :=
  List.length (List.filter (fun c => match c with LinkProgram _ => true | _ => false end)
                 (calls p)).

(** How many times [gl.drawArrays] has been called. *)
Definition draws_made (p : Page) : nat :=
  List.length (List.filter (fun c => match c with DrawArrays => true | _ => false end)
                 (calls p)).

(** *** ShaderManager *)

(** A linked program: its handle and the fragment shader it was linked
    from. *)
Record Program := { handle : nat; fragment : string }.

Record ShaderManager :=
  { compiledShaders : list string;
    programs : list (string * Program);
    uniformLocations : list (string * list (string * bool));
    attributeLocations : list (string * list (string * bool));
    currentProgramName : option string;
    projectionManager : Registry.ProjectionManager }.

Definition remove {A} (key : string) (o : list (string * A)) : list (string * A) :=
  List.filter (fun kv => negb (String.eqb (fst kv) key)) o.

Definition baseVertexShaderName : string := "base-vertex".

(** [_compileShader], for a source that is registered: [true] when a
    compiled shader comes back. *)
Definition _compileShader (shaderIdentifier : string) (m : ShaderManager) (p : Page)
    : bool * ShaderManager * Page :=
  if existsb (String.eqb shaderIdentifier) (compiledShaders m) then (true, m, p)
  else
    let p := gl (CompileShader shaderIdentifier) p in
    if compiles p shaderIdentifier then
      (true,
       {| compiledShaders := compiledShaders m ++ [shaderIdentifier];
          programs := programs m; uniformLocations := uniformLocations m;
          attributeLocations := attributeLocations m;
          currentProgramName := currentProgramName m;
          projectionManager := projectionManager m |}, p)
    else (false, m, p).

(** [_createProgram]: the program that carried the name is deleted with
    its caches, a new one is linked, and kept when the link succeeds.
    [gl.createProgram] is taken to return a program, as it does while the
    context is not lost. *)
Definition _createProgram (programName fragmentId : string) (m : ShaderManager) (p : Page)
    : option Program * ShaderManager * Page :=
  let '(m, p) :=
    match lookup programName (programs m) with
    | Some old =>
        ({| compiledShaders := compiledShaders m;
            programs := remove programName (programs m);
            uniformLocations := remove programName (uniformLocations m);
            attributeLocations := remove programName (attributeLocations m);
            currentProgramName := currentProgramName m;
            projectionManager := projectionManager m |},
         gl (DeleteProgram (handle old)) p)
    | None => (m, p)
    end in
  let program := {| handle := next_handle p; fragment := fragmentId |} in
  let p := with_next_handle (S (next_handle p)) p in
  let p := gl (LinkProgram programName) p in
  if links p programName then
    (Some program,
     {| compiledShaders := compiledShaders m;
        programs := assign programName program (programs m);
        uniformLocations := assign programName [] (uniformLocations m);
        attributeLocations := assign programName [] (attributeLocations m);
        currentProgramName := currentProgramName m;
        projectionManager := projectionManager m |}, p)
  else (None, m, gl (DeleteProgram (handle program)) p).

Definition name_is (o : option string) (name : string) : bool :=
  match o with Some n => String.eqb n name | None => false end.

(** [createDynamicProgram(programName, geometryTypeName,
    projectionMethodName)]: the geometry name is ignored; the projection
    manager is asked for the provider, and the provider for its code.  A
    provider that is no projection (a member of the prototype chain of the
    registry object) has no [getShaderCode], and the abstract base class
    throws in it: the exception leaves the method. *)
Definition createDynamicProgram (programName geometryTypeName projectionMethodName : string)
    (m : ShaderManager) (p : Page) : option Program * ShaderManager * Page :=
  let '(ok, m, p) := _compileShader baseVertexShaderName m p in
  if negb ok then (None, m, p)
  else
    match Registry.getProjection (Some projectionMethodName) (projectionManager m) with
    | Registry.Missing => (None, m, p)
    | Registry.Member => (None, m, throw p)
    | Registry.Projection projection =>
        match Registry.getShaderCode projection with
        | None => (None, m, throw p)
        | Some projectionGLSL =>
            let dynamicFragmentShaderIdentifier :=
              ("fragment-adapted-base-" ++ projectionMethodName)%string in
            let '(ok, m, p) := _compileShader dynamicFragmentShaderIdentifier m p in
            if negb ok then (None, m, p)
            else
              let '(program, m, p) :=
                _createProgram programName dynamicFragmentShaderIdentifier m p in
              match program with
              | None =>
                  if name_is (currentProgramName m) programName then
                    (None,
                     {| compiledShaders := compiledShaders m; programs := programs m;
                        uniformLocations := uniformLocations m;
                        attributeLocations := attributeLocations m;
                        currentProgramName := None;
                        projectionManager := projectionManager m |}, p)
                  else (None, m, p)
              | Some pr =>
                  if name_is (currentProgramName m) programName then
                    (program, m,
                     with_current_program (Some (handle pr)) (gl (UseProgram (handle pr)) p))
                  else (program, m, p)
              end
        end
    end.

Definition useProgram (programName : string) (m : ShaderManager) (p : Page)
    : ShaderManager * Page :=
  match lookup programName (programs m) with
  | Some program =>
      let p :=
        match current_program p with
        | Some h =>
            if Nat.eqb h (handle program) then p
            else with_current_program (Some (handle program))
                   (gl (UseProgram (handle program)) p)
        | None => with_current_program (Some (handle program))
                    (gl (UseProgram (handle program)) p)
        end in
      ({| compiledShaders := compiledShaders m; programs := programs m;
          uniformLocations := uniformLocations m;
          attributeLocations := attributeLocations m;
          currentProgramName := Some programName;
          projectionManager := projectionManager m |}, p)
  | None =>
      if name_is (currentProgramName m) programName then
        ({| compiledShaders := compiledShaders m; programs := programs m;
            uniformLocations := uniformLocations m;
            attributeLocations := attributeLocations m;
            currentProgramName := None;
            projectionManager := projectionManager m |}, p)
      else (m, p)
  end.

(** [getUniformLocation(name)]: [true] stands for a location, [false]
    for [null]; the answer is cached per program.  The cache is an object
    literal: for a name found on [Object.prototype] the test [name in
    cache] holds from the start, GL is not asked and the inherited member
    comes back, which is not [null]. *)
Definition getUniformLocation (name : string) (m : ShaderManager) (p : Page)
    : bool * ShaderManager :=
  match currentProgramName m with
  | None => (false, m)
  | Some current =>
      match lookup current (programs m) with
      | None => (false, m)
      | Some program =>
          let cache :=
            match lookup current (uniformLocations m) with
            | Some c => c
            | None => []
            end in
          match lookup name cache with
          | Some location => (location, m)
          | None =>
              if Plain.inherited name then (true, m)
              else
              let location := uniform_active p (fragment program) name in
              (location,
               {| compiledShaders := compiledShaders m; programs := programs m;
                  uniformLocations :=
                    assign current (assign name location cache) (uniformLocations m);
                  attributeLocations := attributeLocations m;
                  currentProgramName := currentProgramName m;
                  projectionManager := projectionManager m |})
          end
      end
  end.

Definition getAttributeLocation (name : string) (m : ShaderManager) (p : Page)
    : bool * ShaderManager :=
  match currentProgramName m with
  | None => (false, m)
  | Some current =>
      match lookup current (programs m) with
      | None => (false, m)
      | Some program =>
          let cache :=
            match lookup current (attributeLocations m) with
            | Some c => c
            | None => []
            end in
          match lookup name cache with
          | Some location => (location, m)
          | None =>
              if Plain.inherited name then (true, m)
              else
              let location := attribute_active p (fragment program) name in
              (location,
               {| compiledShaders := compiledShaders m; programs := programs m;
                  uniformLocations := uniformLocations m;
                  attributeLocations :=
                    assign current (assign name location cache) (attributeLocations m);
                  currentProgramName := currentProgramName m;
                  projectionManager := projectionManager m |})
          end
      end
  end.


(** *** HypercubeCore *)

Local Open Scope string_scope.

Record HypercubeCore :=
  { state : State;
    shaderManager : ShaderManager;
    aPositionLoc : bool;     (* a location has been found for [a_position] *)
    quadBuffer : bool }.

Definition Engine := (HypercubeCore * Page)%type.

Definition with_state v (c : HypercubeCore) : HypercubeCore :=
  {| state := v; shaderManager := shaderManager c;
     aPositionLoc := aPositionLoc c; quadBuffer := quadBuffer c |}.

Definition with_shaderManager v (c : HypercubeCore) : HypercubeCore :=
  {| state := state c; shaderManager := v;
     aPositionLoc := aPositionLoc c; quadBuffer := quadBuffer c |}.

Definition with_aPositionLoc v (c : HypercubeCore) : HypercubeCore :=
  {| state := state c; shaderManager := shaderManager c;
     aPositionLoc := v; quadBuffer := quadBuffer c |}.

(** A string property, as the template strings and calls read it. *)
Definition text (v : Value) : string :=
  match v with Str s => s | _ => ""%string end.

Definition stop (e : Engine) : Engine :=
  let (c, p) := e in
  let s := state c in
  if negb (isRendering s) then e
  else
    let p := match animationFrameId s with
             | Some id => cancelAnimationFrame id p
             | None => p
             end in
    (with_state (with_animationFrameId None (with_isRendering false s)) c, p).

(** [callbacks.onError(...)], when installed. *)
Definition report (c : HypercubeCore) (p : Page) : Page :=
  if onError (state c) then with_errors_reported (S (errors_reported p)) p else p.

(** [_updateShaderIfNeeded()]; when [createDynamicProgram] throws, the
    exception passes through: nothing after the call runs, and the
    result is [false] with the state as it is then. *)
Definition _updateShaderIfNeeded (e : Engine) : bool * Engine :=
  let (c, p) := e in
  if negb (needsShaderUpdate (state c)) then (true, e)
  else
    let programName := text (get "shaderProgramName" (props (state c))) in
    let geomName := text (get "geometryType" (props (state c))) in
    let projName := text (get "projectionMethod" (props (state c))) in
    let '(program, m, p') :=
      createDynamicProgram programName geomName projName (shaderManager c) p in
    let c := with_shaderManager m c in
    if threw p p' then (false, (c, p'))
    else
    let p := p' in
    match program with
    | None => (false, stop (c, report c p))
    | Some _ =>
        let c := with_state (with_needsShaderUpdate false (state c)) c in
        let (m, p) := useProgram programName (shaderManager c) p in
        let (location, m) := getAttributeLocation "a_position" m p in
        let c := with_aPositionLoc location (with_shaderManager m c) in
        (true, (with_state (with_dirty all_dirty (state c)) c, p))
    end.

(** The uniform a changed sub-key of a nested record dirties. *)
Definition nested_uniform (key subKey : string) : option string :=
  if String.eqb key "colorScheme" then
    if String.eqb subKey "primary" then Some "u_primaryColor"
    else if String.eqb subKey "secondary" then Some "u_secondaryColor"
    else if String.eqb subKey "background" then Some "u_backgroundColor"
    else None
  else
    if String.eqb subKey "bass" then Some "u_audioBass"
    else if String.eqb subKey "mid" then Some "u_audioMid"
    else if String.eqb subKey "high" then Some "u_audioHigh"
    else None.

(** The inner loop of [updateParameters], over the sub-keys handed in. *)
Fixpoint update_nested (key : string) (fields : list (string * Value))
    (record : list (string * Value)) (dirty : list string)
    : list (string * Value) * list string :=
  match fields with
  | [] => (record, dirty)
  | (subKey, v) :: rest =>
      match lookup subKey record with
      | Some current =>
          if negb (json_eqb current v) then
            update_nested key rest (assign subKey v record)
              (match nested_uniform key subKey with
               | Some u => add u dirty
               | None => dirty
               end)
          else update_nested key rest record dirty
      | None => update_nested key rest record dirty
      end
  end.

Definition known_pattern (key : string) : bool :=
  existsb (fun prefix => String.prefix prefix key)
    [ "plasma"; "moire"; "glitch"; "rotation"; "morph"; "grid"; "universe";
      "pattern" ]%string.

Definition uniform_of (key : string) : string :=
  if String.eqb key "currentNoteFrequency" then "u_currentNoteFreq"
  else if String.eqb key "dimensions" then "u_dimension"
  else ("u_" ++ key)%string.

(** One turn of the outer loop: the state and the local
    [shaderNeedsUpdate].  Every key of [DEFAULT_STATE] is an own property
    of the state, so the engine's bookkeeping can be assigned as well: of
    the two flags the model keeps the truthiness of what is written; a
    caller's value in the place of the dirty set, of the frame handle or
    of the callbacks leaves the states this model describes, and the
    result is [None]. *)
Definition update_key (key : string) (v : Value) (acc : State * bool)
    : option (State * bool) :=
  let (s, shaderNeedsUpdate) := acc in
  if String.eqb key "colorScheme" then
    match v with
    | Obj fields =>
        let (record, dirty) := update_nested key fields (colorScheme s) (_dirtyUniforms s) in
        Some (with_dirty dirty (with_colorScheme record s), shaderNeedsUpdate)
    | _ => Some acc
    end
  else if String.eqb key "audioLevels" then
    match v with
    | Obj fields =>
        let (record, dirty) := update_nested key fields (audioLevels s) (_dirtyUniforms s) in
        Some (with_dirty dirty (with_audioLevels record s), shaderNeedsUpdate)
    | _ => Some acc
    end
  else if String.eqb key "needsShaderUpdate" then
    Some (with_needsShaderUpdate (truthy v) s, shaderNeedsUpdate)
  else if String.eqb key "isRendering" then
    Some (with_isRendering (truthy v) s, shaderNeedsUpdate)
  else if String.eqb key "_dirtyUniforms" || String.eqb key "animationFrameId"
          || String.eqb key "callbacks" then None
  else
    match lookup key (props s) with
    | Some current =>
        if strict_neq current v then
          let s := set_prop key v s in
          let uniformName := uniform_of key in
          let s :=
            if known_pattern key then mark uniformName s
            else if String.eqb key "dimensions" || String.eqb key "currentNoteFrequency"
                 then mark uniformName s
                 else s in
          Some (s, shaderNeedsUpdate
                   || String.eqb key "geometryType" || String.eqb key "projectionMethod")
        else Some acc
    | None => Some acc
    end.

(** [updateParameters(newParams)]; [newParams] lists the properties of
    the object in the order [for ... in] visits them, and [turn] is one
    turn of that loop, skipped once a turn has left the model. *)
Definition turn (acc : option (State * bool)) (kv : string * Value)
    : option (State * bool) :=
  match acc with
  | Some acc => update_key (fst kv) (snd kv) acc
  | None => None
  end.

Definition updateParameters (newParams : list (string * Value)) (s : State)
    : option State :=
  match fold_left turn newParams (Some (s, false)) with
  | Some (s, shaderNeedsUpdate) =>
      Some (if shaderNeedsUpdate then with_needsShaderUpdate true s else s)
  | None => None
  end.

Definition _checkResize (e : Engine) : Engine :=
  let (c, p) := e in
  if negb (JS.eqb (width p) (clientWidth p)) || negb (JS.eqb (height p) (clientHeight p))
  then
    let p := with_size (clientWidth p) (clientHeight p) p in
    (with_state
       (mark "u_resolution"
          (set_prop "resolution" (Vec [width p; height p]) (state c))) c, p)
  else e.

(** The value the [switch] of [_setUniforms] uploads for a uniform; [None]
    is the branch of the default case that gives up. *)
Definition uniform_value (uniformName : string) (s : State) : option Value :=
  let prop key := Some (get key (props s)) in
  let level key := Some (get key (audioLevels s)) in
  let colour key := Some (get key (colorScheme s)) in
  if String.eqb uniformName "u_resolution" then prop "resolution"
  else if String.eqb uniformName "u_mouse" then prop "mouse"
  else if String.eqb uniformName "u_dimension" then prop "dimensions"
  else if String.eqb uniformName "u_morphFactor" then prop "morphFactor"
  else if String.eqb uniformName "u_rotationSpeed" then prop "rotationSpeed"
  else if String.eqb uniformName "u_universeModifier" then prop "universeModifier"
  else if String.eqb uniformName "u_patternIntensity" then prop "patternIntensity"
  else if String.eqb uniformName "u_gridDensity" then prop "gridDensity"
  else if String.eqb uniformName "u_glitchIntensity" then prop "glitchIntensity"
  else if String.eqb uniformName "u_plasmaSpeed" then prop "plasmaSpeed"
  else if String.eqb uniformName "u_plasmaScale" then prop "plasmaScale"
  else if String.eqb uniformName "u_moireIntensity" then prop "moireIntensity"
  else if String.eqb uniformName "u_moireScale" then prop "moireScale"
  else if String.eqb uniformName "u_currentNoteFreq" then prop "currentNoteFrequency"
  else if String.eqb uniformName "u_primaryColor" then colour "primary"
  else if String.eqb uniformName "u_secondaryColor" then colour "secondary"
  else if String.eqb uniformName "u_backgroundColor" then
    match get "background" (colorScheme s) with
    | Vec xs => Some (Vec (firstn 3 xs))
    | v => Some v
    end
  else if String.eqb uniformName "u_audioBass" then level "bass"
  else if String.eqb uniformName "u_audioMid" then level "mid"
  else if String.eqb uniformName "u_audioHigh" then level "high"
  else
    let stateKey := String.substring 2 (String.length uniformName - 2) uniformName in
    match lookup stateKey (props s) with
    | Some (Num x) => Some (Num x)
    | _ => None
    end.

(** The callback of [dirty.forEach] for one name.  Whenever a location
    comes back the name leaves the set: after the upload, in the default
    case that gives up, or in the [catch]. *)
Definition upload (uniformName : string) (e : Engine) : Engine :=
  let (c, p) := e in
  if String.eqb uniformName "u_time" then e
  else
    let (location, m) := getUniformLocation uniformName (shaderManager c) p in
    let c := with_shaderManager m c in
    if location then
      let p := match uniform_value uniformName (state c) with
               | Some v => gl (Uniform uniformName v) p
               | None => p
               end in
      (with_state (with_dirty (delete uniformName (_dirtyUniforms (state c))) (state c)) c,
       p)
    else (c, p).

Definition _setUniforms (e : Engine) : Engine :=
  let (c, p) := e in
  let programName := text (get "shaderProgramName" (props (state c))) in
  let (m, p) := useProgram programName (shaderManager c) p in
  let (timeLoc, m) := getUniformLocation "u_time" m p in
  let c := with_shaderManager m c in
  let (c, p) :=
    if timeLoc then (c, gl (Uniform "u_time" (get "time" (props (state c)))) p)
    else (with_state (mark "u_time" (state c)) c, p) in
  fold_left (fun e uniformName => upload uniformName e) (_dirtyUniforms (state c)) (c, p).

Definition number (v : Value) : R :=
  match v with Num x => x | _ => 0 end.

(** [bg[0]] can be read: [bg] is neither [undefined] nor [null]. *)
Definition indexable (v : Value) : bool :=
  match v with
  | Undefined | Null => false
  | _ => true
  end.

(** [_render(timestamp)].  Reading the clear colour off a background
    that is [null] or [undefined] throws, after the uniforms are set and
    before anything is drawn or the next frame requested. *)
Definition _render (timestamp : R) (e : Engine) : Engine :=
  let (c, p) := e in
  if negb (isRendering (state c)) then e
  else if contextLost p then
    let (c, p) := stop e in
    (c, report c p)
  else
    let s := state c in
    let s := if JS.truthy (number (get "startTime" (props s))) then s
             else set_prop "startTime" (Num timestamp) s in
    let currentTime := (timestamp - number (get "startTime" (props s))) * 0.001 in
    let s := set_prop "deltaTime" (Num (currentTime - number (get "time" (props s)))) s in
    let s := set_prop "time" (Num currentTime) s in
    let s := set_prop "lastUpdateTime" (Num timestamp) s in
    let e := _checkResize (with_state s c, p) in
    let (ready, e) :=
      if needsShaderUpdate (state (fst e)) then _updateShaderIfNeeded e
      else (true, e) in
    if negb ready then e
    else
      let (c, p) := _setUniforms e in
      if negb (indexable (get "background" (colorScheme (state c)))) then (c, throw p)
      else
      let p := gl Clear p in
      let (c, p) :=
        if quadBuffer c && aPositionLoc c then (c, gl DrawArrays p)
        else if negb (aPositionLoc c) then
          let (location, m) := getAttributeLocation "a_position" (shaderManager c) p in
          (with_aPositionLoc location (with_shaderManager m c), p)
        else (c, p) in
      let (id, p) := requestAnimationFrame p in
      (with_state (with_animationFrameId (Some id) (state c)) c, p).

(** [start()]; [now] is what [performance.now()] returns. *)
Definition start (now : R) (e : Engine) : Engine :=
  let (c, p) := e in
  if isRendering (state c) then e
  else if contextLost p then e
  else
    let s := with_isRendering true (state c) in
    let s := set_prop "startTime" (Num now) s in
    let s := set_prop "time" (Num 0) s in
    let s := set_prop "lastUpdateTime" (Num now) s in
    let s := with_dirty all_dirty s in
    let (id, p) := requestAnimationFrame p in
    (with_state (with_animationFrameId (Some id) s) c, p).

(** [new HypercubeCore(canvas, shaderManager, options)] with the default
    options but for the callbacks, a shader manager made for it with a
    [new ProjectionManager()], on a page where the quad buffer can be
    created.  The constructor catches what [_updateShaderIfNeeded] throws
    and hands it to the error callback. *)
Definition new (callbacks_onRender callbacks_onError : bool) (p : Page) : Engine :=
  let s :=
    {| props := props DEFAULT_STATE; audioLevels := audioLevels DEFAULT_STATE;
       colorScheme := colorScheme DEFAULT_STATE;
       needsShaderUpdate := true; _dirtyUniforms := all_dirty;
       isRendering := false; animationFrameId := None;
       onRender := callbacks_onRender; onError := callbacks_onError |} in
  let m :=
    {| compiledShaders := []; programs := []; uniformLocations := [];
       attributeLocations := []; currentProgramName := None;
       projectionManager := Registry.new None |} in
  let (c, p') :=
    snd (_updateShaderIfNeeded
           ({| state := s; shaderManager := m; aPositionLoc := false;
               quadBuffer := true |}, p)) in
  if threw p p' then (c, report c (with_uncaught (uncaught p) p')) else (c, p').

(** A page where every shader compiles, every program links and has
    every uniform and attribute, with a canvas of 300 by 150. *)
Definition canvas_page : Page :=
  {| contextLost := false;
     compiles := fun _ => true;
     links := fun _ => true;
     uniform_active := fun _ _ => true;
     attribute_active := fun _ _ => true;
     clientWidth := 300; clientHeight := 150;
     width := 300; height := 150;
     calls := [];
     current_program := None;
     next_handle := 1%nat;
     errors_reported := 0%nat;
     frame_requested := None;
     next_frame := 0%nat;
     uncaught := 0%nat |}.

(** *** Properties of pages and frames *)

(** What a step leaves of the page while it makes GL calls: the oracles,
    the error count, the frame request. *)
Definition same_page (p p' : Page) : Prop :=
  contextLost p' = contextLost p
  /\ compiles p' = compiles p
  /\ links p' = links p
  /\ errors_reported p' = errors_reported p
  /\ frame_requested p' = frame_requested p
  /\ next_frame p' = next_frame p.

(** 1 for a call of [gl.linkProgram]. *)
Definition is_link (c : Call) : nat :=
  match c with LinkProgram _ => 1 | _ => 0 end.

(** 1 for a call of [gl.drawArrays]. *)
Definition is_draw (c : Call) : nat :=
  match c with DrawArrays => 1 | _ => 0 end.

(** Steps that make no GL call at all. *)
Definition silent (p p' : Page) : Prop := same_page p p' /\ calls p' = calls p.

(** How many error callbacks one failure runs. *)
Definition reported (c : HypercubeCore) : nat :=
  if onError (state c) then 1%nat else 0%nat.

(** Steps of a frame that neither link, nor draw, nor touch the flags. *)
Definition idle (e e' : Engine) : Prop :=
  needsShaderUpdate (state (fst e')) = needsShaderUpdate (state (fst e))
  /\ isRendering (state (fst e')) = isRendering (state (fst e))
  /\ onError (state (fst e')) = onError (state (fst e))
  /\ quadBuffer (fst e') = quadBuffer (fst e)
  /\ links_made (snd e') = links_made (snd e)
  /\ draws_made (snd e') = draws_made (snd e)
  /\ errors_reported (snd e') = errors_reported (snd e).

(** The first part of a frame: the clock, then [_checkResize]. *)
Definition frame_head (timestamp : R) (c : HypercubeCore) (p : Page) : Engine :=
  let s := state c in
  let s := if JS.truthy (number (get "startTime" (props s))) then s
           else set_prop "startTime" (Num timestamp) s in
  let currentTime := (timestamp - number (get "startTime" (props s))) * 0.001 in
  let s := set_prop "deltaTime" (Num (currentTime - number (get "time" (props s)))) s in
  let s := set_prop "time" (Num currentTime) s in
  let s := set_prop "lastUpdateTime" (Num timestamp) s in
  _checkResize (with_state s c, p).

(** The rest of a frame, once the program is ready. *)
Definition frame_tail (e : Engine) : Engine :=
  let (c, p) := _setUniforms e in
  if negb (indexable (get "background" (colorScheme (state c)))) then (c, throw p)
  else
  let p := gl Clear p in
  let (c, p) :=
    if quadBuffer c && aPositionLoc c then (c, gl DrawArrays p)
    else if negb (aPositionLoc c) then
      let (location, m) := getAttributeLocation "a_position" (shaderManager c) p in
      (with_aPositionLoc location (with_shaderManager m c), p)
    else (c, p) in
  let (id, p) := requestAnimationFrame p in
  (with_state (with_animationFrameId (Some id) (state c)) c, p).

(** The current program exists, has every uniform asked for, and no
    [null] location is cached for it. *)
Definition resolved (m : ShaderManager) (p : Page) : Prop :=
  exists name program,
    currentProgramName m = Some name
    /\ lookup name (programs m) = Some program
    /\ (forall u, uniform_active p (fragment program) u = true)
    /\ (forall cache u,
           lookup name (uniformLocations m) = Some cache -> lookup u cache <> Some false).

End Core.

(* ===================================================================== *)
(** ** js/ui-interactions.js: control mappings and the main loop *)
(* ===================================================================== *)

Module Ui.
Local Open Scope string_scope.

Definition mapSliderToResonance (normalizedValue : R) : R :=
  JS.Math_max 0.01 (JS.Math_pow normalizedValue 2.0 * 20.0).

(** [mapXYPadToNote(xValue)]; [None] is [undefined], what indexing the
    array with a negative number gives. *)
Definition mapXYPadToNote (xValue : R) : option string :=
  let notes := [ "C4"; "C#4"; "D4"; "D#4"; "E4"; "F4"; "F#4"; "G4"; "G#4"; "A4";
                 "A#4"; "B4"; "C5" ] in
  let index := JS.Math_floor (xValue * IZR (Z.of_nat (List.length notes))) in
  let clamped := Z.min index (Z.of_nat (List.length notes) - 1) in
  if (clamped <? 0)%Z then None else nth_error notes (Z.to_nat clamped).

Definition mapXYPadToReverbWet (yValue : R) : R :=
  JS.Math_max 0 (JS.Math_min 0.9 ((1.0 - yValue) * 0.9)).

(** The object [mapSoundToVisuals] returns, as [updateParameters] walks
    it: its keys in the order they were assigned. *)
Definition visualParams (v : Mapper.Visuals) : list (string * Core.Value) :=
  [ ("morphFactor", Core.Num (Mapper.morphFactor v));
    ("glitchIntensity", Core.Num (Mapper.glitchIntensity v));
    ("rotationSpeed", Core.Num (Mapper.rotationSpeed v));
    ("dimension", Core.Num (Mapper.dimension v));
    ("gridDensity", Core.Num (Mapper.gridDensity v));
    ("projectionMethod", Core.Str (Mapper.projectionMethod v));
    ("xyPadActive", Core.Num (Mapper.xyPadActive v));
    ("currentNoteFrequency", Core.Num (Mapper.currentNoteFrequency v)) ].

(** One turn of [mainLoop] on a live sound module and engine: what it does
    to the engine's state.  [dataArray] is what the analyser reports; the
    loop's own frame request is not part of the model.  The object handed
    to [updateParameters] has none of the engine's bookkeeping keys, so
    the call always has a result. *)
Definition mainLoop (uiState : Mapper.UiState) (dataArray : list Z)
    (soundModule : Sound.St) (state : Core.State) : Core.State :=
  if negb (Sound.isInitialized (fst soundModule)) || negb (Core.isRendering state)
  then state
  else
    let levels := Sound.getAudioLevels dataArray soundModule in
    let soundParams := Sound.parameters (fst soundModule) in
    let visuals := Mapper.mapSoundToVisuals uiState soundParams levels in
    match Core.updateParameters (visualParams visuals) state with
    | Some state => state
    | None => state
    end.

End Ui.

(* ===================================================================== *)
(** ** Observations on the page, the engine and the sound module *)
(* ===================================================================== *)

Module Tally.
Import Core.
Local Open Scope string_scope.

(** How many times [gl.compileShader] has been called. *)
Definition compiles_made (p : Page) : nat :=
  List.length
    (List.filter (fun c => match c with CompileShader _ => true | _ => false end)
       (calls p)).

(** What the steps of a frame after the clock and the resize check leave
    alone: the parameters and the nested records. *)
Definition same_parameters (e e' : Engine) : Prop :=
  props (state (fst e')) = props (state (fst e))
  /\ audioLevels (state (fst e')) = audioLevels (state (fst e))
  /\ colorScheme (state (fst e')) = colorScheme (state (fst e)).

(** The values [!==] compares by value. *)
Definition primitive (v : Value) : bool :=
  match v with
  | Undefined | Null | Flag _ | Num _ | Str _ => true
  | Vec _ | Obj _ => false
  end.

(** The keys for which [updateParameters] marks a uniform dirty. *)
Definition marks (key : string) : bool :=
  known_pattern key || String.eqb key "dimensions"
  || String.eqb key "currentNoteFrequency".


(** The keys [updateParameters] treats apart from the plain parameters:
    the nested records and the engine's own bookkeeping. *)
Definition plain (key : string) : bool :=
  negb (existsb (String.eqb key)
          [ "colorScheme"; "audioLevels"; "needsShaderUpdate"; "isRendering";
            "_dirtyUniforms"; "animationFrameId"; "callbacks" ]).

End Tally.

Module Settings.
Import Params Sound.

(** What the user has set: the parameters, and the sequencer's on/off
    flag, rate and pattern. *)
Definition settings (a : AudioState) : Parameters * bool * R * list Z :=
  (parameters a, active (arp a), rate (arp a), pattern (arp a)).

(** A method that leaves the settings alone. *)
Definition tuned (f : St -> St) : Prop :=
  forall s, settings (fst (f s)) = settings (fst s).

(** A statement that leaves the connection from [g] to [m] in place. *)
Definition keeps_connection (g m : Node) (st : Stmt) : Prop :=
  forall b, connected g m b = true -> connected g m (fst (st b)) = true.

End Settings.

(* ===================================================================== *)
(** * Theorems *)
(* ===================================================================== *)

Section MapperFacts.
Import Params Mapper.

Lemma clamp_reference (v lo hi : R) :
  lo <= hi -> clamp v lo hi = Reference.clamp v lo hi.
Proof.
  intros Hle. unfold clamp, Reference.clamp, JS.Math_max, JS.Math_min.
  destruct (Rlt_dec v lo) as [Hlo | Hlo].
  - rewrite (Rmin_right hi v) by lra. apply Rmax_left; lra.
  - destruct (Rlt_dec hi v) as [Hhi | Hhi].
    + rewrite (Rmin_left hi v) by lra. apply Rmax_right; lra.
    + rewrite (Rmin_right hi v) by lra. apply Rmax_right; lra.
Qed.

Lemma gt_true (a b : R) : JS.gt a b = true <-> a > b.
Proof. unfold JS.gt. destruct (Rlt_dec b a); split; intros; try easy; lra. Qed.

Lemma gt_false (a b : R) : JS.gt a b = false <-> ~ a > b.
Proof. unfold JS.gt. destruct (Rlt_dec b a); split; intros; try easy; lra. Qed.

End MapperFacts.

(** C1: [mapSoundToVisuals] computes the five visual parameters by the
    reference formulas (each clamped to its range) and picks the projection
    by the chain: delay on and feedback above 0.65 gives stereographic,
    else reverb on and wet above 0.75 gives perspective, else a running
    arpeggiator gives stereographic, else orthographic. *)
Theorem mapSoundToVisuals_is_reference :
  forall (ui : Mapper.UiState) (sp : Params.Parameters) (al : Params.AudioLevels),
    let v := Mapper.mapSoundToVisuals ui sp al in
    let fx := Params.effects sp in
    let resonance := Params.filter_Q (Params.filter sp) in
    let arp := Params.arpeggiator fx in
    Mapper.morphFactor v =
      Mapper.Reference.morphFactor resonance
        (Params.env_attack (Params.envelope sp)) (Params.mid al)
    /\ Mapper.glitchIntensity v =
      Mapper.Reference.glitchIntensity (Mapper.glitchEnabled ui)
        (Params.high al) resonance
    /\ Mapper.rotationSpeed v =
      Mapper.Reference.rotationSpeed (Params.mid al) (Params.high al)
        (Params.arp_active arp) (Params.arp_rate arp)
    /\ Mapper.dimension v =
      Mapper.Reference.dimension (Params.bass al)
        (Params.env_release (Params.envelope sp))
    /\ Mapper.gridDensity v =
      Mapper.Reference.gridDensity (Params.bass al) (Params.mid al)
    /\ exists c,
        Mapper.Reference.projection_chain
          (Params.delay_active (Params.delay fx))
          (Params.delay_feedback (Params.delay fx))
          (Params.reverb_active (Params.reverb fx))
          (Params.reverb_wet (Params.reverb fx))
          (Params.arp_active arp) c
        /\ Mapper.projectionMethod v = Mapper.Reference.name c.
Proof.
  intros ui sp al v fx resonance arp.
  unfold v, Mapper.mapSoundToVisuals; cbn [Mapper.morphFactor Mapper.glitchIntensity
    Mapper.rotationSpeed Mapper.dimension Mapper.gridDensity Mapper.projectionMethod].
  fold fx. fold arp. fold resonance.
  repeat split.
  - unfold Mapper.Reference.morphFactor. rewrite clamp_reference by lra.
    f_equal; lra.
  - unfold Mapper.Reference.glitchIntensity. destruct (Mapper.glitchEnabled ui).
    + rewrite clamp_reference by lra. f_equal; lra.
    + lra.
  - unfold Mapper.Reference.rotationSpeed. rewrite clamp_reference by lra.
    f_equal; lra.
  - unfold Mapper.Reference.dimension. rewrite clamp_reference by lra. f_equal; lra.
  - unfold Mapper.Reference.gridDensity. rewrite clamp_reference by lra. f_equal; lra.
  - destruct (Params.delay_active (Params.delay fx)) eqn:Hd;
      destruct (JS.gt (Params.delay_feedback (Params.delay fx)) 0.65) eqn:Hf;
      cbn [andb].
    1: { exists Mapper.Reference.Stereographic. split; [|reflexivity].
         apply Mapper.Reference.chain_delay; [reflexivity|].
         apply gt_true in Hf. exact Hf. }
    all: assert (Hnd : ~ (Params.delay_active (Params.delay fx) = true /\
             Params.delay_feedback (Params.delay fx) > Mapper.Reference.feedback_threshold))
      by (unfold Mapper.Reference.feedback_threshold; rewrite Hd;
          first [ apply gt_false in Hf; tauto | intros [Hx _]; discriminate ]).
    all: rewrite Hd in Hnd.
    all: destruct (Params.reverb_active (Params.reverb fx)) eqn:Hr;
      destruct (JS.gt (Params.reverb_wet (Params.reverb fx)) 0.75) eqn:Hw;
      cbn [andb].
    all: try (exists Mapper.Reference.Perspective; split; [|reflexivity];
         apply Mapper.Reference.chain_reverb; [exact Hnd | reflexivity |];
         apply gt_true in Hw; exact Hw).
    all: assert (Hnr : ~ (Params.reverb_active (Params.reverb fx) = true /\
             Params.reverb_wet (Params.reverb fx) > Mapper.Reference.wet_threshold))
      by (unfold Mapper.Reference.wet_threshold; rewrite Hr;
          first [ apply gt_false in Hw; tauto | intros [Hx _]; discriminate ]).
    all: rewrite Hr in Hnr.
    all: destruct (Params.arp_active arp) eqn:Ha.
    all: first
      [ exists Mapper.Reference.Stereographic; split; [|reflexivity];
        apply Mapper.Reference.chain_arp; [exact Hnd | exact Hnr | reflexivity]
      | exists Mapper.Reference.Orthographic; split; [|reflexivity];
        apply Mapper.Reference.chain_default; [exact Hnd | exact Hnr | reflexivity] ].
Qed.

Section ProjectionFacts.
Import GLSL Projection.

Lemma toFixed2_hundredths (z : Z) : JS.toFixed2 (IZR z / 100) = IZR z / 100.
Proof.
  unfold JS.toFixed2, JS.lt. destruct (Rlt_dec (IZR z / 100) 0) as [Hn | Hn].
  - replace (Zfloor (- (IZR z / 100) * 100 + / 2)) with (- z)%Z.
    + rewrite opp_IZR. lra.
    + symmetry. apply Zfloor_eq. rewrite opp_IZR. lra.
  - f_equal. f_equal. apply Zfloor_eq. lra.
Qed.

Lemma smoothstep_unit (m : R) :
  0 <= m <= 1 -> smoothstep 0.0 1.0 m = m * m * (3 - 2 * m).
Proof.
  intros Hm. unfold smoothstep, clamp, max, min.
  replace ((m - 0.0) / (1.0 - 0.0)) with m by lra.
  rewrite (Rmax_left m 0) by lra. rewrite (Rmin_left m 1) by lra. reflexivity.
Qed.

Lemma smoothstep_at_0 : smoothstep 0.0 1.0 0 = 0.
Proof. rewrite smoothstep_unit; lra. Qed.

Lemma smoothstep_at_1 : smoothstep 0.0 1.0 1 = 1.
Proof. rewrite smoothstep_unit; lra. Qed.

Lemma vmix_at_0 (a b : vec3) : vmix a b 0 = a.
Proof. destruct a, b. unfold vmix, mix; cbn. f_equal; lra. Qed.

Lemma vmix_at_1 (a b : vec3) : vmix a b 1 = b.
Proof. destruct a, b. unfold vmix, mix; cbn. f_equal; lra. Qed.

(** The distance of a blend from its target shrinks with [1 - t]. *)
Lemma mix_distance (a b t : R) : mix a b t - b = (1 - t) * (a - b).
Proof. unfold mix. lra. Qed.

Lemma one_minus_smoothstep (m : R) :
  0 <= m <= 1 -> 0 <= 1 - smoothstep 0.0 1.0 m <= 3 * (1 - m).
Proof.
  intros Hm. rewrite smoothstep_unit by exact Hm.
  replace (1 - m * m * (3 - 2 * m)) with ((1 - m) * ((1 - m) * (1 + 2 * m))) by ring.
  split.
  - apply Rmult_le_pos; [lra|]. apply Rmult_le_pos; lra.
  - assert ((1 - m) * (1 + 2 * m) <= 3) by nra.
    assert (0 <= 1 - m) by lra. nra.
Qed.

Lemma length_zero : length (mkvec3 0 0 0) = 0.
Proof.
  unfold length; cbn. replace (0 * 0 + 0 * 0 + 0 * 0) with 0 by lra.
  apply sqrt_0.
Qed.

Lemma normalize_zero : normalize (mkvec3 0 0 0) = None.
Proof.
  unfold normalize. destruct (Req_dec_T (length (mkvec3 0 0 0)) 0) as [_ | Hn].
  - reflexivity.
  - exfalso. apply Hn, length_zero.
Qed.

Lemma length_positive (v : vec3) : v <> mkvec3 0 0 0 -> 0 < length v.
Proof.
  intros Hv. unfold length. apply sqrt_lt_R0.
  destruct v as [a b c]; cbn.
  destruct (Req_dec_T a 0) as [Ha | Ha];
    [destruct (Req_dec_T b 0) as [Hb | Hb];
     [destruct (Req_dec_T c 0) as [Hc | Hc]|]|].
  - subst. exfalso. apply Hv. reflexivity.
  - assert (0 < c * c) by nra. nra.
  - assert (0 < b * b) by nra. nra.
  - assert (0 < a * a) by nra. nra.
Qed.

(** Away from the origin, the stand-in for infinity has length 1000. *)
Lemma far_point_length (v n : vec3) :
  normalize v = Some n -> length (vscale n 1000.0) = 1000.
Proof.
  unfold normalize. destruct (Req_dec_T (length v) 0) as [|HL]; [discriminate|].
  intros Hn. injection Hn as <-.
  assert (HLL : length v * length v = x3 v * x3 v + y3 v * y3 v + z3 v * z3 v).
  { unfold length. apply sqrt_sqrt.
    assert (0 <= x3 v * x3 v) by nra. assert (0 <= y3 v * y3 v) by nra.
    assert (0 <= z3 v * z3 v) by nra. lra. }
  remember (length v) as L eqn:HeqL. clear HeqL.
  unfold length, vscale; cbn.
  replace 1000.0 with 1000 by lra.
  replace (x3 v / L * 1000 * (x3 v / L * 1000)
           + y3 v / L * 1000 * (y3 v / L * 1000)
           + z3 v / L * 1000 * (z3 v / L * 1000))
    with (1000 * 1000).
  - apply sqrt_square. lra.
  - symmetry.
    transitivity ((x3 v * x3 v + y3 v * y3 v + z3 v * z3 v) / (L * L) * (1000 * 1000)).
    + field. exact HL.
    + rewrite <- HLL. field. exact HL.
Qed.

Lemma toFixed2_default_pole : JS.toFixed2 (-1.5) = -1.5.
Proof.
  replace (-1.5) with (IZR (-150) / 100) by lra. apply toFixed2_hundredths.
Qed.

Lemma sign_negative (a : R) : a < 0 -> sign a = -1.
Proof.
  intros Ha. unfold sign.
  destruct (Rlt_dec 0 a); [lra|]. destruct (Rlt_dec a 0); [reflexivity | lra].
Qed.

Lemma default_pole_quiet (m mid : R) :
  Stereographic.dynamicPoleW Stereographic.default
    {| u_morphFactor := m; u_audioMid := mid; u_audioHigh := 0 |} = -1.5.
Proof.
  unfold Stereographic.dynamicPoleW, Stereographic.default, Stereographic.new.
  cbn [Stereographic.baseProjectionPoleW u_audioHigh].
  unfold JS.lt, JS.Math_abs.
  destruct (Rlt_dec (Rabs (-1.5)) 0.01) as [Habs | _].
  { exfalso. rewrite Rabs_left in Habs by lra. lra. }
  rewrite !toFixed2_default_pole.
  rewrite (sign_negative (-1.5)) by lra.
  replace (-1.5 + 0 * 0.3 * -1) with (-1.5) by lra.
  rewrite (sign_negative (-1.5)) by lra.
  unfold max, abs. rewrite Rabs_left by lra. rewrite Rmax_right by lra. lra.
Qed.

(** In the singular branch a point on the w axis has no image. *)
Lemma stereographic_axis_undefined (this : Stereographic.t) (u : Uniforms) (w : R) :
  JS.lt (abs (w - Stereographic.dynamicPoleW this u)) Stereographic.epsilon = true ->
  Stereographic.project4Dto3D this u (mkvec4 0 0 0 w) = None.
Proof.
  intros Hs. unfold Stereographic.project4Dto3D, Stereographic.projectedP.
  cbn [w4]. rewrite Hs. unfold xyz; cbn [x4 y4 z4].
  rewrite normalize_zero. reflexivity.
Qed.

End ProjectionFacts.

Section ProjectionProperties.
Import GLSL Projection.

Lemma blend_close (a b m eps K : R) :
  0 <= m <= 1 -> 0 < eps -> Rabs (a - b) <= K ->
  1 - m < eps / (3 * (K + 1)) ->
  Rabs (mix a b (smoothstep 0.0 1.0 m) - b) < eps.
Proof.
  intros Hm Heps HK Hd.
  pose proof (one_minus_smoothstep m Hm) as [HT0 HT1].
  pose proof (Rabs_pos (a - b)) as Hpos.
  rewrite mix_distance, Rabs_mult, (Rabs_right (1 - _)) by lra.
  assert (HK1 : 0 < 3 * (K + 1)) by lra.
  assert (Hlt : (1 - m) * (3 * (K + 1)) < eps).
  { apply (Rmult_lt_compat_r (3 * (K + 1))) in Hd; [|exact HK1].
    unfold Rdiv in Hd. rewrite Rmult_assoc, Rinv_l, Rmult_1_r in Hd by lra.
    exact Hd. }
  apply Rle_lt_trans with (3 * (1 - m) * K).
  - apply Rmult_le_compat; lra.
  - nra.
Qed.

(** Off the w axis the singular branch yields the far point, blended
    towards [p.xyz]. *)
Lemma stereographic_singular_off_axis
    (this : Stereographic.t) (u : Uniforms) (p : vec4) :
  JS.lt (abs (w4 p - Stereographic.dynamicPoleW this u)) Stereographic.epsilon = true ->
  xyz p <> mkvec3 0 0 0 ->
  exists far,
    length far = 1000
    /\ Stereographic.project4Dto3D this u p =
         Some (vmix far (xyz p) (smoothstep 0.0 1.0 (u_morphFactor u * 0.8))).
Proof.
  intros Hs Hp. unfold Stereographic.project4Dto3D, Stereographic.projectedP.
  rewrite Hs.
  destruct (normalize (xyz p)) as [n|] eqn:Hn.
  - exists (vscale n 1000.0). split; [|reflexivity]. eapply far_point_length, Hn.
  - exfalso. unfold normalize in Hn.
    destruct (Req_dec_T (length (xyz p)) 0) as [H0|]; [|discriminate].
    pose proof (length_positive _ Hp). lra.
Qed.

(** C6: at the pole itself ([p.xyz = 0], [p.w] equal to the pole) the
    stereographic snippet normalises the zero vector: its result is not a
    finite vector. *)
Theorem stereographic_pole_not_finite :
  let u := {| u_morphFactor := 0.5; u_audioMid := 0; u_audioHigh := 0 |} in
  let p := mkvec4 0 0 0 (-1.5) in
  abs (w4 p - Stereographic.dynamicPoleW Stereographic.default u)
    < Stereographic.epsilon
  /\ Stereographic.project4Dto3D Stereographic.default u p = None.
Proof.
  intros u p.
  assert (Hd : abs (w4 p - Stereographic.dynamicPoleW Stereographic.default u)
               < Stereographic.epsilon).
  { unfold u. rewrite default_pole_quiet. unfold p, abs, Stereographic.epsilon.
    cbn [w4]. replace (-1.5 - -1.5) with 0 by lra. rewrite Rabs_R0. lra. }
  split; [exact Hd|].
  apply stereographic_axis_undefined.
  unfold JS.lt. fold p.
  destruct (Rlt_dec _ _) as [|Hn]; [reflexivity | contradiction].
Qed.

(** C7, as the code has it: at morph 0 the orthographic snippet returns
    [p.xyz]; at morph 1 it returns, and as morph tends to 1 it converges
    to, the perspective division of the same point taken at the snippet's
    own view distance [max(0.2, 2.5 * (1 - 0.4 * u_audioMid))]. *)
Theorem orthographic_morph_endpoints :
  forall (mid high : R) (p : vec4),
    let U := fun m => {| u_morphFactor := m; u_audioMid := mid; u_audioHigh := high |} in
    let target :=
      Perspective.project_from (Orthographic.dynamicPerspectiveDistance (U 1)) p in
    Orthographic.project4Dto3D (U 0) p = xyz p
    /\ Orthographic.project4Dto3D (U 1) p = target
    /\ forall eps, 0 < eps ->
         exists delta, 0 < delta /\
           forall m, 0 <= m <= 1 -> 1 - m < delta ->
             Rabs (x3 (Orthographic.project4Dto3D (U m) p) - x3 target) < eps
             /\ Rabs (y3 (Orthographic.project4Dto3D (U m) p) - y3 target) < eps
             /\ Rabs (z3 (Orthographic.project4Dto3D (U m) p) - z3 target) < eps.
Proof.
  intros mid high p U target.
  unfold Orthographic.project4Dto3D.
  split; [|split].
  - cbn [u_morphFactor U]. rewrite smoothstep_at_0. apply vmix_at_0.
  - cbn [u_morphFactor U]. rewrite smoothstep_at_1. apply vmix_at_1.
  - intros eps Heps.
    set (K := Rabs (x3 (xyz p) - x3 target) + Rabs (y3 (xyz p) - y3 target)
              + Rabs (z3 (xyz p) - z3 target)).
    pose proof (Rabs_pos (x3 (xyz p) - x3 target)) as Hx.
    pose proof (Rabs_pos (y3 (xyz p) - y3 target)) as Hy.
    pose proof (Rabs_pos (z3 (xyz p) - z3 target)) as Hz.
    exists (eps / (3 * (K + 1))). split.
    + apply Rdiv_lt_0_compat; [exact Heps | fold K in Hx; unfold K; lra].
    + intros m Hm Hd. cbn [u_morphFactor U].
      change (vscale (xyz p)
                (Orthographic.dynamicPerspectiveDistance (U m) /
                 max 0.1 (Orthographic.dynamicPerspectiveDistance (U m) + w4 p)))
        with target.
      unfold vmix; cbn [x3 y3 z3].
      repeat split; apply (blend_close _ _ m eps K Hm Heps); try exact Hd;
        unfold K; lra.
Qed.

Lemma orthographic_morph_endpoints_witness :
  let U := fun m => {| u_morphFactor := m; u_audioMid := 0; u_audioHigh := 0 |} in
  let p := mkvec4 1 0 0 1 in
  exists delta, 0 < delta /\
    forall m, 0 <= m <= 1 -> 1 - m < delta ->
      Rabs (x3 (Orthographic.project4Dto3D (U m) p)
            - x3 (Perspective.project_from
                    (Orthographic.dynamicPerspectiveDistance (U 1)) p)) < 1.
Proof.
  intros U p.
  destruct (orthographic_morph_endpoints 0 0 p) as (_ & _ & H).
  destruct (H 1 ltac:(lra)) as (delta & Hd & Hm).
  exists delta. split; [exact Hd|].
  intros m Hr Hc. exact (proj1 (Hm m Hr Hc)).
Defined.

(** C7, as stated, fails: at morph 1 the orthographic snippet and the
    perspective projection disagree on the point (1, 0, 0, 1). *)
Lemma orthographic_morph1_is_not_perspective :
  let u := {| u_morphFactor := 1; u_audioMid := 0; u_audioHigh := 0 |} in
  let p := mkvec4 1 0 0 1 in
  Orthographic.project4Dto3D u p = mkvec3 (5 / 7) 0 0
  /\ Perspective.project4Dto3D Perspective.default u p = mkvec3 (7 / 9) 0 0
  /\ Orthographic.project4Dto3D u p
       <> Perspective.project4Dto3D Perspective.default u p.
Proof.
  intros u p.
  assert (Ho : Orthographic.project4Dto3D u p = mkvec3 (5 / 7) 0 0).
  { unfold Orthographic.project4Dto3D, Orthographic.dynamicPerspectiveDistance.
    cbn [u_morphFactor u_audioMid u]. rewrite smoothstep_at_1, vmix_at_1.
    unfold max. replace (2.5 * (1.0 - 0 * 0.4)) with 2.5 by lra.
    rewrite (Rmax_right 0.2 2.5) by lra.
    unfold p; cbn [w4]. rewrite (Rmax_right 0.1 (2.5 + 1)) by lra.
    unfold vscale, xyz; cbn. f_equal; lra. }
  assert (Hp : Perspective.project4Dto3D Perspective.default u p = mkvec3 (7 / 9) 0 0).
  { unfold Perspective.project4Dto3D, Perspective.default, Perspective.new,
      Perspective.project_from, JS.Math_max.
    cbn [Perspective.viewDistance u_morphFactor u_audioMid u].
    rewrite (Rmax_right 0.1 2.5) by lra.
    replace 2.5 with (IZR 250 / 100) by lra. rewrite toFixed2_hundredths.
    unfold max. replace (250 / 100 * (1.0 + 1 * 0.4 - 0 * 0.3)) with 3.5 by lra.
    rewrite (Rmax_right 0.2 3.5) by lra.
    unfold p; cbn [w4]. rewrite (Rmax_right 0.1 (3.5 + 1)) by lra.
    unfold vscale, xyz; cbn. f_equal; lra. }
  split; [exact Ho | split; [exact Hp|]].
  rewrite Ho, Hp. intros Heq. injection Heq as Hx. lra.
Qed.

End ProjectionProperties.

(* --------------------------------------------------------------------- *)
(** ** The sound module: what each method leaves alone *)
(* --------------------------------------------------------------------- *)

Section SoundFacts.
Import Params Sound.

Lemma with_edges_same b : with_edges (edges b) b = b.
Proof. destruct b. reflexivity. Qed.

Lemma graph_only_skip : graph_only skip.
Proof. intros b. exists (edges b). symmetry. apply with_edges_same. Qed.

Lemma graph_only_connect src dst : graph_only (connect src dst).
Proof.
  intros b. unfold connect. destruct (connected src dst b); cbn [fst].
  - exists (edges b). symmetry. apply with_edges_same.
  - eexists. reflexivity.
Qed.

Lemma graph_only_disconnect_from src dst : graph_only (disconnect_from src dst).
Proof.
  intros b. unfold disconnect_from. destruct (connected src dst b); cbn [fst].
  - eexists. reflexivity.
  - exists (edges b). symmetry. apply with_edges_same.
Qed.

Lemma graph_only_seq s1 s2 : graph_only s1 -> graph_only s2 -> graph_only (seq s1 s2).
Proof.
  intros H1 H2 b. unfold seq. destruct (H1 b) as [es1 E1].
  destruct (s1 b) as [b1 [|]]; cbn [fst] in *.
  - destruct (H2 b1) as [es2 E2]. exists es2. rewrite E2, E1. reflexivity.
  - exists es1. exact E1.
Qed.

Lemma graph_only_when c st : graph_only st -> graph_only (when c st).
Proof. intros H. destruct c; [exact H | exact graph_only_skip]. Qed.

Lemma graph_only_try st b : graph_only st -> intervals (try_catch st b) = intervals b.
Proof. intros H. unfold try_catch. destruct (H b) as [es ->]. reflexivity. Qed.

Lemma graph_only_try_oscillators st b :
  graph_only st -> oscillators (try_catch st b) = oscillators b.
Proof. intros H. unfold try_catch. destruct (H b) as [es ->]. reflexivity. Qed.

Lemma graph_only_try_nextNode st b :
  graph_only st -> nextNode (try_catch st b) = nextNode b.
Proof. intros H. unfold try_catch. destruct (H b) as [es ->]. reflexivity. Qed.

Create HintDb graph.

Hint Resolve graph_only_skip graph_only_connect graph_only_disconnect_from
  graph_only_seq graph_only_when : graph.

Lemma quiet_id : quiet (fun s => s).
Proof. intros s. repeat split. Qed.

Lemma quiet_compose f g : quiet f -> quiet g -> quiet (fun s => g (f s)).
Proof.
  intros Hf Hg s. destruct (Hf s) as (F1 & F2 & F3 & F4).
  destruct (Hg (f s)) as (G1 & G2 & G3 & G4).
  repeat split; congruence.
Qed.

Lemma disconnect_intervals n b : intervals (disconnect n b) = intervals b.
Proof. reflexivity. Qed.

Lemma quiet_cleanup : quiet _cleanupCurrentNoteNodes.
Proof.
  intros [a b]. unfold _cleanupCurrentNoteNodes.
  destruct (currentOscillator a), (currentFilter a), (currentGainNode a);
    repeat split.
Qed.

Lemma quiet_connectEffects n : quiet (_connectEffectsToNode n).
Proof.
  intros [a b]. unfold _connectEffectsToNode.
  destruct n as [src|]; [|repeat split].
  destruct (isInitialized a); cbn [negb]; [|repeat split].
  cbn [fst snd]. repeat split.
  apply graph_only_try.
  destruct (delayNode a), (reverbNode a); auto 10 with graph.
Qed.

Lemma create_voice_shape frequency a b :
  exists b',
    intervals b' = intervals b
    /\ (create_voice frequency (a, b) = (None, (a, b'))
        \/ exists v g,
             create_voice frequency (a, b)
             = (Some v, _connectEffectsToNode (Some g) (a, b'))).
Proof.
  unfold create_voice, create_oscillator, create_node.
  destruct (masterGain a) as [m|]; eexists; (split; [|first
    [ left; reflexivity | right; do 2 eexists; reflexivity ]]).
  - rewrite !graph_only_try by auto with graph. reflexivity.
  - rewrite !graph_only_try by auto with graph. reflexivity.
Qed.

Lemma create_voice_quiet frequency : quiet (fun s => snd (create_voice frequency s)).
Proof.
  intros [a b].
  destruct (create_voice_shape frequency a b) as (b' & Hb & [H | (v & g & H)]);
    rewrite H; cbn [fst snd].
  - repeat split. exact Hb.
  - destruct (quiet_connectEffects (Some g) (a, b')) as (Q1 & Q2 & Q3 & Q4).
    cbn [fst snd] in *. repeat split; congruence.
Qed.

Lemma quiet_playSustainedNote note : quiet (fun s => snd (_playSustainedNote note s)).
Proof.
  intros [a b]. unfold _playSustainedNote.
  destruct (noteFrequency note) as [frequency|]; [|repeat split].
  destruct (audioContext a); cbn [negb]; [|repeat split].
  pose proof (create_voice_quiet frequency (a, b)) as Q. cbn [fst snd] in Q.
  destruct (create_voice frequency (a, b)) as [[[[osc flt] g]|] [a1 b1]];
    cbn [fst snd] in *.
  - cbn. exact Q.
  - pose proof (quiet_cleanup (a1, b1)) as C.
    destruct (_cleanupCurrentNoteNodes (a1, b1)) as [a2 b2]. cbn [fst snd] in *.
    destruct Q as (Q1 & Q2 & Q3 & Q4), C as (C1 & C2 & C3 & C4).
    cbn. repeat split; congruence.
Qed.

Lemma quiet_stopSustainedNote useRelease : quiet (_stopSustainedNote useRelease).
Proof.
  intros [a b]. unfold _stopSustainedNote.
  destruct (currentOscillator a), (currentGainNode a), (audioContext a);
    repeat split.
Qed.

Lemma quiet_playArpNote frequency : quiet (_playArpNote frequency).
Proof.
  intros [a b]. unfold _playArpNote.
  destruct (negb (JS.truthy frequency) || negb (audioContext a)); [repeat split|].
  set (s1 := if is_some (currentOscillator a)
             then _cleanupCurrentNoteNodes (a, b) else (a, b)).
  assert (H1 : arp (fst s1) = arp a /\ intervals (snd s1) = intervals b
               /\ presets (fst s1) = presets a
               /\ activePresetName (fst s1) = activePresetName a).
  { unfold s1. destruct (is_some (currentOscillator a)).
    - apply (quiet_cleanup (a, b)).
    - repeat split. }
  pose proof (create_voice_quiet frequency s1) as Q. cbn [fst snd] in Q.
  destruct (create_voice frequency s1) as [[[[osc flt] g]|] [a1 b1]];
    cbn [fst snd] in *.
  - destruct Q as (Q1 & Q2 & Q3 & Q4), H1 as (C1 & C2 & C3 & C4).
    cbn. repeat split; congruence.
  - pose proof (quiet_cleanup (a1, b1)) as C.
    destruct (_cleanupCurrentNoteNodes (a1, b1)) as [a2 b2]. cbn [fst snd] in *.
    destruct Q as (Q1 & Q2 & Q3 & Q4), C as (C1 & C2 & C3 & C4),
      H1 as (D1 & D2 & D3 & D4).
    cbn. repeat split; congruence.
Qed.

Lemma quiet_setOscillatorType type : quiet (setOscillatorType type).
Proof.
  intros [a b]. unfold setOscillatorType.
  destruct (existsb _ _); repeat split.
Qed.

Lemma quiet_setFilterType type : quiet (setFilterType type).
Proof.
  intros [a b]. unfold setFilterType.
  destruct (existsb _ _); repeat split.
Qed.

Lemma quiet_reroute : quiet reroute.
Proof.
  intros [a b]. unfold reroute.
  destruct (is_some (currentGainNode a)); [|repeat split].
  apply quiet_connectEffects.
Qed.

Lemma quiet_kept f : quiet f -> kept f.
Proof.
  intros Q s. destruct (Q s) as (Q1 & Q2 & Q3 & Q4). repeat split; try assumption.
  unfold tinv. rewrite Q1, Q2. trivial.
Qed.

Lemma kept_steady f : kept f -> steady f.
Proof. intros K s. destruct (K s) as (K1 & K2 & _). split; assumption. Qed.

Lemma kept_compose f g : kept f -> kept g -> kept (fun s => g (f s)).
Proof.
  intros Kf Kg s. destruct (Kf s) as (F1 & F2 & F3), (Kg (f s)) as (G1 & G2 & G3).
  repeat split; [auto | congruence | congruence].
Qed.

Lemma steady_compose f g : steady f -> steady g -> steady (fun s => g (f s)).
Proof.
  intros Kf Kg s. destruct (Kf s) as (F1 & F2), (Kg (f s)) as (G1 & G2).
  split; [auto | congruence].
Qed.

Lemma stopArpeggiator_spec s :
  tinv s ->
  tinv (_stopArpeggiator s)
  /\ intervalId (arp (fst (_stopArpeggiator s))) = None
  /\ presets (fst (_stopArpeggiator s)) = presets (fst s)
  /\ activePresetName (fst (_stopArpeggiator s)) = activePresetName (fst s).
Proof.
  destruct s as [a b]. unfold tinv, _stopArpeggiator. cbn [fst snd]. intros H.
  destruct (intervalId (arp a)) as [id|] eqn:E.
  - assert (Hc : intervals (clearInterval id b) = []).
    { unfold clearInterval. cbn. rewrite H. cbn. rewrite Nat.eqb_refl. reflexivity. }
    cbn [currentOscillator currentGainNode audioContext with_arp].
    destruct (currentOscillator a), (currentGainNode a), (audioContext a);
      cbn; repeat split; exact Hc.
  - cbn [fst snd]. rewrite E. repeat split. exact H.
Qed.

Lemma stopArpeggiator_frame s :
  presets (fst (_stopArpeggiator s)) = presets (fst s)
  /\ activePresetName (fst (_stopArpeggiator s)) = activePresetName (fst s).
Proof.
  destruct s as [a b]. unfold _stopArpeggiator.
  destruct (intervalId (arp a)); [|split; reflexivity].
  cbn [currentOscillator currentGainNode audioContext with_arp].
  destruct (currentOscillator a), (currentGainNode a), (audioContext a);
    split; reflexivity.
Qed.

Lemma arpStep_spec s :
  (tinv s -> tinv (_arpStep s))
  /\ (tinv s -> intervalId (arp (fst s)) = None ->
      intervalId (arp (fst (_arpStep s))) = None)
  /\ presets (fst (_arpStep s)) = presets (fst s)
  /\ activePresetName (fst (_arpStep s)) = activePresetName (fst s).
Proof.
  destruct s as [a b]. unfold _arpStep.
  destruct (if active (arp a) && negb (Nat.eqb (List.length (pattern (arp a))) 0)
            then match baseNote (arp a) with
                 | Some n => noteFrequency n
                 | None => None
                 end
            else None) as [baseFrequency|].
  - pose proof (quiet_playArpNote
                  (stepFrequency baseFrequency (pattern (arp a)) (currentStep (arp a)))
                  (a, b)) as (Q1 & Q2 & Q3 & Q4).
    destruct (_playArpNote _ (a, b)) as [a1 b1]. cbn [fst snd] in *.
    unfold tinv; cbn [fst snd]. cbn. rewrite Q1, Q2. repeat split; auto.
  - destruct (stopArpeggiator_frame (a, b)) as [F1 F2].
    repeat split; try assumption.
    + intros H. apply stopArpeggiator_spec, H.
    + intros H _. apply stopArpeggiator_spec, H.
Qed.

Lemma startArpeggiator_spec s :
  (tinv s -> tinv (_startArpeggiator s))
  /\ presets (fst (_startArpeggiator s)) = presets (fst s)
  /\ activePresetName (fst (_startArpeggiator s)) = activePresetName (fst s).
Proof.
  destruct s as [a b]. unfold _startArpeggiator.
  destruct (isInitialized a); cbn [negb orb]; [|repeat split; trivial].
  destruct (intervalId (arp a)) as [id|] eqn:E; cbn [is_some orb];
    [repeat split; trivial|].
  destruct (active (arp a)); cbn [negb]; [|repeat split; trivial].
  destruct (arpStep_spec (a, b)) as (S1 & S2 & S3 & S4).
  destruct (_arpStep (a, b)) as [a1 b1]. cbn [fst snd] in *.
  unfold setInterval. cbn [fst snd]. repeat split; try assumption.
  intros H. specialize (S1 H). specialize (S2 H E).
  unfold tinv in *. cbn [fst snd] in *. cbn. rewrite S1, S2. reflexivity.
Qed.

Lemma kept_stopArpeggiator : kept _stopArpeggiator.
Proof.
  intros s. destruct (stopArpeggiator_frame s) as [F1 F2].
  repeat split; try assumption. intros H. apply stopArpeggiator_spec, H.
Qed.

Lemma kept_arpStep : kept _arpStep.
Proof. intros s. destruct (arpStep_spec s) as (S1 & _ & S3 & S4). auto. Qed.

Lemma kept_startArpeggiator : kept _startArpeggiator.
Proof. intros s. apply startArpeggiator_spec. Qed.

(** A change of [this.audioState] that leaves the sequencer handle, the
    preset store and the preset name alone keeps whatever a method keeps. *)
Lemma kept_after (f : St -> St) (g : AudioState -> AudioState) :
  kept f ->
  (forall a, intervalId (arp (g a)) = intervalId (arp a)
             /\ presets (g a) = presets a
             /\ activePresetName (g a) = activePresetName a) ->
  kept (fun s => let (a, b) := f s in (g a, b)).
Proof.
  intros K G s. destruct (K s) as (K1 & K2 & K3).
  destruct (f s) as [a1 b1]. destruct (G a1) as (G1 & G2 & G3).
  cbn [fst snd] in *. repeat split; try congruence.
  intros H. specialize (K1 H). unfold tinv in *. cbn [fst snd] in *.
  rewrite G1. exact K1.
Qed.

Lemma kept_before (f : St -> St) (g : AudioState -> AudioState) :
  kept f ->
  (forall a, intervalId (arp (g a)) = intervalId (arp a)
             /\ presets (g a) = presets a
             /\ activePresetName (g a) = activePresetName a) ->
  kept (fun s => f (g (fst s), snd s)).
Proof.
  intros K G [a b]. destruct (K (g a, b)) as (K1 & K2 & K3).
  destruct (G a) as (G1 & G2 & G3). cbn [fst snd] in *.
  repeat split; try congruence.
  intros H. apply K1. unfold tinv in *. cbn [fst snd] in *. rewrite G1. exact H.
Qed.

Lemma kept_ext (f g : St -> St) : (forall s, f s = g s) -> kept f -> kept g.
Proof. intros E K s. rewrite <- E. apply K. Qed.

Lemma kept_id : kept (fun s => s).
Proof. intros s. repeat split; trivial. Qed.

Lemma kept_if (c : St -> bool) (f g : St -> St) :
  kept f -> kept g -> kept (fun s => if c s then f s else g s).
Proof. intros Kf Kg s. destruct (c s); [apply Kf | apply Kg]. Qed.

Ltac frame_fields := intros ?; cbn; repeat split; reflexivity.

Lemma kept_startNote note : kept (startNote note).
Proof.
  intros [a b]. unfold startNote.
  destruct (negb (isInitialized a) || negb (is_some (noteFrequency note)));
    [apply (kept_id (a, b))|].
  destruct (negb (audioContext a) || negb (contextRunning b));
    [apply (kept_id (a, b))|].
  cbn [arp isPlaying with_activeNote].
  destruct (active (arp a)).
  - destruct (isPlaying a); cbn [negb].
    + apply (kept_before (fun s => s)
               (fun a => with_arp (with_baseNote (Some note) (arp (with_activeNote (Some note) a)))
                           (with_activeNote (Some note) a))
               kept_id); frame_fields.
    + apply (kept_before
               (fun s => let (a, b) := _startArpeggiator s in (with_isPlaying true a, b))
               (fun a => with_arp (with_currentStep 0
                                     (with_baseNote (Some note)
                                        (arp (with_activeNote (Some note) a))))
                           (with_activeNote (Some note) a))).
      * apply kept_after; [apply kept_startArpeggiator | frame_fields].
      * frame_fields.
  - apply (kept_before
             (fun s => snd (_playSustainedNote note (_stopSustainedNote false s)))
             (with_activeNote (Some note))).
    + apply (kept_compose (_stopSustainedNote false)
               (fun s => snd (_playSustainedNote note s))).
      * apply quiet_kept, quiet_stopSustainedNote.
      * apply quiet_kept, quiet_playSustainedNote.
    + frame_fields.
Qed.

Lemma kept_stopNote useRelease : kept (stopNote useRelease).
Proof.
  intros [a b]. unfold stopNote.
  destruct (isPlaying a); cbn [negb]; [|apply (kept_id (a, b))].
  apply (kept_after
           (fun s => if active (arp (fst s)) && is_some (intervalId (arp (fst s)))
                     then _stopArpeggiator s
                     else if negb (active (arp (fst s)))
                               && is_some (currentOscillator (fst s))
                          then _stopSustainedNote useRelease s else s)
           (fun a => with_activeNote None (with_isPlaying false a))).
  - apply kept_if; [apply kept_stopArpeggiator|].
    apply kept_if; [apply quiet_kept, quiet_stopSustainedNote | apply kept_id].
  - frame_fields.
Qed.

Lemma untouched_kept a a' b : untouched a a' ->
  (tinv (a, b) -> tinv (a', b))
  /\ presets a' = presets a /\ activePresetName a' = activePresetName a.
Proof.
  intros (U1 & U2 & U3). repeat split; try assumption.
  unfold tinv. cbn [fst snd]. rewrite U1. trivial.
Qed.

Ltac untouched := unfold untouched; cbn; repeat split; reflexivity.

(** Chain the facts of one call into the goal about the next state. *)
Ltac chain K s :=
  let K1 := fresh "K" in let K2 := fresh "K" in let K3 := fresh "K" in
  let a' := fresh "a" in let b' := fresh "b" in
  destruct (K s) as (K1 & K2 & K3); destruct s as [a' b'] eqn:?;
  cbn [fst snd] in K1, K2, K3.

Lemma kept_restart (a : AudioState) (b : Browser) :
  let s' :=
    let (a, b) := _stopArpeggiator (a, b) in
    if is_some (activeNote a)
    then let (a, b) := _startArpeggiator (a, b) in (with_isPlaying true a, b)
    else (a, b) in
  (tinv (a, b) -> tinv s')
  /\ presets (fst s') = presets a
  /\ activePresetName (fst s') = activePresetName a.
Proof.
  cbv zeta.
  destruct (kept_stopArpeggiator (a, b)) as (K1 & K2 & K3).
  destruct (_stopArpeggiator (a, b)) as [a2 b2]. cbn [fst snd] in *.
  destruct (is_some (activeNote a2)).
  - destruct (kept_startArpeggiator (a2, b2)) as (L1 & L2 & L3).
    destruct (_startArpeggiator (a2, b2)) as [a3 b3]. cbn [fst snd] in *.
    destruct (untouched_kept a3 (with_isPlaying true a3) b3) as (M1 & M2 & M3);
      [untouched|].
    repeat split; [auto | congruence | congruence].
  - repeat split; assumption.
Qed.

Lemma kept_setParameter type name value : kept (setParameter type name value).
Proof.
  intros [a b]. unfold setParameter.
  destruct (store type name value (parameters a)) as [p|]; [|apply (kept_id (a, b))].
  cbn [isInitialized audioContext with_parameters fst snd].
  destruct (negb (isInitialized a) || negb (audioContext a)).
  { apply untouched_kept. untouched. }
  destruct (String.eqb _ "effects.arpeggiator.rate").
  { set (a1 := match value with
               | VNum v => _
               | _ => _
               end).
    assert (G : untouched a a1) by (unfold a1; destruct value; untouched).
    clearbody a1. destruct (untouched_kept a a1 b G) as (G1 & G2 & G3).
    destruct (active (arp a1) && is_some (intervalId (arp a1))).
    - destruct (kept_restart a1 b) as (R1 & R2 & R3). cbv zeta in R1, R2, R3.
      repeat split; [auto | exact (eq_trans R2 G2) | exact (eq_trans R3 G3)].
    - repeat split; assumption. }
  destruct (String.eqb _ "effects.arpeggiator.pattern").
  { destruct value; apply untouched_kept; untouched. }
  apply untouched_kept. untouched.
Qed.

Lemma kept_toggle_arpeggiator newState : kept (toggle_arpeggiator newState).
Proof.
  intros [a b]. unfold toggle_arpeggiator.
  set (a0 := with_arp (with_active newState (arp a)) a).
  assert (G : untouched a a0) by (unfold a0; untouched).
  assert (Hnote : activeNote a0 = activeNote a) by reflexivity.
  clearbody a0. destruct (untouched_kept a a0 b G) as (G1 & G2 & G3).
  destruct newState.
  - destruct (activeNote a0) as [note|]; [|repeat split; assumption].
    destruct (is_some (intervalId (arp a0))); [repeat split; assumption|].
    destruct (quiet_kept _ (quiet_stopSustainedNote false) (a0, b)) as (K1 & K2 & K3).
    destruct (_stopSustainedNote false (a0, b)) as [a1 b1]. cbn [fst snd] in *.
    set (a2 := with_arp (with_currentStep 0 (with_baseNote (Some note) (arp a1))) a1).
    assert (G' : untouched a1 a2) by (unfold a2; untouched).
    clearbody a2. destruct (untouched_kept a1 a2 b1 G') as (H1 & H2 & H3).
    destruct (kept_startArpeggiator (a2, b1)) as (L1 & L2 & L3).
    destruct (_startArpeggiator (a2, b1)) as [a3 b3]. cbn [fst snd] in *.
    destruct (untouched_kept a3 (with_isPlaying true a3) b3) as (M1 & M2 & M3);
      [untouched|].
    cbn [fst snd]; repeat split; [auto 10 | congruence | congruence].
  - destruct (is_some (intervalId (arp a0))); [|repeat split; assumption].
    destruct (kept_stopArpeggiator (a0, b)) as (K1 & K2 & K3).
    destruct (_stopArpeggiator (a0, b)) as [a1 b1]. cbn [fst snd] in *.
    destruct (activeNote a1) as [note|].
    + destruct (quiet_kept _ (quiet_playSustainedNote note) (a1, b1)) as (L1 & L2 & L3).
      cbn [fst snd] in *.
      cbn [fst snd]; repeat split; [auto | congruence | congruence].
    + destruct (untouched_kept a1 (with_isPlaying false a1) b1) as (M1 & M2 & M3);
        [untouched|].
      cbn [fst snd]; repeat split; [auto | congruence | congruence].
Qed.

Lemma kept_toggleEffect effectName isActive : kept (toggleEffect effectName isActive).
Proof.
  intros [a b]. unfold toggleEffect.
  assert (R : forall a', untouched a a' ->
            (tinv (a, b) -> tinv (reroute (a', b)))
            /\ presets (fst (reroute (a', b))) = presets a
            /\ activePresetName (fst (reroute (a', b))) = activePresetName a).
  { intros a' G. destruct (untouched_kept a a' b G) as (G1 & G2 & G3).
    destruct (quiet_kept _ quiet_reroute (a', b)) as (K1 & K2 & K3).
    cbn [fst snd] in *. repeat split; [auto | congruence | congruence]. }
  destruct (String.eqb effectName "delay").
  { destruct (Bool.eqb _ isActive); [apply (kept_id (a, b))|]. apply R. untouched. }
  destruct (String.eqb effectName "reverb").
  { destruct (Bool.eqb _ isActive); [apply (kept_id (a, b))|]. apply R. untouched. }
  destruct (String.eqb effectName "glitch").
  { destruct (Bool.eqb _ isActive); [apply (kept_id (a, b))|]. apply R. untouched. }
  destruct (String.eqb effectName "arpeggiator"); [|apply (kept_id (a, b))].
  destruct (Bool.eqb _ isActive); [apply (kept_id (a, b))|].
  set (a0 := with_parameters _ a).
  assert (G : untouched a a0) by (unfold a0; untouched).
  clearbody a0. destruct (untouched_kept a a0 b G) as (G1 & G2 & G3).
  destruct (kept_toggle_arpeggiator isActive (a0, b)) as (K1 & K2 & K3).
  cbn [fst snd] in *. repeat split; [auto | congruence | congruence].
Qed.

Lemma keeps_refl s : keeps s s.
Proof. repeat split; trivial. Qed.

Lemma keeps_step f s s1 : kept f -> keeps s s1 -> keeps s (f s1).
Proof.
  intros K (H1 & H2 & H3). destruct (K s1) as (K1 & K2 & K3).
  repeat split; [auto | congruence | congruence].
Qed.

Lemma holds_step f s s1 : kept f -> holds s s1 -> holds s (f s1).
Proof.
  intros K (H1 & H2). destruct (K s1) as (K1 & K2 & K3).
  repeat split; [auto | congruence].
Qed.

Lemma kept_applyCurrentToggleStates : kept _applyCurrentToggleStates.
Proof.
  intros s. change (keeps s (_applyCurrentToggleStates s)).
  unfold _applyCurrentToggleStates. cbv zeta.
  repeat (apply keeps_step; [apply kept_toggleEffect|]).
  apply keeps_refl.
Qed.

Lemma steady_applyPresetAudio presetName : steady (applyPresetAudio presetName).
Proof.
  intros [a b]. change (holds (a, b) (applyPresetAudio presetName (a, b))).
  unfold applyPresetAudio.
  destruct (presets_at presetName a) as [preset|]; [|repeat split; trivial].
  cbv zeta.
  set (a0 := with_arp _ _).
  assert (G : holds (a, b) (a0, b)).
  { unfold a0, holds, tinv. cbn. split; trivial. }
  assert (Hi : isInitialized a0 = isInitialized a) by reflexivity.
  clearbody a0. destruct (isInitialized a0); [|exact G].
  apply holds_step; [apply kept_applyCurrentToggleStates|].
  repeat (apply holds_step; [apply kept_setParameter|]).
  apply holds_step; [apply quiet_kept, quiet_setFilterType|].
  apply holds_step; [apply quiet_kept, quiet_setOscillatorType|].
  exact G.
Qed.

Ltac same_intervals :=
  repeat (cbn [intervals with_nextNode with_oscillators with_timeouts
               with_contextRunning with_edges];
          rewrite ?graph_only_try by auto 10 with graph);
  try reflexivity.

Lemma quiet_createAudioEffects : quiet _createAudioEffects.
Proof.
  intros [a b]. unfold _createAudioEffects, create_node.
  destruct (masterGain a) as [m|]; [|repeat split].
  cbn [fst snd]. repeat split. same_intervals.
Qed.

Lemma kept_initializeAudio : kept _initializeAudio.
Proof.
  intros [a b]. change (keeps (a, b) (_initializeAudio (a, b))).
  unfold _initializeAudio, create_node.
  destruct (isInitialized a); [apply keeps_refl|].
  cbv zeta. cbn [fst snd].
  match goal with
  | |- context [_createAudioEffects ?s0] =>
      pose proof (quiet_kept _ quiet_createAudioEffects s0) as K;
      assert (G : keeps (a, b) s0);
      [| destruct (_createAudioEffects s0) as [a1 b1] ]
  end.
  { unfold keeps, tinv. cbn [fst snd]. same_intervals.
    repeat split; trivial. }
  apply keeps_step; [apply kept_applyCurrentToggleStates|].
  destruct K as (K1 & K2 & K3), G as (G1 & G2 & G3). cbn [fst snd] in *.
  unfold keeps. cbn [fst snd]. cbn.
  repeat split; [| congruence | congruence].
  intros H. specialize (K1 (G1 H)). unfold tinv in *. cbn in *. exact K1.
Qed.

Lemma kept_run_timeout t : kept (run_timeout t).
Proof.
  intros [a b]. unfold run_timeout.
  destruct t as [o | o].
  - destruct (currentOscillator a) as [c|]; [|apply (kept_id (a, b))].
    destruct (Nat.eqb c o); [|apply (kept_id (a, b))].
    apply (quiet_kept _ quiet_cleanup (a, b)).
  - destruct (intervalId (arp a)); [apply (kept_id (a, b))|].
    destruct (currentOscillator a) as [c|]; [|apply (kept_id (a, b))].
    destruct (Nat.eqb c o); [|apply (kept_id (a, b))].
    apply (quiet_kept _ quiet_cleanup (a, b)).
Qed.

Lemma stopNote_handle_none useRelease s :
  tinv s -> intervalId (arp (fst s)) = None ->
  intervalId (arp (fst (stopNote useRelease s))) = None.
Proof.
  destruct s as [a b]. cbn [fst snd]. intros H E. unfold stopNote.
  destruct (isPlaying a); cbn [negb]; [|exact E].
  rewrite E. cbn [is_some]. rewrite andb_false_r.
  destruct (negb (active (arp a)) && is_some (currentOscillator a)).
  - destruct (quiet_stopSustainedNote useRelease (a, b)) as (Q1 & _).
    destruct (_stopSustainedNote useRelease (a, b)) as [a1 b1].
    cbn [fst snd] in *. cbn. rewrite Q1. exact E.
  - cbn. exact E.
Qed.

Lemma call_invariant f w : steady f -> timer_invariant w -> timer_invariant (call f w).
Proof.
  intros K H. destruct w as [[a|] b]; [|exact H].
  unfold call, timer_invariant in *. cbn [audioState browser] in *.
  destruct (K (a, b)) as (K1 & _).
  destruct (f (a, b)) as [a1 b1]. cbn [audioState browser].
  apply K1. exact H.
Qed.

Lemma dispose_invariant w : timer_invariant w -> timer_invariant (dispose w).
Proof.
  intros H. destruct w as [[a|] b]; [|exact H].
  unfold dispose, timer_invariant in *. cbn [audioState browser] in *.
  destruct (stopArpeggiator_spec (a, b) H) as (S1 & S2 & _).
  pose proof (stopNote_handle_none false _ S1 S2) as N.
  destruct (kept_stopNote false (_stopArpeggiator (a, b))) as (K1 & _).
  specialize (K1 S1).
  destruct (stopNote false (_stopArpeggiator (a, b))) as [a2 b2].
  unfold tinv in K1. cbn [fst snd audioState browser] in *. rewrite N in K1.
  destruct (isInitialized a2 && audioContext a2); [|exact K1].
  cbv zeta.
  match goal with
  | |- context [_cleanupCurrentNoteNodes (?a0, ?b0)] =>
      destruct (quiet_cleanup (a0, b0)) as (_ & Q2 & _)
  end.
  cbn [fst snd] in Q2. cbn [intervals with_contextRunning].
  etransitivity; [exact Q2|].
  destruct (reverbGain a2), (reverbNode a2), (delayFeedback a2), (delayNode a2),
    (analyser a2), (masterGain a2); exact K1.
Qed.

Lemma call_store f w : steady f -> store_invariant w -> store_invariant (call f w).
Proof.
  intros K H. destruct w as [[a|] b]; [|exact H].
  unfold call, store_invariant in *. cbn [audioState browser] in *.
  destruct (K (a, b)) as (_ & K2).
  destruct (f (a, b)) as [a1 b1]. cbn [audioState fst] in *. congruence.
Qed.

Lemma steady_handlers e :
  match e with
  | Initialize => steady _initializeAudio
  | StartNote note => steady (startNote note)
  | StopNote useRelease => steady (stopNote useRelease)
  | SetParameter type name value => steady (setParameter type name value)
  | SetOscillatorType type => steady (setOscillatorType type)
  | SetFilterType type => steady (setFilterType type)
  | ToggleEffect effectName isActive => steady (toggleEffect effectName isActive)
  | ApplyPresetAudio presetName => steady (applyPresetAudio presetName)
  | IntervalFires _ => steady _arpStep
  | TimeoutFires _ => forall t, steady (run_timeout t)
  | Dispose | ContextState _ => True
  end.
Proof.
  destruct e; try exact I; try intros t; try apply steady_applyPresetAudio;
    apply kept_steady;
    auto using kept_initializeAudio, kept_startNote, kept_stopNote, kept_setParameter,
      kept_toggleEffect, kept_arpStep, kept_run_timeout, quiet_kept,
      quiet_setOscillatorType, quiet_setFilterType.
Qed.

Lemma handle_invariant e w : timer_invariant w -> timer_invariant (handle e w).
Proof.
  intros H. pose proof (steady_handlers e) as K.
  destruct e; cbn [handle]; try (apply call_invariant; assumption).
  - apply dispose_invariant, H.
  - destruct (existsb _ _); [apply call_invariant; assumption | exact H].
  - destruct (nth_error _ _) as [t|]; [|exact H].
    apply call_invariant; [apply K|]. exact H.
  - exact H.
Qed.

Lemma handle_store e w : store_invariant w -> store_invariant (handle e w).
Proof.
  intros H. pose proof (steady_handlers e) as K.
  destruct e; cbn [handle]; try (apply call_store; assumption).
  - destruct w as [[a|] b]; [|exact H].
    unfold dispose, store_invariant. cbn [audioState browser].
    destruct (stopNote _ _). exact I.
  - destruct (existsb _ _); [apply call_store; assumption | exact H].
  - destruct (nth_error _ _) as [t|]; [|exact H].
    apply call_store; [apply K|]. exact H.
  - exact H.
Qed.

Lemma new_invariants initialPresetName b w :
  intervals b = [] ->
  new initialPresetName b = Some w -> timer_invariant w /\ store_invariant w.
Proof.
  intros Hb. unfold new.
  destruct (lookup initialPresetName getPresetsDefinition); [|discriminate].
  match goal with
  | |- context [applyPresetAudio _ (?a0, _)] =>
      destruct (steady_applyPresetAudio initialPresetName (a0, b)) as (K1 & K2);
      destruct (applyPresetAudio initialPresetName (a0, b)) as [a1 b1]
  end.
  intros E. injection E as <-. cbn [fst snd] in *.
  split.
  - apply K1. unfold tinv. cbn. exact Hb.
  - unfold store_invariant. cbn [audioState]. rewrite K2. reflexivity.
Qed.

Lemma reachable_invariants w : reachable w -> timer_invariant w /\ store_invariant w.
Proof.
  induction 1 as [name rate w Hnew | e w _ [IH1 IH2]].
  - eapply new_invariants; [|exact Hnew]. reflexivity.
  - split; [apply handle_invariant, IH1 | apply handle_store, IH2].
Qed.

(** *** Properties of the sound module *)

Lemma new_vaporwave_exists (sampleRate : R) :
  exists w, new "vaporwave" (page sampleRate) = Some w.
Proof.
  unfold new. cbn [lookup getPresetsDefinition String.eqb Ascii.eqb Bool.eqb].
  destruct (applyPresetAudio _ _) as [a b]. eexists. reflexivity.
Qed.

Lemma applyPresetAudio_name presetName a b preset :
  lookup presetName (presets a) = Some preset ->
  activePresetName (fst (applyPresetAudio presetName (a, b))) = presetName.
Proof.
  intros Hl. unfold applyPresetAudio, presets_at. rewrite Hl. cbv zeta.
  set (a0 := with_arp _ _).
  assert (G : activePresetName a0 = presetName) by reflexivity.
  clearbody a0. destruct (isInitialized a0); [|exact G].
  match goal with
  | |- activePresetName (fst ?s') = _ => assert (K : keeps (a0, b) s')
  end.
  { apply keeps_step; [apply kept_applyCurrentToggleStates|].
    repeat (apply keeps_step; [apply kept_setParameter|]).
    apply keeps_step; [apply quiet_kept, quiet_setFilterType|].
    apply keeps_step; [apply quiet_kept, quiet_setOscillatorType|].
    apply keeps_refl. }
  destruct K as (_ & _ & K3). rewrite K3. exact G.
Qed.

(** *** The arpeggiator's frequencies *)

Lemma truthy_nonzero x : x <> 0 -> JS.truthy x = true.
Proof.
  intros H. unfold JS.truthy, JS.eqb. destruct (Req_dec_T x 0); [contradiction|reflexivity].
Qed.

Lemma noteFrequency_positive note f : noteFrequency note = Some f -> 0 < f.
Proof.
  unfold noteFrequency, noteFrequencies, lookup.
  repeat (destruct (String.eqb _ note);
          [ destruct (JS.truthy _); [|discriminate];
            intros E; injection E as <-; lra | ]).
  discriminate.
Qed.

Lemma noteFrequency_A4 : noteFrequency "A4" = Some 440.00.
Proof.
  unfold noteFrequency. cbn [lookup noteFrequencies String.eqb Ascii.eqb Bool.eqb].
  rewrite truthy_nonzero by lra. reflexivity.
Qed.

Lemma semitoneRatio_value : semitoneRatio = Rpower 2 (1 / 12).
Proof.
  unfold semitoneRatio, JS.Math_pow, JS.eqb, JS.lt.
  destruct (Req_dec_T (1 / 12) 0); [lra|].
  destruct (Rlt_dec 0 2); [reflexivity | lra].
Qed.

Lemma semitoneRatio_positive : 0 < semitoneRatio.
Proof. rewrite semitoneRatio_value. unfold Rpower. apply exp_pos. Qed.

Lemma semitoneRatio_defined : JS.pow_defined 2 (1 / 12).
Proof. right. left. lra. Qed.

Lemma Math_pow_integer r z : 0 < r -> JS.Math_pow r (IZR z) = powerRZ r z.
Proof.
  intros Hr. unfold JS.Math_pow, JS.eqb, JS.lt.
  destruct (Req_dec_T (IZR z) 0) as [E | E].
  - apply eq_IZR in E. subst. reflexivity.
  - destruct (Rlt_dec 0 r); [|contradiction].
    symmetry. apply powerRZ_Rpower. exact Hr.
Qed.

Lemma stepFrequency_value base pattern k :
  stepFrequency base pattern k =
    base * powerRZ (Rpower 2 (1 / 12)) (nth (k mod List.length pattern) pattern 0%Z).
Proof.
  unfold stepFrequency. rewrite Math_pow_integer by apply semitoneRatio_positive.
  rewrite semitoneRatio_value. reflexivity.
Qed.

Lemma stepFrequency_positive base pattern k :
  0 < base -> 0 < stepFrequency base pattern k.
Proof.
  intros Hb. rewrite stepFrequency_value. apply Rmult_lt_0_compat; [exact Hb|].
  apply powerRZ_lt. unfold Rpower. apply exp_pos.
Qed.

Lemma connectEffects_state n a b :
  fst (_connectEffectsToNode n (a, b)) = a
  /\ oscillators (snd (_connectEffectsToNode n (a, b))) = oscillators b.
Proof.
  unfold _connectEffectsToNode. destruct n as [src|]; [|split; reflexivity].
  destruct (isInitialized a); cbn [negb fst snd]; [|split; reflexivity].
  split; [reflexivity|]. apply graph_only_try_oscillators.
  destruct (delayNode a), (reverbNode a); auto 10 with graph.
Qed.

Lemma create_voice_ok frequency a b m :
  masterGain a = Some m ->
  exists v b',
    create_voice frequency (a, b) = (Some v, (a, b'))
    /\ oscillators b' = oscillators b ++ [(nextNode b, frequency)].
Proof.
  intros Hm. unfold create_voice, create_oscillator, create_node. rewrite Hm.
  match goal with
  | |- context [_connectEffectsToNode ?n (a, ?b0)] =>
      destruct (connectEffects_state n a b0) as [E1 E2];
      destruct (_connectEffectsToNode n (a, b0)) as [a1 b1]
  end.
  cbn [fst snd] in *. subst a1. do 2 eexists. split; [reflexivity|].
  rewrite E2. rewrite !graph_only_try_oscillators by auto with graph.
  reflexivity.
Qed.

Lemma cleanup_state a b :
  let s := _cleanupCurrentNoteNodes (a, b) in
  oscillators (snd s) = oscillators b
  /\ masterGain (fst s) = masterGain a
  /\ audioContext (fst s) = audioContext a
  /\ arp (fst s) = arp a.
Proof.
  unfold _cleanupCurrentNoteNodes.
  destruct (currentOscillator a), (currentFilter a), (currentGainNode a);
    repeat split.
Qed.

Lemma playArpNote_ok frequency a b m :
  frequency <> 0 -> audioContext a = true -> masterGain a = Some m ->
  exists n,
    let s := _playArpNote frequency (a, b) in
    currentNoteFrequency (fst s) = Some frequency
    /\ oscillators (snd s) = oscillators b ++ [(n, frequency)]
    /\ arp (fst s) = arp a
    /\ audioContext (fst s) = true
    /\ masterGain (fst s) = Some m.
Proof.
  intros Hf Hc Hm. unfold _playArpNote.
  rewrite truthy_nonzero, Hc by exact Hf. cbn [negb orb].
  set (s1 := if is_some (currentOscillator a)
             then _cleanupCurrentNoteNodes (a, b) else (a, b)).
  assert (H1 : oscillators (snd s1) = oscillators b
               /\ masterGain (fst s1) = Some m
               /\ audioContext (fst s1) = true
               /\ arp (fst s1) = arp a).
  { unfold s1. destruct (is_some (currentOscillator a)).
    - destruct (cleanup_state a b) as (C1 & C2 & C3 & C4).
      repeat split; congruence.
    - repeat split; assumption. }
  clearbody s1. destruct s1 as [a1 b1]. cbn [fst snd] in H1.
  destruct H1 as (C1 & C2 & C3 & C4).
  destruct (create_voice_ok frequency a1 b1 m C2) as ([[osc flt] g] & b2 & E & Ho).
  rewrite E. exists (nextNode b1). cbv zeta. cbn [fst snd]. cbn.
  repeat split; try assumption. rewrite Ho, C1. reflexivity.
Qed.

Lemma arpStep_ok base pat m a b :
  pat <> [] -> sequencing base pat m a ->
  exists n,
    let s := _arpStep (a, b) in
    let f := stepFrequency base pat (currentStep (arp a)) in
    currentNoteFrequency (fst s) = Some f
    /\ oscillators (snd s) = oscillators b ++ [(n, f)]
    /\ currentStep (arp (fst s)) = S (currentStep (arp a))
    /\ sequencing base pat m (fst s).
Proof.
  intros Hp (Ha & Hpat & (note & Hn & Hf) & Hc & Hm). unfold _arpStep.
  rewrite Ha, Hpat, Hn, Hf.
  assert (Hlen : Nat.eqb (List.length pat) 0 = false).
  { destruct pat; [congruence | reflexivity]. }
  rewrite Hlen. cbn [andb negb].
  pose proof (noteFrequency_positive _ _ Hf) as Hb.
  pose proof (stepFrequency_positive base pat (currentStep (arp a)) Hb) as Hs.
  destruct (playArpNote_ok (stepFrequency base pat (currentStep (arp a))) a b m)
    as (n & P); [lra | exact Hc | exact Hm |].
  cbv zeta in P. destruct (_playArpNote _ (a, b)) as [a1 b1]. cbn [fst snd] in P.
  destruct P as (P1 & P2 & P3 & P4 & P5).
  exists n. cbv zeta. cbn [fst snd]. cbn. rewrite P3.
  repeat split; try assumption. exists note. split; assumption.
Qed.

Lemma arpSteps_ok base pat m a b n :
  pat <> [] -> sequencing base pat m a -> currentStep (arp a) = 0%nat ->
  let s := Nat.iter n _arpStep (a, b) in
  played (snd s) = played b ++ map (reference_frequency base pat) (List.seq 0 n)
  /\ currentStep (arp (fst s)) = n
  /\ sequencing base pat m (fst s).
Proof.
  intros Hp Hs H0. induction n as [|n IH].
  - cbv zeta. cbn [Nat.iter nat_rect fst snd List.seq map]. rewrite app_nil_r.
    split; [reflexivity | split; [exact H0 | exact Hs]].
  - cbv zeta in *. cbn [Nat.iter nat_rect].
    change (nat_rect (fun _ => St) (a, b) (fun _ => _arpStep) n)
      with (Nat.iter n _arpStep (a, b)) in *.
    destruct (Nat.iter n _arpStep (a, b)) as [a1 b1]. cbn [fst snd] in IH.
    destruct IH as (I1 & I2 & I3).
    destruct (arpStep_ok base pat m a1 b1 Hp I3) as (node & S).
    cbv zeta in S. destruct (_arpStep (a1, b1)) as [a2 b2]. cbn [fst snd] in *.
    destruct S as (S1 & S2 & S3 & S4).
    split; [|split; [lia | exact S4]].
    unfold played in *. rewrite S2, map_app, I1, seq_S, map_app, <- app_assoc.
    cbn [map snd Nat.add]. rewrite I2, stepFrequency_value. reflexivity.
Qed.

Lemma pow_bounds (x lo hi : R) (n : nat) (c : R) :
  0 < x -> 0 <= lo -> 0 <= hi -> x ^ n = c -> lo ^ n < c -> c < hi ^ n ->
  lo < x < hi.
Proof.
  intros Hx Hlo Hhi Hc Hl Hh. split.
  - destruct (Rlt_le_dec lo x) as [|Hle]; [assumption|].
    pose proof (pow_incr x lo n (conj (Rlt_le _ _ Hx) Hle)). lra.
  - destruct (Rlt_le_dec x hi) as [|Hle]; [assumption|].
    pose proof (pow_incr hi x n (conj Hhi Hle)). lra.
Qed.

Lemma two_to_twelfths (k : nat) :
  powerRZ (Rpower 2 (1 / 12)) (Z.of_nat k) = Rpower 2 (INR k / 12).
Proof.
  rewrite powerRZ_Rpower by (unfold Rpower; apply exp_pos).
  rewrite <- INR_IZR_INZ, Rpower_mult. f_equal. lra.
Qed.

Lemma third_of_octave : 1.2599205 < Rpower 2 (4 / 12) < 1.2599215.
Proof.
  apply (pow_bounds _ _ _ 3 2); try lra.
  - unfold Rpower. apply exp_pos.
  - rewrite <- Rpower_pow by (unfold Rpower; apply exp_pos).
    rewrite Rpower_mult. replace (4 / 12 * INR 3) with 1 by (cbn; lra).
    apply Rpower_1. lra.
Qed.

Lemma fifth_of_octave : 1.4983070 < Rpower 2 (7 / 12) < 1.4983071.
Proof.
  apply (pow_bounds _ _ _ 12 128); try lra.
  - unfold Rpower. apply exp_pos.
  - rewrite <- Rpower_pow by (unfold Rpower; apply exp_pos).
    rewrite Rpower_mult. replace (7 / 12 * INR 12) with (INR 7) by (cbn; lra).
    rewrite Rpower_pow by lra. lra.
Qed.

(** C2: a running sequence plays, at step [k], the base frequency times
    the semitone ratio 2^(1/12) to the power [pattern[k mod length]]; with
    pattern [0, 4, 7] on A4 the first four steps are 440, 440 * 2^(4/12)
    (554.37 to two decimals), 440 * 2^(7/12) (659.26) and 440 again. *)
Theorem arpeggiator_step_frequencies :
  (forall base pat m a b n,
      pat <> [] -> sequencing base pat m a -> currentStep (arp a) = 0%nat ->
      let s := Nat.iter n _arpStep (a, b) in
      played (snd s) = played b ++ map (reference_frequency base pat) (List.seq 0 n)
      /\ (forall b', currentNoteFrequency (fst (_arpStep (fst s, b')))
                     = Some (reference_frequency base pat n)))
  /\ noteFrequency "A4" = Some 440
  /\ reference_frequency 440 [0; 4; 7]%Z 0 = 440
  /\ reference_frequency 440 [0; 4; 7]%Z 1 = 440 * Rpower 2 (4 / 12)
  /\ Rabs (reference_frequency 440 [0; 4; 7]%Z 1 - 554.37) <= 0.005
  /\ reference_frequency 440 [0; 4; 7]%Z 2 = 440 * Rpower 2 (7 / 12)
  /\ Rabs (reference_frequency 440 [0; 4; 7]%Z 2 - 659.26) <= 0.005
  /\ reference_frequency 440 [0; 4; 7]%Z 3 = 440.
Proof.
  split.
  { intros base pat m a b n Hp Hs H0.
    destruct (arpSteps_ok base pat m a b n Hp Hs H0) as (A1 & A2 & A3).
    cbv zeta. split; [exact A1|]. intros b'.
    destruct (arpStep_ok base pat m _ b' Hp A3) as (node & S).
    cbv zeta in S. destruct S as (S1 & _). rewrite S1, A2, stepFrequency_value.
    reflexivity. }
  assert (E1 : reference_frequency 440 [0; 4; 7]%Z 1 = 440 * Rpower 2 (4 / 12)).
  { unfold reference_frequency.
    change (nth (1 mod List.length [0; 4; 7]%Z) [0; 4; 7]%Z 0%Z) with (Z.of_nat 4).
    rewrite (two_to_twelfths 4). f_equal. f_equal. cbn. lra. }
  assert (E2 : reference_frequency 440 [0; 4; 7]%Z 2 = 440 * Rpower 2 (7 / 12)).
  { unfold reference_frequency.
    change (nth (2 mod List.length [0; 4; 7]%Z) [0; 4; 7]%Z 0%Z) with (Z.of_nat 7).
    rewrite (two_to_twelfths 7). f_equal. f_equal. cbn. lra. }
  pose proof third_of_octave as T. pose proof fifth_of_octave as F.
  repeat split.
  - rewrite noteFrequency_A4. f_equal. lra.
  - unfold reference_frequency.
    change (nth (0 mod List.length [0; 4; 7]%Z) [0; 4; 7]%Z 0%Z) with 0%Z.
    cbn [powerRZ]. lra.
  - exact E1.
  - rewrite E1. apply Rabs_le. lra.
  - exact E2.
  - rewrite E2. apply Rabs_le. lra.
  - unfold reference_frequency.
    change (nth (3 mod List.length [0; 4; 7]%Z) [0; 4; 7]%Z 0%Z) with 0%Z.
    cbn [powerRZ]. lra.
Qed.

Lemma arpeggiator_step_frequencies_witness :
  played (snd (Nat.iter 4 _arpStep (scenario_state, page 44100)))
  = map (reference_frequency 440.00 [0; 4; 7]%Z) [0; 1; 2; 3]%nat.
Proof.
  destruct (proj1 arpeggiator_step_frequencies 440.00 [0; 4; 7]%Z 1%nat
              scenario_state (page 44100) 4%nat) as [H _].
  - discriminate.
  - unfold sequencing. cbn [arp active pattern baseNote audioContext masterGain
                            scenario_state].
    repeat split. exists "A4"%string. split; [reflexivity | exact noteFrequency_A4].
  - reflexivity.
  - exact H.
Defined.

(** *** Band levels *)

Lemma sum_bin_uniform bd i v acc :
  uniform_sums (IZR v) acc -> uniform_sums (IZR v) (sum_bin bd i v acc).
Proof.
  intros (H1 & H2 & H3). unfold sum_bin, uniform_sums.
  destruct (i <=? bassEndIndex bd)%Z; [cbn; repeat split; lra|].
  destruct ((midStartIndex bd <=? i) && (i <=? midEndIndex bd))%Z;
    [cbn; repeat split; lra|].
  destruct ((highStartIndex bd <=? i) && (i <=? highEndIndex bd))%Z;
    [cbn; repeat split; lra|].
  repeat split; assumption.
Qed.

Lemma sum_bin_counts bd i v acc : counts_le acc (sum_bin bd i v acc).
Proof.
  unfold sum_bin, counts_le.
  destruct (i <=? bassEndIndex bd)%Z; [cbn; repeat split; lra|].
  destruct ((midStartIndex bd <=? i) && (i <=? midEndIndex bd))%Z;
    [cbn; repeat split; lra|].
  destruct ((highStartIndex bd <=? i) && (i <=? highEndIndex bd))%Z;
    [cbn; repeat split; lra|].
  repeat split; lra.
Qed.

Lemma sum_bins_uniform bd v n : forall i acc,
  uniform_sums (IZR v) acc ->
  uniform_sums (IZR v) (sum_bins bd i (repeat v n) acc).
Proof.
  induction n as [|n IH]; intros i acc H; cbn [repeat sum_bins].
  - exact H.
  - apply IH, sum_bin_uniform, H.
Qed.

Lemma sum_bins_counts bd data : forall i acc,
  counts_le acc (sum_bins bd i data acc).
Proof.
  induction data as [|v data IH]; intros i acc; cbn [sum_bins].
  - unfold counts_le. repeat split; lra.
  - specialize (IH (i + 1)%Z (sum_bin bd i v acc)).
    pose proof (sum_bin_counts bd i v acc) as C.
    unfold counts_le in *. repeat split; lra.
Qed.

(** A bin of a band, once reached by the loop, is counted in that band. *)
Lemma sum_bins_hit bd data : forall i acc j,
  (i <= j < i + Z.of_nat (List.length data))%Z ->
  ((j <= bassEndIndex bd)%Z ->
     bassCount acc + 1 <= bassCount (sum_bins bd i data acc))
  /\ ((bassEndIndex bd < j)%Z -> (midStartIndex bd <= j <= midEndIndex bd)%Z ->
     midCount acc + 1 <= midCount (sum_bins bd i data acc))
  /\ ((bassEndIndex bd < j)%Z -> (midEndIndex bd < j)%Z ->
      (highStartIndex bd <= j <= highEndIndex bd)%Z ->
     highCount acc + 1 <= highCount (sum_bins bd i data acc)).
Proof.
  induction data as [|v data IH]; intros i acc j Hj; cbn [List.length sum_bins] in *.
  - lia.
  - destruct (Z.eq_dec i j) as [<- | Hne].
    + pose proof (sum_bins_counts bd data (i + 1)%Z (sum_bin bd i v acc))
        as (C1 & C2 & C3).
      unfold sum_bin in *.
      repeat split; intros.
      * destruct (Z.leb_spec i (bassEndIndex bd)); [cbn in *; lra | lia].
      * destruct (Z.leb_spec i (bassEndIndex bd)); [lia|].
        destruct (Z.leb_spec (midStartIndex bd) i); [|lia].
        destruct (Z.leb_spec i (midEndIndex bd)); [cbn in *; lra | lia].
      * destruct (Z.leb_spec i (bassEndIndex bd)); [lia|].
        destruct (Z.leb_spec (midStartIndex bd) i);
          destruct (Z.leb_spec i (midEndIndex bd)); try lia; cbn [andb] in *.
        all: destruct (Z.leb_spec (highStartIndex bd) i); [|lia].
        all: destruct (Z.leb_spec i (highEndIndex bd)); [cbn in *; lra | lia].
    + destruct (IH (i + 1)%Z (sum_bin bd i v acc) j) as (I1 & I2 & I3); [lia|].
      pose proof (sum_bin_counts bd i v acc) as (C1 & C2 & C3).
      repeat split; intros.
      * specialize (I1 ltac:(assumption)). lra.
      * specialize (I2 ltac:(assumption) ltac:(assumption)). lra.
      * specialize (I3 ltac:(assumption) ltac:(assumption) ltac:(assumption)). lra.
Qed.

Lemma bands_ordered (sampleRate : R) :
  4016 <= sampleRate <= 896000 -> ordered (bands sampleRate 256) 256.
Proof.
  intros Hsr. unfold bands, ordered, JS.Math_floor.
  cbn [bassEndIndex midStartIndex midEndIndex highStartIndex highEndIndex].
  set (t := / sampleRate).
  assert (Ht : / 896000 <= t <= / 4016).
  { unfold t. split; apply Rinv_le_contravar; lra. }
  assert (Hb : 250 / (sampleRate / 2) * 256 = 128000 * t) by (unfold t; field; lra).
  assert (Hm : 2000 / (sampleRate / 2) * 256 = 1024000 * t) by (unfold t; field; lra).
  assert (Hh : 6000 / (sampleRate / 2) * 256 = 3072000 * t) by (unfold t; field; lra).
  rewrite Hb, Hm, Hh.
  pose proof (Zfloor_bound (128000 * t)) as Fb.
  pose proof (Zfloor_bound (1024000 * t)) as Fm.
  pose proof (Zfloor_bound (3072000 * t)) as Fh.
  assert (Zb : (0 <= Zfloor (128000 * t))%Z).
  { apply Zfloor_lub. lra. }
  assert (Zbm : (Zfloor (128000 * t) < Zfloor (1024000 * t))%Z).
  { apply lt_IZR. lra. }
  assert (Zmh : (Zfloor (1024000 * t) < Zfloor (3072000 * t))%Z).
  { apply lt_IZR. lra. }
  assert (Zm : (Zfloor (1024000 * t) < 255)%Z).
  { apply lt_IZR. lra. }
  lia.
Qed.

Lemma Rpower_above (x e : R) : 0 < x <= 1 -> 0 < e <= 1 -> x <= Rpower x e.
Proof.
  intros Hx He. unfold Rpower.
  assert (Hln : ln x <= 0).
  { destruct (Req_dec_T x 1) as [-> | Hne]; [rewrite ln_1; lra|].
    pose proof (ln_increasing x 1 ltac:(lra) ltac:(lra)) as H. rewrite ln_1 in H. lra. }
  assert (Hle : ln x <= e * ln x) by nra.
  rewrite <- (exp_ln x) at 1 by lra.
  destruct Hle as [Hlt | Heq].
  - left. apply exp_increasing, Hlt.
  - right. rewrite <- Heq. reflexivity.
Qed.

(** A non-empty band of bins at 255 saturates its level. *)
Lemma level_saturates (sum count e gain : R) :
  sum = 255 * count -> 1 <= count -> 0 < e <= 1 -> 1.4 <= gain ->
  JS.Math_min 1.0
    (JS.Math_max 0.0 (JS.Math_pow (sum / (count + 1e-6) / 255.0) e * gain)) = 1.
Proof.
  intros -> Hc He Hg.
  replace 255.0 with 255 by lra.
  set (eps := 1e-6). assert (Heps : 0 < eps <= 1e-6) by (unfold eps; lra).
  clearbody eps.
  set (avg := 255 * count / (count + eps) / 255).
  assert (Havg : avg = count / (count + eps)) by (unfold avg; field; lra).
  assert (Hlo : / (1 + eps) <= avg).
  { rewrite Havg. apply (Rmult_le_reg_r (count + eps)); [lra|].
    unfold Rdiv. rewrite Rmult_assoc, Rinv_l, Rmult_1_r by lra.
    apply (Rmult_le_reg_l (1 + eps)); [lra|].
    rewrite <- Rmult_assoc, Rinv_r, Rmult_1_l by lra. nra. }
  assert (Hlo' : 0.99 < / (1 + eps)).
  { apply (Rmult_lt_reg_l (1 + eps)); [lra|]. rewrite Rinv_r by lra. nra. }
  assert (Hhi : avg <= 1).
  { rewrite Havg. apply (Rmult_le_reg_r (count + eps)); [lra|].
    unfold Rdiv. rewrite Rmult_assoc, Rinv_l by lra. lra. }
  assert (Hp : avg <= JS.Math_pow avg e).
  { unfold JS.Math_pow, JS.eqb, JS.lt.
    destruct (Req_dec_T e 0); [lra|].
    destruct (Rlt_dec 0 avg); [|lra].
    apply Rpower_above; lra. }
  unfold JS.Math_min, JS.Math_max.
  assert (1 <= JS.Math_pow avg e * gain) by nra.
  rewrite Rmax_right by lra. rewrite Rmin_left by lra. lra.
Qed.

(** A band of silent bins, empty or not, has level zero. *)
Lemma level_silent (sum count e gain : R) :
  sum = 0 * count -> e <> 0 ->
  JS.Math_min 1.0
    (JS.Math_max 0.0 (JS.Math_pow (sum / (count + 1e-6) / 255.0) e * gain)) = 0.
Proof.
  intros -> He.
  replace (0 * count / (count + 1e-6) / 255.0) with 0
    by (unfold Rdiv; rewrite !Rmult_0_l; reflexivity).
  unfold JS.Math_pow, JS.eqb, JS.lt.
  destruct (Req_dec_T e 0); [contradiction|].
  destruct (Rlt_dec 0 0); [lra|].
  destruct (Req_dec_T 0 0); [|lra].
  unfold JS.Math_min, JS.Math_max.
  rewrite Rmult_0_l. rewrite Rmax_right by lra. rewrite Rmin_right by lra.
  reflexivity.
Qed.

(** The exponents [getAudioLevels] hands to [Math.pow] are legitimate. *)
Lemma level_pow_defined (sum count e : R) :
  0 <= sum -> 0 <= count -> 0 < e ->
  JS.pow_defined (sum / (count + 1e-6) / 255.0) e.
Proof.
  intros Hs Hc He. unfold JS.pow_defined.
  assert (H : 0 <= sum / (count + 1e-6) / 255.0).
  { apply Rmult_le_pos; [|lra]. apply Rmult_le_pos; [exact Hs|].
    left. apply Rinv_0_lt_compat. lra. }
  destruct H as [H | H]; [right; left; exact H | right; right; left; split; [auto | exact He]].
Qed.

Lemma uniform_buffer_sums (v : Z) (sampleRate : R) :
  let bd := bands sampleRate (Z.of_nat frequencyBinCount) in
  let sums :=
    sum_bins bd 0 (repeat v frequencyBinCount)
      {| bassSum := 0; midSum := 0; highSum := 0;
         bassCount := 0; midCount := 0; highCount := 0 |} in
  uniform_sums (IZR v) sums
  /\ (0 <= bassCount sums /\ 0 <= midCount sums /\ 0 <= highCount sums)
  /\ (ordered bd (Z.of_nat frequencyBinCount) ->
      1 <= bassCount sums /\ 1 <= midCount sums /\ 1 <= highCount sums).
Proof.
  intros bd sums. split; [|split].
  - apply sum_bins_uniform. unfold uniform_sums. cbn. repeat split; lra.
  - pose proof (sum_bins_counts bd (repeat v frequencyBinCount) 0
                  {| bassSum := 0; midSum := 0; highSum := 0;
                     bassCount := 0; midCount := 0; highCount := 0 |}) as C.
    unfold counts_le in C. cbn [bassCount midCount highCount] in C. exact C.
  - intros (O1 & O2 & O3 & O4 & O5 & O6).
    assert (Hlen : Z.of_nat (List.length (repeat v frequencyBinCount))
                   = Z.of_nat frequencyBinCount) by (rewrite repeat_length; reflexivity).
    set (acc0 := {| bassSum := 0; midSum := 0; highSum := 0;
                    bassCount := 0; midCount := 0; highCount := 0 |}) in *.
    destruct (sum_bins_hit bd (repeat v frequencyBinCount) 0 acc0 0) as (B & _ & _);
      [rewrite Hlen; cbn; lia|].
    destruct (sum_bins_hit bd (repeat v frequencyBinCount) 0 acc0 (midStartIndex bd))
      as (_ & M & _); [rewrite Hlen; lia|].
    destruct (sum_bins_hit bd (repeat v frequencyBinCount) 0 acc0 (highStartIndex bd))
      as (_ & _ & H); [rewrite Hlen; lia|].
    specialize (B O1). specialize (M ltac:(lia) ltac:(lia)).
    specialize (H ltac:(lia) ltac:(lia) ltac:(lia)).
    unfold acc0 in *. cbn [bassCount midCount highCount] in *.
    fold sums in B, M, H. repeat split; lra.
Qed.

(** C8: with every bin at 255 the three levels are 1, with every bin at
    0 they are 0.  The first needs each band to hold a bin, which is so
    for the sample rates audio hardware has (here 4016 Hz to 896 kHz). *)
Theorem getAudioLevels_extremes :
  forall a b,
    isInitialized a = true -> analyser a <> None -> audioContext a = true ->
    (4016 <= sampleRate b <= 896000 ->
       let l := getAudioLevels (repeat 255%Z frequencyBinCount) (a, b) in
       bass l = 1 /\ mid l = 1 /\ high l = 1)
    /\ (let l := getAudioLevels (repeat 0%Z frequencyBinCount) (a, b) in
        bass l = 0 /\ mid l = 0 /\ high l = 0).
Proof.
  intros a b Hi Ha Hc.
  assert (Hguard : negb (isInitialized a) || negb (is_some (analyser a))
                   || negb (audioContext a) = false).
  { rewrite Hi, Hc. destruct (analyser a); [reflexivity | congruence]. }
  split.
  - intros Hsr. unfold getAudioLevels. rewrite Hguard. cbv zeta.
    rewrite repeat_length.
    destruct (uniform_buffer_sums 255 (sampleRate b)) as ((U1 & U2 & U3) & _ & Hn).
    cbv zeta in *.
    destruct Hn as (N1 & N2 & N3); [apply bands_ordered, Hsr|].
    cbn [bass mid high].
    repeat split; apply level_saturates; try assumption; lra.
  - unfold getAudioLevels. rewrite Hguard. cbv zeta. rewrite repeat_length.
    destruct (uniform_buffer_sums 0 (sampleRate b)) as ((U1 & U2 & U3) & _ & _).
    cbv zeta in *. cbn [bass mid high].
    repeat split; apply level_silent; try assumption; lra.
Qed.

Lemma getAudioLevels_extremes_witness :
  bass (getAudioLevels (repeat 255%Z frequencyBinCount) (scenario_state, page 44100)) = 1
  /\ high (getAudioLevels (repeat 0%Z frequencyBinCount) (scenario_state, page 44100)) = 0.
Proof.
  destruct (getAudioLevels_extremes scenario_state (page 44100)) as [Hfull Hzero].
  - reflexivity.
  - discriminate.
  - reflexivity.
  - split.
    + apply Hfull. cbn [sampleRate page]. lra.
    + apply Hzero.
Defined.

(** Below 4016 Hz the high band holds no bin, and its level stays 0 on a
    buffer of 255s: the bound on the sample rate is needed. *)
Lemma high_band_can_be_empty :
  let bd := bands 3000 (Z.of_nat frequencyBinCount) in
  (highEndIndex bd < highStartIndex bd)%Z.
Proof.
  unfold bands, JS.Math_floor.
  cbn [highEndIndex highStartIndex midEndIndex].
  assert (Hm : (255 <= Zfloor (2000 / (3000 / 2) * IZR (Z.of_nat frequencyBinCount)))%Z).
  { apply Zfloor_lub. change (Z.of_nat frequencyBinCount) with 256%Z. lra. }
  change (Z.of_nat frequencyBinCount) with 256%Z in *. lia.
Qed.

(** C9: in every reachable state the sequencer's handle is non-null
    exactly when a step timer is armed, at most one timer is armed, and
    [_startArpeggiator] does nothing while the handle is non-null. *)
Theorem arpeggiator_single_timer :
  forall w, reachable w ->
    timer_invariant w
    /\ (List.length (intervals (browser w)) <= 1)%nat
    /\ (forall a, audioState w = Some a ->
          (intervalId (arp a) <> None <-> intervals (browser w) <> []))
    /\ (forall a, audioState w = Some a -> intervalId (arp a) <> None ->
          _startArpeggiator (a, browser w) = (a, browser w)).
Proof.
  intros w Hr. destruct (reachable_invariants w Hr) as [Ht _].
  split; [exact Ht|]. unfold timer_invariant in Ht.
  split; [|split].
  - rewrite Ht. destruct (audioState w) as [a|]; [|cbn; lia].
    destruct (intervalId (arp a)); cbn; lia.
  - intros a Ha. rewrite Ht, Ha.
    destruct (intervalId (arp a)); split; intros H; try congruence; discriminate.
  - intros a _ Hid. unfold _startArpeggiator.
    destruct (intervalId (arp a)); [|congruence].
    cbn [is_some]. rewrite orb_true_r. reflexivity.
Qed.

Lemma arpeggiator_single_timer_witness :
  exists w, new "vaporwave" (page 44100) = Some w /\ timer_invariant w.
Proof.
  destruct (new_vaporwave_exists 44100) as [w Hw].
  exists w. split; [exact Hw|].
  apply (arpeggiator_single_timer w).
  exact (reachable_new "vaporwave" 44100 w Hw).
Defined.

(** C10: on a live module [getPresetNames()] lists the four shipped
    presets in order, without ['default'], although ['default'] is a key
    of the preset store and [applyPresetAudio('default')] takes it. *)
Theorem getPresetNames_hides_default :
  forall w a, reachable w -> audioState w = Some a ->
    getPresetNames w =
      [ "vaporwave"; "ambient_drone"; "synthwave_lead"; "grimoire_pulse" ]%string
    /\ getPresetNames w =
         List.filter (fun name => negb (String.eqb name "default"))
           (map fst (presets a))
    /\ In "default"%string (map fst (presets a))
    /\ activePresetName (fst (applyPresetAudio "default" (a, browser w)))
         = "default"%string.
Proof.
  intros w a Hr Ha. destruct (reachable_invariants w Hr) as [_ Hs].
  unfold store_invariant in Hs. rewrite Ha in Hs.
  unfold getPresetNames. rewrite Ha, Hs.
  split; [reflexivity|]. split; [reflexivity|]. split.
  - cbn. left. reflexivity.
  - apply (applyPresetAudio_name "default" a (browser w) (as_preset defaultStructure)).
    rewrite Hs. reflexivity.
Qed.

Lemma getPresetNames_hides_default_witness :
  exists w, new "vaporwave" (page 44100) = Some w
            /\ getPresetNames w =
                 [ "vaporwave"; "ambient_drone"; "synthwave_lead";
                   "grimoire_pulse" ]%string.
Proof.
  destruct (new_vaporwave_exists 44100) as [w Hw].
  exists w. split; [exact Hw|].
  assert (Ha : exists a, audioState w = Some a).
  { unfold new in Hw. destruct (lookup _ _); [|discriminate].
    destruct (applyPresetAudio _ _) as [a b]. injection Hw as <-.
    exists a. reflexivity. }
  destruct Ha as [a Ha].
  apply (getPresetNames_hides_default w a (reachable_new "vaporwave" 44100 w Hw) Ha).
Defined.

(** *** Effect sends *)

Lemma connectEffects_unconnected src d a b :
  isInitialized a = true -> delayNode a = Some d -> connected src d b = false ->
  _connectEffectsToNode (Some src) (a, b) = (a, b).
Proof.
  intros Hi Hd Hc. unfold _connectEffectsToNode. rewrite Hi, Hd. cbn [negb].
  unfold try_catch, seq, disconnect_from. rewrite Hc. reflexivity.
Qed.

Lemma reroute_unconnected g d a b :
  isInitialized a = true -> currentGainNode a = Some g -> delayNode a = Some d ->
  connected g d b = false ->
  reroute (a, b) = (a, b).
Proof.
  intros Hi Hg Hd Hc. unfold reroute. rewrite Hg. cbn [is_some].
  apply (connectEffects_unconnected g d); assumption.
Qed.

(** C4: [_connectEffectsToNode] does not route a voice by the effects'
    flags.  Its first [disconnect] throws for a source that is not yet
    connected to the delay bus, and the one [try] block then skips every
    [connect]: the call changes nothing, and neither does a toggle of the
    delay or the reverb apart from the flag.  A started note is therefore
    connected to neither bus although both effects are active, and
    toggling the delay off and on again leaves it so. *)
Theorem effect_sends_are_never_made :
  (forall src d a b,
      isInitialized a = true -> delayNode a = Some d -> connected src d b = false ->
      _connectEffectsToNode (Some src) (a, b) = (a, b))
  /\ (forall g d a b effectName isActive,
        isInitialized a = true -> currentGainNode a = Some g ->
        delayNode a = Some d -> connected g d b = false ->
        effectName = "delay"%string \/ effectName = "reverb"%string ->
        snd (toggleEffect effectName isActive (a, b)) = b)
  /\ (exists w a,
        playing_A4 w /\ audioState w = Some a
        /\ currentGainNode a = Some 9%nat
        /\ delayNode a = Some 3%nat /\ reverbNode a = Some 5%nat
        /\ delay_active (delay (effects (parameters a))) = true
        /\ reverb_active (reverb (effects (parameters a))) = true
        /\ connected 9%nat 1%nat (browser w) = true
        /\ connected 9%nat 3%nat (browser w) = false
        /\ connected 9%nat 5%nat (browser w) = false
        /\ let w' := handle (ToggleEffect "delay" true)
                       (handle (ToggleEffect "delay" false) w) in
           browser w' = browser w
           /\ (exists a', audioState w' = Some a'
                          /\ delay_active (delay (effects (parameters a'))) = true)).
Proof.
  split; [exact connectEffects_unconnected|]. split.
  - intros g d a b effectName isActive Hi Hg Hd Hc [-> | ->];
      unfold toggleEffect; cbn [String.eqb Ascii.eqb Bool.eqb].
    + destruct (Bool.eqb _ isActive); [reflexivity|].
      rewrite (reroute_unconnected g d); [reflexivity | | | |]; assumption.
    + destruct (Bool.eqb _ isActive); [reflexivity|].
      rewrite (reroute_unconnected g d); [reflexivity | | | |]; assumption.
  - unfold playing_A4.
    eexists. eexists. split.
    + eexists. split; reflexivity.
    + lazy -[noteFrequency IZR Q2R]. rewrite noteFrequency_A4.
      lazy -[noteFrequency IZR Q2R].
      repeat split. eexists. split; reflexivity.
Qed.

Lemma effect_sends_are_never_made_witness :
  _connectEffectsToNode (Some 9%nat) (scenario_state, page 44100)
  = (scenario_state, page 44100)
  /\ snd (toggleEffect "delay" true
            (with_currentGainNode (Some 9%nat) scenario_state, page 44100))
     = page 44100.
Proof.
  destruct effect_sends_are_never_made as (A & B & _). split.
  - apply (A 9%nat 3%nat scenario_state (page 44100)); reflexivity.
  - apply (B 9%nat 3%nat (with_currentGainNode (Some 9%nat) scenario_state)
             (page 44100) "delay"%string true); try reflexivity.
    left. reflexivity.
Defined.

End SoundFacts.

(* --------------------------------------------------------------------- *)
(** ** The render-state engine *)
(* --------------------------------------------------------------------- *)

Section CoreFacts.
Import Core.
Local Open Scope string_scope.

(** *** Property tables *)

Lemma lookup_assign_same {A} key (v : A) o : lookup key (assign key v o) = Some v.
Proof.
  induction o as [|[k x] o IH]; cbn.
  - rewrite String.eqb_refl. reflexivity.
  - destruct (String.eqb k key) eqn:E; cbn; rewrite E; [reflexivity | exact IH].
Qed.

Lemma lookup_assign_other {A} key key' (v : A) o :
  key' <> key -> lookup key (assign key' v o) = lookup key o.
Proof.
  intros Hne. induction o as [|[k x] o IH]; cbn.
  - destruct (String.eqb_spec key' key); [contradiction | reflexivity].
  - destruct (String.eqb_spec k key'); cbn.
    + subst k. destruct (String.eqb_spec key' key); [contradiction | reflexivity].
    + destruct (String.eqb k key); [reflexivity | exact IH].
Qed.

(** *** [updateParameters] raises the rebuild flag *)

(** What a turn of the loop for another key leaves alone. *)
Lemma update_key_other key key' v s flag s1 f1 :
  key' <> key -> lookup key (props s) <> None ->
  update_key key' v (s, flag) = Some (s1, f1) ->
  lookup key (props s1) = lookup key (props s) /\ (flag = true -> f1 = true).
Proof.
  intros Hne Hin. unfold update_key.
  destruct (String.eqb key' "colorScheme").
  { destruct v; try (intros [= <- <-]; split; [reflexivity | trivial]).
    destruct (update_nested _ _ _ _). intros [= <- <-]. split; [reflexivity | trivial]. }
  destruct (String.eqb key' "audioLevels").
  { destruct v; try (intros [= <- <-]; split; [reflexivity | trivial]).
    destruct (update_nested _ _ _ _). intros [= <- <-]. split; [reflexivity | trivial]. }
  destruct (String.eqb key' "needsShaderUpdate").
  { intros [= <- <-]. split; [reflexivity | trivial]. }
  destruct (String.eqb key' "isRendering").
  { intros [= <- <-]. split; [reflexivity | trivial]. }
  destruct (String.eqb key' "_dirtyUniforms" || String.eqb key' "animationFrameId"
            || String.eqb key' "callbacks"); [discriminate|].
  destruct (lookup key' (props s)) as [current|] eqn:El.
  - destruct (strict_neq current v); [|intros [= <- <-]; split; [reflexivity | trivial]].
    intros [= <- <-]. split.
    + destruct (known_pattern key');
        [|destruct (String.eqb key' "dimensions" || String.eqb key' "currentNoteFrequency")];
        cbn; apply lookup_assign_other, Hne.
    + intros ->. reflexivity.
  - intros [= <- <-]. split; [reflexivity | trivial].
Qed.

Lemma update_key_rebuild key v s flag :
  key = "geometryType" \/ key = "projectionMethod" ->
  (exists current, lookup key (props s) = Some current /\ strict_neq current v = true) ->
  exists s1, update_key key v (s, flag) = Some (s1, true).
Proof.
  intros Hk (current & Hl & Hne). unfold update_key.
  destruct Hk as [-> | ->]; cbn [String.eqb Ascii.eqb Bool.eqb orb]; rewrite Hl, Hne;
    cbn [String.eqb Ascii.eqb Bool.eqb]; rewrite ?orb_true_r; eexists; reflexivity.
Qed.

Lemma fold_turn_None newParams : fold_left turn newParams None = None.
Proof. induction newParams as [|kv rest IH]; [reflexivity | exact IH]. Qed.

Lemma fold_update_flag newParams : forall s s1 f1,
  fold_left turn newParams (Some (s, true)) = Some (s1, f1) -> f1 = true.
Proof.
  induction newParams as [|[k v] rest IH]; intros s s1 f1; cbn [fold_left turn fst snd].
  - intros [= _ <-]. reflexivity.
  - destruct (update_key k v (s, true)) as [[s2 f2]|] eqn:E.
    + assert (f2 = true).
      { revert E. unfold update_key.
        destruct (String.eqb k "colorScheme").
        { destruct v; try (intros [= _ <-]; reflexivity).
          destruct (update_nested _ _ _ _). intros [= _ <-]. reflexivity. }
        destruct (String.eqb k "audioLevels").
        { destruct v; try (intros [= _ <-]; reflexivity).
          destruct (update_nested _ _ _ _). intros [= _ <-]. reflexivity. }
        destruct (String.eqb k "needsShaderUpdate"); [intros [= _ <-]; reflexivity|].
        destruct (String.eqb k "isRendering"); [intros [= _ <-]; reflexivity|].
        destruct (String.eqb k "_dirtyUniforms" || String.eqb k "animationFrameId"
                  || String.eqb k "callbacks"); [discriminate|].
        destruct (lookup k (props s)).
        - destruct (strict_neq _ _); intros [= _ <-]; reflexivity.
        - intros [= _ <-]. reflexivity. }
      subst f2. apply IH.
    + rewrite fold_turn_None. discriminate.
Qed.

Lemma fold_update_rebuild key v newParams : forall s flag s1 f1,
  key = "geometryType" \/ key = "projectionMethod" ->
  NoDup (map fst newParams) -> In (key, v) newParams ->
  (exists current, lookup key (props s) = Some current /\ strict_neq current v = true) ->
  fold_left turn newParams (Some (s, flag)) = Some (s1, f1) -> f1 = true.
Proof.
  induction newParams as [|[k x] rest IH]; intros s flag s1 f1 Hk Hnd Hin Hcur;
    cbn [fold_left turn fst snd map] in *.
  - contradiction.
  - inversion Hnd as [|? ? Hnotin Hnd']; subst.
    destruct Hin as [Heq | Hin].
    + injection Heq as -> ->.
      destruct (update_key_rebuild key v s flag Hk Hcur) as [s2 ->].
      apply fold_update_flag.
    + assert (Hne : k <> key).
      { intros ->. apply Hnotin. apply (in_map fst) in Hin. exact Hin. }
      destruct Hcur as (current & Hl & Hs).
      destruct (update_key k x (s, flag)) as [[s2 f2]|] eqn:E.
      * destruct (update_key_other key k x s flag s2 f2 Hne) as [Hsame _];
          [congruence | exact E |].
        apply IH; try assumption. exists current. split; [congruence | exact Hs].
      * rewrite fold_turn_None. discriminate.
Qed.

Lemma updateParameters_turns newParams s :
  updateParameters newParams s
  = match fold_left turn newParams (Some (s, false)) with
    | Some (s, shaderNeedsUpdate) =>
        Some (if shaderNeedsUpdate then with_needsShaderUpdate true s else s)
    | None => None
    end.
Proof. reflexivity. Qed.

Lemma updateParameters_rebuild key v newParams s s' :
  key = "geometryType" \/ key = "projectionMethod" ->
  NoDup (map fst newParams) -> In (key, v) newParams ->
  (exists current, lookup key (props s) = Some current /\ strict_neq current v = true) ->
  updateParameters newParams s = Some s' ->
  needsShaderUpdate s' = true.
Proof.
  intros Hk Hnd Hin Hcur. rewrite updateParameters_turns.
  pose proof (fold_update_rebuild key v newParams s false) as H.
  destruct (fold_left turn newParams (Some (s, false))) as [[s1 f1]|]; [|discriminate].
  rewrite (H s1 f1 Hk Hnd Hin Hcur eq_refl). intros [= <-]. reflexivity.
Qed.

(** *** One frame with the rebuild flag set *)

Lemma same_page_refl p : same_page p p.
Proof. repeat split. Qed.

Lemma same_page_trans p1 p2 p3 : same_page p1 p2 -> same_page p2 p3 -> same_page p1 p3.
Proof.
  intros (A1 & A2 & A3 & A4 & A5 & A6) (B1 & B2 & B3 & B4 & B5 & B6).
  repeat split; congruence.
Qed.

Lemma same_page_gl c p : same_page p (gl c p).
Proof. repeat split. Qed.

Lemma same_page_throw p : same_page p (throw p).
Proof. repeat split. Qed.

Lemma links_made_gl c p : links_made (gl c p) = (links_made p + is_link c)%nat.
Proof.
  unfold links_made, gl. cbn [calls with_calls].
  rewrite filter_app, length_app. destruct c; reflexivity.
Qed.

Lemma threw_true p p' : threw p p' = true -> uncaught p' <> uncaught p.
Proof. unfold threw. intros H. apply negb_true_iff, Nat.eqb_neq in H. exact H. Qed.

Lemma threw_false p p' : threw p p' = false -> uncaught p' = uncaught p.
Proof. unfold threw. intros H. apply negb_false_iff, Nat.eqb_eq in H. exact H. Qed.

Lemma compileShader_spec id m p :
  let '(ok, m', p') := _compileShader id m p in
  same_page p p' /\ links_made p' = links_made p
  /\ next_handle p' = next_handle p
  /\ currentProgramName m' = currentProgramName m
  /\ programs m' = programs m
  /\ (compiles p id = true -> ok = true).
Proof.
  unfold _compileShader.
  destruct (existsb _ _).
  - repeat split; auto.
  - change (compiles (gl (CompileShader id) p) id) with (compiles p id).
    destruct (compiles p id); repeat split; auto; try discriminate;
      rewrite links_made_gl; cbn; lia.
Qed.

(** Compiling throws nothing and leaves the projection manager alone. *)
Lemma compileShader_quiet id m p :
  uncaught (snd (_compileShader id m p)) = uncaught p
  /\ projectionManager (snd (fst (_compileShader id m p))) = projectionManager m.
Proof.
  unfold _compileShader. destruct (existsb _ _); [split; reflexivity|].
  destruct (compiles _ _); split; reflexivity.
Qed.

Lemma createProgram_spec name frag m p :
  let '(program, m', p') := _createProgram name frag m p in
  same_page p p' /\ links_made p' = S (links_made p)
  /\ currentProgramName m' = currentProgramName m
  /\ (links p name = true -> program <> None).
Proof.
  unfold _createProgram.
  destruct (lookup name (programs m)) as [old|].
  - change (links (gl (LinkProgram name)
              (with_next_handle (S (next_handle (gl (DeleteProgram (handle old)) p)))
                 (gl (DeleteProgram (handle old)) p))) name) with (links p name).
    destruct (links p name); (split; [repeat split|]); (split; [|split]);
      try reflexivity; try discriminate;
      rewrite ?links_made_gl; unfold links_made; cbn [calls with_next_handle gl with_calls];
      rewrite ?filter_app, ?length_app; cbn; lia.
  - change (links (gl (LinkProgram name) (with_next_handle (S (next_handle p)) p)) name)
      with (links p name).
    destruct (links p name); (split; [repeat split|]); (split; [|split]);
      try reflexivity; try discriminate;
      rewrite ?links_made_gl; unfold links_made; cbn [calls with_next_handle gl with_calls];
      rewrite ?filter_app, ?length_app; cbn; lia.
Qed.

Lemma createProgram_quiet name frag m p :
  uncaught (snd (_createProgram name frag m p)) = uncaught p
  /\ projectionManager (snd (fst (_createProgram name frag m p))) = projectionManager m.
Proof.
  unfold _createProgram.
  destruct (lookup name (programs m)); destruct (links _ _); split; reflexivity.
Qed.

(** The outcome of [createDynamicProgram], told from the oracles and from
    what the projection manager answers. *)
Lemma createDynamicProgram_spec name geom proj m p :
  let '(program, m', p') := createDynamicProgram name geom proj m p in
  same_page p p'
  /\ (program <> None -> links_made p' = S (links_made p) /\ uncaught p' = uncaught p)
  /\ (program = None -> (links_made p' <= S (links_made p))%nat)
  /\ (forall projection code,
        Registry.getProjection (Some proj) (projectionManager m)
        = Registry.Projection projection ->
        Registry.getShaderCode projection = Some code ->
        uncaught p' = uncaught p
        /\ (compiles p baseVertexShaderName = true ->
            compiles p ("fragment-adapted-base-" ++ proj) = true ->
            links p name = true -> program <> None))
  /\ (Registry.getProjection (Some proj) (projectionManager m) = Registry.Member ->
      compiles p baseVertexShaderName = true ->
      program = None /\ uncaught p' = S (uncaught p) /\ links_made p' = links_made p)
  /\ projectionManager m' = projectionManager m.
Proof.
  unfold createDynamicProgram.
  pose proof (compileShader_spec baseVertexShaderName m p) as V.
  pose proof (compileShader_quiet baseVertexShaderName m p) as Vq.
  destruct (_compileShader baseVertexShaderName m p) as [[ok1 m1] p1].
  destruct V as (V1 & V2 & V3 & V4 & V5 & V6). cbn [fst snd] in Vq.
  destruct Vq as [Vu Vm].
  destruct ok1; cbn [negb].
  2: { split; [exact V1|]. split; [intros []; reflexivity|]. split; [intros _; lia|].
       split; [|split; [|exact Vm]].
       - intros projection code _ _. split; [exact Vu|].
         intros Hc. specialize (V6 Hc). discriminate.
       - intros _ Hc. specialize (V6 Hc). discriminate. }
  rewrite Vm.
  destruct (Registry.getProjection (Some proj) (projectionManager m))
    as [projection | |] eqn:G.
  3: { split; [exact V1|]. split; [intros []; reflexivity|]. split; [intros _; lia|].
       split; [|split; [|exact Vm]]; [intros ? ? [=] | intros [=]]. }
  2: { split; [eapply same_page_trans; [exact V1 | apply same_page_throw]|].
       split; [intros []; reflexivity|].
       split; [intros _; change (links_made (throw p1)) with (links_made p1); lia|].
       split; [intros ? ? [=]|]. split; [|exact Vm].
       intros _ _. split; [reflexivity|].
       split; [cbn; congruence | exact V2]. }
  destruct (Registry.getShaderCode projection) as [projectionGLSL|] eqn:Gc.
  2: { split; [eapply same_page_trans; [exact V1 | apply same_page_throw]|].
       split; [intros []; reflexivity|].
       split; [intros _; change (links_made (throw p1)) with (links_made p1); lia|].
       split; [|split; [intros [=] | exact Vm]].
       intros projection' code [= <-]. congruence. }
  pose proof (compileShader_spec ("fragment-adapted-base-" ++ proj) m1 p1) as F.
  pose proof (compileShader_quiet ("fragment-adapted-base-" ++ proj) m1 p1) as Fq.
  destruct (_compileShader ("fragment-adapted-base-" ++ proj) m1 p1) as [[ok2 m2] p2].
  destruct F as (F1 & F2 & F3 & F4 & F5 & F6). cbn [fst snd] in Fq.
  destruct Fq as [Fu Fm].
  assert (S12 : same_page p p2) by (eapply same_page_trans; eassumption).
  destruct ok2; cbn [negb].
  2: { split; [exact S12|]. split; [intros []; reflexivity|]. split; [intros _; lia|].
       split; [|split; [intros [=] | congruence]].
       intros _ _ _ _. split; [congruence|].
       intros _ Hc. destruct V1 as (_ & Vc & _). rewrite <- Vc in Hc.
       specialize (F6 Hc). discriminate. }
  pose proof (createProgram_spec name ("fragment-adapted-base-" ++ proj) m2 p2) as P.
  pose proof (createProgram_quiet name ("fragment-adapted-base-" ++ proj) m2 p2) as Pq.
  destruct (_createProgram name ("fragment-adapted-base-" ++ proj) m2 p2)
    as [[program m3] p3].
  destruct P as (P1 & P2 & P3 & P4). cbn [fst snd] in Pq. destruct Pq as [Pu Pm].
  assert (S13 : same_page p p3) by (eapply same_page_trans; eassumption).
  assert (L : links_made p3 = S (links_made p)) by congruence.
  assert (U : uncaught p3 = uncaught p) by congruence.
  assert (M : projectionManager m3 = projectionManager m) by congruence.
  assert (Hl : links p name = true -> program <> None).
  { intros Hl. apply P4. destruct S12 as (_ & _ & Sl & _). rewrite Sl. exact Hl. }
  destruct program as [pr|].
  - destruct (name_is (currentProgramName m3) name).
    + split; [eapply same_page_trans; [exact S13|]; repeat split|].
      split.
      { intros _. split; [|exact U]. unfold links_made in *.
        cbn [calls with_current_program gl with_calls].
        rewrite filter_app, length_app. cbn. lia. }
      split; [discriminate|].
      split; [intros _ _ _ _; split; [exact U | intros _ _ _; discriminate]|].
      split; [intros [=] | exact M].
    + split; [exact S13|]. split; [intros _; split; assumption|].
      split; [discriminate|].
      split; [intros _ _ _ _; split; [exact U | intros _ _ _; discriminate]|].
      split; [intros [=] | exact M].
  - destruct (name_is (currentProgramName m3) name).
    + split; [exact S13|]. split; [intros []; reflexivity|]. split; [intros _; lia|].
      split; [intros _ _ _ _; split; [exact U | intros _ _; exact Hl]|].
      split; [intros [=] | exact M].
    + split; [exact S13|]. split; [intros []; reflexivity|]. split; [intros _; lia|].
      split; [intros _ _ _ _; split; [exact U | intros _ _; exact Hl]|].
      split; [intros [=] | exact M].
Qed.

Lemma draws_made_gl c p : draws_made (gl c p) = (draws_made p + is_draw c)%nat.
Proof.
  unfold draws_made, gl. cbn [calls with_calls].
  rewrite filter_app, length_app. destruct c; reflexivity.
Qed.

Lemma silent_counts p p' :
  calls p' = calls p -> links_made p' = links_made p /\ draws_made p' = draws_made p.
Proof. intros H. unfold links_made, draws_made. rewrite H. split; reflexivity. Qed.

Lemma stop_spec c p :
  let (c', p') := stop (c, p) in
  isRendering (state c') = false
  /\ needsShaderUpdate (state c') = needsShaderUpdate (state c)
  /\ onError (state c') = onError (state c)
  /\ quadBuffer c' = quadBuffer c
  /\ (isRendering (state c) = true -> animationFrameId (state c') = None)
  /\ errors_reported p' = errors_reported p
  /\ calls p' = calls p.
Proof.
  unfold stop. destruct (isRendering (state c)) eqn:E; cbn [negb].
  - cbn. repeat split; trivial;
      destruct (animationFrameId (state c)) as [id|]; try reflexivity;
      unfold cancelAnimationFrame; destruct (frame_requested p) as [f|]; try reflexivity;
      destruct (Nat.eqb f id); reflexivity.
  - repeat split; trivial. discriminate.
Qed.

Lemma stop_quiet e : uncaught (snd (stop e)) = uncaught (snd e).
Proof.
  destruct e as [c p]. unfold stop. destruct (isRendering (state c)); [|reflexivity].
  cbn [negb snd]. destruct (animationFrameId (state c)) as [id|]; [|reflexivity].
  unfold cancelAnimationFrame. destruct (frame_requested p) as [f|]; [|reflexivity].
  destruct (Nat.eqb f id); reflexivity.
Qed.

Lemma useProgram_spec name m p :
  let (m', p') := useProgram name m p in
  same_page p p' /\ links_made p' = links_made p /\ draws_made p' = draws_made p.
Proof.
  unfold useProgram.
  destruct (lookup name (programs m)) as [program|].
  - destruct (current_program p) as [h|]; [destruct (Nat.eqb h (handle program))|];
      (split; [repeat split|]);
      unfold links_made, draws_made; cbn; rewrite ?filter_app, ?length_app; cbn; lia.
  - destruct (name_is _ _); repeat split.
Qed.

Lemma useProgram_quiet name m p : uncaught (snd (useProgram name m p)) = uncaught p.
Proof.
  unfold useProgram. destruct (lookup name (programs m)) as [program|].
  - destruct (current_program p) as [h|]; [destruct (Nat.eqb h (handle program))|];
      reflexivity.
  - destruct (name_is _ _); reflexivity.
Qed.

Ltac count_draws :=
  unfold draws_made;
  cbn [calls with_calls gl with_next_handle with_current_program throw with_uncaught];
  rewrite ?filter_app, ?length_app; cbn; lia.

Lemma compileShader_draws id m p :
  draws_made (snd (_compileShader id m p)) = draws_made p.
Proof.
  unfold _compileShader. destruct (existsb _ _); [reflexivity|].
  destruct (compiles _ _); cbn [snd]; count_draws.
Qed.

Lemma createProgram_draws name frag m p :
  draws_made (snd (_createProgram name frag m p)) = draws_made p.
Proof.
  unfold _createProgram.
  destruct (lookup name (programs m)); destruct (links _ _); cbn [snd]; count_draws.
Qed.

Lemma createDynamicProgram_draws name geom proj m p :
  draws_made (snd (createDynamicProgram name geom proj m p)) = draws_made p.
Proof.
  unfold createDynamicProgram.
  pose proof (compileShader_draws baseVertexShaderName m p) as V.
  destruct (_compileShader baseVertexShaderName m p) as [[ok1 m1] p1]. cbn [snd] in V.
  destruct ok1; cbn [negb]; [|exact V].
  destruct (Registry.getProjection _ _) as [projection | |]; [|exact V|exact V].
  destruct (Registry.getShaderCode projection) as [projectionGLSL|]; [|exact V].
  pose proof (compileShader_draws ("fragment-adapted-base-" ++ proj) m1 p1) as F.
  destruct (_compileShader ("fragment-adapted-base-" ++ proj) m1 p1) as [[ok2 m2] p2].
  cbn [snd] in F.
  destruct ok2; cbn [negb snd]; [|congruence].
  pose proof (createProgram_draws name ("fragment-adapted-base-" ++ proj) m2 p2) as P.
  destruct (_createProgram name ("fragment-adapted-base-" ++ proj) m2 p2)
    as [[program m3] p3].
  cbn [snd] in P.
  destruct program as [pr|]; destruct (name_is _ _); cbn [snd]; try congruence.
  rewrite <- V, <- F, <- P. count_draws.
Qed.

Lemma updateShader_spec c p :
  needsShaderUpdate (state c) = true ->
  let '(ready, (c', p')) := _updateShaderIfNeeded (c, p) in
  onError (state c') = onError (state c)
  /\ quadBuffer c' = quadBuffer c
  /\ draws_made p' = draws_made p
  /\ (ready = true ->
        needsShaderUpdate (state c') = false
        /\ isRendering (state c') = isRendering (state c)
        /\ links_made p' = S (links_made p)
        /\ errors_reported p' = errors_reported p
        /\ uncaught p' = uncaught p)
  /\ (ready = false -> uncaught p' = uncaught p ->
        needsShaderUpdate (state c') = true
        /\ isRendering (state c') = false
        /\ (isRendering (state c) = true -> animationFrameId (state c') = None)
        /\ errors_reported p' = (errors_reported p + reported c)%nat
        /\ (links_made p' <= S (links_made p))%nat)
  /\ (forall projection code,
        Registry.getProjection
          (Some (text (get "projectionMethod" (props (state c)))))
          (projectionManager (shaderManager c)) = Registry.Projection projection ->
        Registry.getShaderCode projection = Some code ->
        uncaught p' = uncaught p
        /\ (compiles p baseVertexShaderName = true ->
            compiles p ("fragment-adapted-base-"
                        ++ text (get "projectionMethod" (props (state c)))) = true ->
            links p (text (get "shaderProgramName" (props (state c)))) = true ->
            ready = true))
  /\ (Registry.getProjection
        (Some (text (get "projectionMethod" (props (state c)))))
        (projectionManager (shaderManager c)) = Registry.Member ->
      compiles p baseVertexShaderName = true ->
      ready = false
      /\ uncaught p' = S (uncaught p)
      /\ state c' = state c
      /\ errors_reported p' = errors_reported p
      /\ frame_requested p' = frame_requested p
      /\ links_made p' = links_made p).
Proof.
  intros Hflag. unfold _updateShaderIfNeeded. rewrite Hflag. cbn [negb].
  pose proof (createDynamicProgram_spec
                (text (get "shaderProgramName" (props (state c))))
                (text (get "geometryType" (props (state c))))
                (text (get "projectionMethod" (props (state c))))
                (shaderManager c) p) as D.
  pose proof (createDynamicProgram_draws
                (text (get "shaderProgramName" (props (state c))))
                (text (get "geometryType" (props (state c))))
                (text (get "projectionMethod" (props (state c))))
                (shaderManager c) p) as Dd.
  destruct (createDynamicProgram _ _ _ (shaderManager c) p) as [[program m1] p1].
  cbn [snd] in Dd.
  destruct D as ((_ & _ & _ & De & Df & Dn) & D2 & D3 & D4 & D5 & D6).
  destruct (threw p p1) eqn:T.
  { apply threw_true in T.
    cbn [state with_shaderManager quadBuffer].
    split; [reflexivity|]. split; [reflexivity|]. split; [exact Dd|].
    split; [discriminate|]. split; [intros _ Hu; contradiction|].
    split.
    - intros projection code G Gc. destruct (D4 projection code G Gc) as [Hu _].
      contradiction.
    - intros G Hc. destruct (D5 G Hc) as (K1 & K2 & K3).
      repeat split; assumption. }
  apply threw_false in T.
  destruct program as [pr|].
  - destruct (D2 ltac:(discriminate)) as [D2l D2u].
    cbn [shaderManager with_state with_shaderManager].
    pose proof (useProgram_spec (text (get "shaderProgramName" (props (state c)))) m1 p1)
      as U.
    pose proof (useProgram_quiet (text (get "shaderProgramName" (props (state c)))) m1 p1)
      as Uq.
    destruct (useProgram _ m1 p1) as [m2 p2]. cbn [snd] in Uq.
    destruct U as ((_ & _ & _ & Ue & _) & U1 & U2).
    destruct (getAttributeLocation "a_position" m2 p2) as [location m3].
    cbn [fst snd state with_state with_shaderManager with_aPositionLoc quadBuffer
         onError needsShaderUpdate isRendering with_dirty with_needsShaderUpdate].
    split; [reflexivity|]. split; [reflexivity|]. split; [congruence|].
    split; [intros _; repeat split; congruence|].
    split; [discriminate|].
    split; [intros _ _ _ _; split; [congruence | reflexivity]|].
    intros G Hc. destruct (D5 G Hc) as (K1 & _). discriminate.
  - specialize (D3 eq_refl).
    pose proof (stop_spec (with_shaderManager m1 c) (report (with_shaderManager m1 c) p1))
      as St.
    pose proof (stop_quiet (with_shaderManager m1 c, report (with_shaderManager m1 c) p1))
      as Sq.
    destruct (stop _) as [c2 p2].
    destruct St as (S1 & S2 & S3 & S4 & S5 & S6 & S7).
    destruct (silent_counts _ _ S7) as [S8 S9].
    cbn [state with_shaderManager quadBuffer fst snd] in *.
    assert (R : errors_reported (report (with_shaderManager m1 c) p1)
                = (errors_reported p + reported c)%nat
                /\ links_made (report (with_shaderManager m1 c) p1) = links_made p1
                /\ draws_made (report (with_shaderManager m1 c) p1) = draws_made p1
                /\ uncaught (report (with_shaderManager m1 c) p1) = uncaught p1).
    { unfold report, reported. cbn [state with_shaderManager].
      destruct (onError (state c)); cbn; repeat split; lia. }
    destruct R as (R1 & R2 & R3 & R4).
    split; [exact S3|]. split; [exact S4|]. split; [congruence|].
    split; [discriminate|].
    split; [intros _ _; repeat split; try congruence; try lia; exact S5|].
    split.
    + intros projection code G Gc. destruct (D4 projection code G Gc) as [Hu Ho].
      split; [congruence|]. intros Hv Hf Hl. exfalso. apply (Ho Hv Hf Hl). reflexivity.
    + intros G Hc. destruct (D5 G Hc) as (_ & K2 & _). lia.
Qed.

Lemma idle_refl e : idle e e.
Proof. repeat split. Qed.

Lemma idle_trans e1 e2 e3 : idle e1 e2 -> idle e2 e3 -> idle e1 e3.
Proof.
  intros (A1 & A2 & A3 & A4 & A5 & A6 & A7) (B1 & B2 & B3 & B4 & B5 & B6 & B7).
  repeat split; congruence.
Qed.

Lemma idle_upload name e : idle e (upload name e).
Proof.
  destruct e as [c p]. unfold upload.
  destruct (String.eqb name "u_time"); [apply idle_refl|].
  destruct (getUniformLocation name (shaderManager c) p) as [location m].
  destruct location; [|repeat split].
  cbn [state with_shaderManager].
  destruct (uniform_value name (state c)); unfold idle; cbn [fst snd];
    rewrite ?links_made_gl, ?draws_made_gl; cbn; repeat split; lia.
Qed.

Lemma idle_fold_upload names : forall e,
  idle e (fold_left (fun e uniformName => upload uniformName e) names e).
Proof.
  induction names as [|n names IH]; intros e; cbn [fold_left].
  - apply idle_refl.
  - eapply idle_trans; [apply idle_upload | apply IH].
Qed.

Lemma idle_setUniforms e : idle e (_setUniforms e).
Proof.
  destruct e as [c p]. unfold _setUniforms.
  pose proof (useProgram_spec (text (get "shaderProgramName" (props (state c))))
                (shaderManager c) p) as U.
  destruct (useProgram _ (shaderManager c) p) as [m1 p1].
  destruct U as ((_ & _ & _ & Ue & _) & U1 & U2).
  destruct (getUniformLocation "u_time" m1 p1) as [timeLoc m2].
  destruct timeLoc; (eapply idle_trans; [|apply idle_fold_upload]);
    unfold idle; cbn [fst snd state with_shaderManager with_state];
    rewrite ?links_made_gl, ?draws_made_gl; cbn; repeat split; lia.
Qed.

(** The uploads throw nothing and request no frame. *)
Lemma upload_quiet name e :
  uncaught (snd (upload name e)) = uncaught (snd e)
  /\ frame_requested (snd (upload name e)) = frame_requested (snd e).
Proof.
  destruct e as [c p]. unfold upload.
  destruct (String.eqb name "u_time"); [split; reflexivity|].
  destruct (getUniformLocation name (shaderManager c) p) as [location m].
  destruct location; [|split; reflexivity].
  cbn [state with_shaderManager].
  destruct (uniform_value name (state c)); split; reflexivity.
Qed.

Lemma fold_upload_quiet names : forall e,
  let e' := fold_left (fun e uniformName => upload uniformName e) names e in
  uncaught (snd e') = uncaught (snd e)
  /\ frame_requested (snd e') = frame_requested (snd e).
Proof.
  induction names as [|n names IH]; intros e; cbn [fold_left]; cbv zeta.
  - split; reflexivity.
  - destruct (upload_quiet n e) as [A B]. destruct (IH (upload n e)) as [A' B'].
    split; congruence.
Qed.

Lemma setUniforms_quiet e :
  uncaught (snd (_setUniforms e)) = uncaught (snd e)
  /\ frame_requested (snd (_setUniforms e)) = frame_requested (snd e).
Proof.
  destruct e as [c p]. unfold _setUniforms.
  pose proof (useProgram_spec (text (get "shaderProgramName" (props (state c))))
                (shaderManager c) p) as U.
  pose proof (useProgram_quiet (text (get "shaderProgramName" (props (state c))))
                (shaderManager c) p) as Uq.
  destruct (useProgram _ (shaderManager c) p) as [m1 p1]. cbn [snd] in Uq.
  destruct U as ((_ & _ & _ & _ & Uf & _) & _).
  destruct (getUniformLocation "u_time" m1 p1) as [timeLoc m2].
  destruct timeLoc.
  - destruct (fold_upload_quiet
                (_dirtyUniforms (state (with_shaderManager m2 c)))
                (with_shaderManager m2 c,
                 gl (Uniform "u_time" (get "time" (props (state (with_shaderManager m2 c)))))
                    p1)) as [A B].
    cbn [fst snd] in *. split; [rewrite A | rewrite B]; cbn; assumption.
  - destruct (fold_upload_quiet
                (_dirtyUniforms (state (with_state (mark "u_time" (state (with_shaderManager m2 c)))
                                          (with_shaderManager m2 c))))
                (with_state (mark "u_time" (state (with_shaderManager m2 c)))
                   (with_shaderManager m2 c), p1)) as [A B].
    cbn [fst snd] in *. split; [rewrite A | rewrite B]; assumption.
Qed.

Lemma get_set_prop_other key key' v s :
  key' <> key -> get key (props (set_prop key' v s)) = get key (props s).
Proof.
  intros Hne. unfold get, set_prop. cbn [props with_props].
  rewrite lookup_assign_other by exact Hne. reflexivity.
Qed.

Lemma frame_head_spec timestamp c p :
  let e := frame_head timestamp c p in
  idle (c, p) e
  /\ compiles (snd e) = compiles p
  /\ links (snd e) = links p
  /\ next_frame (snd e) = next_frame p
  /\ get "projectionMethod" (props (state (fst e)))
     = get "projectionMethod" (props (state c))
  /\ get "shaderProgramName" (props (state (fst e)))
     = get "shaderProgramName" (props (state c)).
Proof.
  unfold frame_head, _checkResize. cbv zeta.
  destruct (JS.truthy _);
    destruct (negb (JS.eqb (width p) (clientWidth p))
              || negb (JS.eqb (height p) (clientHeight p)));
    cbn [fst snd state with_state]; unfold idle; cbn [fst snd state with_state];
    unfold mark;
    cbn [needsShaderUpdate isRendering onError quadBuffer with_dirty set_prop with_props
         props compiles links next_frame with_size];
    unfold get; cbn [props with_props];
    repeat rewrite (lookup_assign_other "projectionMethod") by discriminate;
    repeat rewrite (lookup_assign_other "shaderProgramName") by discriminate;
    repeat split.
Qed.

(** The clock and the resize throw nothing, request no frame and leave
    the shader manager alone. *)
Lemma frame_head_quiet timestamp c p :
  let e := frame_head timestamp c p in
  uncaught (snd e) = uncaught p
  /\ frame_requested (snd e) = frame_requested p
  /\ shaderManager (fst e) = shaderManager c
  /\ animationFrameId (state (fst e)) = animationFrameId (state c).
Proof.
  unfold frame_head, _checkResize. cbv zeta.
  destruct (JS.truthy _);
    destruct (negb (JS.eqb (width p) (clientWidth p))
              || negb (JS.eqb (height p) (clientHeight p)));
    repeat split.
Qed.

Lemma render_unfold timestamp c p :
  isRendering (state c) = true -> contextLost p = false ->
  _render timestamp (c, p) =
    let e := frame_head timestamp c p in
    let (ready, e) :=
      if needsShaderUpdate (state (fst e)) then _updateShaderIfNeeded e else (true, e) in
    if negb ready then e else frame_tail e.
Proof.
  intros Hr Hl. unfold _render, frame_head, frame_tail. rewrite Hr, Hl. reflexivity.
Qed.

Lemma frame_tail_spec e :
  let e' := frame_tail e in
  needsShaderUpdate (state (fst e')) = needsShaderUpdate (state (fst e))
  /\ isRendering (state (fst e')) = isRendering (state (fst e))
  /\ links_made (snd e') = links_made (snd e)
  /\ errors_reported (snd e') = errors_reported (snd e)
  /\ (uncaught (snd e') = uncaught (snd e) ->
      animationFrameId (state (fst e')) = frame_requested (snd e')
      /\ frame_requested (snd e') <> None).
Proof.
  unfold frame_tail. cbv zeta.
  pose proof (idle_setUniforms e) as I.
  pose proof (setUniforms_quiet e) as [Q _].
  destruct (_setUniforms e) as [c1 p1].
  destruct I as (I1 & I2 & I3 & I4 & I5 & I6 & I7). cbn [fst snd] in *.
  destruct (negb (indexable (get "background" (colorScheme (state c1))))).
  { cbn [fst snd]. change (links_made (throw p1)) with (links_made p1).
    change (errors_reported (throw p1)) with (errors_reported p1).
    repeat split; try assumption; exfalso; cbn in *; lia. }
  destruct (quadBuffer c1 && aPositionLoc c1).
  - unfold requestAnimationFrame. cbn [fst snd state with_state].
    unfold links_made in *. cbn. rewrite !filter_app, !length_app. cbn.
    repeat split; try congruence; try lia; try discriminate.
  - destruct (negb (aPositionLoc c1)).
    + destruct (getAttributeLocation _ _ _) as [location m].
      unfold requestAnimationFrame. cbn [fst snd state with_state].
      unfold links_made in *. cbn. rewrite !filter_app, !length_app. cbn.
      repeat split; try congruence; try lia; try discriminate.
    + unfold requestAnimationFrame. cbn [fst snd state with_state].
      unfold links_made in *. cbn. rewrite !filter_app, !length_app. cbn.
      repeat split; try congruence; try lia; try discriminate.
Qed.

(** C5: a new geometry or projection name raises the rebuild flag.  When
    the projection manager answers the name in the state with a projection
    that has code, the next frame either relinks exactly once and clears
    the flag, or, the rebuild failing, stops the loop and runs the error
    callback once, with no draw call; it succeeds whenever the shaders
    compile and the program links.  When the manager answers with a member
    of the prototype chain of its registry, as a new manager does for the
    names [constructor] and [__proto__], the frame ends in an uncaught
    exception: nothing is linked, the flag stays set, the engine still
    counts as rendering, no error callback runs and no frame is
    requested. *)
Theorem rebuild_on_name_change :
  (forall key v newParams s s',
      key = "geometryType" \/ key = "projectionMethod" ->
      NoDup (map fst newParams) -> In (key, v) newParams ->
      (exists current,
          lookup key (props s) = Some current /\ strict_neq current v = true) ->
      updateParameters newParams s = Some s' ->
      needsShaderUpdate s' = true)
  /\ (forall timestamp c p programName projName projection code,
        isRendering (state c) = true -> contextLost p = false ->
        needsShaderUpdate (state c) = true ->
        get "shaderProgramName" (props (state c)) = Str programName ->
        Plain.inherited programName = false ->
        get "projectionMethod" (props (state c)) = Str projName ->
        Registry.getProjection (Some projName) (projectionManager (shaderManager c))
        = Registry.Projection projection ->
        Registry.getShaderCode projection = Some code ->
        let e' := _render timestamp (c, p) in
        (needsShaderUpdate (state (fst e')) = false ->
           links_made (snd e') = S (links_made p)
           /\ isRendering (state (fst e')) = true
           /\ errors_reported (snd e') = errors_reported p
           /\ (uncaught (snd e') = uncaught p -> frame_requested (snd e') <> None))
        /\ (needsShaderUpdate (state (fst e')) = true ->
             isRendering (state (fst e')) = false
             /\ animationFrameId (state (fst e')) = None
             /\ errors_reported (snd e') = (errors_reported p + reported c)%nat
             /\ draws_made (snd e') = draws_made p
             /\ (links_made (snd e') <= S (links_made p))%nat
             /\ uncaught (snd e') = uncaught p)
        /\ (compiles p baseVertexShaderName = true ->
             compiles p ("fragment-adapted-base-" ++ projName) = true ->
             links p programName = true ->
             needsShaderUpdate (state (fst e')) = false))
  /\ (forall timestamp c p projName,
        isRendering (state c) = true -> contextLost p = false ->
        needsShaderUpdate (state c) = true ->
        get "projectionMethod" (props (state c)) = Str projName ->
        Registry.getProjection (Some projName) (projectionManager (shaderManager c))
        = Registry.Member ->
        compiles p baseVertexShaderName = true ->
        let e' := _render timestamp (c, p) in
        uncaught (snd e') = S (uncaught p)
        /\ needsShaderUpdate (state (fst e')) = true
        /\ isRendering (state (fst e')) = true
        /\ animationFrameId (state (fst e')) = animationFrameId (state c)
        /\ errors_reported (snd e') = errors_reported p
        /\ links_made (snd e') = links_made p
        /\ draws_made (snd e') = draws_made p
        /\ frame_requested (snd e') = frame_requested p)
  /\ (forall projName,
        Plain.toLowerCase projName = "constructor"
        \/ Plain.toLowerCase projName = "__proto__" ->
        Registry.getProjection (Some projName) (Registry.new None) = Registry.Member).
Proof.
  split; [|split; [|split]].
  { intros key v newParams s s'. apply updateParameters_rebuild. }
  - intros timestamp c p programName projName projection code Hr Hl Hf Hn _ Hm G Gc.
    cbv zeta.
    rewrite (render_unfold timestamp c p Hr Hl). cbv zeta.
    pose proof (frame_head_spec timestamp c p) as H.
    pose proof (frame_head_quiet timestamp c p) as Q. cbv zeta in H, Q.
    destruct (frame_head timestamp c p) as [c1 p1].
    destruct H as ((I1 & I2 & I3 & I4 & I5 & I6 & I7) & Hc & Hk & Hnf & Hp & Hs).
    destruct Q as (Q1 & Q2 & Q3 & Q4).
    cbn [fst snd] in *.
    rewrite I1, Hf.
    pose proof (updateShader_spec c1 p1 ltac:(congruence)) as U.
    destruct (_updateShaderIfNeeded (c1, p1)) as [ready [c2 p2]].
    destruct U as (U1 & U2 & U3 & Uok & Ufail & Uoracle & _).
    rewrite Hp, Hs, Hm, Hn, Q3 in Uoracle. cbn [text] in Uoracle.
    destruct (Uoracle projection code G Gc) as [Uu Uo].
    assert (Hrep : reported c1 = reported c) by (unfold reported; rewrite I3; reflexivity).
    destruct ready; cbn [negb].
    + destruct (Uok eq_refl) as (K1 & K2 & K3 & K4 & K5).
      pose proof (frame_tail_spec (c2, p2)) as T. cbv zeta in T.
      destruct (frame_tail (c2, p2)) as [c3 p3]. cbn [fst snd] in *.
      destruct T as (T1 & T2 & T3 & T4 & T5).
      split; [|split].
      * intros _. repeat split; try congruence.
        intros Hu. apply T5. congruence.
      * intros Hx. congruence.
      * intros _ _ _. congruence.
    + destruct (Ufail eq_refl Uu) as (F1 & F2 & F3 & F4 & F5). cbn [fst snd].
      split; [|split].
      * intros Hx. congruence.
      * intros _. repeat split; try congruence; try lia.
        apply F3. congruence.
      * intros Hv Hfr Hlk. exfalso.
        rewrite Hc, Hk in Uo. specialize (Uo Hv Hfr Hlk). discriminate.
  - intros timestamp c p projName Hr Hl Hf Hm G Hv. cbv zeta.
    rewrite (render_unfold timestamp c p Hr Hl). cbv zeta.
    pose proof (frame_head_spec timestamp c p) as H.
    pose proof (frame_head_quiet timestamp c p) as Q. cbv zeta in H, Q.
    destruct (frame_head timestamp c p) as [c1 p1].
    destruct H as ((I1 & I2 & I3 & I4 & I5 & I6 & I7) & Hc & Hk & Hnf & Hp & Hs).
    destruct Q as (Q1 & Q2 & Q3 & Q4).
    cbn [fst snd] in *.
    rewrite I1, Hf.
    pose proof (updateShader_spec c1 p1 ltac:(congruence)) as U.
    destruct (_updateShaderIfNeeded (c1, p1)) as [ready [c2 p2]].
    destruct U as (U1 & U2 & U3 & _ & _ & _ & Ubug).
    rewrite Hp, Hm, Q3, Hc in Ubug. cbn [text] in Ubug.
    destruct (Ubug G Hv) as (-> & B2 & B3 & B4 & B5 & B6).
    cbn [negb fst snd]. rewrite B3.
    repeat split; congruence.
  - intros projName H. unfold Registry.getProjection.
    assert (E : String.eqb projName "" = false).
    { destruct projName; [destruct H as [H | H]; discriminate H | reflexivity]. }
    rewrite E. destruct H as [-> | ->]; reflexivity.
Qed.
(** *** The dirty set *)

Lemma in_add x name set : In x (add name set) -> In x set \/ x = name.
Proof.
  unfold add. destruct (existsb _ set); [left; assumption|].
  intros H. apply in_app_or in H. destruct H as [H | [H | []]]; [left | right]; auto.
Qed.

Lemma in_delete x name set : In x (delete name set) -> In x set /\ x <> name.
Proof.
  unfold delete. intros H. apply filter_In in H. destruct H as [H1 H2].
  split; [exact H1|]. intros ->. rewrite String.eqb_refl in H2. discriminate.
Qed.

Lemma has_false name set : has name set = false -> ~ In name set.
Proof.
  unfold has. intros H Hin.
  assert (existsb (String.eqb name) set = true) as E.
  { apply existsb_exists. exists name. split; [exact Hin | apply String.eqb_refl]. }
  congruence.
Qed.

Lemma getUniformLocation_resolved u m p :
  resolved m p ->
  fst (getUniformLocation u m p) = true /\ resolved (snd (getUniformLocation u m p)) p.
Proof.
  intros (name & program & Hc & Hp & Ha & Hk). unfold getUniformLocation.
  rewrite Hc, Hp.
  destruct (lookup name (uniformLocations m)) as [cache|] eqn:E.
  - destruct (lookup u cache) as [location|] eqn:E2; cbn [fst snd].
    + split.
      * destruct location; [reflexivity|]. exfalso. exact (Hk cache u eq_refl E2).
      * exists name, program. rewrite E. auto.
    + destruct (Plain.inherited u); cbn [fst snd].
      { split; [reflexivity|]. exists name, program. rewrite E. auto. }
      rewrite Ha. split; [reflexivity|]. exists name, program.
      cbn [currentProgramName programs uniformLocations].
      repeat split; try assumption.
      intros cache' u'. rewrite lookup_assign_same. intros [= <-].
      destruct (String.eqb_spec u u') as [<- | Hne].
      * rewrite lookup_assign_same. discriminate.
      * rewrite lookup_assign_other by exact Hne. exact (Hk cache u' eq_refl).
  - cbn [lookup fst snd]. destruct (Plain.inherited u); cbn [fst snd].
    { split; [reflexivity|]. exists name, program. rewrite E. auto. }
    rewrite Ha. split; [reflexivity|]. exists name, program.
    cbn [currentProgramName programs uniformLocations].
    repeat split; try assumption.
    intros cache' u'. rewrite lookup_assign_same. intros [= <-].
    cbn [lookup]. destruct (String.eqb u u'); discriminate.
Qed.

Lemma upload_resolved name c p :
  resolved (shaderManager c) p ->
  let e := upload name (c, p) in
  resolved (shaderManager (fst e)) (snd e)
  /\ (forall x, In x (_dirtyUniforms (state (fst e))) ->
                In x (_dirtyUniforms (state c)) /\ (x <> name \/ x = "u_time")).
Proof.
  intros Hr. cbv zeta. unfold upload.
  destruct (String.eqb_spec name "u_time") as [-> | Hne].
  - split; [exact Hr|]. intros x Hx. split; [exact Hx|].
    destruct (String.eqb_spec x "u_time"); [right | left]; assumption.
  - destruct (getUniformLocation_resolved name _ p Hr) as [H1 H2].
    destruct (getUniformLocation name (shaderManager c) p) as [location m].
    cbn [fst snd] in H1, H2. subst location.
    cbn [fst snd state shaderManager with_state with_shaderManager _dirtyUniforms
         with_dirty].
    split.
    + destruct H2 as (n & program & A1 & A2 & A3 & A4).
      exists n, program.
      destruct (uniform_value name (state c)); repeat split; assumption.
    + intros x Hx. apply in_delete in Hx. destruct Hx as [Hx1 Hx2]. auto.
Qed.

Lemma fold_upload_resolved names : forall c p,
  resolved (shaderManager c) p ->
  let e := fold_left (fun e uniformName => upload uniformName e) names (c, p) in
  forall x, In x (_dirtyUniforms (state (fst e))) ->
            In x (_dirtyUniforms (state c)) /\ (~ In x names \/ x = "u_time").
Proof.
  induction names as [|n names IH]; intros c p Hr; cbn [fold_left].
  - intros x Hx. split; [exact Hx | left; intros []].
  - destruct (upload_resolved n c p Hr) as [H1 H2].
    destruct (upload n (c, p)) as [c1 p1]. cbn [fst snd] in H1, H2.
    intros x Hx. destruct (IH c1 p1 H1 x Hx) as [K1 K2].
    destruct (H2 x K1) as [L1 L2]. split; [exact L1|].
    destruct K2 as [K2 | K2]; [|right; exact K2].
    destruct L2 as [L2 | L2]; [|right; exact L2].
    left. intros [-> | Hin]; [apply L2; reflexivity | exact (K2 Hin)].
Qed.

Lemma empty_set (set : list string) : (forall x, ~ In x set) -> set = [].
Proof.
  destruct set as [|x set]; [reflexivity|]. intros H. exfalso. apply (H x). left. reflexivity.
Qed.

(** With every location at hand [_setUniforms] leaves nothing dirty. *)
Lemma setUniforms_empties c p program :
  lookup (text (get "shaderProgramName" (props (state c)))) (programs (shaderManager c))
    = Some program ->
  (forall u, uniform_active p (fragment program) u = true) ->
  (forall cache u,
      lookup (text (get "shaderProgramName" (props (state c))))
        (uniformLocations (shaderManager c)) = Some cache ->
      lookup u cache <> Some false) ->
  has "u_time" (_dirtyUniforms (state c)) = false ->
  _dirtyUniforms (state (fst (_setUniforms (c, p)))) = [].
Proof.
  intros Hp Ha Hk Ht. unfold _setUniforms.
  set (name := text (get "shaderProgramName" (props (state c)))) in *.
  assert (Hr : resolved (fst (useProgram name (shaderManager c) p))
                 (snd (useProgram name (shaderManager c) p))).
  { unfold useProgram. rewrite Hp. cbn [fst snd].
    exists name, program. cbn [currentProgramName programs uniformLocations].
    repeat split; try assumption.
    destruct (current_program p) as [h|]; [destruct (Nat.eqb h (handle program))|];
      exact Ha. }
  destruct (useProgram name (shaderManager c) p) as [m1 p1]. cbn [fst snd] in Hr.
  destruct (getUniformLocation_resolved "u_time" m1 p1 Hr) as [H1 H2].
  destruct (getUniformLocation "u_time" m1 p1) as [timeLoc m2].
  cbn [fst snd] in H1, H2. subst timeLoc.
  cbn [state with_shaderManager].
  apply empty_set. intros x Hx.
  assert (Hr2 : resolved (shaderManager (with_shaderManager m2 c))
                  (gl (Uniform "u_time" (get "time" (props (state c)))) p1)).
  { destruct H2 as (n & pr & A1 & A2 & A3 & A4). exists n, pr. repeat split; assumption. }
  destruct (fold_upload_resolved (_dirtyUniforms (state c)) _ _ Hr2 x Hx) as [K1 K2].
  cbn [state with_shaderManager] in K1.
  destruct K2 as [K2 | ->]; [exact (K2 K1)|].
  exact (has_false _ _ Ht K1).
Qed.

Lemma frame_head_dirty timestamp c p :
  let e := frame_head timestamp c p in
  shaderManager (fst e) = shaderManager c
  /\ uniform_active (snd e) = uniform_active p
  /\ uniformLocations (shaderManager (fst e)) = uniformLocations (shaderManager c)
  /\ (forall x, In x (_dirtyUniforms (state (fst e))) ->
                In x (_dirtyUniforms (state c)) \/ x = "u_resolution").
Proof.
  unfold frame_head, _checkResize. cbv zeta.
  destruct (JS.truthy _);
    destruct (negb (JS.eqb (width p) (clientWidth p))
              || negb (JS.eqb (height p) (clientHeight p)));
    cbn [fst snd state with_state shaderManager]; unfold mark;
    cbn [_dirtyUniforms with_dirty set_prop with_props uniform_active with_size];
    repeat split; auto; intros x Hx; apply in_add in Hx; exact Hx.
Qed.

Lemma frame_tail_dirty e :
  _dirtyUniforms (state (fst (frame_tail e)))
  = _dirtyUniforms (state (fst (_setUniforms e))).
Proof.
  unfold frame_tail. destruct (_setUniforms e) as [c p].
  destruct (negb (indexable (get "background" (colorScheme (state c))))); [reflexivity|].
  destruct (quadBuffer c && aPositionLoc c); [reflexivity|].
  destruct (negb (aPositionLoc c)); [|reflexivity].
  destruct (getAttributeLocation _ _ _). reflexivity.
Qed.

Lemma not_in_has name set : ~ In name set -> has name set = false.
Proof.
  intros H. unfold has. destruct (existsb (String.eqb name) set) eqn:E; [|reflexivity].
  exfalso. apply existsb_exists in E. destruct E as (x & Hx & Heq).
  apply String.eqb_eq in Heq. subst x. exact (H Hx).
Qed.

(** C3: [start()] leaves in the dirty set the keys of [DEFAULT_STATE] and
    thirteen uniform names; seven of the uniforms [_setUniforms] uploads
    (and [u_time], which it always uploads) are not among them.  A frame
    drawn with the current program in place, every location found and
    [u_time] not in the set empties the set; a name whose location is not
    found stays. *)
Theorem start_dirty_set :
  (forall now c p,
      isRendering (state c) = false -> contextLost p = false ->
      _dirtyUniforms (state (fst (start now (c, p)))) = all_dirty)
  /\ List.filter (fun u => negb (has u all_dirty)) known_uniforms
     = [ "u_time"; "u_mouse"; "u_morphFactor"; "u_rotationSpeed"; "u_universeModifier";
         "u_patternIntensity"; "u_gridDensity"; "u_glitchIntensity" ]
  /\ (forall timestamp c p program,
        isRendering (state c) = true -> contextLost p = false ->
        needsShaderUpdate (state c) = false ->
        lookup (text (get "shaderProgramName" (props (state c))))
          (programs (shaderManager c)) = Some program ->
        (forall u, uniform_active p (fragment program) u = true) ->
        (forall cache u,
            lookup (text (get "shaderProgramName" (props (state c))))
              (uniformLocations (shaderManager c)) = Some cache ->
            lookup u cache <> Some false) ->
        has "u_time" (_dirtyUniforms (state c)) = false ->
        _dirtyUniforms (state (fst (_render timestamp (c, p)))) = [])
  /\ (forall name c p,
        fst (getUniformLocation name (shaderManager c) p) = false ->
        _dirtyUniforms (state (fst (upload name (c, p)))) = _dirtyUniforms (state c)).
Proof.
  split; [|split; [|split]].
  - intros now c p Hr Hl. unfold start. rewrite Hr, Hl. reflexivity.
  - vm_compute. reflexivity.
  - intros timestamp c p program Hr Hl Hf Hp Ha Hk Ht.
    rewrite (render_unfold timestamp c p Hr Hl). cbv zeta.
    pose proof (frame_head_spec timestamp c p) as H.
    pose proof (frame_head_dirty timestamp c p) as D. cbv zeta in H, D.
    destruct (frame_head timestamp c p) as [c1 p1].
    destruct H as ((I1 & _) & _ & _ & _ & _ & Hs).
    destruct D as (D1 & D2 & D3 & D4). cbn [fst snd] in *.
    rewrite I1, Hf. cbn [negb]. rewrite frame_tail_dirty.
    apply (setUniforms_empties c1 p1 program).
    + rewrite Hs, D1. exact Hp.
    + rewrite D2. exact Ha.
    + rewrite Hs, D1. exact Hk.
    + apply not_in_has. intros Hin. destruct (D4 _ Hin) as [K | K].
      * exact (has_false _ _ Ht K).
      * discriminate.
  - intros name c p Hn. unfold upload.
    destruct (String.eqb name "u_time"); [reflexivity|].
    destruct (getUniformLocation name (shaderManager c) p) as [location m].
    cbn [fst] in Hn. subst location. reflexivity.
Qed.

Lemma start_dirty_set_witness :
  let e := start 0 (new true true canvas_page) in
  _dirtyUniforms (state (fst e)) = all_dirty
  /\ _dirtyUniforms (state (fst (_render 16 (fst e, snd e)))) = [].
Proof.
  destruct start_dirty_set as (A & _ & B & _). cbv zeta. split.
  - apply (A 0 (fst (new true true canvas_page)) (snd (new true true canvas_page)));
      reflexivity.
  - apply (B 16 (fst (start 0 (new true true canvas_page)))
             (snd (start 0 (new true true canvas_page)))
             {| handle := 1; fragment := "fragment-adapted-base-perspective" |});
      try reflexivity.
    intros cache u H. vm_compute in H. injection H as <-. discriminate.
Defined.

Lemma rebuild_on_name_change_witness :
  let e := start 0 (new true true canvas_page) in
  (forall s',
      updateParameters [("geometryType", Str "hypersphere")] (state (fst e)) = Some s' ->
      needsShaderUpdate s' = true
      /\ (let e' := _render 16 (with_state s' (fst e), snd e) in
          needsShaderUpdate (state (fst e')) = false
          /\ links_made (snd e') = S (links_made (snd e))))
  /\ (forall s',
        updateParameters [("projectionMethod", Str "constructor")] (state (fst e)) = Some s' ->
        needsShaderUpdate s' = true
        /\ (let e' := _render 16 (with_state s' (fst e), snd e) in
            uncaught (snd e') = 1%nat
            /\ needsShaderUpdate (state (fst e')) = true
            /\ isRendering (state (fst e')) = true
            /\ errors_reported (snd e') = 0%nat
            /\ links_made (snd e') = links_made (snd e)))
  /\ updateParameters [("geometryType", Str "hypersphere")] (state (fst e)) <> None
  /\ updateParameters [("projectionMethod", Str "constructor")] (state (fst e)) <> None.
Proof.
  destruct rebuild_on_name_change as (A & B & C & D). cbv zeta.
  split; [|split; [|split]].
  - intros s' Hs.
    assert (Hf : needsShaderUpdate s' = true).
    { apply (A "geometryType" (Str "hypersphere") [("geometryType", Str "hypersphere")]
               (state (fst (start 0 (new true true canvas_page)))) s'); [| | | |exact Hs].
      + left. reflexivity.
      + repeat constructor. intros [].
      + left. reflexivity.
      + exists (Str "hypercube"). split; reflexivity. }
    split; [exact Hf|].
    vm_compute in Hs. injection Hs as <-.
    set (c := with_state _ _). set (p := snd (start 0 (new true true canvas_page))).
    destruct (B 16 c p "maleficarumViz" "perspective"
                (Registry.PerspectiveProjection Projection.Perspective.default)
                (fun u v =>
                   Some (Projection.Perspective.project4Dto3D
                           Projection.Perspective.default u v)))
      as (B1 & _ & B3); try reflexivity.
    assert (Hc : needsShaderUpdate (state (fst (_render 16 (c, p)))) = false).
    { apply B3; reflexivity. }
    split; [exact Hc|]. exact (proj1 (B1 Hc)).
  - intros s' Hs.
    assert (Hf : needsShaderUpdate s' = true).
    { apply (A "projectionMethod" (Str "constructor")
               [("projectionMethod", Str "constructor")]
               (state (fst (start 0 (new true true canvas_page)))) s'); [| | | |exact Hs].
      + right. reflexivity.
      + repeat constructor. intros [].
      + left. reflexivity.
      + exists (Str "perspective"). split; reflexivity. }
    split; [exact Hf|].
    vm_compute in Hs. injection Hs as <-.
    set (c := with_state _ _). set (p := snd (start 0 (new true true canvas_page))).
    destruct (C 16 c p "constructor" eq_refl eq_refl eq_refl eq_refl
                (D "constructor" (or_introl eq_refl)) eq_refl)
      as (C1 & C2 & C3 & _ & C5 & C6 & _).
    repeat split; assumption.
  - discriminate.
  - discriminate.
Defined.


End CoreFacts.


(* ===================================================================== *)
(** * Further properties of the sources *)
(* ===================================================================== *)

(* --------------------------------------------------------------------- *)
(** ** core/ProjectionManager.js *)
(* --------------------------------------------------------------------- *)

Section ProjectionShapes.
Import GLSL Projection.

Lemma smoothstep_range (a : R) : 0 <= smoothstep 0.0 1.0 a <= 1.
Proof.
  unfold smoothstep, clamp, max, min. cbv zeta.
  replace ((a - 0.0) / (1.0 - 0.0)) with a by lra.
  set (t := Rmin (Rmax a 0) 1).
  assert (Ht : 0 <= t <= 1).
  { unfold t, Rmin, Rmax. destruct (Rle_dec a 0); destruct (Rle_dec _ 1); lra. }
  clearbody t. split.
  - apply Rmult_le_pos; [apply Rmult_le_pos|]; lra.
  - replace (t * t * (3 - 2 * t)) with (1 - (1 - t) * (1 - t) * (1 + 2 * t)) by ring.
    assert (0 <= (1 - t) * (1 - t) * (1 + 2 * t)); [|lra].
    apply Rmult_le_pos; [apply Rmult_le_pos|]; lra.
Qed.

Lemma smoothstep_below (a : R) : a <= 0 -> smoothstep 0.0 1.0 a = 0.
Proof.
  intros Ha. unfold smoothstep, clamp, max, min.
  replace ((a - 0.0) / (1.0 - 0.0)) with a by lra.
  rewrite (Rmax_right a 0) by lra. rewrite (Rmin_left 0 1) by lra. lra.
Qed.

Lemma smoothstep_above (a : R) : 1 <= a -> smoothstep 0.0 1.0 a = 1.
Proof.
  intros Ha. unfold smoothstep, clamp, max, min.
  replace ((a - 0.0) / (1.0 - 0.0)) with a by lra.
  rewrite (Rmax_left a 0) by lra. rewrite (Rmin_right a 1) by lra. lra.
Qed.

Lemma vscale_one (v : vec3) : vscale v 1 = v.
Proof. destruct v. unfold vscale; cbn. f_equal; lra. Qed.

Lemma vmix_same (v : vec3) (t : R) : vmix v v t = v.
Proof. destruct v. unfold vmix, mix; cbn. f_equal; lra. Qed.

(** The factor of the perspective division, for a distance of at least
    0.2. *)
Lemma perspective_factor (d w : R) :
  0.2 <= d ->
  let k := d / max 0.1 (d + w) in
  0 < k /\ (w = 0 -> k = 1) /\ (0 <= w -> k <= 1) /\ (w <= 0 -> 1 <= k)
  /\ k <= 10 * d.
Proof.
  intros Hd k. unfold k, max.
  assert (Hm : 0.1 <= Rmax 0.1 (d + w)) by apply Rmax_l.
  assert (Hm2 : d + w <= Rmax 0.1 (d + w)) by apply Rmax_r.
  set (m := Rmax 0.1 (d + w)) in *.
  assert (Hpos : 0 < m) by lra.
  assert (Hk : d / m * m = d) by (field; lra).
  assert (Hkpos : 0 < d / m) by (apply Rdiv_lt_0_compat; lra).
  split; [exact Hkpos|]. split; [|split; [|split]].
  - intros ->. unfold m. rewrite Rplus_0_r, Rmax_right by lra. field. lra.
  - intros Hw. apply (Rmult_le_reg_r m); [exact Hpos|]. rewrite Hk. lra.
  - intros Hw. apply (Rmult_le_reg_r m); [exact Hpos|]. rewrite Hk.
    assert (m <= d); [|lra].
    unfold m. apply Rmax_lub; lra.
  - apply (Rmult_le_reg_r m); [exact Hpos|]. rewrite Hk. nra.
Qed.

Lemma perspective_distance (this : Perspective.t) (u : Uniforms) :
  exists d, 0.2 <= d /\
    forall p, Perspective.project4Dto3D this u p = Perspective.project_from d p.
Proof.
  eexists. split; [|intros p; unfold Perspective.project4Dto3D; reflexivity].
  unfold max. apply Rmax_l.
Qed.

Lemma orthographic_distance (u : Uniforms) :
  0.2 <= Orthographic.dynamicPerspectiveDistance u.
Proof. unfold Orthographic.dynamicPerspectiveDistance, max. apply Rmax_l. Qed.

(** The modulated pole is zero or at least 0.1 away from zero. *)
Lemma pole_away_from_zero (this : Stereographic.t) (u : Uniforms) :
  Stereographic.dynamicPoleW this u <> 0 ->
  0.1 <= Rabs (Stereographic.dynamicPoleW this u).
Proof.
  unfold Stereographic.dynamicPoleW. cbv zeta.
  set (v := JS.toFixed2 _ + _).
  assert (Hm : 0.1 <= max 0.1 (abs v)) by (unfold max; apply Rmax_l).
  unfold sign. destruct (Rlt_dec 0 v); [|destruct (Rlt_dec v 0)]; intros Hn.
  - rewrite Rmult_1_l, Rabs_right by lra. exact Hm.
  - replace (-1 * max 0.1 (abs v)) with (- max 0.1 (abs v)) by lra.
    rewrite Rabs_Ropp, Rabs_right by lra. exact Hm.
  - exfalso. apply Hn. lra.
Qed.

(** X1: a point of the hyperplane w = 0 is its own image under each of
    the three projections, whatever the uniforms: under the perspective
    and the orthographic one always, under the stereographic one as long
    as the modulated pole is not zero. *)
Theorem hyperplane_w0_is_fixed :
  forall (u : Uniforms) (p : vec4), w4 p = 0 ->
    (forall this, Perspective.project4Dto3D this u p = xyz p)
    /\ Orthographic.project4Dto3D u p = xyz p
    /\ (forall this, Stereographic.dynamicPoleW this u <> 0 ->
          Stereographic.project4Dto3D this u p = Some (xyz p)).
Proof.
  intros u p Hw. split; [|split].
  - intros this. destruct (perspective_distance this u) as (d & Hd & ->).
    unfold Perspective.project_from.
    destruct (perspective_factor d (w4 p) Hd) as (_ & H1 & _).
    rewrite (H1 Hw). apply vscale_one.
  - unfold Orthographic.project4Dto3D.
    destruct (perspective_factor _ (w4 p) (orthographic_distance u)) as (_ & H1 & _).
    rewrite (H1 Hw), vscale_one. apply vmix_same.
  - intros this Hn. pose proof (pole_away_from_zero this u Hn) as Hp.
    unfold Stereographic.project4Dto3D, Stereographic.projectedP. rewrite Hw.
    set (pole := Stereographic.dynamicPoleW this u) in *.
    assert (Hs : JS.lt (abs (0 - pole)) Stereographic.epsilon = false).
    { unfold JS.lt, abs, Stereographic.epsilon.
      replace (0 - pole) with (- pole) by lra. rewrite Rabs_Ropp.
      destruct (Rlt_dec _ _); [lra | reflexivity]. }
    rewrite Hs. cbn [option_map].
    replace (- pole / (0 - pole)) with 1 by (field; lra).
    rewrite vscale_one, vmix_same. reflexivity.
Qed.

Lemma hyperplane_w0_is_fixed_witness :
  Stereographic.project4Dto3D Stereographic.default
    {| u_morphFactor := 0.5; u_audioMid := 0; u_audioHigh := 0 |} (mkvec4 1 2 3 0)
  = Some (mkvec3 1 2 3).
Proof.
  apply (hyperplane_w0_is_fixed
           {| u_morphFactor := 0.5; u_audioMid := 0; u_audioHigh := 0 |}
           (mkvec4 1 2 3 0) eq_refl).
  rewrite default_pole_quiet. lra.
Defined.

(** X2: the perspective projection multiplies [p.xyz] by one positive
    factor; the factor is at most 1 for a point with w >= 0 and at least 1
    for a point with w <= 0, so no input divides by zero or flips the
    image. *)
Theorem perspective_scales_by_a_positive_factor :
  forall (this : Perspective.t) (u : Uniforms) (p : vec4),
    exists k,
      Perspective.project4Dto3D this u p = vscale (xyz p) k
      /\ 0 < k
      /\ (0 <= w4 p -> k <= 1)
      /\ (w4 p <= 0 -> 1 <= k).
Proof.
  intros this u p. destruct (perspective_distance this u) as (d & Hd & Hp).
  destruct (perspective_factor d (w4 p) Hd) as (K1 & _ & K3 & K4 & _).
  exists (d / max 0.1 (d + w4 p)). rewrite Hp. repeat split; assumption.
Qed.

Lemma perspective_scales_by_a_positive_factor_witness :
  exists k,
    Perspective.project4Dto3D Perspective.default
      {| u_morphFactor := 0.5; u_audioMid := 0; u_audioHigh := 0 |} (mkvec4 1 2 3 4)
    = vscale (mkvec3 1 2 3) k
    /\ 0 < k <= 1.
Proof.
  destruct (perspective_scales_by_a_positive_factor Perspective.default
              {| u_morphFactor := 0.5; u_audioMid := 0; u_audioHigh := 0 |}
              (mkvec4 1 2 3 4)) as (k & H1 & H2 & H3 & _).
  exists k. split; [exact H1|]. split; [exact H2|]. apply H3. cbn. lra.
Defined.

Lemma length_zero_only (v : vec3) : length v = 0 -> v = mkvec3 0 0 0.
Proof.
  intros Hl. destruct v as [a b c]. unfold length in Hl; cbn in Hl.
  apply sqrt_eq_0 in Hl; [|nra].
  assert (a = 0) by nra. assert (b = 0) by nra. assert (c = 0) by nra.
  subst. reflexivity.
Qed.

(** X3: the stereographic projection has no value exactly for the points
    of the w axis inside the band of width epsilon around the pole; every
    other point has an image. *)
Theorem stereographic_undefined_exactly_on_axis :
  forall (this : Stereographic.t) (u : Uniforms) (p : vec4),
    Stereographic.project4Dto3D this u p = None
    <-> (Rabs (w4 p - Stereographic.dynamicPoleW this u) < Stereographic.epsilon
         /\ xyz p = mkvec3 0 0 0).
Proof.
  intros this u p. unfold Stereographic.project4Dto3D, Stereographic.projectedP.
  unfold JS.lt, abs.
  destruct (Rlt_dec _ _) as [Hs | Hs]; split.
  - intros Hn. split; [exact Hs|].
    unfold normalize in Hn. destruct (Req_dec_T (length (xyz p)) 0) as [H0 | H0].
    + apply length_zero_only. exact H0.
    + discriminate.
  - intros [_ Hp]. rewrite Hp, normalize_zero. reflexivity.
  - discriminate.
  - intros [Hc _]. contradiction.
Qed.

Lemma stereographic_undefined_exactly_on_axis_witness :
  Rabs (w4 (mkvec4 0 0 0 (-1.5))
        - Stereographic.dynamicPoleW Stereographic.default
            {| u_morphFactor := 0.5; u_audioMid := 0; u_audioHigh := 0 |})
    < Stereographic.epsilon
  /\ xyz (mkvec4 0 0 0 (-1.5)) = mkvec3 0 0 0.
Proof.
  apply (proj1 (stereographic_undefined_exactly_on_axis Stereographic.default
                  {| u_morphFactor := 0.5; u_audioMid := 0; u_audioHigh := 0 |}
                  (mkvec4 0 0 0 (-1.5)))).
  apply stereographic_axis_undefined.
  rewrite default_pole_quiet. unfold JS.lt, abs, Stereographic.epsilon.
  replace (-1.5 - -1.5) with 0 by lra. rewrite Rabs_R0.
  destruct (Rlt_dec 0 0.01); [reflexivity | lra].
Defined.

(** X4: the orthographic snippet clamps the morph factor: for a factor
    of 0 or less the result is [p.xyz], for 1 or more it is the
    perspective division at the snippet's distance, and in between every
    coordinate is a weighted mean of the two with a weight in [0, 1]. *)
Theorem orthographic_blend_is_clamped :
  forall (u : Uniforms) (p : vec4),
    let target :=
      Perspective.project_from (Orthographic.dynamicPerspectiveDistance u) p in
    (u_morphFactor u <= 0 -> Orthographic.project4Dto3D u p = xyz p)
    /\ (1 <= u_morphFactor u -> Orthographic.project4Dto3D u p = target)
    /\ exists t, 0 <= t <= 1 /\ Orthographic.project4Dto3D u p = vmix (xyz p) target t.
Proof.
  intros u p target. unfold Orthographic.project4Dto3D.
  fold (Perspective.project_from (Orthographic.dynamicPerspectiveDistance u) p).
  fold target. split; [|split].
  - intros Hm. rewrite smoothstep_below by exact Hm. apply vmix_at_0.
  - intros Hm. rewrite smoothstep_above by exact Hm. apply vmix_at_1.
  - exists (smoothstep 0.0 1.0 (u_morphFactor u)). split; [apply smoothstep_range|].
    reflexivity.
Qed.

Lemma orthographic_blend_is_clamped_witness :
  Orthographic.project4Dto3D
    {| u_morphFactor := -3; u_audioMid := 0; u_audioHigh := 0 |} (mkvec4 1 2 3 4)
  = mkvec3 1 2 3.
Proof.
  apply (orthographic_blend_is_clamped
           {| u_morphFactor := -3; u_audioMid := 0; u_audioHigh := 0 |} (mkvec4 1 2 3 4)).
  cbn. lra.
Defined.

End ProjectionShapes.

Section RegistryFacts.
Import Plain Registry.
Local Open Scope string_scope.

Lemma new_default :
  new None =
    {| defaultProjection := "perspective";
       projections :=
         [ ("perspective", PerspectiveProjection Projection.Perspective.default);
           ("orthographic", OrthographicProjection);
           ("stereographic", StereographicProjection Projection.Stereographic.default) ];
       prototype := None |}.
Proof.
  cbv -[Projection.Perspective.default Projection.Stereographic.default]. reflexivity.
Qed.

Lemma own_assign_same {A} key (v : A) o : lookup key (assign key v o) = Some v.
Proof.
  induction o as [|[k x] o IH]; cbn.
  - rewrite String.eqb_refl. reflexivity.
  - destruct (String.eqb k key) eqn:E; cbn; rewrite E; [reflexivity | exact IH].
Qed.

Lemma own_assign_other {A} key key' (v : A) o :
  key' <> key -> lookup key (assign key' v o) = lookup key o.
Proof.
  intros Hne. induction o as [|[k x] o IH]; cbn.
  - destruct (String.eqb_spec key' key); [contradiction | reflexivity].
  - destruct (String.eqb_spec k key'); cbn.
    + subst k. destruct (String.eqb_spec key' key); [contradiction | reflexivity].
    + destruct (String.eqb k key); [reflexivity | exact IH].
Qed.

(** *** Lower case *)

Lemma lower_lower c : lower (lower c) = lower c.
Proof.
  destruct c as [[] [] [] [] [] [] [] []]; vm_compute; reflexivity.
Qed.

Lemma toLowerCase_lowered s : toLowerCase (toLowerCase s) = toLowerCase s.
Proof.
  induction s as [|c s IH]; cbn [toLowerCase]; [reflexivity|].
  rewrite lower_lower, IH. reflexivity.
Qed.

(** A name with a capital in it is the lower case of no name. *)
Lemma toLowerCase_is s name :
  toLowerCase name <> name -> toLowerCase s <> name.
Proof.
  intros Hne Heq. apply Hne. rewrite <- Heq. apply toLowerCase_lowered.
Qed.

(** Of the members of [Object.prototype] a lowered name can only meet
    [constructor] and [__proto__]. *)
Lemma inherited_lowered s :
  inherited (toLowerCase s)
  = String.eqb (toLowerCase s) "constructor" || String.eqb (toLowerCase s) "__proto__".
Proof.
  unfold inherited, Object_prototype. cbn [existsb].
  repeat match goal with
         | |- context [String.eqb (toLowerCase s) ?name] =>
             let E := fresh "E" in
             destruct (String.eqb_spec (toLowerCase s) name) as [E | E];
             [try (exfalso; revert E; apply toLowerCase_is; discriminate)|]
         end; try reflexivity.
  all: rewrite ?orb_true_r; try reflexivity.
Qed.

Lemma toLowerCase_empty (s : string) : toLowerCase s = "" -> s = "".
Proof. destruct s; [reflexivity | discriminate]. Qed.

(** *** [Object.keys] *)

(** The array indices among the keys are not touched by a name that is
    none. *)
Lemma indices_assign {A} key (v : A) o : forall sorted,
  array_index key = None ->
  fold_left (fun sorted kv =>
               match array_index (fst kv) with
               | Some n => insert_index n (fst kv) sorted
               | None => sorted
               end) (assign key v o) sorted
  = fold_left (fun sorted (kv : string * A) =>
                 match array_index (fst kv) with
                 | Some n => insert_index n (fst kv) sorted
                 | None => sorted
                 end) o sorted.
Proof.
  intros sorted Hk. revert sorted.
  induction o as [|[k x] o IH]; intros sorted; cbn [assign fold_left fst].
  - rewrite Hk. reflexivity.
  - destruct (String.eqb k key); cbn [fold_left fst]; [reflexivity|]. apply IH.
Qed.

Lemma names_assign {A} key (v : A) o :
  map fst (assign key v o) =
    if existsb (String.eqb key) (map fst o) then map fst o else (map fst o ++ [key])%list.
Proof.
  induction o as [|[k x] o IH]; cbn; [reflexivity|].
  rewrite (String.eqb_sym key k).
  destruct (String.eqb k key); cbn; [reflexivity|].
  rewrite IH. destruct (existsb _ _); reflexivity.
Qed.

Lemma in_insert_index n key sorted m k :
  In (m, k) (insert_index n key sorted) -> In (m, k) sorted \/ (m, k) = (n, key).
Proof.
  induction sorted as [|[n' key'] sorted IH]; cbn [insert_index].
  - intros [H | []]. right. symmetry. exact H.
  - destruct (n <? n')%N.
    + intros [H | H]; [right; symmetry; exact H | left; exact H].
    + destruct (n =? n')%N; [left; assumption|].
      intros [H | H]; [left; left; exact H|].
      destruct (IH H) as [K | K]; [left; right; exact K | right; exact K].
Qed.

Lemma indices_are_indices {A} (o : list (string * A)) : forall sorted,
  (forall m k, In (m, k) sorted -> array_index k = Some m) ->
  forall m k,
    In (m, k) (fold_left (fun sorted (kv : string * A) =>
                            match array_index (fst kv) with
                            | Some n => insert_index n (fst kv) sorted
                            | None => sorted
                            end) o sorted) ->
    array_index k = Some m.
Proof.
  induction o as [|[k' x] o IH]; intros sorted Hs m k; cbn [fold_left fst].
  - apply Hs.
  - apply IH. destruct (array_index k') as [n|] eqn:E; [|exact Hs].
    intros m' k'' Hin. apply in_insert_index in Hin.
    destruct Hin as [Hin | [= -> ->]]; [apply Hs; exact Hin | exact E].
Qed.

Lemma existsb_app {A} (f : A -> bool) l1 l2 :
  existsb f (l1 ++ l2)%list = existsb f l1 || existsb f l2.
Proof. apply List.existsb_app. Qed.

(** A name that is no array index is among the keys when it is an own
    property. *)
Lemma keys_has {A} key (o : list (string * A)) :
  array_index key = None ->
  existsb (String.eqb key) (keys o) = existsb (String.eqb key) (map fst o).
Proof.
  intros Hk. unfold keys. rewrite existsb_app.
  match goal with |- existsb _ (map snd ?l) || _ = _ => set (indices := l) end.
  assert (Hi : existsb (String.eqb key) (map snd indices) = false).
  { destruct (existsb (String.eqb key) (map snd indices)) eqn:E; [|reflexivity].
    apply existsb_exists in E. destruct E as (k & Hin & Hek).
    apply String.eqb_eq in Hek. subst k.
    apply in_map_iff in Hin. destruct Hin as ([m k] & Hsnd & Hin). cbn in Hsnd. subst k.
    pose proof (indices_are_indices o [] ltac:(intros ? ? []) m key Hin). congruence. }
  rewrite Hi. cbn [orb].
  induction (map fst o) as [|k l IH]; cbn [List.filter existsb]; [reflexivity|].
  destruct (String.eqb_spec key k) as [<- | Hne].
  - rewrite Hk. cbn [existsb]. rewrite String.eqb_refl. reflexivity.
  - destruct (array_index k); cbn [existsb]; [exact IH|].
    destruct (String.eqb_spec key k); [contradiction | exact IH].
Qed.

Lemma keys_assign {A} key (v : A) o :
  array_index key = None ->
  keys (assign key v o) =
    if existsb (String.eqb key) (keys o) then keys o else (keys o ++ [key])%list.
Proof.
  intros Hk. rewrite (keys_has key o Hk). unfold keys.
  rewrite indices_assign by exact Hk. rewrite names_assign.
  destruct (existsb (String.eqb key) (map fst o)); [reflexivity|].
  rewrite filter_app. cbn [List.filter]. rewrite Hk. rewrite app_assoc. reflexivity.
Qed.

(** X5: a manager built with the default options answers the three
    registered names, in any mix of upper and lower case, with their
    projection.  A name that reads [constructor] or [__proto__] in lower
    case is answered from [Object.prototype], with a value that is no
    projection.  Every other name, the empty name and [null] give the
    perspective projection.  The registered names are listed in the order
    of registration. *)
Theorem default_registry_answers_every_name :
  (forall name : option string,
      getProjection name (new None) =
        match name with
        | Some n =>
            if String.eqb (toLowerCase n) "orthographic"
            then Projection OrthographicProjection
            else if String.eqb (toLowerCase n) "stereographic"
            then Projection (StereographicProjection Projection.Stereographic.default)
            else if String.eqb (toLowerCase n) "constructor"
                    || String.eqb (toLowerCase n) "__proto__"
            then Member
            else Projection (PerspectiveProjection Projection.Perspective.default)
        | None => Projection (PerspectiveProjection Projection.Perspective.default)
        end)
  /\ getProjectionTypes (new None) = [ "perspective"; "orthographic"; "stereographic" ].
Proof.
  rewrite new_default. split; [|reflexivity].
  intros [n|]; unfold getProjection; cbn [defaultProjection]; [|reflexivity].
  destruct (String.eqb n "") eqn:En.
  - apply String.eqb_eq in En. subst n. reflexivity.
  - unfold read at 1. cbn [projections prototype lookup].
    rewrite (String.eqb_sym "perspective"), (String.eqb_sym "orthographic"),
      (String.eqb_sym "stereographic"), inherited_lowered.
    destruct (String.eqb_spec (toLowerCase n) "perspective") as [E1 | E1].
    + rewrite E1. reflexivity.
    + destruct (String.eqb (toLowerCase n) "orthographic"); [reflexivity|].
      destruct (String.eqb (toLowerCase n) "stereographic"); [reflexivity|].
      destruct (String.eqb (toLowerCase n) "constructor"
                || String.eqb (toLowerCase n) "__proto__"); reflexivity.
Qed.

(** X6: on a manager whose registry has no own property [__proto__] (an
    assignment cannot make one), [registerProjection] followed by
    [getProjection] returns the registered instance for every spelling of
    the name that differs only in case.  Unless the name is [__proto__],
    which replaces the prototype of the registry, names that are not that
    name, and that do not fall back to it, answer as before.  An object
    that is no [BaseProjection] changes nothing.  A name that is no array
    index and not [__proto__] comes at the end of the list of names, or
    the list stays as it is when the name was registered already;
    [__proto__] adds no name to the list. *)
Theorem registerProjection_round_trip :
  forall (m : ProjectionManager) (name : string) (p : Provider),
    lookup "__proto__" (projections m) = None ->
    let m' := registerProjection name (Instance p) m in
    (forall spelling, spelling <> "" -> toLowerCase spelling = toLowerCase name ->
                      getProjection (Some spelling) m' = Projection p)
    /\ (forall other,
          toLowerCase name <> "__proto__" ->
          toLowerCase other <> toLowerCase name ->
          defaultProjection m <> toLowerCase name ->
          toLowerCase (defaultProjection m) <> toLowerCase name ->
          getProjection (Some other) m' = getProjection (Some other) m)
    /\ registerProjection name Foreign m = m
    /\ (toLowerCase name <> "__proto__" -> array_index (toLowerCase name) = None ->
        getProjectionTypes m' =
          if existsb (String.eqb (toLowerCase name)) (getProjectionTypes m)
          then getProjectionTypes m
          else (getProjectionTypes m ++ [toLowerCase name])%list)
    /\ (toLowerCase name = "__proto__" -> getProjectionTypes m' = getProjectionTypes m)
    /\ lookup "__proto__" (projections m') = None.
Proof.
  intros m name p Hwf m'. unfold m', registerProjection, getProjection, getProjectionTypes.
  split; [|split; [|split; [|split; [|split]]]].
  - intros spelling Hne Heq.
    destruct (String.eqb_spec spelling ""); [contradiction|].
    rewrite Heq.
    destruct (String.eqb_spec (toLowerCase name) "__proto__") as [E | E].
    + rewrite E. unfold read. cbn [projections prototype]. rewrite Hwf. reflexivity.
    + unfold read. cbn [projections]. rewrite own_assign_same. reflexivity.
  - intros other Hp Ho Hd Hd'.
    destruct (String.eqb_spec (toLowerCase name) "__proto__") as [E | _];
      [contradiction|].
    cbn [defaultProjection].
    assert (Hk : forall key, key <> toLowerCase name ->
              read key {| defaultProjection := defaultProjection m;
                          projections := assign (toLowerCase name) p (projections m);
                          prototype := prototype m |}
              = read key m).
    { intros key Hkey. unfold read. cbn [projections prototype].
      rewrite own_assign_other by congruence. reflexivity. }
    rewrite (Hk (toLowerCase (defaultProjection m))) by exact Hd'.
    destruct (String.eqb other ""); rewrite Hk by assumption; reflexivity.
  - reflexivity.
  - intros Hp Hi.
    destruct (String.eqb_spec (toLowerCase name) "__proto__") as [E | _];
      [contradiction|].
    cbn [projections]. apply keys_assign. exact Hi.
  - intros ->. reflexivity.
  - destruct (String.eqb_spec (toLowerCase name) "__proto__") as [E | E];
      cbn [projections]; [exact Hwf|].
    rewrite own_assign_other by exact E. exact Hwf.
Qed.

Lemma registerProjection_round_trip_witness :
  getProjection (Some "Ortho")
    (registerProjection "ORTHO" (Instance OrthographicProjection) (new None))
  = Projection OrthographicProjection
  /\ getProjectionTypes
       (registerProjection "ORTHO" (Instance OrthographicProjection) (new None))
     = [ "perspective"; "orthographic"; "stereographic"; "ortho" ]
  /\ getProjectionTypes
       (registerProjection "__PROTO__" (Instance OrthographicProjection) (new None))
     = [ "perspective"; "orthographic"; "stereographic" ].
Proof.
  split; [|split].
  - apply (registerProjection_round_trip (new None) "ORTHO" OrthographicProjection).
    + reflexivity.
    + discriminate.
    + reflexivity.
  - destruct (registerProjection_round_trip (new None) "ORTHO" OrthographicProjection
                eq_refl) as (_ & _ & _ & K & _).
    rewrite K; [reflexivity | discriminate | reflexivity].
  - destruct (registerProjection_round_trip (new None) "__PROTO__" OrthographicProjection
                eq_refl) as (_ & _ & _ & _ & K & _).
    rewrite K; reflexivity.
Defined.

End RegistryFacts.

(* --------------------------------------------------------------------- *)
(** ** js/ui-interactions.js *)
(* --------------------------------------------------------------------- *)

Section UiFacts.
Import Params Mapper Ui.
Local Open Scope string_scope.

Lemma clamp_bounds (v lo hi : R) :
  lo <= Mapper.clamp v lo hi /\ (lo <= hi -> Mapper.clamp v lo hi <= hi).
Proof.
  unfold Mapper.clamp, JS.Math_max, JS.Math_min, Rmax, Rmin.
  destruct (Rle_dec hi v); destruct (Rle_dec lo _); split; intros; lra.
Qed.

(** X7: [clamp(value, min, max)] never returns less than [min]; with
    [min <= max] it returns the value cut to the interval, leaves a value
    of the interval alone and is idempotent; with the bounds the wrong
    way round it returns [min], whatever the value. *)
Theorem clamp_cuts_to_the_interval :
  forall v lo hi : R,
    lo <= Mapper.clamp v lo hi
    /\ (lo <= hi -> Mapper.clamp v lo hi <= hi)
    /\ (lo <= v <= hi -> Mapper.clamp v lo hi = v)
    /\ (hi < lo -> Mapper.clamp v lo hi = lo)
    /\ Mapper.clamp (Mapper.clamp v lo hi) lo hi = Mapper.clamp v lo hi.
Proof.
  intros v lo hi.
  unfold Mapper.clamp, JS.Math_max, JS.Math_min, Rmax, Rmin.
  repeat split; intros;
    repeat match goal with
           | |- context [Rle_dec ?a ?b] => is_var a; is_var b; destruct (Rle_dec a b)
           end; lra.
Qed.

Lemma clamp_cuts_to_the_interval_witness :
  Mapper.clamp 7 0 1 <= 1 /\ Mapper.clamp 7 1 0 = 1.
Proof.
  destruct (clamp_cuts_to_the_interval 7 0 1) as (_ & H & _).
  destruct (clamp_cuts_to_the_interval 7 1 0) as (_ & _ & _ & H' & _).
  split; [apply H | apply H']; lra.
Defined.

(** X8: whatever the parameters and levels, [mapSoundToVisuals] returns
    a morph factor and a glitch intensity in [0, 1], a rotation speed in
    [0, 2], a dimension in [3, 4], a grid density in [5, 20], one of the
    three projection names, a pad flag of 0 or 1 and a note frequency that
    is not 0 (440 when the levels carry none). *)
Theorem mapSoundToVisuals_stays_in_range :
  forall (ui : UiState) (sp : Parameters) (al : AudioLevels),
    let v := mapSoundToVisuals ui sp al in
    0 <= morphFactor v <= 1
    /\ 0 <= glitchIntensity v <= 1
    /\ 0 <= rotationSpeed v <= 2
    /\ 3 <= dimension v <= 4
    /\ 5 <= gridDensity v <= 20
    /\ In (projectionMethod v) [ "stereographic"; "perspective"; "orthographic" ]
    /\ (xyPadActive v = 0 \/ xyPadActive v = 1)
    /\ currentNoteFrequency v <> 0
    /\ (frequency al = None -> currentNoteFrequency v = 440).
Proof.
  intros ui sp al v. unfold v, mapSoundToVisuals.
  cbn [morphFactor glitchIntensity rotationSpeed dimension gridDensity projectionMethod
       xyPadActive currentNoteFrequency].
  repeat split.
  all: try match goal with
           | |- _ <= Mapper.clamp ?x ?lo ?hi =>
               pose proof (proj1 (clamp_bounds x lo hi)); lra
           | |- Mapper.clamp ?x ?lo ?hi <= _ =>
               pose proof (proj2 (clamp_bounds x lo hi)); lra
           end.
  - destruct (glitchEnabled ui); [|lra].
    pose proof (proj1 (clamp_bounds (0.05 + high al * 0.6
                  + filter_Q (filter sp) / 10.0 * 0.3) 0.0 1.0)). lra.
  - destruct (glitchEnabled ui); [|lra].
    pose proof (proj2 (clamp_bounds (0.05 + high al * 0.6
                  + filter_Q (filter sp) / 10.0 * 0.3) 0.0 1.0)). lra.
  - destruct (_ && _); [left; reflexivity|].
    destruct (_ && _); [right; left; reflexivity|].
    destruct (arp_active _); [left; reflexivity | right; right; left; reflexivity].
  - destruct (xyPad_active ui); [right | left]; lra.
  - unfold JS.opt_or_else, JS.or_else, JS.truthy, JS.eqb.
    destruct (frequency al) as [f|]; [|lra].
    destruct (Req_dec_T f 0); cbn [negb]; lra.
  - intros ->. unfold JS.opt_or_else. lra.
Qed.

Lemma mapSoundToVisuals_stays_in_range_witness :
  currentNoteFrequency
    (mapSoundToVisuals {| glitchEnabled := true; xyPad_active := false |}
       Sound.defaultStructure
       {| bass := 1; mid := 1; high := 1; frequency := None |}) = 440.
Proof.
  apply (mapSoundToVisuals_stays_in_range {| glitchEnabled := true; xyPad_active := false |}
           Sound.defaultStructure {| bass := 1; mid := 1; high := 1; frequency := None |}).
  reflexivity.
Defined.

Lemma table_notes_play (note : string) :
  In note (map fst Sound.noteFrequencies) -> exists f, Sound.noteFrequency note = Some f.
Proof.
  intros Hin. unfold Sound.noteFrequency.
  cbn in Hin.
  repeat (destruct Hin as [<- | Hin];
          [cbn [Sound.lookup Sound.noteFrequencies String.eqb Ascii.eqb Bool.eqb];
           rewrite truthy_nonzero by lra; eexists; reflexivity|]).
  destruct Hin.
Qed.

(** X9: for a pad position between 0 and 1 [mapXYPadToNote] returns a
    note of the sound module's frequency table, so [startNote] accepts it;
    the right edge gives C5 (the index is clamped), and a position left of
    the pad gives [undefined]. *)
Theorem mapXYPadToNote_gives_a_playable_note :
  (forall x, 0 <= x <= 1 ->
     exists note f, mapXYPadToNote x = Some note /\ Sound.noteFrequency note = Some f)
  /\ (forall x, 1 <= x -> mapXYPadToNote x = Some "C5")
  /\ (forall x, x < 0 -> mapXYPadToNote x = None).
Proof.
  unfold mapXYPadToNote, JS.Math_floor. cbv zeta.
  change (Z.of_nat (List.length _)) with 13%Z.
  split; [|split].
  - intros x Hx.
    assert (H0 : (0 <= Zfloor (x * 13))%Z) by (apply Zfloor_lub; cbn; lra).
    assert (H1 : (Zfloor (x * 13) <= 13)%Z).
    { apply le_IZR. apply Rle_trans with (x * 13); [apply Zfloor_bound | lra]. }
    set (i := Z.min (Zfloor (x * 13)) (13 - 1)).
    assert (Hi : (0 <= i <= 12)%Z) by (unfold i; lia).
    destruct (Z.ltb_spec i 0); [lia|].
    assert (Hn : (Z.to_nat i < 13)%nat) by lia.
    destruct (nth_error _ (Z.to_nat i)) as [note|] eqn:E.
    + destruct (table_notes_play note) as [f Hf].
      * apply nth_error_In in E. exact E.
      * exists note, f. split; [reflexivity | exact Hf].
    + apply nth_error_None in E. cbn in E. lia.
  - intros x Hx.
    assert (H1 : (13 <= Zfloor (x * 13))%Z) by (apply Zfloor_lub; lra).
    rewrite Z.min_r by lia. reflexivity.
  - intros x Hx.
    assert (H1 : (Zfloor (x * 13) < 0)%Z).
    { apply lt_IZR. apply Rle_lt_trans with (x * 13); [apply Zfloor_bound | lra]. }
    rewrite Z.min_l by lia.
    destruct (Z.ltb_spec (Zfloor (x * 13)) 0); [reflexivity | lia].
Qed.

Lemma mapXYPadToNote_gives_a_playable_note_witness :
  exists note f, mapXYPadToNote 0.5 = Some note /\ Sound.noteFrequency note = Some f.
Proof.
  apply (proj1 mapXYPadToNote_gives_a_playable_note 0.5). lra.
Defined.

Lemma pow_square (v : R) : JS.Math_pow v 2.0 = v * v.
Proof.
  replace 2.0 with (IZR 2) by lra.
  unfold JS.Math_pow, JS.eqb, JS.lt, JS.is_integer, JS.eqb.
  destruct (Req_dec_T 2 0); [lra|].
  destruct (Rlt_dec 0 v) as [Hv | Hv].
  - change 2 with (INR 2). rewrite Rpower_pow by exact Hv.
    change (@eq R (v ^ 2) (v * v)). ring.
  - destruct (Req_dec_T v 0) as [-> | Hv0]; [lra|].
    rewrite ZfloorZ. destruct (Req_dec_T 2 2); [|lra].
    change (@eq R (v ^ 2) (v * v)). ring.
Qed.

(** X11: the resonance slider gives max(0.01, 20 v^2): between 0.01 and
    20 on the slider's range and never decreasing; the pad's reverb wet
    level lies between 0 and 0.9 for every position, inside the pad and
    outside, and is 0.9 * (1 - y) on the pad. *)
Theorem resonance_and_wet_stay_in_range :
  (forall v, mapSliderToResonance v = Rmax 0.01 (20 * (v * v)))
  /\ (forall v, 0 <= v <= 1 -> 0.01 <= mapSliderToResonance v <= 20)
  /\ (forall v w, 0 <= v <= w -> mapSliderToResonance v <= mapSliderToResonance w)
  /\ (forall y, 0 <= mapXYPadToReverbWet y <= 0.9)
  /\ (forall y, 0 <= y <= 1 -> mapXYPadToReverbWet y = 0.9 * (1 - y)).
Proof.
  assert (R : forall v, mapSliderToResonance v = Rmax 0.01 (20 * (v * v))).
  { intros v. unfold mapSliderToResonance, JS.Math_max. rewrite pow_square.
    f_equal. lra. }
  split; [exact R|]. split; [|split; [|split]].
  - intros v Hv. rewrite R. unfold Rmax. destruct (Rle_dec _ _); nra.
  - intros v w Hvw. rewrite !R. unfold Rmax.
    destruct (Rle_dec 0.01 (20 * (v * v))); destruct (Rle_dec 0.01 (20 * (w * w))); nra.
  - intros y. unfold mapXYPadToReverbWet, JS.Math_max, JS.Math_min, Rmax, Rmin.
    destruct (Rle_dec 0.9 _); destruct (Rle_dec 0 _); lra.
  - intros y Hy. unfold mapXYPadToReverbWet, JS.Math_max, JS.Math_min, Rmax, Rmin.
    destruct (Rle_dec 0.9 _); destruct (Rle_dec 0 _); lra.
Qed.

Lemma resonance_and_wet_stay_in_range_witness :
  0.01 <= mapSliderToResonance 0.5 <= 20.
Proof.
  apply (proj1 (proj2 resonance_and_wet_stay_in_range) 0.5). lra.
Defined.

End UiFacts.

(* --------------------------------------------------------------------- *)
(** ** core/ShaderManager.js *)
(* --------------------------------------------------------------------- *)

Section ShaderManagerFacts.
Import Core Tally.
Local Open Scope string_scope.


Lemma compileShader_hit id m p :
  existsb (String.eqb id) (compiledShaders m) = true -> _compileShader id m p = (true, m, p).
Proof. intros H. unfold _compileShader. rewrite H. reflexivity. Qed.

Lemma compileShader_cached id m p :
  let '(ok, m', p') := _compileShader id m p in
  (ok = true -> existsb (String.eqb id) (compiledShaders m') = true)
  /\ (forall id', existsb (String.eqb id') (compiledShaders m) = true ->
                  existsb (String.eqb id') (compiledShaders m') = true)
  /\ programs m' = programs m
  /\ uniformLocations m' = uniformLocations m
  /\ currentProgramName m' = currentProgramName m
  /\ (compiles p id = true -> ok = true).
Proof.
  unfold _compileShader.
  destruct (existsb (String.eqb id) (compiledShaders m)) eqn:E.
  - repeat split; auto.
  - cbn [compiles gl with_calls].
    destruct (compiles p id); cbn [compiledShaders programs uniformLocations
                                   currentProgramName].
    + repeat split; auto.
      * intros _. rewrite existsb_app. cbn. rewrite String.eqb_refl.
        apply orb_true_iff. right. reflexivity.
      * intros id' H. rewrite existsb_app, H. reflexivity.
    + repeat split; auto; discriminate.
Qed.

Lemma createProgram_ok name frag m p pr m' p' :
  _createProgram name frag m p = (Some pr, m', p') ->
  lookup name (programs m') = Some pr
  /\ compiledShaders m' = compiledShaders m
  /\ fragment pr = frag
  /\ lookup name (uniformLocations m') = Some []
  /\ currentProgramName m' = currentProgramName m.
Proof.
  unfold _createProgram.
  destruct (lookup name (programs m)) as [old|]; cbv zeta;
    cbn [links gl with_calls with_next_handle];
    destruct (links p name); intros [= <- <- <-];
    cbn [programs compiledShaders uniformLocations currentProgramName fragment];
    rewrite !lookup_assign_same; repeat split.
Qed.


(** What a successful [createDynamicProgram] leaves in the manager. *)
Lemma createDynamicProgram_ok name geom proj m p pr m1 p1 :
  createDynamicProgram name geom proj m p = (Some pr, m1, p1) ->
  lookup name (programs m1) = Some pr
  /\ fragment pr = "fragment-adapted-base-" ++ proj
  /\ lookup name (uniformLocations m1) = Some []
  /\ existsb (String.eqb baseVertexShaderName) (compiledShaders m1) = true
  /\ existsb (String.eqb ("fragment-adapted-base-" ++ proj)) (compiledShaders m1) = true
  /\ currentProgramName m1 = currentProgramName m
  /\ projectionManager m1 = projectionManager m
  /\ exists projection code,
       Registry.getProjection (Some proj) (projectionManager m)
       = Registry.Projection projection
       /\ Registry.getShaderCode projection = Some code.
Proof.
  unfold createDynamicProgram.
  pose proof (compileShader_cached baseVertexShaderName m p) as A.
  pose proof (compileShader_quiet baseVertexShaderName m p) as [_ Am].
  destruct (_compileShader baseVertexShaderName m p) as [[ok1 ma] pa]. cbn [fst snd] in Am.
  destruct ok1; cbn [negb]; [|discriminate].
  rewrite Am.
  destruct (Registry.getProjection (Some proj) (projectionManager m))
    as [projection | |]; [|discriminate|discriminate].
  destruct (Registry.getShaderCode projection) as [code|] eqn:Gc; [|discriminate].
  pose proof (compileShader_cached ("fragment-adapted-base-" ++ proj) ma pa) as B.
  pose proof (compileShader_quiet ("fragment-adapted-base-" ++ proj) ma pa) as [_ Bm].
  destruct (_compileShader ("fragment-adapted-base-" ++ proj) ma pa) as [[ok2 mb] pb].
  cbn [fst snd] in Bm.
  destruct ok2; cbn [negb]; [|discriminate].
  pose proof (createProgram_quiet name ("fragment-adapted-base-" ++ proj) mb pb) as [_ Cm].
  destruct (_createProgram name ("fragment-adapted-base-" ++ proj) mb pb)
    as [[program mc] pc] eqn:C. cbn [fst snd] in Cm.
  destruct program as [pr'|].
  - apply createProgram_ok in C. destruct C as (C1 & C2 & C3 & C4 & C5).
    destruct A as (A1 & A2 & A3 & A4 & A5 & _). destruct B as (B1 & B2 & B3 & B4 & B5 & _).
    destruct (name_is (currentProgramName mc) name); intros [= <- <- <-];
      rewrite C2;
      (split; [exact C1|]; split; [exact C3|]; split; [exact C4|];
       split; [auto|]; split; [auto|]; split; [congruence|]; split; [congruence|];
       exists projection, code; split; [reflexivity | exact Gc]).
  - destruct (name_is (currentProgramName mc) name); discriminate.
Qed.

(** X12: the locations are cached per program: once a uniform or an
    attribute has been looked up, looking it up again gives the same
    answer and leaves the manager as it is, whatever the GL context would
    answer by then; a [null] is cached like a location. *)
Theorem locations_are_cached :
  forall (name : string) (m : ShaderManager) (p p' : Page),
    getUniformLocation name (snd (getUniformLocation name m p)) p'
    = getUniformLocation name m p
    /\ getAttributeLocation name (snd (getAttributeLocation name m p)) p'
       = getAttributeLocation name m p.
Proof.
  intros name m p p'. split.
  - unfold getUniformLocation.
    destruct (currentProgramName m) as [current|] eqn:Ec; cbn [snd]; [|rewrite Ec; reflexivity].
    destruct (lookup current (programs m)) as [program|] eqn:Ep; cbn [snd];
      [|rewrite Ec, Ep; reflexivity].
    destruct (lookup current (uniformLocations m)) as [cache|] eqn:Eu.
    + destruct (lookup name cache) as [location|] eqn:El; cbn [snd].
      * rewrite ?Ec, ?Ep, ?Eu, ?El. reflexivity.
      * destruct (Plain.inherited name) eqn:Ei; cbn [snd].
        { rewrite ?Ec, ?Ep, ?Eu, ?El, ?Ei. reflexivity. }
        cbn [currentProgramName programs uniformLocations].
        rewrite ?Ec, ?Ep, ?lookup_assign_same. reflexivity.
    + cbn [lookup]. destruct (Plain.inherited name) eqn:Ei; cbn [snd].
      { rewrite ?Ec, ?Ep, ?Eu; cbn [lookup]; rewrite ?Ei; reflexivity. }
      cbn [lookup snd currentProgramName programs uniformLocations].
      rewrite ?Ec, ?Ep, ?lookup_assign_same. reflexivity.
  - unfold getAttributeLocation.
    destruct (currentProgramName m) as [current|] eqn:Ec; cbn [snd]; [|rewrite Ec; reflexivity].
    destruct (lookup current (programs m)) as [program|] eqn:Ep; cbn [snd];
      [|rewrite Ec, Ep; reflexivity].
    destruct (lookup current (attributeLocations m)) as [cache|] eqn:Eu.
    + destruct (lookup name cache) as [location|] eqn:El; cbn [snd].
      * rewrite ?Ec, ?Ep, ?Eu, ?El. reflexivity.
      * destruct (Plain.inherited name) eqn:Ei; cbn [snd].
        { rewrite ?Ec, ?Ep, ?Eu, ?El, ?Ei. reflexivity. }
        cbn [currentProgramName programs attributeLocations].
        rewrite ?Ec, ?Ep, ?lookup_assign_same. reflexivity.
    + cbn [lookup]. destruct (Plain.inherited name) eqn:Ei; cbn [snd].
      { rewrite ?Ec, ?Ep, ?Eu; cbn [lookup]; rewrite ?Ei; reflexivity. }
      cbn [lookup snd currentProgramName programs attributeLocations].
      rewrite ?Ec, ?Ep, ?lookup_assign_same. reflexivity.
Qed.

Ltac count_compiles :=
  unfold compiles_made, links_made;
  cbn [calls with_calls gl with_next_handle with_current_program];
  rewrite ?filter_app, ?length_app; cbn; lia.

(** X13: a program that has been built once is rebuilt from the cached
    shaders: the second [createDynamicProgram] for the same projection
    compiles nothing, deletes the program of the first and links once,
    whatever geometry name it is given. *)
Theorem rebuild_reuses_compiled_shaders :
  forall (name geom geom' proj : string) (m : ShaderManager) (p : Page)
         (pr : Program) (m1 : ShaderManager) (p1 : Page),
    createDynamicProgram name geom proj m p = (Some pr, m1, p1) ->
    let '(_, _, p2) := createDynamicProgram name geom' proj m1 p1 in
    compiles_made p2 = compiles_made p1
    /\ links_made p2 = S (links_made p1)
    /\ In (DeleteProgram (handle pr)) (calls p2).
Proof.
  intros name geom geom' proj m p pr m1 p1 H.
  apply createDynamicProgram_ok in H.
  destruct H as (H1 & _ & _ & H4 & H5 & _ & H7 & projection & code & H8 & H9).
  unfold createDynamicProgram.
  rewrite (compileShader_hit _ _ _ H4). cbn [negb].
  rewrite H7, H8, H9.
  rewrite (compileShader_hit _ _ _ H5). cbn [negb].
  unfold _createProgram. rewrite H1. cbv zeta.
  cbn [links gl with_calls with_next_handle].
  destruct (links p1 name);
    cbn [currentProgramName]; destruct (name_is (currentProgramName m1) name);
    (split; [count_compiles | split; [count_compiles|]]);
    cbn [calls with_calls gl with_next_handle with_current_program];
    rewrite ?in_app_iff; cbn; tauto.
Qed.

Lemma rebuild_reuses_compiled_shaders_witness :
  match createDynamicProgram "maleficarumViz" "hypercube" "perspective"
          {| compiledShaders := []; programs := []; uniformLocations := [];
             attributeLocations := []; currentProgramName := None;
             projectionManager := Registry.new None |} canvas_page with
  | (Some _, m1, p1) =>
      let '(_, _, p2) :=
        createDynamicProgram "maleficarumViz" "hypersphere" "perspective" m1 p1 in
      compiles_made p2 = compiles_made p1
  | (None, _, _) => False
  end.
Proof.
  destruct (createDynamicProgram "maleficarumViz" "hypercube" "perspective" _ canvas_page)
    as [[[pr|] m1] p1] eqn:E.
  - pose proof (rebuild_reuses_compiled_shaders "maleficarumViz" "hypercube"
                  "hypersphere" "perspective" _ canvas_page pr m1 p1 E) as H.
    destruct (createDynamicProgram "maleficarumViz" "hypersphere" "perspective" m1 p1)
      as [[program2 m2] p2].
    exact (proj1 H).
  - lazy in E. discriminate.
Defined.







End ShaderManagerFacts.

(* --------------------------------------------------------------------- *)
(** ** core/HypercubeCore.js *)
(* --------------------------------------------------------------------- *)

Section EngineFacts.
Import Core Tally.
Local Open Scope string_scope.

(** X17: [stop()] after [start()] undoes the start: the engine is not
    rendering, the frame [start] had requested is cancelled and no GL call
    was made; a frame callback that still arrives, and a second [stop()],
    change nothing. *)
Theorem stop_cancels_what_start_requested :
  forall (now : R) (c : HypercubeCore) (p : Page),
    isRendering (state c) = false -> contextLost p = false ->
    let e := stop (start now (c, p)) in
    isRendering (state (fst e)) = false
    /\ animationFrameId (state (fst e)) = None
    /\ frame_requested (snd e) = None
    /\ calls (snd e) = calls p
    /\ (forall timestamp, _render timestamp e = e)
    /\ stop e = e.
Proof.
  intros now c p Hr Hl. cbv zeta. unfold start. rewrite Hr, Hl.
  unfold requestAnimationFrame. cbv zeta. unfold stop.
  cbn [state with_state isRendering with_animationFrameId with_dirty set_prop with_props
       with_isRendering negb animationFrameId fst snd].
  unfold cancelAnimationFrame. cbn [frame_requested with_frame].
  rewrite Nat.eqb_refl. cbn [frame_requested with_frame calls].
  repeat split.
Qed.

Lemma stop_cancels_what_start_requested_witness :
  frame_requested (snd (stop (start 0 (new true true canvas_page)))) = None.
Proof.
  exact (proj1 (proj2 (proj2
    (stop_cancels_what_start_requested 0
       (fst (new true true canvas_page)) (snd (new true true canvas_page))
       eq_refl eq_refl)))).
Defined.

(** X18: a frame that finds the context lost stops the loop: the engine
    is no longer rendering, the pending frame handle is dropped, the error
    callback (when installed) has run once, no GL call was made and the
    parameters are as they were; afterwards neither a frame callback nor
    [start()] does anything while the context stays lost. *)
Theorem lost_context_halts_the_loop :
  forall (timestamp : R) (c : HypercubeCore) (p : Page),
    isRendering (state c) = true -> contextLost p = true ->
    let e := _render timestamp (c, p) in
    isRendering (state (fst e)) = false
    /\ animationFrameId (state (fst e)) = None
    /\ errors_reported (snd e) = (errors_reported p + reported c)%nat
    /\ calls (snd e) = calls p
    /\ props (state (fst e)) = props (state c)
    /\ (forall later, _render later e = e)
    /\ (forall now, start now e = e).
Proof.
  intros timestamp c p Hr Hl. cbv zeta. unfold _render. rewrite Hr, Hl. cbn [negb].
  unfold stop. rewrite Hr. cbn [negb].
  unfold report, reported.
  cbn [state with_state onError isRendering with_animationFrameId with_isRendering
       animationFrameId props fst snd].
  assert (Hc : forall id, contextLost (cancelAnimationFrame id p) = true).
  { intros id. unfold cancelAnimationFrame. destruct (frame_requested p) as [f|]; [|exact Hl].
    destruct (Nat.eqb f id); exact Hl. }
  assert (He : forall id, errors_reported (cancelAnimationFrame id p) = errors_reported p).
  { intros id. unfold cancelAnimationFrame. destruct (frame_requested p) as [f|]; [|reflexivity].
    destruct (Nat.eqb f id); reflexivity. }
  assert (Hk : forall id, calls (cancelAnimationFrame id p) = calls p).
  { intros id. unfold cancelAnimationFrame. destruct (frame_requested p) as [f|]; [|reflexivity].
    destruct (Nat.eqb f id); reflexivity. }
  destruct (animationFrameId (state c)) as [id|]; destruct (onError (state c));
    cbn [errors_reported with_errors_reported calls contextLost];
    rewrite ?He, ?Hk, ?Hc, ?Hl; repeat split; try lia;
    intros now; unfold start;
    cbn [state with_state isRendering with_animationFrameId with_isRendering
         contextLost with_errors_reported];
    rewrite ?Hc, ?Hl; reflexivity.
Qed.

Lemma lost_context_halts_the_loop_witness :
  let e := start 0 (new true true canvas_page) in
  let p := {| contextLost := true; compiles := compiles (snd e); links := links (snd e);
              uniform_active := uniform_active (snd e);
              attribute_active := attribute_active (snd e);
              clientWidth := 300; clientHeight := 150; width := 300; height := 150;
              calls := calls (snd e); current_program := current_program (snd e);
              next_handle := next_handle (snd e); errors_reported := 0%nat;
              frame_requested := frame_requested (snd e);
              next_frame := next_frame (snd e); uncaught := uncaught (snd e) |} in
  errors_reported (snd (_render 16 (fst e, p))) = 1%nat.
Proof.
  intros e p.
  exact (proj1 (proj2 (proj2
    (lost_context_halts_the_loop 16 (fst e) p eq_refl eq_refl)))).
Defined.

Lemma same_parameters_refl e : same_parameters e e.
Proof. repeat split. Qed.

Lemma same_parameters_trans e1 e2 e3 :
  same_parameters e1 e2 -> same_parameters e2 e3 -> same_parameters e1 e3.
Proof. intros (A1 & A2 & A3) (B1 & B2 & B3). repeat split; congruence. Qed.

Lemma same_parameters_upload name e : same_parameters e (upload name e).
Proof.
  destruct e as [c p]. unfold upload.
  destruct (String.eqb name "u_time"); [apply same_parameters_refl|].
  destruct (getUniformLocation name (shaderManager c) p) as [location m].
  destruct location; repeat split.
Qed.

Lemma same_parameters_fold_upload names : forall e,
  same_parameters e (fold_left (fun e uniformName => upload uniformName e) names e).
Proof.
  induction names as [|n names IH]; intros e; cbn [fold_left].
  - apply same_parameters_refl.
  - eapply same_parameters_trans; [apply same_parameters_upload | apply IH].
Qed.

Lemma same_parameters_setUniforms e : same_parameters e (_setUniforms e).
Proof.
  destruct e as [c p]. unfold _setUniforms.
  destruct (useProgram _ (shaderManager c) p) as [m1 p1].
  destruct (getUniformLocation "u_time" m1 p1) as [timeLoc m2].
  destruct timeLoc;
    (eapply same_parameters_trans; [|apply same_parameters_fold_upload]);
    repeat split.
Qed.

Lemma same_parameters_frame_tail e : same_parameters e (frame_tail e).
Proof.
  unfold frame_tail. pose proof (same_parameters_setUniforms e) as H.
  destruct (_setUniforms e) as [c p].
  destruct (negb (indexable (get "background" (colorScheme (state c))))); [exact H|].
  destruct (quadBuffer c && aPositionLoc c).
  - destruct (requestAnimationFrame _). exact H.
  - destruct (negb (aPositionLoc c)).
    + destruct (getAttributeLocation _ _ _). destruct (requestAnimationFrame _). exact H.
    + destruct (requestAnimationFrame _). exact H.
Qed.

Lemma same_parameters_updateShader e :
  same_parameters e (snd (_updateShaderIfNeeded e)).
Proof.
  destruct e as [c p]. unfold _updateShaderIfNeeded.
  destruct (negb (needsShaderUpdate (state c))); [apply same_parameters_refl|].
  destruct (createDynamicProgram _ _ _ _ _) as [[program m] p1].
  destruct (threw p p1); [repeat split|].
  destruct program as [pr|].
  - cbn [state with_state with_shaderManager shaderManager].
    destruct (useProgram _ _ _) as [m2 p2].
    destruct (getAttributeLocation _ _ _) as [location m3]. repeat split.
  - unfold stop. cbn [state with_shaderManager].
    destruct (negb (isRendering (state c))); repeat split.
Qed.

(** The frame after the resize check. *)
Lemma same_parameters_frame_rest timestamp c p :
  isRendering (state c) = true -> contextLost p = false ->
  same_parameters (frame_head timestamp c p) (_render timestamp (c, p)).
Proof.
  intros Hr Hl. rewrite (render_unfold timestamp c p Hr Hl). cbv zeta.
  set (e := frame_head timestamp c p).
  destruct (needsShaderUpdate (state (fst e))).
  - pose proof (same_parameters_updateShader e) as H.
    destruct (_updateShaderIfNeeded e) as [ready e1]. cbn [snd] in H.
    destruct ready; cbn [negb]; [|exact H].
    eapply same_parameters_trans; [exact H | apply same_parameters_frame_tail].
  - cbn [negb]. apply same_parameters_frame_tail.
Qed.

Lemma eqb_same (x : R) : JS.eqb x x = true.
Proof. unfold JS.eqb. destruct (Req_dec_T x x); [reflexivity | contradiction]. Qed.

Lemma eqb_differs (x y : R) : x <> y -> JS.eqb x y = false.
Proof. intros H. unfold JS.eqb. destruct (Req_dec_T x y); [contradiction | reflexivity]. Qed.

Lemma frame_head_resolution timestamp c p :
  let e := frame_head timestamp c p in
  (width p = clientWidth p -> height p = clientHeight p ->
     get "resolution" (props (state (fst e))) = get "resolution" (props (state c)))
  /\ (width p <> clientWidth p \/ height p <> clientHeight p ->
        get "resolution" (props (state (fst e))) = Vec [clientWidth p; clientHeight p]).
Proof.
  cbv zeta. unfold frame_head, _checkResize. split.
  - intros Hw Hh. rewrite Hw, Hh, !eqb_same. cbn [negb orb fst state with_state].
    destruct (JS.truthy _); rewrite ?get_set_prop_other by discriminate; reflexivity.
  - intros Hd.
    assert (Hs : negb (JS.eqb (width p) (clientWidth p))
                 || negb (JS.eqb (height p) (clientHeight p)) = true).
    { destruct Hd as [Hd | Hd]; rewrite (eqb_differs _ _ Hd); cbn [negb];
        [reflexivity | apply orb_true_r]. }
    rewrite Hs. cbn [fst state with_state width height with_size].
    unfold mark, set_prop, get. cbn [props with_dirty with_props].
    rewrite lookup_assign_same. reflexivity.
Qed.

(** X19: [_checkResize] makes the canvas as large as it is displayed and
    is idempotent; and the only thing that ever writes [state.resolution]
    during a frame is a resize: a frame on a canvas that already has its
    display size leaves it as it was (the default is [0, 0]), a frame on
    one that has not sets it to the display size. *)
Theorem resolution_follows_resizes_only :
  (forall (c : HypercubeCore) (p : Page),
      let e := _checkResize (c, p) in
      width (snd e) = clientWidth p /\ height (snd e) = clientHeight p
      /\ _checkResize e = e)
  /\ (forall (timestamp : R) (c : HypercubeCore) (p : Page),
        isRendering (state c) = true -> contextLost p = false ->
        let e := _render timestamp (c, p) in
        (width p = clientWidth p -> height p = clientHeight p ->
           get "resolution" (props (state (fst e)))
           = get "resolution" (props (state c)))
        /\ (width p <> clientWidth p \/ height p <> clientHeight p ->
              get "resolution" (props (state (fst e)))
              = Vec [clientWidth p; clientHeight p])).
Proof.
  split.
  - intros c p. cbv zeta. unfold _checkResize.
    destruct (negb (JS.eqb (width p) (clientWidth p))
              || negb (JS.eqb (height p) (clientHeight p))) eqn:E.
    + cbn [fst snd width height clientWidth clientHeight with_size].
      rewrite !eqb_same. cbn [negb orb]. repeat split.
    + cbn [snd]. rewrite E.
      apply orb_false_iff in E. destruct E as [E1 E2].
      apply negb_false_iff in E1, E2. unfold JS.eqb in E1, E2.
      destruct (Req_dec_T (width p) (clientWidth p)); [|discriminate].
      destruct (Req_dec_T (height p) (clientHeight p)); [|discriminate].
      repeat split; assumption.
  - intros timestamp c p Hr Hl. cbv zeta.
    destruct (same_parameters_frame_rest timestamp c p Hr Hl) as (H & _).
    rewrite H. apply frame_head_resolution.
Qed.

Lemma resolution_follows_resizes_only_witness :
  let e := start 0 (new true true canvas_page) in
  get "resolution" (props (state (fst (_render 16 (fst e, snd e))))) = Vec [0; 0].
Proof.
  intros e.
  exact (proj1 (proj2 resolution_follows_resizes_only 16 (fst e) (snd e) eq_refl eq_refl)
           eq_refl eq_refl).
Defined.

End EngineFacts.

Section ParameterFacts.
Import Core Tally.
Local Open Scope string_scope.

Lemma strict_neq_same (v : Value) : primitive v = true -> strict_neq v v = false.
Proof.
  destruct v; cbn; try discriminate; intros _; try reflexivity.
  - rewrite Bool.eqb_reflx. reflexivity.
  - rewrite eqb_same. reflexivity.
  - rewrite String.eqb_refl. reflexivity.
Qed.

Lemma plain_keys key :
  plain key = true ->
  String.eqb key "colorScheme" = false /\ String.eqb key "audioLevels" = false
  /\ String.eqb key "needsShaderUpdate" = false /\ String.eqb key "isRendering" = false
  /\ String.eqb key "_dirtyUniforms" || String.eqb key "animationFrameId"
     || String.eqb key "callbacks" = false.
Proof.
  unfold plain. cbn [existsb]. intros H. apply negb_true_iff in H.
  apply orb_false_iff in H. destruct H as [H1 H].
  apply orb_false_iff in H. destruct H as [H2 H].
  apply orb_false_iff in H. destruct H as [H3 H].
  apply orb_false_iff in H. destruct H as [H4 H].
  apply orb_false_iff in H. destruct H as [H5 H].
  apply orb_false_iff in H. destruct H as [H6 H].
  apply orb_false_iff in H. destruct H as [H7 _].
  rewrite H5, H6, H7. repeat split; assumption.
Qed.

(** One turn of the loop for a plain key. *)
Lemma update_key_plain key v s flag :
  plain key = true ->
  exists s1 flag1,
    update_key key v (s, flag) = Some (s1, flag1)
    /\ audioLevels s1 = audioLevels s
    /\ colorScheme s1 = colorScheme s
    /\ isRendering s1 = isRendering s
    /\ animationFrameId s1 = animationFrameId s
    /\ needsShaderUpdate s1 = needsShaderUpdate s
    /\ (forall other, other <> key ->
          lookup other (props s1) = lookup other (props s))
    /\ (forall u, In u (_dirtyUniforms s1) ->
          In u (_dirtyUniforms s) \/ (u = uniform_of key /\ marks key = true)).
Proof.
  intros Hp. destruct (plain_keys key Hp) as (K1 & K2 & K3 & K4 & K5).
  unfold update_key. rewrite K1, K2, K3, K4, K5.
  destruct (lookup key (props s)) as [current|] eqn:E.
  - destruct (strict_neq current v);
      [|exists s, flag; repeat split; auto].
    unfold marks.
    destruct (known_pattern key) eqn:Ek;
      [|destruct (String.eqb key "dimensions" || String.eqb key "currentNoteFrequency")
          eqn:Ed];
      eexists; eexists; (split; [reflexivity|]);
      cbn [fst audioLevels colorScheme isRendering animationFrameId needsShaderUpdate
           props _dirtyUniforms mark set_prop with_props with_dirty]; repeat split;
      try (intros other Ho; apply lookup_assign_other; congruence); auto.
    + intros u Hu. apply in_add in Hu. destruct Hu as [Hu | Hu]; [left; exact Hu|].
      right. split; [exact Hu | reflexivity].
    + intros u Hu. apply in_add in Hu. destruct Hu as [Hu | Hu]; [left; exact Hu|].
      right. split; [exact Hu|]. cbn [orb]. exact Ed.
  - exists s, flag. repeat split; auto.
Qed.

(** The whole loop, over plain keys. *)
Lemma fold_update_plain newParams : forall s flag,
  (forall key, In key (map fst newParams) -> plain key = true) ->
  exists s1 flag1,
    fold_left turn newParams (Some (s, flag)) = Some (s1, flag1)
    /\ audioLevels s1 = audioLevels s
    /\ colorScheme s1 = colorScheme s
    /\ isRendering s1 = isRendering s
    /\ animationFrameId s1 = animationFrameId s
    /\ needsShaderUpdate s1 = needsShaderUpdate s
    /\ (forall other, ~ In other (map fst newParams) ->
          lookup other (props s1) = lookup other (props s))
    /\ (forall u, In u (_dirtyUniforms s1) ->
          In u (_dirtyUniforms s)
          \/ exists key,
               In key (map fst newParams) /\ u = uniform_of key /\ marks key = true).
Proof.
  induction newParams as [|[k v] ps IH]; intros s flag Hp; cbn [fold_left turn fst snd map].
  - exists s, flag. repeat split; auto.
  - destruct (update_key_plain k v s flag (Hp k (or_introl eq_refl)))
      as (s1 & flag1 & -> & H1 & H2 & H3 & H4 & H7 & H5 & H6).
    destruct (IH s1 flag1 (fun key Hk => Hp key (or_intror Hk)))
      as (s2 & flag2 & E & I1 & I2 & I3 & I4 & I7 & I5 & I6).
    exists s2, flag2. split; [exact E|].
    repeat split; try congruence.
    + intros other Hn. rewrite I5 by (intros Hin; apply Hn; right; exact Hin).
      apply H5. intros ->. apply Hn. left. reflexivity.
    + intros u Hu. destruct (I6 u Hu) as [Hd | (key & Hk & Hu' & Hm)].
      * destruct (H6 u Hd) as [Hd' | [Hu' Hm]]; [left; exact Hd'|].
        right. exists k. split; [left; reflexivity | split; assumption].
      * right. exists key. split; [right; exact Hk | split; assumption].
Qed.

(** X20: sending [updateParameters] the values the state already holds,
    or keys the state does not have, changes nothing: no parameter, no
    dirty mark, no rebuild flag.  This is for the parameters proper, not
    for the nested records or the engine's own bookkeeping (the flags,
    the dirty set, the frame handle, the callbacks), and, the values being
    compared with [!==], for numbers, strings and booleans. *)
Theorem updateParameters_ignores_what_is_unchanged :
  forall (newParams : list (string * Value)) (s : State),
    (forall key v, In (key, v) newParams ->
       plain key = true
       /\ (lookup key (props s) = None
           \/ (lookup key (props s) = Some v /\ primitive v = true))) ->
    updateParameters newParams s = Some s.
Proof.
  intros newParams s H. rewrite updateParameters_turns.
  assert (F : fold_left turn newParams (Some (s, false)) = Some (s, false)).
  { induction newParams as [|[k v] ps IH]; cbn [fold_left turn fst snd]; [reflexivity|].
    destruct (H k v (or_introl eq_refl)) as [Hp Hv].
    destruct (plain_keys k Hp) as (K1 & K2 & K3 & K4 & K5).
    assert (U : update_key k v (s, false) = Some (s, false)).
    { unfold update_key. rewrite K1, K2, K3, K4, K5.
      destruct Hv as [Hv | [Hv Hprim]]; rewrite Hv.
      - reflexivity.
      - rewrite strict_neq_same by exact Hprim. reflexivity. }
    rewrite U. apply IH. intros key v' Hin. apply H. right. exact Hin. }
  rewrite F. reflexivity.
Qed.

Lemma updateParameters_ignores_what_is_unchanged_witness :
  updateParameters [ ("morphFactor", Num 0.5); ("dimension", Num 3.5) ] DEFAULT_STATE
  = Some DEFAULT_STATE.
Proof.
  apply updateParameters_ignores_what_is_unchanged.
  intros key v [[= <- <-] | [[= <- <-] | []]]; split; try reflexivity.
  - right. split; reflexivity.
  - left. reflexivity.
Defined.

(** The local [shaderNeedsUpdate] stays [false] over a key that is not
    one of the two names, or whose value is the one the state holds. *)
Lemma update_key_no_rebuild key v s s1 f1 :
  plain key = true ->
  (String.eqb key "geometryType" || String.eqb key "projectionMethod" = false
   \/ (lookup key (props s) = Some v /\ primitive v = true)) ->
  update_key key v (s, false) = Some (s1, f1) -> f1 = false.
Proof.
  intros Hp H. destruct (plain_keys key Hp) as (K1 & K2 & K3 & K4 & K5).
  unfold update_key. rewrite K1, K2, K3, K4, K5.
  destruct H as [H | [H Hprim]].
  - destruct (lookup key (props s)) as [current|].
    + destruct (strict_neq current v); intros [= _ <-]; [|reflexivity].
      cbn [orb]. exact H.
    + intros [= _ <-]. reflexivity.
  - rewrite H, strict_neq_same by exact Hprim. intros [= _ <-]. reflexivity.
Qed.

Lemma fold_no_rebuild newParams : forall s s1 f1,
  (forall key, In key (map fst newParams) -> plain key = true) ->
  NoDup (map fst newParams) ->
  (forall key v, In (key, v) newParams ->
     String.eqb key "geometryType" || String.eqb key "projectionMethod" = false
     \/ (lookup key (props s) = Some v /\ primitive v = true)) ->
  fold_left turn newParams (Some (s, false)) = Some (s1, f1) -> f1 = false.
Proof.
  induction newParams as [|[k v] ps IH]; intros s s1 f1 Hp Hnd Hv;
    cbn [fold_left turn fst snd map] in *.
  - intros [= _ <-]. reflexivity.
  - inversion Hnd as [|? ? Hnotin Hnd']; subst.
    destruct (update_key_plain k v s false (Hp k (or_introl eq_refl)))
      as (s2 & f2 & E & _ & _ & _ & _ & _ & Hother & _).
    rewrite E.
    pose proof (update_key_no_rebuild k v s s2 f2 (Hp k (or_introl eq_refl))
                  (Hv k v (or_introl eq_refl)) E) as ->.
    apply IH; [intros key Hk; apply Hp; right; exact Hk | exact Hnd'|].
    intros key v' Hin. destruct (Hv key v' (or_intror Hin)) as [H | [H Hprim]];
      [left; exact H|].
    right. split; [|exact Hprim]. rewrite Hother; [exact H|].
    intros ->. apply Hnotin. apply (in_map fst) in Hin. exact Hin.
Qed.

Lemma visualParams_plain v key :
  In key (map fst (Ui.visualParams v)) -> plain key = true.
Proof.
  cbn. intros H.
  repeat (destruct H as [<- | H]; [reflexivity|]). destruct H.
Qed.

Lemma visualParams_keys v : NoDup (map fst (Ui.visualParams v)).
Proof. cbn. repeat constructor; cbn; intuition discriminate. Qed.

(** X21: a turn of [mainLoop] can only write the parameters named in the
    object [mapSoundToVisuals] returns.  That object says [dimension]
    where the engine's state says [dimensions], and carries no audio
    levels: so the mapper's dimension never reaches [state.dimensions],
    the measured levels never reach [state.audioLevels], and of the
    uniforms only the five for morph factor, glitch intensity, rotation
    speed, grid density and note frequency can become dirty. *)
Theorem mainLoop_reaches_only_the_mapped_keys :
  forall (ui : Mapper.UiState) (dataArray : list Z) (soundModule : Sound.St) (s : State),
    let s' := Ui.mainLoop ui dataArray soundModule s in
    audioLevels s' = audioLevels s
    /\ colorScheme s' = colorScheme s
    /\ isRendering s' = isRendering s
    /\ (forall key,
          ~ In key [ "morphFactor"; "glitchIntensity"; "rotationSpeed"; "dimension";
                     "gridDensity"; "projectionMethod"; "xyPadActive";
                     "currentNoteFrequency" ] ->
          lookup key (props s') = lookup key (props s))
    /\ get "dimensions" (props s') = get "dimensions" (props s)
    /\ (forall u, In u (_dirtyUniforms s') ->
          In u (_dirtyUniforms s)
          \/ In u [ "u_morphFactor"; "u_glitchIntensity"; "u_rotationSpeed";
                    "u_gridDensity"; "u_currentNoteFreq" ]).
Proof.
  intros ui dataArray soundModule s. cbv zeta. unfold Ui.mainLoop.
  destruct (_ || _); [repeat split; auto|].
  set (v := Mapper.mapSoundToVisuals _ _ _).
  rewrite updateParameters_turns.
  destruct (fold_update_plain (Ui.visualParams v) s false (visualParams_plain v))
    as (s1 & flag & -> & H1 & H2 & H3 & H4 & H5 & H6 & H7).
  assert (K : forall key,
            ~ In key [ "morphFactor"; "glitchIntensity"; "rotationSpeed"; "dimension";
                       "gridDensity"; "projectionMethod"; "xyPadActive";
                       "currentNoteFrequency" ] ->
            lookup key (props s1) = lookup key (props s)).
  { intros key Hk. apply H6. exact Hk. }
  assert (D : forall u, In u (_dirtyUniforms s1) ->
            In u (_dirtyUniforms s)
            \/ In u [ "u_morphFactor"; "u_glitchIntensity"; "u_rotationSpeed";
                      "u_gridDensity"; "u_currentNoteFreq" ]).
  { intros u Hu. destruct (H7 u Hu) as [Hd | (key & Hk & -> & Hm)]; [left; exact Hd|].
    right. cbn in Hk.
    repeat (destruct Hk as [<- | Hk];
            [first [ discriminate Hm | cbn; tauto ]|]).
    destruct Hk. }
  assert (G : get "dimensions" (props s1) = get "dimensions" (props s)).
  { unfold get. rewrite K; [reflexivity|].
    cbn. intros Hin. repeat (destruct Hin as [Hin | Hin]; [discriminate Hin|]). exact Hin. }
  destruct flag; cbn [audioLevels colorScheme isRendering props _dirtyUniforms
                      with_needsShaderUpdate]; repeat split; auto.
Qed.

(** X22: the loop asks for a shader rebuild exactly when the projection
    the mapper picks differs from the engine's: a turn of [mainLoop] with
    another projection name raises [needsShaderUpdate]; a turn with the
    same name leaves the flag as it was, so a steady sound state does not
    rebuild the shader every frame. *)
Theorem mainLoop_requests_a_rebuild_on_a_new_projection :
  forall (ui : Mapper.UiState) (dataArray : list Z) (soundModule : Sound.St) (s : State)
         (current : string),
    Sound.isInitialized (fst soundModule) = true -> isRendering s = true ->
    lookup "projectionMethod" (props s) = Some (Str current) ->
    let picked :=
      Mapper.projectionMethod
        (Mapper.mapSoundToVisuals ui (Sound.parameters (fst soundModule))
           (Sound.getAudioLevels dataArray soundModule)) in
    (picked <> current ->
       needsShaderUpdate (Ui.mainLoop ui dataArray soundModule s) = true)
    /\ (picked = current ->
          needsShaderUpdate (Ui.mainLoop ui dataArray soundModule s) = needsShaderUpdate s).
Proof.
  intros ui dataArray soundModule s current Hi Hr Hc picked. subst picked.
  unfold Ui.mainLoop. rewrite Hi, Hr. cbn [negb orb].
  set (v := Mapper.mapSoundToVisuals _ _ _) in *. clearbody v.
  destruct (fold_update_plain (Ui.visualParams v) s false (visualParams_plain v))
    as (s1 & flag & E & _ & _ & _ & _ & Hflag & _).
  assert (U : updateParameters (Ui.visualParams v) s
              = Some (if flag then with_needsShaderUpdate true s1 else s1)).
  { rewrite updateParameters_turns, E. reflexivity. }
  rewrite U. split.
  - intros Hne.
    apply (updateParameters_rebuild "projectionMethod" (Str (Mapper.projectionMethod v))
             (Ui.visualParams v) s).
    + right. reflexivity.
    + apply visualParams_keys.
    + unfold Ui.visualParams. cbn. tauto.
    + exists (Str current). split; [exact Hc|]. cbn.
      apply negb_true_iff. apply String.eqb_neq. intros Heq. apply Hne.
      symmetry. exact Heq.
    + exact U.
  - intros He.
    assert (F : flag = false).
    { apply (fold_no_rebuild (Ui.visualParams v) s s1 flag (visualParams_plain v)
               (visualParams_keys v)); [|exact E].
      intros key x Hin. cbn in Hin.
      repeat (destruct Hin as [[= <- <-] | Hin]; [try (left; reflexivity)|]);
        [|destruct Hin].
      right. rewrite He. split; [exact Hc | reflexivity]. }
    subst flag. exact Hflag.
Qed.

Lemma mainLoop_requests_a_rebuild_on_a_new_projection_witness :
  needsShaderUpdate
    (Ui.mainLoop {| Mapper.glitchEnabled := false; Mapper.xyPad_active := false |}
       (repeat 0%Z Sound.frequencyBinCount)
       (Sound.scenario_state, Sound.page 44100)
       (fst (start 0 (new true true canvas_page))).(state)) = true.
Proof.
  apply (mainLoop_requests_a_rebuild_on_a_new_projection
           {| Mapper.glitchEnabled := false; Mapper.xyPad_active := false |}
           (repeat 0%Z Sound.frequencyBinCount)
           (Sound.scenario_state, Sound.page 44100)
           (state (fst (start 0 (new true true canvas_page)))) "perspective").
  - reflexivity.
  - reflexivity.
  - reflexivity.
  - discriminate.
Defined.










End ParameterFacts.

(* --------------------------------------------------------------------- *)
(** ** sound/sound-module.js *)
(* --------------------------------------------------------------------- *)

Section SoundSettings.
Import Params Sound Settings.
Local Open Scope string_scope.

Lemma toggleEffect_same_flag effectName a b :
  let e := effects (parameters a) in
  (effectName = "delay" -> toggleEffect effectName (delay_active (delay e)) (a, b) = (a, b))
  /\ (effectName = "reverb" ->
        toggleEffect effectName (reverb_active (reverb e)) (a, b) = (a, b))
  /\ (effectName = "glitch" ->
        toggleEffect effectName (glitch_active (glitch e)) (a, b) = (a, b))
  /\ (effectName = "arpeggiator" ->
        toggleEffect effectName (arp_active (arpeggiator e)) (a, b) = (a, b)).
Proof.
  cbv zeta. repeat split; intros ->; unfold toggleEffect;
    cbn [String.eqb Ascii.eqb Bool.eqb]; rewrite Bool.eqb_reflx; reflexivity.
Qed.

Lemma toggle_states_same (s : St) : _applyCurrentToggleStates s = s.
Proof.
  destruct s as [a b]. unfold _applyCurrentToggleStates. cbv zeta. cbn [fst].
  destruct (toggleEffect_same_flag "delay" a b) as (H1 & _).
  rewrite (H1 eq_refl). cbn [fst].
  destruct (toggleEffect_same_flag "reverb" a b) as (_ & H2 & _).
  rewrite (H2 eq_refl). cbn [fst].
  destruct (toggleEffect_same_flag "glitch" a b) as (_ & _ & H3 & _).
  rewrite (H3 eq_refl). cbn [fst].
  destruct (toggleEffect_same_flag "arpeggiator" a b) as (_ & _ & _ & H4).
  exact (H4 eq_refl).
Qed.

(** X24: [_applyCurrentToggleStates] does nothing: it hands every
    effect's own flag to [toggleEffect], which returns at once when the
    flag already has that value.  So it neither routes a voice nor turns
    the sequencer on or off. *)
Theorem applyCurrentToggleStates_changes_nothing :
  forall s : St, _applyCurrentToggleStates s = s.
Proof. exact toggle_states_same. Qed.

Lemma tuned_compose f g : tuned f -> tuned g -> tuned (fun s => g (f s)).
Proof. intros Hf Hg s. rewrite Hg. apply Hf. Qed.

Lemma voice_state frequency a b : fst (snd (create_voice frequency (a, b))) = a.
Proof.
  destruct (create_voice_shape frequency a b) as (b' & _ & [H | (v & g & H)]);
    rewrite H; cbn [fst snd]; [reflexivity | apply connectEffects_state].
Qed.

Lemma tuned_cleanup : tuned _cleanupCurrentNoteNodes.
Proof. intros [a b]. reflexivity. Qed.

Lemma tuned_playArpNote frequency : tuned (_playArpNote frequency).
Proof.
  intros [a b]. unfold _playArpNote.
  destruct (negb (JS.truthy frequency) || negb (audioContext a)); [reflexivity|].
  set (s0 := if is_some (currentOscillator a) then _cleanupCurrentNoteNodes (a, b)
             else (a, b)).
  assert (H0 : settings (fst s0) = settings a)
    by (unfold s0; destruct (is_some _); reflexivity).
  destruct s0 as [a0 b0]. pose proof (voice_state frequency a0 b0) as V.
  destruct (create_voice frequency (a0, b0)) as [[[[o f] g]|] [a1 b1]];
    cbn [fst snd] in V; subst a1; exact H0.
Qed.

Lemma tuned_stopArpeggiator : tuned _stopArpeggiator.
Proof.
  intros [a b]. unfold _stopArpeggiator.
  destruct (intervalId (arp a)); [|reflexivity].
  cbn [currentOscillator currentGainNode with_arp audioContext].
  destruct (currentOscillator a); [destruct (currentGainNode a);
                                   [destruct (audioContext a)|]|]; reflexivity.
Qed.

Lemma tuned_arpStep : tuned _arpStep.
Proof.
  intros [a b]. unfold _arpStep.
  match goal with
  | |- context [if ?c then ?t else None] => destruct (if c then t else None) as [f|]
  end; [|apply tuned_stopArpeggiator].
  pose proof (tuned_playArpNote (stepFrequency f (pattern (arp a)) (currentStep (arp a)))
                (a, b)) as H.
  destruct (_playArpNote _ (a, b)) as [a1 b1]. cbn [fst] in *. exact H.
Qed.

Lemma tuned_startArpeggiator : tuned _startArpeggiator.
Proof.
  intros [a b]. unfold _startArpeggiator.
  destruct (_ || _); [reflexivity|].
  pose proof (tuned_arpStep (a, b)) as H.
  destruct (_arpStep (a, b)) as [a1 b1]. destruct (setInterval b1) as [id b2].
  cbn [fst] in *. exact H.
Qed.

(** [setParameter] with the value the parameters already hold. *)
Lemma setParameter_same type name value a b :
  store type name value (parameters a) = Some (parameters a) ->
  match value with
  | VNum v =>
      String.eqb (type ++ "." ++ name) "effects.arpeggiator.rate" = true -> v = rate (arp a)
  | VPattern v =>
      String.eqb (type ++ "." ++ name) "effects.arpeggiator.pattern" = true ->
      v = pattern (arp a)
  | _ => True
  end ->
  settings (fst (setParameter type name value (a, b))) = settings a.
Proof.
  intros Hs Hv. unfold setParameter. rewrite Hs.
  destruct (negb (isInitialized _) || negb (audioContext _)); [reflexivity|].
  destruct (String.eqb (type ++ "." ++ name) "effects.arpeggiator.rate") eqn:Er.
  - set (a1 := match value with
               | VNum v => with_arp (with_rate v (arp (with_parameters (parameters a) a)))
                             (with_parameters (parameters a) a)
               | _ => with_parameters (parameters a) a
               end).
    assert (H1 : settings a1 = settings a).
    { unfold a1. destruct value; try reflexivity. rewrite (Hv eq_refl). reflexivity. }
    destruct (active (arp a1) && is_some (intervalId (arp a1))); [|exact H1].
    pose proof (tuned_stopArpeggiator (a1, b)) as H2.
    destruct (_stopArpeggiator (a1, b)) as [a2 b2]. cbn [fst] in H2.
    destruct (is_some (activeNote a2)); [|cbn [fst]; congruence].
    pose proof (tuned_startArpeggiator (a2, b2)) as H3.
    destruct (_startArpeggiator (a2, b2)) as [a3 b3]. cbn [fst] in *.
    unfold settings in *. cbn [parameters arp with_isPlaying]. congruence.
  - destruct (String.eqb (type ++ "." ++ name) "effects.arpeggiator.pattern") eqn:Ep;
      [|reflexivity].
    destruct value; try reflexivity. cbn [fst]. rewrite (Hv eq_refl). reflexivity.
Qed.

Lemma setOscillatorType_same a b :
  settings (fst (setOscillatorType (osc_type (oscillator (parameters a))) (a, b)))
  = settings a.
Proof.
  unfold setOscillatorType. destruct (existsb _ _); [|reflexivity].
  cbn [fst]. unfold settings. cbn [parameters arp with_parameters].
  destruct (parameters a) as [[t g] f e x]. reflexivity.
Qed.

Lemma setFilterType_same a b :
  settings (fst (setFilterType (filter_type (filter (parameters a))) (a, b)))
  = settings a.
Proof.
  unfold setFilterType. destruct (existsb _ _); [|reflexivity].
  cbn [fst]. unfold settings. cbn [parameters arp with_parameters].
  destruct (parameters a) as [o [t f q] e x]. reflexivity.
Qed.

Ltac stored :=
  match goal with
  | |- store _ _ _ ?p = Some _ =>
      destruct p as [[? ?] [? ? ?] [? ?] [[? ? ?] [? ? ?] [?] [? ? ?]]]; reflexivity
  end.

Lemma applyPresetAudio_name_at presetName a b preset :
  presets_at presetName a = Some preset ->
  activePresetName (fst (applyPresetAudio presetName (a, b))) = presetName.
Proof.
  intros Hl. unfold applyPresetAudio. rewrite Hl. cbv zeta.
  set (a0 := with_arp _ _).
  assert (G : activePresetName a0 = presetName) by reflexivity.
  clearbody a0. destruct (isInitialized a0); [|exact G].
  match goal with
  | |- activePresetName (fst ?s') = _ => assert (K : keeps (a0, b) s')
  end.
  { apply keeps_step; [apply kept_applyCurrentToggleStates|].
    repeat (apply keeps_step; [apply kept_setParameter|]).
    apply keeps_step; [apply quiet_kept, quiet_setFilterType|].
    apply keeps_step; [apply quiet_kept, quiet_setOscillatorType|].
    apply keeps_refl. }
  destruct K as (_ & _ & K3). rewrite K3. exact G.
Qed.

(** What [applyPresetAudio] leaves behind for the object it finds under
    the name: the setters it calls afterwards change none of it. *)
Lemma applyPresetAudio_settled presetName a b preset :
  presets_at presetName a = Some preset ->
  let a' := fst (applyPresetAudio presetName (a, b)) in
  let merged := merge defaultStructure preset in
  parameters a' = merged
  /\ rate (arp a') = arp_rate (arpeggiator (effects merged))
  /\ pattern (arp a') = arp_pattern (arpeggiator (effects merged))
  /\ active (arp a') = active (arp a)
  /\ activePresetName a' = presetName.
Proof.
  intros H. cbv zeta.
  pose proof (applyPresetAudio_name_at presetName a b preset H) as Hn.
  set (merged := merge defaultStructure preset).
  set (target := (merged, active (arp a), arp_rate (arpeggiator (effects merged)),
                  arp_pattern (arpeggiator (effects merged)))).
  set (a0 := with_arp
               (with_pattern (arp_pattern (arpeggiator (effects merged)))
                  (with_rate (arp_rate (arpeggiator (effects merged)))
                     (arp (with_parameters merged (with_activePresetName presetName a)))))
               (with_parameters merged (with_activePresetName presetName a))).
  set (steps :=
         [ (fun s : St => setOscillatorType (osc_type (oscillator (parameters (fst s)))) s);
           (fun s => setFilterType (filter_type (filter (parameters (fst s)))) s);
           (fun s => setParameter "filter" "frequency"
                       (VNum (filter_frequency (filter (parameters (fst s))))) s);
           (fun s => setParameter "filter" "Q"
                       (VNum (filter_Q (filter (parameters (fst s))))) s);
           (fun s => setParameter "effects.delay" "time"
                       (VNum (delay_time (delay (effects (parameters (fst s)))))) s);
           (fun s => setParameter "effects.delay" "feedback"
                       (VNum (delay_feedback (delay (effects (parameters (fst s)))))) s);
           (fun s => setParameter "effects.reverb" "decay"
                       (VNum (reverb_decay (reverb (effects (parameters (fst s)))))) s);
           (fun s => setParameter "effects.reverb" "wet"
                       (VNum (reverb_wet (reverb (effects (parameters (fst s)))))) s);
           (fun s => setParameter "effects.arpeggiator" "rate"
                       (VNum (arp_rate (arpeggiator (effects merged)))) s);
           (fun s => setParameter "effects.arpeggiator" "pattern"
                       (VPattern (arp_pattern (arpeggiator (effects merged)))) s);
           _applyCurrentToggleStates ]).
  assert (E : applyPresetAudio presetName (a, b)
              = if isInitialized a0 then fold_left (fun s f => f s) steps (a0, b)
                else (a0, b)).
  { unfold applyPresetAudio. rewrite H.
    cbv beta iota zeta delta [fold_left steps]. reflexivity. }
  set (r := applyPresetAudio presetName (a, b)) in *. clearbody r.
  assert (K : forall f, In f steps ->
              forall s, settings (fst s) = target -> settings (fst (f s)) = target).
  { intros f Hin [a1 b1] Hs. cbn [fst] in Hs.
    assert (Hr : arp_rate (arpeggiator (effects merged)) = rate (arp a1))
      by (unfold settings, target in Hs; congruence).
    assert (Hp : arp_pattern (arpeggiator (effects merged)) = pattern (arp a1))
      by (unfold settings, target in Hs; congruence).
    assert (Hm : parameters a1 = merged)
      by (unfold settings, target in Hs; congruence).
    unfold steps in Hin. cbn [In] in Hin.
    destruct Hin as [<- | Hin]; [cbn [fst]; rewrite setOscillatorType_same; exact Hs|].
    destruct Hin as [<- | Hin]; [cbn [fst]; rewrite setFilterType_same; exact Hs|].
    do 6 (destruct Hin as [<- | Hin];
          [cbn [fst]; rewrite setParameter_same;
           [exact Hs | stored | intros Hx; discriminate Hx]|]).
    destruct Hin as [<- | Hin];
      [rewrite setParameter_same;
       [exact Hs | cbn [fst]; rewrite <- Hm; stored | intros _; exact Hr]|].
    destruct Hin as [<- | Hin];
      [rewrite setParameter_same;
       [exact Hs | cbn [fst]; rewrite <- Hm; stored | intros _; exact Hp]|].
    destruct Hin as [<- | []]. rewrite toggle_states_same. exact Hs. }
  assert (F : forall fs, (forall f, In f fs -> In f steps) ->
              forall s, settings (fst s) = target ->
              settings (fst (fold_left (fun s f => f s) fs s)) = target).
  { induction fs as [|f fs IH]; intros Hfs s Hs; cbn [fold_left]; [exact Hs|].
    apply IH; [intros g Hg; apply Hfs; right; exact Hg|].
    apply K; [apply Hfs; left; reflexivity | exact Hs]. }
  assert (Hs : settings (fst r) = target).
  { rewrite E. destruct (isInitialized a0); [|reflexivity].
    apply F; [auto | reflexivity]. }
  unfold settings, target in Hs. injection Hs as H1 H2 H3 H4.
  repeat split; assumption.
Qed.

(** X25: [applyPresetAudio] with the name of a preset of the store
    installs parameters in which every key has the preset's value where
    the preset has the key and the value of the default structure
    elsewhere, whatever the parameters were before, and copies the
    installed rate and pattern into the sequencer; but the sequencer's
    on/off flag stays as it was, whatever the preset says about the
    arpeggiator.  A name that is no preset but a member of
    [Object.prototype] installs the default structure and becomes the
    active preset name.  Any other name changes nothing. *)
Theorem applyPresetAudio_installs_the_merge :
  forall (presetName : string) (a : AudioState) (b : Browser),
    (lookup presetName (presets a) = None -> Plain.inherited presetName = false ->
       applyPresetAudio presetName (a, b) = (a, b))
    /\ (lookup presetName (presets a) = None -> Plain.inherited presetName = true ->
          let a' := fst (applyPresetAudio presetName (a, b)) in
          parameters a' = defaultStructure
          /\ rate (arp a') = arp_rate (arpeggiator (effects defaultStructure))
          /\ pattern (arp a') = arp_pattern (arpeggiator (effects defaultStructure))
          /\ active (arp a') = active (arp a)
          /\ activePresetName a' = presetName)
    /\ (forall preset, lookup presetName (presets a) = Some preset ->
          let a' := fst (applyPresetAudio presetName (a, b)) in
          let now := parameters a' in
          let d := defaultStructure in
          let key (G A : Type) (group : option G) (k : G -> option A) (default : A) : A :=
            match group with
            | Some g => match k g with Some v => v | None => default end
            | None => default
            end in
          let effect (G : Type) (k : Preset.Effects -> option G) : option G :=
            match Preset.effects preset with Some e => k e | None => None end in
          osc_type (oscillator now)
          = key _ _ (Preset.oscillator preset) Preset.osc_type (osc_type (oscillator d))
          /\ osc_gain (oscillator now)
             = key _ _ (Preset.oscillator preset) Preset.osc_gain (osc_gain (oscillator d))
          /\ filter_type (filter now)
             = key _ _ (Preset.filter preset) Preset.filter_type (filter_type (filter d))
          /\ filter_frequency (filter now)
             = key _ _ (Preset.filter preset) Preset.filter_frequency
                 (filter_frequency (filter d))
          /\ filter_Q (filter now)
             = key _ _ (Preset.filter preset) Preset.filter_Q (filter_Q (filter d))
          /\ env_attack (envelope now)
             = key _ _ (Preset.envelope preset) Preset.env_attack (env_attack (envelope d))
          /\ env_release (envelope now)
             = key _ _ (Preset.envelope preset) Preset.env_release
                 (env_release (envelope d))
          /\ delay_active (delay (effects now))
             = key _ _ (effect _ Preset.delay) Preset.delay_active
                 (delay_active (delay (effects d)))
          /\ delay_time (delay (effects now))
             = key _ _ (effect _ Preset.delay) Preset.delay_time
                 (delay_time (delay (effects d)))
          /\ delay_feedback (delay (effects now))
             = key _ _ (effect _ Preset.delay) Preset.delay_feedback
                 (delay_feedback (delay (effects d)))
          /\ reverb_active (reverb (effects now))
             = key _ _ (effect _ Preset.reverb) Preset.reverb_active
                 (reverb_active (reverb (effects d)))
          /\ reverb_decay (reverb (effects now))
             = key _ _ (effect _ Preset.reverb) Preset.reverb_decay
                 (reverb_decay (reverb (effects d)))
          /\ reverb_wet (reverb (effects now))
             = key _ _ (effect _ Preset.reverb) Preset.reverb_wet
                 (reverb_wet (reverb (effects d)))
          /\ glitch_active (glitch (effects now))
             = key _ _ (effect _ Preset.glitch) Preset.glitch_active
                 (glitch_active (glitch (effects d)))
          /\ arp_active (arpeggiator (effects now))
             = key _ _ (effect _ Preset.arpeggiator) Preset.arp_active
                 (arp_active (arpeggiator (effects d)))
          /\ arp_rate (arpeggiator (effects now))
             = key _ _ (effect _ Preset.arpeggiator) Preset.arp_rate
                 (arp_rate (arpeggiator (effects d)))
          /\ arp_pattern (arpeggiator (effects now))
             = key _ _ (effect _ Preset.arpeggiator) Preset.arp_pattern
                 (arp_pattern (arpeggiator (effects d)))
          /\ rate (arp a') = arp_rate (arpeggiator (effects now))
          /\ pattern (arp a') = arp_pattern (arpeggiator (effects now))
          /\ active (arp a') = active (arp a)
          /\ activePresetName a' = presetName).
Proof.
  intros presetName a b. split; [|split].
  - intros H Hi. unfold applyPresetAudio, presets_at. rewrite H, Hi. reflexivity.
  - intros H Hi.
    assert (P : presets_at presetName a = Some Preset.bare)
      by (unfold presets_at; rewrite H, Hi; reflexivity).
    exact (applyPresetAudio_settled presetName a b Preset.bare P).
  - intros preset H.
    assert (P : presets_at presetName a = Some preset)
      by (unfold presets_at; rewrite H; reflexivity).
    destruct (applyPresetAudio_settled presetName a b preset P) as (S1 & S2 & S3 & S4 & S5).
    cbv zeta. rewrite S2, S3, S1.
    set (r := applyPresetAudio presetName (a, b)) in *. clearbody r.
    destruct preset as [[[t g]|] [[ft ff fq]|] [[ea er]|] [[[[da dt df]|] [[ra rd rw]|]
                        [[ga]|] [[aa ar ap]|]]|]];
      repeat split; try assumption; reflexivity.
Qed.

Lemma applyPresetAudio_installs_the_merge_witness :
  active (arp (fst (applyPresetAudio "synthwave_lead" (scenario_state, page 44100))))
  = true
  /\ arp_active (arpeggiator (effects (parameters
       (fst (applyPresetAudio "synthwave_lead"
               (with_arp (with_active false (arp scenario_state)) scenario_state,
                page 44100)))))) = true
  /\ active (arp (fst (applyPresetAudio "synthwave_lead"
                         (with_arp (with_active false (arp scenario_state)) scenario_state,
                          page 44100)))) = false
  /\ applyPresetAudio "no such preset" (scenario_state, page 44100)
     = (scenario_state, page 44100)
  /\ parameters (fst (applyPresetAudio "constructor" (scenario_state, page 44100)))
     = defaultStructure.
Proof.
  destruct (applyPresetAudio_installs_the_merge "synthwave_lead" scenario_state (page 44100))
    as (_ & _ & H1).
  destruct (applyPresetAudio_installs_the_merge "synthwave_lead"
              (with_arp (with_active false (arp scenario_state)) scenario_state)
              (page 44100)) as (_ & _ & H2).
  destruct (applyPresetAudio_installs_the_merge "no such preset" scenario_state (page 44100))
    as (H3 & _ & _).
  destruct (applyPresetAudio_installs_the_merge "constructor" scenario_state (page 44100))
    as (_ & H4 & _).
  pose proof (H1 _ eq_refl) as A. cbv zeta in A.
  pose proof (H2 _ eq_refl) as B. cbv zeta in B.
  split; [exact (proj1 (proj2 (proj2 (proj2 (proj2 (proj2 (proj2 (proj2 (proj2 (proj2
            (proj2 (proj2 (proj2 (proj2 (proj2 (proj2 (proj2 (proj2 (proj2 (proj2
            A))))))))))))))))))))|].
  split; [rewrite (proj1 (proj2 (proj2 (proj2 (proj2 (proj2 (proj2 (proj2 (proj2 (proj2
            (proj2 (proj2 (proj2 (proj2 (proj2 B))))))))))))))); reflexivity|].
  split; [exact (proj1 (proj2 (proj2 (proj2 (proj2 (proj2 (proj2 (proj2 (proj2 (proj2
            (proj2 (proj2 (proj2 (proj2 (proj2 (proj2 (proj2 (proj2 (proj2 (proj2
            B))))))))))))))))))))|].
  split; [apply H3; reflexivity|].
  exact (proj1 (H4 eq_refl eq_refl)).
Defined.

End SoundSettings.

Section SoundLifecycle.
Import Params Sound Settings.

(** *** After [dispose] *)

Lemma dispose_disposed w : audioState (dispose w) = None.
Proof.
  unfold dispose. destruct (audioState w) eqn:E; [|exact E].
  destruct (stopNote _ _). reflexivity.
Qed.

Lemma handle_disposed e w :
  audioState w = None ->
  audioState (handle e w) = None
  /\ intervals (browser (handle e w)) = intervals (browser w)
  /\ edges (browser (handle e w)) = edges (browser w)
  /\ oscillators (browser (handle e w)) = oscillators (browser w).
Proof.
  destruct w as [[a|] b]; [discriminate|]. intros _.
  destruct e; cbn [handle call dispose audioState browser]; auto.
  - destruct (existsb _ _); auto.
  - destruct (nth_error _ _); cbn [call audioState browser]; auto.
Qed.

Lemma handles_disposed events : forall w,
  audioState w = None ->
  let w' := fold_left (fun w e => handle e w) events w in
  audioState w' = None
  /\ intervals (browser w') = intervals (browser w)
  /\ edges (browser w') = edges (browser w)
  /\ oscillators (browser w') = oscillators (browser w).
Proof.
  induction events as [|e events IH]; intros w H; cbn [fold_left].
  - auto.
  - destruct (handle_disposed e w H) as (H1 & H2 & H3 & H4).
    destruct (IH (handle e w) H1) as (I1 & I2 & I3 & I4).
    cbv zeta. repeat split; congruence.
Qed.

(** X26: [dispose] is final.  Whatever is called on the module afterwards
    and whichever timers of the page still fire, the module stays
    disposed, no step timer is armed, no oscillator is created and the
    audio graph stays as [dispose] left it. *)
Theorem dispose_is_final :
  forall w events, reachable w ->
    let w' := fold_left (fun w e => handle e w) events (dispose w) in
    audioState w' = None
    /\ intervals (browser w') = []
    /\ edges (browser w') = edges (browser (dispose w))
    /\ oscillators (browser w') = oscillators (browser (dispose w))
    /\ getPresetNames w' = [].
Proof.
  intros w events Hr.
  destruct (reachable_invariants w Hr) as [Ht _].
  pose proof (dispose_invariant w Ht) as Hd.
  pose proof (dispose_disposed w) as Hn.
  unfold timer_invariant in Hd. rewrite Hn in Hd.
  destruct (handles_disposed events (dispose w) Hn) as (H1 & H2 & H3 & H4).
  cbv zeta. repeat split; try assumption.
  - congruence.
  - unfold getPresetNames. rewrite H1. reflexivity.
Qed.

Lemma dispose_is_final_witness :
  exists w, new "vaporwave" (page 44100) = Some w
            /\ intervals (browser
                 (fold_left (fun w e => handle e w)
                    [StartNote "A4"; ToggleEffect "arpeggiator" true; IntervalFires 1%nat]
                    (dispose (handle (StartNote "A4") (handle Initialize w))))) = [].
Proof.
  destruct (new_vaporwave_exists 44100) as [w Hw].
  exists w. split; [exact Hw|].
  apply (dispose_is_final (handle (StartNote "A4") (handle Initialize w))).
  do 2 apply reachable_step. exact (reachable_new "vaporwave" 44100 w Hw).
Defined.

(** *** Retriggering a sustained note *)

Lemma keeps_skip g m : keeps_connection g m skip.
Proof. intros b H. exact H. Qed.

Lemma keeps_connect g m src dst : keeps_connection g m (connect src dst).
Proof.
  intros b H. unfold connect. cbn [fst].
  destruct (connected src dst b); [exact H|].
  unfold connected in *. cbn [edges with_edges].
  rewrite existsb_app, H. reflexivity.
Qed.

Lemma keeps_disconnect_from g m src dst :
  src <> g -> keeps_connection g m (disconnect_from src dst).
Proof.
  intros Hne b H. unfold disconnect_from.
  destruct (connected src dst b); [|exact H].
  unfold connected in *. cbn [fst edges with_edges].
  apply existsb_exists in H. destruct H as (e & He & Hm).
  apply existsb_exists. exists e. split; [|exact Hm].
  apply filter_In. split; [exact He|].
  unfold edge_eqb in *. cbn [fst snd] in *.
  apply andb_true_iff in Hm. destruct Hm as [Hg _].
  apply Nat.eqb_eq in Hg. rewrite <- Hg.
  destruct (Nat.eqb_spec src g); [contradiction | reflexivity].
Qed.

Lemma keeps_seq g m s1 s2 :
  keeps_connection g m s1 -> keeps_connection g m s2 -> keeps_connection g m (seq s1 s2).
Proof.
  intros H1 H2 b H. unfold seq. specialize (H1 b H).
  destruct (s1 b) as [b1 [|]]; cbn [fst] in *; [apply H2, H1 | exact H1].
Qed.

Lemma keeps_when g m c st : keeps_connection g m st -> keeps_connection g m (when c st).
Proof. intros H. destruct c; [exact H | apply keeps_skip]. Qed.

Lemma graph_only_try_timeouts st b :
  graph_only st -> timeouts (try_catch st b) = timeouts b.
Proof. intros H. unfold try_catch. destruct (H b) as [es ->]. reflexivity. Qed.

Create HintDb voice.

#[local] Hint Resolve graph_only_skip graph_only_connect graph_only_disconnect_from
  graph_only_seq graph_only_when keeps_skip keeps_connect keeps_seq keeps_when : voice.

(** The voice [create_voice] builds when the master gain exists: three
    fresh nodes; the pending timeouts and the connections of the older
    nodes stay. *)
Lemma create_voice_fresh frequency a b m :
  masterGain a = Some m ->
  exists b',
    create_voice frequency (a, b)
    = (Some (nextNode b, S (nextNode b), S (S (nextNode b))), (a, b'))
    /\ timeouts b' = timeouts b
    /\ (forall g m', (g < nextNode b)%nat ->
          connected g m' b = true -> connected g m' b' = true).
Proof.
  intros Hm. unfold create_voice, create_oscillator, create_node. rewrite Hm.
  cbn [nextNode with_nextNode with_oscillators].
  set (n := nextNode b).
  unfold _connectEffectsToNode.
  destruct (isInitialized a); cbn [negb].
  - eexists. split; [reflexivity|]. split.
    + rewrite !graph_only_try_timeouts; [reflexivity | |  | ];
        try (destruct (delayNode a), (reverbNode a)); auto 10 with voice.
    + intros g m' Hg Hc. unfold try_catch.
      assert (Hne : S (S n) <> g) by (unfold n in *; lia).
      assert (K : forall d, keeps_connection g m' (disconnect_from (S (S n)) d))
        by (intros d; apply keeps_disconnect_from, Hne).
      repeat match goal with
             | |- connected g m' (fst (_ _)) = true =>
                 first [ apply keeps_seq | apply keeps_connect ]
             end.
      all: try solve [destruct (delayNode a), (reverbNode a); auto 10 with voice].
      all: exact Hc.
  - eexists. split; [reflexivity|]. split.
    + rewrite !graph_only_try_timeouts by auto 10 with voice. reflexivity.
    + intros g m' Hg Hc. unfold try_catch.
      repeat match goal with
             | |- connected g m' (fst (_ _)) = true =>
                 first [ apply keeps_seq | apply keeps_connect ]
             end.
      all: auto with voice.
Qed.

(** X27: a sustained note started while another one sounds takes the
    place of the old voice in the module's state, and the cleanup that
    [_stopSustainedNote] scheduled for the old voice does nothing when it
    fires: the old envelope gain stays connected to the master gain. *)
Theorem retriggered_voice_is_not_cleaned_up :
  forall (note : string) (f : R) (a : AudioState) (b : Browser) (o g m : Node),
    isInitialized a = true -> audioContext a = true -> contextRunning b = true ->
    active (arp a) = false ->
    noteFrequency note = Some f ->
    currentOscillator a = Some o -> currentGainNode a = Some g ->
    masterGain a = Some m ->
    (o < nextNode b)%nat -> (g < nextNode b)%nat ->
    connected g m b = true ->
    let s1 := startNote note (a, b) in
    currentOscillator (fst s1) = Some (nextNode b)
    /\ timeouts (snd s1) = (timeouts b ++ [SustainedCleanup o])%list
    /\ run_timeout (SustainedCleanup o) s1 = s1
    /\ connected g m (snd s1) = true.
Proof.
  intros note f a b o g m Hi Hac Hrun Harp Hf Ho Hg Hm Hlo Hlg Hc.
  assert (E : startNote note (a, b)
              = snd (_playSustainedNote note
                       (with_activeNote (Some note) a,
                        setTimeout (SustainedCleanup o) b))).
  { unfold startNote. rewrite Hi, Hf, Hac, Hrun. cbn [negb is_some orb].
    cbn [arp with_activeNote]. rewrite Harp.
    unfold _stopSustainedNote. cbn [currentOscillator currentGainNode audioContext
                                      with_activeNote].
    rewrite Ho, Hg, Hac. reflexivity. }
  cbv zeta. rewrite E. clear E.
  unfold _playSustainedNote. rewrite Hf.
  cbn [audioContext with_activeNote]. rewrite Hac. cbn [negb].
  destruct (create_voice_fresh f (with_activeNote (Some note) a)
              (setTimeout (SustainedCleanup o) b) m Hm) as (b' & Ev & Ht & Hk).
  rewrite Ev. cbn [snd fst store_voice]. cbn [nextNode setTimeout with_timeouts] in *.
  repeat split.
  - exact Ht.
  - unfold run_timeout. cbn [currentOscillator with_currentNoteFrequency with_isPlaying
                               with_currentGainNode with_currentFilter
                               with_currentOscillator].
    destruct (Nat.eqb_spec (nextNode b) o); [lia | reflexivity].
  - apply Hk; [exact Hlg | exact Hc].
Qed.

Lemma retriggered_voice_is_not_cleaned_up_witness :
  let a := with_currentGainNode (Some 9%nat)
             (with_currentOscillator (Some 7%nat)
                (with_arp (with_active false (arp scenario_state)) scenario_state)) in
  let b := with_contextRunning true
             (with_nextNode 10%nat (with_edges [(9%nat, 1%nat)] (page 44100))) in
  run_timeout (SustainedCleanup 7%nat) (startNote "A4" (a, b)) = startNote "A4" (a, b)
  /\ connected 9%nat 1%nat (snd (startNote "A4" (a, b))) = true.
Proof.
  intros a b.
  destruct (retriggered_voice_is_not_cleaned_up "A4" 440.00 a b 7%nat 9%nat 1%nat)
    as (_ & _ & H3 & H4);
    try reflexivity; try exact noteFrequency_A4; try (cbn; lia).
  split; [exact H3 | exact H4].
Defined.

(** *** Bands without bins *)

Lemma sum_bin_high_empty bd i v acc :
  (highEndIndex bd < highStartIndex bd)%Z ->
  highSum (sum_bin bd i v acc) = highSum acc.
Proof.
  intros H. unfold sum_bin.
  destruct (i <=? bassEndIndex bd)%Z; [reflexivity|].
  destruct ((midStartIndex bd <=? i) && (i <=? midEndIndex bd))%Z; [reflexivity|].
  destruct (Z.leb_spec (highStartIndex bd) i), (Z.leb_spec i (highEndIndex bd));
    cbn [andb]; try reflexivity; lia.
Qed.

Lemma sum_bins_high_empty bd data : forall i acc,
  (highEndIndex bd < highStartIndex bd)%Z ->
  highSum (sum_bins bd i data acc) = highSum acc.
Proof.
  induction data as [|v data IH]; intros i acc H; cbn [sum_bins]; [reflexivity|].
  rewrite IH by exact H. apply sum_bin_high_empty, H.
Qed.

(** X28: when the sample rate is so low that no bin lies above the mid
    band, [getAudioLevels] reports a high level of 0 whatever the
    analyser holds. *)
Theorem empty_high_band_reports_zero :
  forall (dataArray : list Z) (a : AudioState) (b : Browser),
    (let bd := bands (sampleRate b) (Z.of_nat (List.length dataArray)) in
     highEndIndex bd < highStartIndex bd)%Z ->
    high (getAudioLevels dataArray (a, b)) = 0.
Proof.
  intros dataArray a b H. cbv zeta in H. unfold getAudioLevels.
  destruct (negb (isInitialized a) || negb (is_some (analyser a)) || negb (audioContext a));
    [reflexivity|].
  cbv zeta. cbn [high].
  apply level_silent; [|lra].
  rewrite sum_bins_high_empty by exact H. cbn [highSum]. ring.
Qed.

Lemma empty_high_band_reports_zero_witness :
  high (getAudioLevels (repeat 255%Z frequencyBinCount) (scenario_state, page 3000)) = 0.
Proof.
  apply (empty_high_band_reports_zero (repeat 255%Z frequencyBinCount)
           scenario_state (page 3000)).
  rewrite repeat_length. exact high_band_can_be_empty.
Defined.

(** *** A sustained note from start to cleanup *)

Lemma disconnect_drops n b e :
  In e (edges (disconnect n b)) -> In e (edges b) /\ fst e <> n.
Proof.
  unfold disconnect. cbn [edges with_edges]. intros H.
  apply filter_In in H. destruct H as [H1 H2]. split; [exact H1|].
  apply negb_true_iff, Nat.eqb_neq in H2. exact H2.
Qed.

(** X29: a sustained note played on an idle module, stopped, and then
    reached by the cleanup that [stopNote] scheduled: the module is no
    longer playing, it holds no voice, and no connection leaves any of
    the three nodes of the voice. *)
Theorem sustained_note_is_cleaned_up :
  forall (note : string) (f : R) (a : AudioState) (b : Browser) (m : Node)
         (useRelease : bool),
    isInitialized a = true -> audioContext a = true -> contextRunning b = true ->
    active (arp a) = false ->
    noteFrequency note = Some f ->
    currentOscillator a = None ->
    masterGain a = Some m ->
    let s1 := startNote note (a, b) in
    let s2 := stopNote useRelease s1 in
    let s3 := run_timeout (SustainedCleanup (nextNode b)) s2 in
    isPlaying (fst s1) = true
    /\ currentOscillator (fst s1) = Some (nextNode b)
    /\ isPlaying (fst s2) = false
    /\ timeouts (snd s2) = (timeouts b ++ [SustainedCleanup (nextNode b)])%list
    /\ currentOscillator (fst s3) = None
    /\ currentFilter (fst s3) = None
    /\ currentGainNode (fst s3) = None
    /\ (forall e, In e (edges (snd s3)) ->
          ~ In (fst e) [nextNode b; S (nextNode b); S (S (nextNode b))]).
Proof.
  intros note f a b m useRelease Hi Hac Hrun Harp Hf Ho Hm.
  destruct (create_voice_fresh f (with_activeNote (Some note) a) b m Hm)
    as (b' & Ev & Ht & _).
  assert (E1 : startNote note (a, b)
               = (with_currentNoteFrequency (Some f)
                    (with_isPlaying true
                       (store_voice (nextNode b, S (nextNode b), S (S (nextNode b)))
                          (with_activeNote (Some note) a))), b')).
  { unfold startNote. rewrite Hi, Hf, Hac, Hrun. cbn [negb is_some orb].
    cbn [arp with_activeNote]. rewrite Harp.
    unfold _stopSustainedNote. cbn [currentOscillator with_activeNote]. rewrite Ho.
    unfold _playSustainedNote. rewrite Hf. cbn [audioContext with_activeNote].
    rewrite Hac. cbn [negb]. rewrite Ev. reflexivity. }
  cbv zeta. rewrite E1. clear E1 Ev.
  set (n := nextNode b) in *.
  unfold stopNote, store_voice.
  cbn [isPlaying arp currentOscillator currentGainNode audioContext
       with_currentNoteFrequency with_isPlaying with_currentGainNode with_currentFilter
       with_currentOscillator with_activeNote negb is_some fst snd].
  rewrite Harp. cbn [andb negb is_some].
  unfold _stopSustainedNote.
  cbn [isPlaying arp currentOscillator currentGainNode audioContext
       with_currentNoteFrequency with_isPlaying with_currentGainNode with_currentFilter
       with_currentOscillator with_activeNote negb is_some fst snd].
  rewrite Hac.
  unfold run_timeout.
  cbn [isPlaying arp currentOscillator currentFilter currentGainNode audioContext
       with_currentNoteFrequency with_isPlaying with_currentGainNode with_currentFilter
       with_currentOscillator with_activeNote negb is_some fst snd].
  rewrite Nat.eqb_refl.
  unfold _cleanupCurrentNoteNodes.
  cbn [isPlaying arp currentOscillator currentFilter currentGainNode audioContext
       with_currentNoteFrequency with_isPlaying with_currentGainNode with_currentFilter
       with_currentOscillator with_activeNote negb is_some fst snd].
  repeat split.
  - cbn [timeouts setTimeout with_timeouts]. rewrite Ht. reflexivity.
  - intros e He Hin.
    apply disconnect_drops in He. destruct He as [He H3].
    apply disconnect_drops in He. destruct He as [He H2].
    apply disconnect_drops in He. destruct He as [_ H1].
    cbn [In] in Hin. destruct Hin as [H | [H | [H | []]]]; congruence.
Qed.

Lemma sustained_note_is_cleaned_up_witness :
  let a := with_arp (with_intervalId None (with_active false (arp scenario_state)))
             (with_isPlaying false scenario_state) in
  let b := with_contextRunning true (page 44100) in
  currentOscillator
    (fst (run_timeout (SustainedCleanup 0%nat) (stopNote true (startNote "A4" (a, b)))))
  = None.
Proof.
  intros a b.
  destruct (sustained_note_is_cleaned_up "A4" 440.00 a b 1%nat true)
    as (_ & _ & _ & _ & H & _);
    try reflexivity; try exact noteFrequency_A4.
  exact H.
Defined.

(** *** Switching the sequencer *)

Lemma tuned_stopSustainedNote useRelease : tuned (_stopSustainedNote useRelease).
Proof.
  intros [a b]. unfold _stopSustainedNote.
  destruct (currentOscillator a); [destruct (currentGainNode a);
                                   [destruct (audioContext a)|]|]; reflexivity.
Qed.

Lemma tuned_playSustainedNote note : tuned (fun s => snd (_playSustainedNote note s)).
Proof.
  intros [a b]. unfold _playSustainedNote.
  destruct (noteFrequency note) as [f|]; [|reflexivity].
  destruct (negb (audioContext a)); [reflexivity|].
  pose proof (voice_state f a b) as V.
  destruct (create_voice f (a, b)) as [[[[o fl] g]|] [a1 b1]];
    cbn [fst snd] in V; subst a1; reflexivity.
Qed.

Lemma toggle_arpeggiator_settings newState a b :
  settings (fst (toggle_arpeggiator newState (a, b)))
  = (parameters a, newState, rate (arp a), pattern (arp a)).
Proof.
  unfold toggle_arpeggiator. destruct newState.
  - cbn [activeNote with_arp]. destruct (activeNote a) as [note|]; [|reflexivity].
    cbn [intervalId arp with_arp with_active]. destruct (is_some _); [reflexivity|].
    match goal with
    | |- context [_stopSustainedNote false ?s] =>
        pose proof (tuned_stopSustainedNote false s) as H1;
        destruct (_stopSustainedNote false s) as [a1 b1]
    end.
    match goal with
    | |- context [_startArpeggiator ?s] =>
        pose proof (tuned_startArpeggiator s) as H2;
        destruct (_startArpeggiator s) as [a2 b2]
    end.
    cbn [fst] in *. unfold settings in *.
    cbn [parameters arp with_isPlaying with_arp active rate pattern with_currentStep
         with_baseNote with_active] in *.
    congruence.
  - cbn [intervalId arp with_arp with_active]. destruct (is_some _); [|reflexivity].
    match goal with
    | |- context [_stopArpeggiator ?s] =>
        pose proof (tuned_stopArpeggiator s) as H1;
        destruct (_stopArpeggiator s) as [a1 b1]
    end.
    cbn [fst] in H1.
    destruct (activeNote a1) as [note|]; [|exact H1].
    pose proof (tuned_playSustainedNote note (a1, b1)) as H2.
    cbn [fst] in H2. rewrite H2. exact H1.
Qed.

(** X30: [toggleEffect('arpeggiator', isActive)] always leaves the
    parameter flag equal to [isActive], but it switches the sequencer
    itself only when the flag changes: called with the value the flag
    already has it returns at once and [arp.active] stays as it was. *)
Theorem toggleEffect_switches_the_sequencer_only_on_a_change :
  forall (isActive : bool) (a : AudioState) (b : Browser),
    let flag := arp_active (arpeggiator (effects (parameters a))) in
    let s' := toggleEffect "arpeggiator" isActive (a, b) in
    arp_active (arpeggiator (effects (parameters (fst s')))) = isActive
    /\ (flag = isActive -> s' = (a, b))
    /\ (flag <> isActive -> active (arp (fst s')) = isActive).
Proof.
  intros isActive a b. cbv zeta. unfold toggleEffect.
  cbn [String.eqb Ascii.eqb Bool.eqb].
  destruct (Bool.eqb (arp_active (arpeggiator (effects (parameters a)))) isActive) eqn:E.
  - apply eqb_prop in E. repeat split; [exact E | contradiction].
  - apply eqb_false_iff in E.
    match goal with
    | |- context [toggle_arpeggiator isActive (?a', b)] =>
        pose proof (toggle_arpeggiator_settings isActive a' b) as H;
        destruct (toggle_arpeggiator isActive (a', b)) as [a1 b1]
    end.
    cbn [fst] in *. unfold settings in H. injection H as H1 H2 _ _.
    repeat split.
    + rewrite H1. reflexivity.
    + intros F. contradiction.
    + intros _. exact H2.
Qed.

Lemma toggleEffect_switches_the_sequencer_only_on_a_change_witness :
  let a := with_parameters (set_arp_active true defaultStructure)
             (with_arp (with_active false (arp scenario_state)) scenario_state) in
  toggleEffect "arpeggiator" true (a, page 44100) = (a, page 44100)
  /\ active (arp a) = false.
Proof.
  intros a.
  destruct (toggleEffect_switches_the_sequencer_only_on_a_change true a (page 44100))
    as (_ & H & _).
  split; [apply H|]; reflexivity.
Defined.

End SoundLifecycle.
